(* ===== verification/_CoqProject ===== *)
-Q . S2P
Prelude.v
Error.v
Serialization.v
Files.v
StateBackend.v
Tables.v
ByteStore.v
InMemory.v
BackendLaws.v
Metered.v
Restore.v
Sled.v
SledSpec.v
SledCheckpoint.v
SledBackend.v
Rocks.v
RocksSpec.v
RocksGroups.v
RocksOps.v
RocksBackend.v
RocksRestore.v
RocksProperties.v
Faster.v
FasterSpec.v
FasterOps.v
FasterMaps.v
FasterBackend.v
FasterProperties.v
Allocator.v
EventBuffer.v
Pool.v
Data.v
ArconTypes.v
Channel.v
ChannelSpec.v
KeyBySpec.v
BackendClient.v
Timer.v
TimerSpec.v
Metrics.v
MetricsSpec.v
Operator.v
OperatorSpec.v
Window.v
WindowSpec.v
AssignerSpec.v
EventTimeWindows.v
Node.v
NodeAbs.v
NodeEpochs.v
NodeSpec.v
NodeExample.v
NodeStart.v
NodeMessages.v
Source.v
SourceSpec.v
Dataflow.v
Sink.v
Flight.v
Nexmark.v
NexmarkSpec.v
Queries.v
QueriesSpec.v
Kafka.v
KafkaSpec.v
Pipeline.v
NexmarkSource.v
NexmarkSourceSpec.v
ThroughputSinks.v
