(* ===== verification/Prelude.v ===== *)
(** * The execution plane of Arcon and its state backends

    Arcon is a stream processor.  An operator reads events, that is elements, watermarks and epoch
    barriers, from the channels of the components before it, and sends events to those behind it.  A
    [Node] drives one operator: it takes the lowest watermark of its channels for its own time, holds
    back the channels that are ahead in epochs until the others have caught up, checkpoints its state
    at the end of an epoch, and forwards watermarks and epochs.  All the state that must survive a
    failure is kept in a state backend (crate [arcon_state]) under handles; a node that is restarted
    restores its backend from the last epoch that every backend of the system has checkpointed.
    Outgoing events are batched by a channel strategy into buffers that a pool recycles, whose memory
    an allocator budgets.

    The paths below are relative to src/execution-plane/arcon/.

    ** How the code is modelled

    A Rust function is a function on explicit state, in the monad [M S E A] of this file: from a state
    to an outcome and the state that is reached, whatever the outcome is.  An outcome is a value, the
    error of a [Result], a panic with its message, or [Diverge] where the loops of the model ran out of
    the iterations they are given.  Machine integers are values of [Z]; an arithmetic operator panics
    out of its range in a debug build and wraps in a release build, as the class [BuildProfile] says.
    Traits are type classes ([Backend], [Operator], [Window], [Timer], [Value], [FixedBytes], ...), and
    what is proved of their implementations are classes too: [BackendSpec] and [MapSpec] state the
    contract of a backend, and the timers, windows and nodes are proved against the contract, not
    against a backend.  A trait object or a closure is a function.  What unsafe code leaves undefined is a
    panic that says so; among it is the bitwise copy of an event that owns memory, which the class
    [NeedsDrop] tells apart, since both copies are dropped later.  Iterators are the lists of what
    they yield.  A hash map is a [gmap], whose order of iteration is the arbitrary one of [map_to_list].

    Code of other crates is a class of operations ([Message] for prost, [SledApi], [RocksApi],
    [FasterApi], [QuadWheel] and [Uuids] of the timers, [Transport], [FlightMessage] and [Abomonation]
    of remote messages, [KafkaConsumer] and [KafkaProducer], [Rng] and [Libm] of the benchmark,
    [KompactSystem] and [Hocon] of a pipeline, [SystemAlloc], [Clock]), with documented behaviour as a
    class of laws where a theorem needs it; each such class of laws has a concrete instance to which
    the theorems are applied.

    ** The files

    - [Prelude.v]: outcomes, the monad and its loops, machine integers, decimal numbers and strings,
      lists, and the tactics and hints that the other files share.  [Error.v]: the error types.
    - [Serialization.v] (arcon_state/src/serialization.rs): the fixed-width codec of the metakeys and
      the protobuf codec of keys and values.
    - [StateBackend.v] (arcon_state/src/handles.rs, ops.rs, lib.rs): handles, active handles, the
      operation traits, [Backend], and its contract: a backend keeps a region per state id, in which
      every state kind represents a value, a finite map, a sequence, a reduced value or an accumulator
      under each serialised metakey; an operation reads or changes only what is under the metakeys of
      its handle ([reads], [writes], [registers]).
    - [Tables.v], [InMemory.v], [BackendLaws.v] (in_memory/): the hash-map backend.
      [Metered.v] (metered/): the backend that measures another one.
    - [Files.v], [Restore.v] (lib.rs): a model of [std::fs], and [restore_or_create].
    - [ByteStore.v]: the encodings and merge operators that the disk backends share.  [Sled.v],
      [SledSpec.v], [SledCheckpoint.v], [SledBackend.v] (sled/), and [Rocks.v], [RocksSpec.v],
      [RocksGroups.v], [RocksOps.v], [RocksBackend.v], [RocksRestore.v], [RocksProperties.v] (rocks/):
      the operations, the contract, checkpoints and restoring, and a concrete database.  [Faster.v],
      [FasterSpec.v], [FasterOps.v], [FasterMaps.v], [FasterBackend.v], [FasterProperties.v] (faster/):
      the same for the store FASTER, with and without the feature slower_faster.
    - [Allocator.v] (src/allocator), [EventBuffer.v] and [Pool.v] (src/buffer): memory, event buffers,
      their readers and writers over a shared heap, and the pool.
    - [Data.v], [ArconTypes.v] (src/data): events, messages and the primitive types.  [Channel.v], [ChannelSpec.v], [KeyBySpec.v]
      (src/stream/channel): the strategies Forward, Broadcast, RoundRobin and KeyBy.
    - [BackendClient.v]: what a client of the contract reasons with.  [Timer.v], [TimerSpec.v]
      (src/timer): the event timer over a hash wheel and the state backend.
    - [Metrics.v], [MetricsSpec.v] (src/metrics): with binary64 numbers.
    - [Operator.v], [OperatorSpec.v] (src/stream/operator): operators, their context and the function
      operators.  [Window.v], [WindowSpec.v], [AssignerSpec.v], [EventTimeWindows.v]
      (src/stream/operator/window): windows, and the assigner of event-time windows.
    - [Node.v] (src/stream/node): nodes.  [NodeAbs.v], [NodeEpochs.v]: the state machine a node
      promises to be, without a backend.  [NodeSpec.v], [NodeStart.v], [NodeMessages.v]: a node over
      its backend implements it.  [NodeExample.v]: a concrete node.
    - [Source.v], [SourceSpec.v] (src/stream/source): sources.  [Sink.v] (src/stream/operator/sink):
      the file sink, over the file system of [Files.v], and the socket sink.  [Kafka.v],
      [KafkaSpec.v] (src/stream/source/kafka.rs, operator/sink/kafka.rs): the connectors for Kafka.
      [Dataflow.v]: a source, a channel and a node together.
    - [Flight.v] (src/data/flight_serde.rs): the serialisers of messages for another machine, and the
      node that receives what they wrote.
    - [Pipeline.v] (src/conf, src/manager, src/pipeline): the configuration, the managers of nodes and
      the assembly of a pipeline.
    - [Nexmark.v], [NexmarkSpec.v] (experiments/src/nexmark/config.rs, mod.rs): the generator of the
      NEXMark benchmark.  [Queries.v], [QueriesSpec.v] (nexmark/queries): the operators of its queries.
      [NexmarkSource.v], [NexmarkSourceSpec.v] (nexmark/source): its source, over the context of
      [Source.v].  [ThroughputSinks.v] (nexmark/sink, throughput_sink.rs): the sinks that measure.

    ** What the theorems show

    - State: the in-memory, sled and RocksDB backends meet the same contract, and metering keeps it; the
      Faster backend meets the part of it that is about values, vectors and reducers, and with the
      feature slower_faster its maps are finite maps; the codecs are read back and reject short input;
      a restored backend holds what was checkpointed; the node's backend is restored from the greatest complete epoch, or made afresh.
    - Time: the node's watermark is the lowest of its channels and grows; late elements are dropped; the
      event timer fires exactly the due timeouts in order, and survives a restart; every element joins
      the windows of its interval, and every window fires once with all its elements.
    - Epochs: behind the barrier of an epoch nothing is handled before the barriers of all channels have
      arrived; then the state is saved once, the epoch is forwarded, and what was held back is handled.
      The theorems on nodes are for operators, timers and strategies that return ([NodeParts]) and for
      meters that do ([meter_returns]: without overflow checks, and with a readable clock).
    - Delivery: every strategy delivers the events it is given, in order, cut into batches, to the
      channels it should, Broadcast if they own no memory; the events a reader sees stay what they were
      until a reader of the same buffer is dropped; the pool's busy wait ends; a
      message that is serialised for another machine is handled like a local one; what the file sink
      wrote a file source reads back; a batch of the Kafka source is one epoch with one offset.  What a
      source produces, through its operator and over a channel, is what the next node handles.
    - The benchmark: the generated events are well formed, with references within the numbers of people
      and auctions so far; the source sends the configured number of them, in order and with
      watermarks, ends the stream and stops; query 3 is the join of persons and auctions, against any
      backend that meets the contract.
    - Failures: where the code panics, loses data or blocks for ever, the theorem says when: a failed
      checkpoint blocks a node, an entry that is no checkpoint stops a restart, an overflowing sum
      bypasses the allocator's limit, and the times of the benchmark's events overflow.

    ** Bounds

    Loops over data are structural.  [handle_events] of a node calls itself for the messages it had
    buffered: [nesting] is 3, since the messages that are handled inside are not buffered again.  The
    loops over encoded elements have as many iterations as there are bytes, for an element has at least
    one.  [CollectionSource.run] and [NEXMarkSource.run] have an iteration for every message of the
    loopback port: one for every RESCHEDULE_EVERY data and one or two more, which is proved to be enough.
    The busy wait of the pool is given a number of attempts and proved to end within a stated one.

    ** What is not modelled

    The tokio listeners of sockets (src/util/io.rs), which are I/O of a third-party client; kompact's
    scheduling, so that a component handles one message after the other, as kompact guarantees, and its
    network, which delivers what was serialised or loses it; the parsing of configuration files; the
    terminal interface and the feature arcon_tui; the macros, arcon_codegen and arcon_compiler, which
    produce Rust text; processing_time.rs, which is in no module of the crate; how the benchmark
    programs assemble their pipelines and print; log output; capacities that are
    only reserved.  Files are read and written whole, and fail only as the structure of the file
    system makes them. *)

From stdpp Require Export base gmap strings list fin_maps pretty.
From Stdlib Require Export ZArith Lia.
From Stdlib Require Import Ascii.

#[global] Open Scope Z_scope.
#[global] Set Default Proof Using "Type".

(** ** Outcomes and the state monad *)

(** What a Rust call can do: return a value, return an error through [Result], panic, or keep
    looping past the number of iterations the model runs. *)
Inductive outcome (E A : Type) : Type :=
| Ok (a : A)
| Err (e : E)
| Panic (msg : string)
| Diverge.
Arguments Ok {E A} a.
Arguments Err {E A} e.
Arguments Panic {E A} msg.
Arguments Diverge {E A}.

#[export] Instance outcome_ret E : MRet (outcome E) := λ A a, Ok a.
#[export] Instance outcome_bind E : MBind (outcome E) := λ A B f o,
  match o with
  | Ok a => f a
  | Err e => Err e
  | Panic msg => Panic msg
  | Diverge => Diverge
  end.
#[export] Instance outcome_fmap E : FMap (outcome E) := λ A B f o,
  match o with
  | Ok a => Ok (f a)
  | Err e => Err e
  | Panic msg => Panic msg
  | Diverge => Diverge
  end.

(** The [From] conversion that the [?] operator applies to an error. *)
Definition map_err {E E' A} (f : E → E') (o : outcome E A) : outcome E' A :=
  match o with
  | Ok a => Ok a
  | Err e => Err (f e)
  | Panic msg => Panic msg
  | Diverge => Diverge
  end.

(** [Option::expect] and [Option::ok_or]. *)
Definition expect {E A} (msg : string) (o : option A) : outcome E A :=
  match o with Some a => Ok a | None => Panic msg end.
Definition ok_or {E A} (e : E) (o : option A) : outcome E A :=
  match o with Some a => Ok a | None => Err e end.
(** [Result::expect]. *)
Definition expect_ok {E E' A} (msg : string) (o : outcome E A) : outcome E' A :=
  match o with
  | Ok a => Ok a
  | Err _ => Panic msg
  | Panic m => Panic m
  | Diverge => Diverge
  end.

(** A computation on a mutable state.  The state reached is kept whatever the outcome is, since a
    Rust function that returns early has already made the writes that precede the return. *)
Definition M (S E A : Type) : Type := S → outcome E A * S.

#[export] Instance M_ret S E : MRet (M S E) := λ A a s, (Ok a, s).
#[export] Instance M_bind S E : MBind (M S E) := λ A B f m s,
  match m s with
  | (Ok a, s') => f a s'
  | (Err e, s') => (Err e, s')
  | (Panic msg, s') => (Panic msg, s')
  | (Diverge, s') => (Diverge, s')
  end.

#[export] Instance M_fmap S E : FMap (M S E) := λ A B f m, m ≫= λ a, mret (f a).

Definition get_st {S E} : M S E S := λ s, (Ok s, s).
Definition put_st {S E} (s : S) : M S E unit := λ _, (Ok tt, s).
Definition modify {S E} (f : S → S) : M S E unit := λ s, (Ok tt, f s).
Definition gets {S E A} (f : S → A) : M S E A := λ s, (Ok (f s), s).
Definition lift {S E A} (o : outcome E A) : M S E A := λ s, (o, s).
Definition fail {S E A} (e : E) : M S E A := λ s, (Err e, s).
Definition panic {S E A} (msg : string) : M S E A := λ s, (Panic msg, s).

Definition on_outcome {S E E' A B} (f : outcome E A → outcome E' B) (m : M S E A) : M S E' B :=
  λ s, let '(o, s') := m s in (f o, s').

(** Run a computation on a component of a larger state. *)
Definition zoom {S T E A} (get : S → T) (set : T → S → S) (m : M T E A) : M S E A :=
  λ s, let '(o, t) := m (get s) in (o, set t s).

(** [for x in l { f(x) }] *)
Fixpoint for_each {S E A} (f : A → M S E unit) (l : list A) : M S E unit :=
  match l with
  | [] => mret tt
  | x :: l' => f x ;; for_each f l'
  end.

(** Iterators whose items are results, collected with [?]. *)
Fixpoint sequence {E A} (l : list (outcome E A)) : outcome E (list A) :=
  match l with
  | [] => Ok []
  | o :: l' => x ← o; xs ← sequence l'; Ok (x :: xs)
  end.

Section monad_lemmas.
Context {S E : Type}.

Lemma bind_ok {A B} (m : M S E A) (k : A → M S E B) s a s' :
  m s = (Ok a, s') → (m ≫= k) s = k a s'.
Proof. intros H. unfold mbind, M_bind. by rewrite H. Qed.

Lemma bind_err {A B} (m : M S E A) (k : A → M S E B) s e s' :
  m s = (Err e, s') → (m ≫= k) s = (Err e, s').
Proof. intros H. unfold mbind, M_bind. by rewrite H. Qed.

Lemma bind_panic {A B} (m : M S E A) (k : A → M S E B) s msg s' :
  m s = (Panic msg, s') → (m ≫= k) s = (Panic msg, s').
Proof. intros H. unfold mbind, M_bind. by rewrite H. Qed.

Lemma ret_bind {A B} (a : A) (k : A → M S E B) s : (mret a ≫= k) s = k a s.
Proof. done. Qed.

Lemma bind_assoc {A B C} (m : M S E A) (f : A → M S E B) (g : B → M S E C) s :
  ((m ≫= f) ≫= g) s = (m ≫= λ a, f a ≫= g) s.
Proof. unfold mbind, M_bind. destruct (m s) as [[] ?]; done. Qed.

(** Inversion of a bind that returned. *)
Lemma bind_inv_ok {A B} (m : M S E A) (k : A → M S E B) s b s'' :
  (m ≫= k) s = (Ok b, s'') → ∃ a s', m s = (Ok a, s') ∧ k a s' = (Ok b, s'').
Proof.
  unfold mbind, M_bind. destruct (m s) as [[] s1]; intros; simplify_eq. eauto.
Qed.

Lemma for_each_app {A} (f : A → M S E unit) l1 l2 s :
  for_each f (l1 ++ l2) s = (for_each f l1 ;; for_each f l2) s.
Proof.
  revert s. induction l1 as [|x l1 IH]; intros s; simpl; [done|].
  rewrite bind_assoc. unfold mbind, M_bind. destruct (f x s) as [[] ?]; [apply IH|done..].
Qed.

Lemma for_each_ext {A} (f g : A → M S E unit) l s :
  (∀ x s, f x s = g x s) → for_each f l s = for_each g l s.
Proof.
  intros Hfg. revert s. induction l as [|x l IH]; intros s; cbn [for_each]; [done|].
  unfold mbind, M_bind. rewrite Hfg. by destruct (g x s) as [[] ?].
Qed.
Lemma for_each_fmap {A A'} (f : A' → M S E unit) (h : A → A') l s :
  for_each f (h <$> l) s = for_each (λ x, f (h x)) l s.
Proof.
  revert s. induction l as [|x l IH]; intros s; [done|]. cbn. unfold mbind, M_bind.
  destruct (f (h x) s) as [[] ?]; [apply IH|done..].
Qed.
(** A loop of loops is the loop over the concatenation. *)
Lemma for_each_bind {A A'} (f : A' → M S E unit) (h : A → list A') l s :
  for_each f (l ≫= h) s = for_each (λ x, for_each f (h x)) l s.
Proof.
  revert s. induction l as [|x l IH]; intros s; [done|]. cbn [mbind list_bind for_each].
  rewrite for_each_app. unfold mbind at 1 3, M_bind.
  destruct (for_each f (h x) s) as [[] ?]; [apply IH|done..].
Qed.

(** An invariant of the loop body is an invariant of the loop. *)
Lemma for_each_inv {A} (I : S → Prop) (f : A → M S E unit) l s :
  (∀ x s, x ∈ l → I s → ∃ s', f x s = (Ok tt, s') ∧ I s') →
  I s → ∃ s', for_each f l s = (Ok tt, s') ∧ I s'.
Proof.
  intros Hf. revert s. induction l as [|x l IH]; intros s HI; simpl; [eauto|].
  destruct (Hf x s) as (s1 & H1 & HI1); [set_solver|done|].
  erewrite bind_ok by exact H1. apply IH; [|done].
  intros y s2 Hy. apply Hf. set_solver.
Qed.
End monad_lemmas.

(** ** Machine integers *)

(** The unsigned integers of the code are values of [Z] in [0, 2^w).  What an operator does out of
    this range depends on the build profile: a debug build panics, a release build wraps. *)
Class BuildProfile := overflow_checks : bool.

Definition u32_max : Z := 2 ^ 32 - 1.
Definition u64_max : Z := 2 ^ 64 - 1.
(** [usize] on the 64-bit targets the project is built for. *)
Definition usize_max : Z := 2 ^ 64 - 1.

Definition in_u (w x : Z) : Prop := 0 ≤ x < 2 ^ w.
#[export] Instance in_u_dec w x : Decision (in_u w x).
Proof. unfold in_u. apply _. Defined.

Section arith.
Context `{profile : BuildProfile} {E : Type}.

Definition wrapping_or_panic (w : Z) (msg : string) (x : Z) : outcome E Z :=
  if bool_decide (in_u w x) then Ok x
  else if overflow_checks then Panic msg else Ok (x mod 2 ^ w).

Definition u_add (w a b : Z) := wrapping_or_panic w "attempt to add with overflow" (a + b).
Definition u_sub (w a b : Z) := wrapping_or_panic w "attempt to subtract with overflow" (a - b).
Definition u_mul (w a b : Z) := wrapping_or_panic w "attempt to multiply with overflow" (a * b).
(** Division and remainder by zero panic in every profile. *)
Definition u_div (a b : Z) : outcome E Z :=
  if b =? 0 then Panic "attempt to divide by zero" else Ok (a / b).
Definition u_rem (a b : Z) : outcome E Z :=
  if b =? 0 then Panic "attempt to calculate the remainder with a divisor of zero"
  else Ok (a mod b).

Lemma u_add_ok w a b : in_u w (a + b) → u_add w a b = Ok (a + b).
Proof. intros. unfold u_add, wrapping_or_panic. by rewrite bool_decide_eq_true_2. Qed.
Lemma u_add_range w a b x : 0 ≤ w → u_add w a b = Ok x → in_u w x.
Proof.
  intros Hw. unfold u_add, wrapping_or_panic. case_bool_decide; [by intros [= <-]|].
  destruct overflow_checks; [done|]. intros [= <-]. apply Z.mod_pos_bound. lia.
Qed.
(** Sums of several terms may be grouped: if the one from the left is reached, so are the others. *)
Lemma u_add_assoc w a b c x y :
  0 ≤ w → 0 ≤ a → 0 ≤ b → 0 ≤ c → u_add w a b = Ok x → u_add w x c = Ok y →
  ∃ z, u_add w b c = Ok z ∧ u_add w a z = Ok y.
Proof.
  intros Hw Ha Hb Hc. unfold u_add, wrapping_or_panic, in_u. pose proof (Z.pow_pos_nonneg 2 w ltac:(lia) Hw) as Hp.
  destruct overflow_checks.
  - do 2 (case_bool_decide; [intros [= <-]|done]). exists (b + c).
    rewrite !bool_decide_eq_true_2 by lia. split; [done|]. f_equal. lia.
  - assert (∀ z : Z, (if bool_decide (0 ≤ z < 2 ^ w) then Ok z else Ok (z mod 2 ^ w)) = (Ok (z mod 2 ^ w) : outcome E Z)) as Hm.
    { intros z. case_bool_decide; [|done]. by rewrite Z.mod_small. }
    rewrite !Hm. intros [= <-] [= <-]. eexists. split; [done|]. rewrite Hm. f_equal.
    rewrite Z.add_mod_idemp_l, Z.add_mod_idemp_r by lia. f_equal. lia.
Qed.
Lemma u_sub_ok w a b : in_u w (a - b) → u_sub w a b = Ok (a - b).
Proof. intros. unfold u_sub, wrapping_or_panic. by rewrite bool_decide_eq_true_2. Qed.
Lemma u_mul_ok w a b : in_u w (a * b) → u_mul w a b = Ok (a * b).
Proof. intros. unfold u_mul, wrapping_or_panic. by rewrite bool_decide_eq_true_2. Qed.
Lemma u_div_ok a b : b ≠ 0 → u_div a b = Ok (a / b).
Proof. intros. unfold u_div. by rewrite (proj2 (Z.eqb_neq b 0)). Qed.
Lemma u_rem_ok a b : b ≠ 0 → u_rem a b = Ok (a mod b).
Proof. intros. unfold u_rem. by rewrite (proj2 (Z.eqb_neq b 0)). Qed.
End arith.

(** Without overflow checks the arithmetic wraps around. *)
Lemma wrapping_release `{BuildProfile} {E} w msg x :
  overflow_checks = false → 0 ≤ w →
  ∃ y, wrapping_or_panic (E:=E) w msg x = Ok y ∧ in_u w y.
Proof.
  intros Hrel Hw. unfold wrapping_or_panic. case_bool_decide as Hin; [by eexists|].
  rewrite Hrel. eexists. split; [done|]. apply Z.mod_pos_bound. lia.
Qed.

(** [Vec::len] and the like, as a machine integer. *)
Abbreviation len l := (Z.of_nat (length l)).

Definition saturating_sub (a b : Z) : Z := Z.max 0 (a - b).

(** ** Strings and numbers *)

(** [str::split] with a character pattern: at least one part, none of which has the character. *)
Fixpoint split_on (c : Ascii.ascii) (s : string) : list string :=
  match s with
  | EmptyString => [EmptyString]
  | String a s' =>
      if decide (a = c) then EmptyString :: split_on c s'
      else match split_on c s' with
           | part :: parts => String a part :: parts
           | [] => [String a EmptyString]
           end
  end.
Fixpoint has_char (c : Ascii.ascii) (s : string) : bool :=
  match s with
  | EmptyString => false
  | String a s' => bool_decide (a = c) || has_char c s'
  end.
(** [str::as_bytes], and the text that bytes encode. *)
Definition as_bytes (s : string) : list Z :=
  (λ c, Z.of_N (Ascii.N_of_ascii c)) <$> String.list_ascii_of_string s.
Definition from_bytes (l : list Z) : string :=
  String.string_of_list_ascii ((λ z, Ascii.ascii_of_N (Z.to_N z)) <$> l).
Lemma from_as_bytes s : from_bytes (as_bytes s) = s.
Proof.
  unfold from_bytes, as_bytes. rewrite <- list_fmap_compose.
  rewrite <- (String.string_of_list_ascii_of_string s) at 2. f_equal.
  rewrite <- (list_fmap_id (String.list_ascii_of_string s)) at 2. apply list_fmap_ext. intros _ c _. cbn.
  by rewrite N2Z.id, Ascii.ascii_N_embedding.
Qed.
(** [str::contains] *)
Definition contains_str (s needle : string) : bool := bool_decide (is_Some (String.index 0 needle s)).
(** [str::strip_prefix] *)
Fixpoint strip_prefix (prefix s : string) : option string :=
  match prefix, s with
  | EmptyString, _ => Some s
  | String a prefix', String b s' => if decide (a = b) then strip_prefix prefix' s' else None
  | String _ _, EmptyString => None
  end.

(** [str::parse] at an unsigned type: an optional plus sign and one or more digits, in range. *)
Definition digit_value (a : Ascii.ascii) : option Z :=
  let n := Z.of_N (Ascii.N_of_ascii a) in
  if (48 <=? n) && (n <=? 57) then Some (n - 48) else None.
Fixpoint digits_value (max acc : Z) (s : string) : option Z :=
  match s with
  | EmptyString => Some acc
  | String a s' =>
      d ← digit_value a;
      if acc * 10 + d <=? max then digits_value max (acc * 10 + d) s' else None
  end.
Definition parse_unsigned (max : Z) (s : string) : option Z :=
  match (match s with String "+"%char s' => s' | _ => s end) with
  | EmptyString => None
  | s' => digits_value max 0 s'
  end.
(** [Display] of an unsigned integer. *)
Definition display_unsigned (x : Z) : string := pretty (Z.to_N x).

Lemma digit_value_char n : (n < 10)%N → digit_value (pretty_N_char n) = Some (Z.of_N n).
Proof.
  intros Hn. assert (n ∈ [0; 1; 2; 3; 4; 5; 6; 7; 8; 9]%N) as Hin.
  { destruct n as [|p]; [set_solver|]. do 4 (destruct p; try lia; try set_solver). }
  set_unfold. intuition (subst; done).
Qed.

Lemma digits_value_pretty max x s :
  Z.of_N x ≤ max → digits_value max 0 (pretty_N_go x s) = digits_value max (Z.of_N x) s.
Proof.
  revert s. induction (N.lt_wf_0 x) as [x _ IH]. intros s Hx.
  destruct (decide (x = 0%N)) as [->|Hne]; [by rewrite pretty_N_go_0|].
  assert (x `mod` 10 < 10)%N by (apply N.mod_lt; done).
  assert (Hq : (x `div` 10 < x)%N) by (apply N.div_lt; lia).
  rewrite pretty_N_go_step by lia. rewrite IH by lia. cbn [digits_value].
  rewrite digit_value_char by done. cbn.
  assert (Z.of_N (x `div` 10) * 10 + Z.of_N (x `mod` 10) = Z.of_N x) as ->.
  { rewrite N2Z.inj_div, N2Z.inj_mod. pose proof (Z_div_mod_eq_full (Z.of_N x) 10). lia. }
  by rewrite (proj2 (Z.leb_le _ _)).
Qed.
Lemma pretty_N_char_not_sign n : pretty_N_char n ≠ "+"%char ∧ pretty_N_char n ≠ "_"%char.
Proof. unfold pretty_N_char. by repeat case_match. Qed.
Lemma pretty_N_go_head x s :
  x ≠ 0%N → ∃ n s', pretty_N_go x s = String (pretty_N_char n) s'.
Proof.
  revert s. induction (N.lt_wf_0 x) as [x _ IH]. intros s Hne.
  rewrite pretty_N_go_step by lia.
  destruct (decide (x `div` 10 = 0)%N) as [->|Hq]; [rewrite pretty_N_go_0; eauto|].
  apply IH; [|done]. apply N.div_lt; lia.
Qed.
Lemma parse_display max x :
  0 ≤ x ≤ max → parse_unsigned max (display_unsigned x) = Some x.
Proof.
  intros Hx. unfold display_unsigned, pretty, pretty_N.
  destruct (decide (Z.to_N x = 0%N)) as [E|Hne].
  { replace x with 0 by lia. unfold parse_unsigned. cbn [digits_value].
    change (digit_value "0") with (Some 0). cbn. rewrite (proj2 (Z.leb_le _ _)) by lia. done. }
  destruct (pretty_N_go_head (Z.to_N x) "" Hne) as (n & s' & E).
  pose proof (digits_value_pretty max (Z.to_N x) "" ltac:(lia)) as Hv. rewrite E in Hv |- *.
  unfold parse_unsigned.
  assert (match String (pretty_N_char n) s' with String "+"%char s => s
    | _ => String (pretty_N_char n) s' end = String (pretty_N_char n) s') as ->.
  { pose proof (pretty_N_char_not_sign n) as [Hs _]. by repeat case_match; simplify_eq. }
  cbn [digits_value] in Hv |- *. rewrite Hv. cbn. f_equal. lia.
Qed.
Lemma has_char_app c s t : has_char c (s +:+ t) = has_char c s || has_char c t.
Proof. induction s as [|a s IH]; simpl; [done|]. by rewrite IH, orb_assoc. Qed.
Lemma has_char_pretty_go x s :
  has_char "_"%char s = false → has_char "_"%char (pretty_N_go x s) = false.
Proof.
  revert s. induction (N.lt_wf_0 x) as [x _ IH]. intros s Hs.
  destruct (decide (x = 0%N)) as [->|Hne]; [by rewrite pretty_N_go_0|].
  rewrite pretty_N_go_step by lia. apply IH; [apply N.div_lt; lia|].
  simpl. rewrite Hs, orb_false_r. apply bool_decide_eq_false_2, pretty_N_char_not_sign.
Qed.
Lemma has_char_display x : has_char "_"%char (display_unsigned x) = false.
Proof.
  unfold display_unsigned, pretty, pretty_N. case_decide; [done|]. by apply has_char_pretty_go.
Qed.
Lemma split_on_none c s : has_char c s = false → split_on c s = [s].
Proof.
  induction s as [|a s IH]; simpl; [done|]. intros [Ha Hs]%orb_false_iff.
  apply bool_decide_eq_false in Ha. rewrite decide_False by done. by rewrite IH.
Qed.
Lemma split_on_app c s t :
  has_char c s = false → split_on c (s +:+ String c t) = s :: split_on c t.
Proof.
  induction s as [|a s IH]; simpl; [by rewrite decide_True|]. intros [Ha Hs]%orb_false_iff.
  apply bool_decide_eq_false in Ha. rewrite decide_False by done. by rewrite IH.
Qed.
Lemma split_on_one c s d : split_on c s = [d] → s = d ∧ has_char c d = false.
Proof.
  revert d. induction s as [|a s IH]; intros d; simpl; [by intros [= <-]|].
  case_decide as Ha; [intros [= _ Hs]; by destruct s; simpl in Hs; repeat case_match|].
  destruct (split_on c s) as [|x [|]] eqn:E; intros [= <-].
  - by destruct s; simpl in E; repeat case_match.
  - destruct (IH x eq_refl) as [-> Hx]. split; [done|]. simpl. by rewrite bool_decide_eq_false_2, Hx.
Qed.
Lemma split_on_two c s i d :
  split_on c s = [i; d] → s = i +:+ String c d ∧ has_char c i = false ∧ has_char c d = false.
Proof.
  revert i. induction s as [|a s IH]; intros i; simpl; [done|]. case_decide as Ha.
  - intros [= <- Hs]. destruct (split_on_one c s d Hs) as [-> Hd]. by subst.
  - destruct (split_on c s) as [|x parts] eqn:E; [done|]. intros [= <- ->].
    destruct (IH x eq_refl) as (-> & Hx & Hd). split; [done|]. simpl. by rewrite bool_decide_eq_false_2, Hx.
Qed.
Lemma length_split_on c s t : (length (split_on c (s +:+ t)) + 1 = length (split_on c s) + length (split_on c t))%nat.
Proof.
  assert (Hne : ∀ s, split_on c s ≠ []).
  { intros [|a s']; simpl; [done|]. case_decide; [done|]. by case_match. }
  induction s as [|a s IH]; [change ("" +:+ t) with t; simpl; lia|].
  simpl. case_decide; simpl; [lia|]. pose proof (Hne s). pose proof (Hne (s +:+ t)). repeat case_match; simplify_eq/=; lia.
Qed.
Lemma strip_prefix_app p s : strip_prefix p (p +:+ s) = Some s.
Proof. induction p as [|a p IH]; simpl; [done|]. by rewrite decide_True. Qed.
Lemma strip_prefix_inv p s t : strip_prefix p s = Some t → s = p +:+ t.
Proof.
  revert s. induction p as [|a p IH]; intros [|b s]; simpl; try (by intros [= <-]); try done.
  case_decide; [|done]. intros ->%IH. by subst.
Qed.

(** ** Ownership *)

(** Whether dropping a value frees memory that it owns, as Rust's [needs_drop] has it of a type. *)
Class NeedsDrop (T : Type) := needs_drop : T → bool.

(** ** Clocks *)

(** [std::time::Instant]: [instant n] is the [n]-th reading the program takes, in nanoseconds, and
    [absolute_start] the one that a lazily initialised static holds. *)
Class Clock := { absolute_start : Z; instant : nat → Z }.
(** Documented: the clock is monotonic. *)
Class MonotonicClock `{Clock} : Prop := {
  absolute_start_le n : absolute_start ≤ instant n;
  instant_mono n m : (n ≤ m)%nat → instant n ≤ instant m;
}.

(** ** Automation *)

Create HintDb arcon discriminated.
Create Rewrite HintDb arcon.

(** Push a computation one bind further with a fact about its head. *)
Ltac step_ok H := erewrite bind_ok by exact H; cbv beta.
Ltac inv_bind H :=
  let a := fresh "a" in let s := fresh "s" in
  let H1 := fresh "Hm" in let H2 := fresh "Hk" in
  apply bind_inv_ok in H as (a & s & H1 & H2).
