(* ===== verification/Error.v ===== *)
(** The error types of the two crates: [arcon_state/src/error.rs] and [arcon_error/src/lib.rs]. *)

From S2P Require Import Prelude.

(** [ArconStateError].  The [backtrace] and foreign [source] fields carry no data the code reads. *)
Inductive ArconStateError : Type :=
| IO
| InvalidPath (path : string)
| UnknownNode (unknown_node : string) (known_nodes : list string)
| FixedBytesSerializationError (dest_len needed : Z)
| FixedBytesDeserializationError (source_len needed : Z)
| ProtobufDecodeError
| ProtobufEncodeError
| InMemoryWrongType
| RocksMissingColumnFamily (cf_name : string)
| RocksMissingOptions (cf_name : string)
| RocksError
| RocksUninitialized (unknown_cfs : list string)
| RocksRestoreDirNotEmpty (dir : string)
| FasterReceiveTimeout
| FasterUnexpectedStatus (status : Z)
| FasterOtherError
| FasterCheckpointFailed
| FasterErrorInRmw (message : string)
| SledError.

#[export] Instance ArconStateError_eq_dec : EqDecision ArconStateError.
Proof. solve_decision. Defined.

(** [ErrorKind] *)
Inductive ErrorKind : Type :=
| ArconError (msg : string)
| StateError (e : ArconStateError).

#[export] Instance ErrorKind_eq_dec : EqDecision ErrorKind.
Proof. solve_decision. Defined.

(** [Error]; the boxed [cause] is kept as the text of the wrapped error. *)
Record Error : Type := MkError { kind : ErrorKind; cause : option string }.

#[export] Instance Error_eq_dec : EqDecision Error.
Proof. solve_decision. Defined.

Definition Error_new (k : ErrorKind) : Error := MkError k None.
Definition new_arcon (err_msg : string) : Error := MkError (ArconError err_msg) None.
(** [impl From<ArconStateError> for Error], applied by [?]. *)
Definition from_state_error (e : ArconStateError) : Error := MkError (StateError e) None.

Abbreviation StateResult := (outcome ArconStateError).
Abbreviation ArconResult := (outcome Error).

(** [ResultExt::ctx] *)
Definition ctx {E A} (text : E → string) (r : outcome E A) (message : string) : ArconResult A :=
  map_err (λ c, MkError (kind (new_arcon message)) (Some (text c))) r.

(** A call into the state backend followed by [?] in a function returning [ArconResult]. *)
Definition state_try {S A} (m : M S ArconStateError A) : M S Error A :=
  on_outcome (map_err from_state_error) m.

Lemma state_try_ok {S A} (m : M S ArconStateError A) s a s' :
  m s = (Ok a, s') → state_try m s = (Ok a, s').
Proof. intros H. unfold state_try, on_outcome. by rewrite H. Qed.
