(* ===== verification/Serialization.v ===== *)
(** [arcon_state/src/serialization.rs]: the fixed-width little-endian codec of metakeys and the
    length-delimited protobuf codec of keys and values. *)

From S2P Require Import Prelude Error.

(** A byte is a number in [0, 256). *)
Abbreviation bytes := (list Z).

(** ** Buffers (the traits [Buf] and [BufMut] of the crate bytes) *)

Class BufMut (X : Type) := {
  remaining_mut : X → Z;
  put_slice : X → bytes → X;
}.
Class Buf (X : Type) := {
  remaining : X → Z;
  (** [copy_to_slice] into a slice of [n] bytes, for [n ≤ remaining]. *)
  copy_to_slice : X → nat → bytes * X;
}.

(** [Vec<u8>] grows at its end. *)
#[export] Instance BufMut_Vec : BufMut bytes := {
  remaining_mut v := usize_max - len v;
  put_slice v src := v ++ src;
}.
(** [&[u8]] is consumed from its front. *)
#[export] Instance Buf_slice : Buf bytes := {
  remaining v := len v;
  copy_to_slice v n := (take n v, drop n v);
}.

(** A [&mut [u8]] is overwritten from its front: the bytes written so far and the ones not yet
    overwritten. *)
Record MutSlice := MkMutSlice { written : bytes; unwritten : bytes }.
#[export] Instance BufMut_MutSlice : BufMut MutSlice := {
  remaining_mut s := len (unwritten s);
  put_slice s src := MkMutSlice (written s ++ src) (drop (length src) (unwritten s));
}.
Definition as_mut_slice (v : bytes) : MutSlice := MkMutSlice [] v.
Definition slice_contents (s : MutSlice) : bytes := written s ++ unwritten s.

(** ** Integers as little-endian bytes *)

(** An integer type of [n] bytes; the payload is the value, in range for values of the program. *)
Record uint (n : nat) := UInt { uint_val : Z }.
Record sint (n : nat) := SInt { sint_val : Z }.
Arguments UInt {n} _.
Arguments uint_val {n} _.
Arguments SInt {n} _.
Arguments sint_val {n} _.
Abbreviation u8 := (uint 1).
Abbreviation u32 := (uint 4).
Abbreviation u64 := (uint 8).
Abbreviation usize := (uint 8).

Definition uint_wf {n} (x : uint n) : Prop := in_u (8 * Z.of_nat n) (uint_val x).
Definition sint_wf {n} (x : sint n) : Prop :=
  - 2 ^ (8 * Z.of_nat n - 1) ≤ sint_val x < 2 ^ (8 * Z.of_nat n - 1) ∧ n ≠ O.

Fixpoint to_le_bytes (n : nat) (x : Z) : bytes :=
  match n with
  | O => []
  | S n' => x mod 256 :: to_le_bytes n' (x / 256)
  end.
(** An element of [bytes] stands for the byte it is modulo 256. *)
Fixpoint from_le_bytes (l : bytes) : Z :=
  match l with
  | [] => 0
  | b :: l' => b mod 256 + 256 * from_le_bytes l'
  end.

Definition to_signed (n : nat) (x : Z) : Z :=
  if x <? 2 ^ (8 * Z.of_nat n - 1) then x else x - 2 ^ (8 * Z.of_nat n).

(** ** The trait [FixedBytes] *)

Class FixedBytes (T : Type) := {
  fb_SIZE : nat;
  fb_serialize : T → StateResult bytes;
  fb_serialize_into : ∀ {X} `{BufMut X}, X → T → StateResult X;
  fb_deserialize : bytes → StateResult T;
  fb_deserialize_from : ∀ {X} `{Buf X}, X → StateResult (T * X);
}.
Arguments fb_SIZE T {_}.

Definition serialize_check {T} `{FixedBytes T} (payload : T) : StateResult bytes :=
  serialized ← fb_serialize payload;
  if bool_decide (length serialized = fb_SIZE T) then Ok serialized
  else Panic "assertion failed: `(left == right)`".

Definition serialize_into {T X} `{FixedBytes T, BufMut X} (target : X) (payload : T)
  : StateResult X := fb_serialize_into target payload.
Definition deserialize_from {T X} `{FixedBytes T, Buf X} (source : X) : StateResult (T * X) :=
  fb_deserialize_from source.

(** The four methods [impl_fixed_bytes!] generates, over the conversions of the integer type. *)
Section impl_fixed_bytes.
Context {T : Type} (SIZE : nat) (to_le : T → bytes) (from_le : bytes → T).

Definition int_serialize (payload : T) : StateResult bytes := Ok (to_le payload).

Definition int_serialize_into {X} `{BufMut X} (target : X) (payload : T) : StateResult X :=
  let bytes := to_le payload in
  let needed := len bytes in
  let dest_len := remaining_mut target in
  if needed <=? dest_len then Ok (put_slice target bytes)
  else Err (FixedBytesSerializationError dest_len needed).

(** [copy_from_slice] panics unless the two lengths are equal. *)
Definition int_deserialize (bytes : bytes) : StateResult T :=
  let needed := Z.of_nat SIZE in
  let source_len := len bytes in
  if needed <=? source_len then
    if bool_decide (source_len = needed) then Ok (from_le bytes)
    else Panic "source slice length does not match destination slice length"
  else Err (FixedBytesDeserializationError source_len needed).

Definition int_deserialize_from {X} `{Buf X} (source : X) : StateResult (T * X) :=
  let needed := Z.of_nat SIZE in
  let source_len := remaining source in
  if needed <=? source_len then
    let '(buf, source') := copy_to_slice source SIZE in Ok (from_le buf, source')
  else Err (FixedBytesDeserializationError source_len needed).
End impl_fixed_bytes.

#[export] Instance FixedBytes_uint n : FixedBytes (uint n) := {
  fb_SIZE := n;
  fb_serialize := int_serialize (λ x, to_le_bytes n (uint_val x));
  fb_serialize_into X _ := int_serialize_into (λ x, to_le_bytes n (uint_val x));
  fb_deserialize := int_deserialize n (λ l, UInt (from_le_bytes l));
  fb_deserialize_from X _ := int_deserialize_from n (λ l, UInt (from_le_bytes l));
}.
#[export] Instance FixedBytes_sint n : FixedBytes (sint n) := {
  fb_SIZE := n;
  fb_serialize := int_serialize (λ x, to_le_bytes n (sint_val x));
  fb_serialize_into X _ := int_serialize_into (λ x, to_le_bytes n (sint_val x));
  fb_deserialize := int_deserialize n (λ l, SInt (to_signed n (from_le_bytes l)));
  fb_deserialize_from X _ := int_deserialize_from n (λ l, SInt (to_signed n (from_le_bytes l)));
}.
#[export] Instance FixedBytes_unit : FixedBytes unit := {
  fb_SIZE := O;
  fb_serialize _ := Ok [];
  fb_serialize_into X _ target _ := Ok target;
  fb_deserialize _ := Ok tt;
  fb_deserialize_from X _ source := Ok (tt, source);
}.
Definition bool_to_u8 (b : bool) : u8 := UInt (if b then 1 else 0).
Definition u8_to_bool (x : u8) : bool := negb (uint_val x =? 0).
#[export] Instance FixedBytes_bool : FixedBytes bool := {
  fb_SIZE := 1;
  fb_serialize b := fb_serialize (bool_to_u8 b);
  fb_serialize_into X _ target b := fb_serialize_into target (bool_to_u8 b);
  fb_deserialize l := x ← fb_deserialize l; Ok (u8_to_bool x);
  fb_deserialize_from X _ source :=
    p ← fb_deserialize_from source; Ok (u8_to_bool p.1, p.2);
}.
(** [impl_fixed_bytes_for_tuples!], for pairs (longer tuples nest). *)
#[export] Instance FixedBytes_pair A B `{FixedBytes A, FixedBytes B} : FixedBytes (A * B) := {
  fb_SIZE := (fb_SIZE A + fb_SIZE B)%nat;
  fb_serialize p := res ← fb_serialize_into ([] : bytes) p.1; fb_serialize_into res p.2;
  fb_serialize_into X _ target p := target ← fb_serialize_into target p.1; fb_serialize_into target p.2;
  fb_deserialize l :=
    a ← fb_deserialize_from l; b ← fb_deserialize_from a.2; Ok (a.1, b.1);
  fb_deserialize_from X _ source :=
    a ← fb_deserialize_from source; b ← fb_deserialize_from a.2; Ok ((a.1, b.1), b.2);
}.
(** [[T; N]]: the elements in order. *)
Fixpoint array_serialize_into {T X} `{FixedBytes T, BufMut X} (target : X) (payload : list T)
  : StateResult X :=
  match payload with
  | [] => Ok target
  | x :: payload' => target ← fb_serialize_into target x; array_serialize_into target payload'
  end.
Fixpoint array_deserialize_from {T X} `{FixedBytes T, Buf X} (n : nat) (source : X)
  : StateResult (list T * X) :=
  match n with
  | O => Ok ([], source)
  | S n' =>
      p ← fb_deserialize_from source;
      q ← array_deserialize_from n' p.2;
      Ok (p.1 :: q.1, q.2)
  end.

(** ** Byte strings prefixed with their length *)

Definition serialize_bytes_into {X} `{BufMut X} (target : X) (payload : bytes) : StateResult X :=
  let dest_len := remaining_mut target in
  let needed := 8 + len payload in
  if needed <=? dest_len then
    target ← serialize_into target (UInt (len payload) : usize);
    Ok (put_slice target payload)
  else Err (FixedBytesSerializationError dest_len needed).

Definition deserialize_bytes_from {X} `{Buf X} (source : X) : StateResult (bytes * X) :=
  p ← (deserialize_from source : StateResult (usize * X));
  let len := uint_val p.1 in
  let source_len := remaining p.2 in
  if len <=? source_len then Ok (copy_to_slice p.2 (Z.to_nat len))
  else Err (FixedBytesDeserializationError source_len len).

(** ** Protobuf *)

(** What the code uses of [prost::Message].  [encode_length_delimited] is [None] when the target is
    too short; [decode_length_delimited] is [None] on a malformed input, and otherwise leaves the
    bytes that follow the message. *)
Class Message (T : Type) := {
  encoded_len : T → Z;
  encoded_len_varint : T → Z;
  encode_length_delimited : ∀ {X} `{BufMut X}, T → X → option X;
  decode_length_delimited : bytes → option (T * bytes);
}.

(** [protobuf::serialize] and friends. *)
Definition size_hint {T} `{Message T} (payload : T) : option Z :=
  Some (encoded_len payload + encoded_len_varint payload).
Definition protobuf_serialize {T} `{Message T} (payload : T) : StateResult bytes :=
  ok_or ProtobufEncodeError (encode_length_delimited payload ([] : bytes)).
Definition protobuf_serialize_into {T X} `{Message T, BufMut X} (target : X) (payload : T)
  : StateResult X :=
  ok_or ProtobufEncodeError (encode_length_delimited payload target).
Definition protobuf_deserialize {T} `{Message T} (l : bytes) : StateResult T :=
  fst <$> ok_or ProtobufDecodeError (decode_length_delimited l).
Definition protobuf_deserialize_from {T} `{Message T} (source : bytes) : StateResult (T * bytes) :=
  ok_or ProtobufDecodeError (decode_length_delimited source).

(** ** The laws clients rely on *)

(** A [Metakey] type: every in-range value has an encoding of [fb_SIZE] bytes that appending to a
    [Vec] writes and reading from a slice consumes. *)
Class Metakey (T : Type) `{FixedBytes T} := {
  mk_wf : T → Prop;
  mk_enc : T → bytes;
  mk_enc_length x : length (mk_enc x) = fb_SIZE T;
  mk_small : Z.of_nat (fb_SIZE T) ≤ 2 ^ 32;
  mk_into_vec (target : bytes) x :
    len target + Z.of_nat (fb_SIZE T) ≤ usize_max →
    fb_serialize_into target x = Ok (target ++ mk_enc x);
  mk_from_slice x (rest : bytes) :
    mk_wf x → fb_deserialize_from (mk_enc x ++ rest) = Ok (x, rest);
}.

(** Documented behaviour of prost: encoding appends to a [Vec], decoding reads back the message and
    leaves the rest of the input, and the length prefix of an encoding takes at least one byte. *)
Class MessageLaws (T : Type) `{Message T} := {
  ld : T → bytes;
  ld_into_vec (target : bytes) x : encode_length_delimited x target = Some (target ++ ld x);
  ld_decode x rest : decode_length_delimited (ld x ++ rest) = Some (x, rest);
  ld_nonempty x : ld x ≠ [];
}.

(** ** Little-endian lemmas *)

Lemma length_to_le_bytes n x : length (to_le_bytes n x) = n.
Proof. revert x. induction n; intros; simpl; [done|]. by rewrite IHn. Qed.

Lemma le_width_succ n : 2 ^ (8 * Z.of_nat (S n)) = 256 * 2 ^ (8 * Z.of_nat n).
Proof.
  replace (8 * Z.of_nat (S n)) with (8 + 8 * Z.of_nat n) by lia.
  rewrite Z.pow_add_r by lia. done.
Qed.

Lemma from_to_le_bytes n x : from_le_bytes (to_le_bytes n x) = x mod 2 ^ (8 * Z.of_nat n).
Proof.
  revert x. induction n as [|n IH]; intros x; [by rewrite Z.mod_1_r|].
  cbn [to_le_bytes from_le_bytes]. rewrite IH, le_width_succ, Z.mod_mod by lia.
  symmetry. apply Z.rem_mul_r; lia.
Qed.

Lemma from_le_bytes_range l : 0 ≤ from_le_bytes l < 2 ^ (8 * len l).
Proof.
  induction l as [|b l IH]; [done|]. cbn [from_le_bytes length]. rewrite le_width_succ.
  pose proof (Z.mod_pos_bound b 256 ltac:(lia)). lia.
Qed.

Lemma to_signed_mod n x :
  sint_wf (@SInt n x) → to_signed n (x mod 2 ^ (8 * Z.of_nat n)) = x.
Proof.
  unfold sint_wf, to_signed. cbn [sint_val]. intros [Hx Hn].
  assert (Hw : 2 ^ (8 * Z.of_nat n) = 2 * 2 ^ (8 * Z.of_nat n - 1)).
  { rewrite <- Z.pow_succ_r by lia. f_equal. lia. }
  rewrite Hw. destruct (decide (0 ≤ x)).
  - rewrite Z.mod_small by lia. destruct (Z.ltb_spec x (2 ^ (8 * Z.of_nat n - 1))); lia.
  - rewrite <- (Z_mod_plus_full _ 1), Z.mul_1_l, Z.mod_small by lia.
    destruct (Z.ltb_spec (x + 2 * 2 ^ (8 * Z.of_nat n - 1)) (2 ^ (8 * Z.of_nat n - 1))); lia.
Qed.

Lemma int_into_vec {T} n (to_le : T → bytes) (target : bytes) x :
  length (to_le x) = n → len target + Z.of_nat n ≤ usize_max →
  int_serialize_into to_le target x = Ok (target ++ to_le x).
Proof.
  intros Hl Hs. unfold int_serialize_into. cbn [remaining_mut put_slice BufMut_Vec].
  rewrite (proj2 (Z.leb_le _ _)); [done|]. rewrite Hl. lia.
Qed.

Lemma int_from_slice {T} (from_le : bytes → T) (l rest : bytes) :
  int_deserialize_from (length l) from_le (l ++ rest) = Ok (from_le l, rest).
Proof.
  unfold int_deserialize_from. cbn [remaining copy_to_slice Buf_slice].
  rewrite length_app, (proj2 (Z.leb_le _ _)) by lia.
  by rewrite take_app_length, drop_app_length.
Qed.

Section int_metakeys.
Context (n : nat) (Hn : Z.of_nat n ≤ 2 ^ 32).

Lemma uint_from_slice (x : uint n) (rest : bytes) :
  uint_wf x → fb_deserialize_from (to_le_bytes n (uint_val x) ++ rest) = Ok (x, rest).
Proof using Type.
  destruct x as [x]. unfold uint_wf, in_u. cbn [uint_val]. intros Hx.
  pose proof (int_from_slice (λ l, @UInt n (from_le_bytes l)) (to_le_bytes n x) rest) as Hi.
  rewrite length_to_le_bytes in Hi. etransitivity; [exact Hi|].
  cbn beta. by rewrite from_to_le_bytes, Z.mod_small by lia.
Qed.

Lemma sint_from_slice (x : sint n) (rest : bytes) :
  sint_wf x → fb_deserialize_from (to_le_bytes n (sint_val x) ++ rest) = Ok (x, rest).
Proof using Type.
  destruct x as [x]. cbn [sint_val]. intros Hx.
  pose proof (int_from_slice (λ l, @SInt n (to_signed n (from_le_bytes l)))
    (to_le_bytes n x) rest) as Hi.
  rewrite length_to_le_bytes in Hi. etransitivity; [exact Hi|].
  cbn beta. by rewrite from_to_le_bytes, to_signed_mod by done.
Qed.

#[refine] Instance Metakey_uint_n : Metakey (uint n) := {
  mk_wf := uint_wf;
  mk_enc x := to_le_bytes n (uint_val x);
}.
Proof using Hn.
  - intros. apply length_to_le_bytes.
  - exact Hn.
  - intros target x Ht. apply (int_into_vec n (λ x : uint n, to_le_bytes n (uint_val x)));
      [apply length_to_le_bytes|exact Ht].
  - intros. by apply uint_from_slice.
Defined.
#[refine] Instance Metakey_sint_n : Metakey (sint n) := {
  mk_wf := sint_wf;
  mk_enc x := to_le_bytes n (sint_val x);
}.
Proof using Hn.
  - intros. apply length_to_le_bytes.
  - exact Hn.
  - intros target x Ht. apply (int_into_vec n (λ x : sint n, to_le_bytes n (sint_val x)));
      [apply length_to_le_bytes|exact Ht].
  - intros. by apply sint_from_slice.
Defined.
End int_metakeys.

#[export] Instance Metakey_u8 : Metakey u8 := Metakey_uint_n 1 ltac:(done).
#[export] Instance Metakey_u32 : Metakey u32 := Metakey_uint_n 4 ltac:(done).
#[export] Instance Metakey_u64 : Metakey u64 := Metakey_uint_n 8 ltac:(done).
#[export] Instance Metakey_i32 : Metakey (sint 4) := Metakey_sint_n 4 ltac:(done).
#[export] Instance Metakey_i64 : Metakey (sint 8) := Metakey_sint_n 8 ltac:(done).
#[export] Program Instance Metakey_unit : Metakey unit := {
  mk_wf _ := True;
  mk_enc _ := [];
}.
Next Obligation. done. Qed.
Next Obligation. done. Qed.
Next Obligation. intros target [] _. by rewrite app_nil_r. Qed.
Next Obligation. by intros [] rest _. Qed.
#[export] Program Instance Metakey_bool : Metakey bool := {
  mk_wf _ := True;
  mk_enc x := mk_enc (bool_to_u8 x);
}.
Next Obligation. done. Qed.
Next Obligation. done. Qed.
Next Obligation. intros target x Ht. by apply (mk_into_vec (T:=u8)). Qed.
Next Obligation.
  intros x rest _. unfold fb_deserialize_from. cbn [FixedBytes_bool].
  rewrite (mk_from_slice (bool_to_u8 x)) by by destruct x. by destruct x.
Qed.

Lemma mk_enc_inj {T} `{Metakey T} x y : mk_wf x → mk_wf y → mk_enc x = mk_enc y → x = y.
Proof.
  intros Hx Hy He. pose proof (mk_from_slice x [] Hx) as H1.
  rewrite He, mk_from_slice in H1 by done. congruence.
Qed.

Lemma ld_inj {T} `{MessageLaws T} x y : ld x = ld y → x = y.
Proof.
  intros He. pose proof (ld_decode x []) as H1. rewrite He, ld_decode in H1. congruence.
Qed.

Lemma protobuf_serialize_ok {T} `{MessageLaws T} (x : T) : protobuf_serialize x = Ok (ld x).
Proof. unfold protobuf_serialize. by rewrite ld_into_vec. Qed.
Lemma protobuf_serialize_into_ok {T} `{MessageLaws T} (target : bytes) (x : T) :
  protobuf_serialize_into target x = Ok (target ++ ld x).
Proof. unfold protobuf_serialize_into. by rewrite ld_into_vec. Qed.
Lemma protobuf_deserialize_from_ok {T} `{MessageLaws T} (x : T) rest :
  protobuf_deserialize_from (ld x ++ rest) = Ok (x, rest).
Proof. unfold protobuf_deserialize_from. by rewrite ld_decode. Qed.
Lemma protobuf_deserialize_ok {T} `{MessageLaws T} (x : T) : protobuf_deserialize (ld x) = Ok x.
Proof. unfold protobuf_deserialize. by rewrite <- (app_nil_r (ld x)), ld_decode. Qed.

#[export] Hint Rewrite @protobuf_serialize_ok @protobuf_serialize_into_ok
  @protobuf_deserialize_from_ok @protobuf_deserialize_ok using typeclasses eauto : arcon.

(** ** Properties of the codec *)

(** Integers of every width, signed and unsigned: reading what was written gives the value back and
    leaves the input that follows it. *)
Theorem int_roundtrip n (x y : Z) (rest : bytes) :
  (n ≤ 16)%nat → uint_wf (@UInt n x) → sint_wf (@SInt n y) →
  (w ← serialize_into ([] : bytes) (@UInt n x); deserialize_from (w ++ rest)) = Ok (@UInt n x, rest) ∧
  (w ← serialize_into ([] : bytes) (@SInt n y); deserialize_from (w ++ rest)) = Ok (@SInt n y, rest).
Proof.
  intros Hn Hx Hy. unfold serialize_into, deserialize_from.
  cbn [fb_serialize_into FixedBytes_uint FixedBytes_sint].
  assert (len ([] : bytes) + Z.of_nat n ≤ usize_max) by (unfold usize_max; simpl; lia).
  rewrite !(int_into_vec n) by (done || apply length_to_le_bytes).
  split; [by apply uint_from_slice|by apply sint_from_slice].
Qed.
Example int_roundtrip_witness :
  (w ← serialize_into ([] : bytes) (UInt 3735928559 : u64); deserialize_from (w ++ [7]))
    = Ok (UInt 3735928559 : u64, [7]) ∧
  (w ← serialize_into ([] : bytes) (SInt (-128) : sint 8); deserialize_from (w ++ [7]))
    = Ok (SInt (-128) : sint 8, [7]).
Proof. apply (int_roundtrip 8); [lia|by vm_compute|split; [by vm_compute|done]]. Defined.

(** Length-prefixed byte strings: what [serialize_bytes_into] appends to a [Vec] is read back by
    [deserialize_bytes_from], for every payload that fits the address space. *)
Theorem bytes_roundtrip (payload rest : bytes) :
  8 + len payload ≤ usize_max →
  (w ← serialize_bytes_into ([] : bytes) payload; deserialize_bytes_from (w ++ rest))
  = Ok (payload, rest).
Proof.
  intros Hp. assert (Hwf : uint_wf (UInt (len payload) : usize)).
  { unfold uint_wf, in_u, usize_max in *. cbn [uint_val]. lia. }
  unfold serialize_bytes_into. cbn [remaining_mut BufMut_Vec length].
  rewrite (proj2 (Z.leb_le _ _)) by lia.
  unfold serialize_into. cbn [fb_serialize_into FixedBytes_uint].
  rewrite (int_into_vec 8) by (first [apply length_to_le_bytes | unfold usize_max; simpl; lia]).
  cbn [mbind outcome_bind put_slice BufMut_Vec app]. rewrite <- (assoc_L (++)).
  unfold deserialize_bytes_from, deserialize_from. rewrite uint_from_slice by done.
  cbn [mbind outcome_bind fst snd uint_val remaining copy_to_slice Buf_slice].
  rewrite length_app, (proj2 (Z.leb_le _ _)) by lia.
  by rewrite Nat2Z.id, take_app_length, drop_app_length.
Qed.
Example bytes_roundtrip_witness :
  (w ← serialize_bytes_into ([] : bytes) [1; 2; 3]; deserialize_bytes_from (w ++ [9]))
  = Ok ([1; 2; 3], [9]).
Proof. apply (bytes_roundtrip [1; 2; 3] [9]). unfold usize_max. simpl. lia. Defined.

(** The two readers disagree on an input longer than the integer: [deserialize_from] leaves the
    rest, [deserialize] passes its length check and then panics in [copy_from_slice]. *)
Theorem deserialize_trailing_bytes n (x : uint n) (rest : bytes) :
  uint_wf x → rest ≠ [] →
  deserialize_from (to_le_bytes n (uint_val x) ++ rest) = Ok (x, rest) ∧
  (fb_deserialize (to_le_bytes n (uint_val x) ++ rest) : StateResult (uint n))
  = Panic "source slice length does not match destination slice length".
Proof.
  intros Hx Hr. split; [by apply uint_from_slice|].
  cbn [fb_deserialize FixedBytes_uint]. unfold int_deserialize.
  rewrite length_app, length_to_le_bytes.
  assert (0 < length rest)%nat by (destruct rest; [done|simpl; lia]).
  rewrite (proj2 (Z.leb_le _ _)) by lia. by rewrite bool_decide_eq_false_2 by lia.
Qed.
Example deserialize_trailing_bytes_witness :
  deserialize_from (to_le_bytes 1 42 ++ [0]) = Ok (UInt 42 : u8, [0]) ∧
  (fb_deserialize (to_le_bytes 1 42 ++ [0]) : StateResult u8)
  = Panic "source slice length does not match destination slice length".
Proof. apply (deserialize_trailing_bytes 1 (UInt 42)); [by vm_compute|done]. Defined.

(** ** A concrete message codec

    Any countable type has one: the bits of its code, one per byte, closed by a terminator.  It
    satisfies [MessageLaws] and is what the examples of the development instantiate prost with. *)
Fixpoint pos_bytes (p : positive) : bytes :=
  match p with
  | xH => [2]
  | xO p' => 0 :: pos_bytes p'
  | xI p' => 1 :: pos_bytes p'
  end.
Fixpoint bytes_pos (l : bytes) : option (positive * bytes) :=
  match l with
  | [] => None
  | b :: l' =>
      if b =? 2 then Some (xH, l')
      else '(p, r) ← bytes_pos l';
           if b =? 0 then Some (xO p, r) else if b =? 1 then Some (xI p, r) else None
  end.
Lemma bytes_pos_bytes p rest : bytes_pos (pos_bytes p ++ rest) = Some (p, rest).
Proof. induction p as [p IH|p IH|]; simpl; rewrite ?IH; done. Qed.

Definition countable_Message {T} `{Countable T} : Message T := {|
  encoded_len x := len (pos_bytes (encode x)) - 1;
  encoded_len_varint _ := 1;
  encode_length_delimited X _ x target := Some (put_slice target (pos_bytes (encode x)));
  decode_length_delimited l :=
    '(p, rest) ← bytes_pos l; x ← decode p; Some (x, rest);
|}.
Definition countable_MessageLaws {T} `{Countable T} : @MessageLaws T countable_Message.
Proof.
  refine {| ld := λ x, pos_bytes (encode x) |}.
  - done.
  - intros x rest. cbn [decode_length_delimited countable_Message].
    rewrite bytes_pos_bytes. cbn. by rewrite decode_encode.
  - intros x. by destruct (encode x).
Defined.

(** ** Codes of the integer types *)

#[export] Instance uint_eq_dec n : EqDecision (uint n).
Proof. solve_decision. Defined.
#[export] Instance sint_eq_dec n : EqDecision (sint n).
Proof. solve_decision. Defined.
#[export] Program Instance uint_countable n : Countable (uint n) :=
  inj_countable' uint_val UInt _.
Next Obligation. by intros n []. Qed.
#[export] Program Instance sint_countable n : Countable (sint n) :=
  inj_countable' sint_val SInt _.
Next Obligation. by intros n []. Qed.
