(* ===== verification/Files.v ===== *)
(** A small model of [std::fs]: paths, directories and files, the calls that read and change them, and
    the seekable writer and the reader that the checkpoint formats are written and read with. *)

From S2P Require Import Prelude Error Serialization.
From Stdlib Require Import Ascii.

(** ** Text *)

(** [std::str::from_utf8] *)
Definition continuation (b : Z) : bool := (128 <=? b) && (b <=? 191).
Definition between (lo b hi : Z) : bool := (lo <=? b) && (b <=? hi).
Definition second_of_three (b0 b1 : Z) : bool :=
  if b0 =? 224 then between 160 b1 191 else if b0 =? 237 then between 128 b1 159 else continuation b1.
Definition second_of_four (b0 b1 : Z) : bool :=
  if b0 =? 240 then between 144 b1 191 else if b0 =? 244 then between 128 b1 143 else continuation b1.
Fixpoint utf8_valid (l : bytes) : bool :=
  match l with
  | [] => true
  | b0 :: l1 =>
      if b0 <? 128 then utf8_valid l1
      else
        match l1 with
        | [] => false
        | b1 :: l2 =>
            if between 194 b0 223 then continuation b1 && utf8_valid l2
            else
              match l2 with
              | [] => false
              | b2 :: l3 =>
                  if between 224 b0 239 then second_of_three b0 b1 && continuation b2 && utf8_valid l3
                  else
                    match l3 with
                    | [] => false
                    | b3 :: l4 =>
                        between 240 b0 244 && second_of_four b0 b1 && continuation b2 && continuation b3 && utf8_valid l4
                    end
              end
        end
  end.

(** ** The file system *)

(** A path is the list of its components; the file system says what each existing path is. *)
Abbreviation path := (list string).
Inductive FsNode : Type := Dir | File (contents : bytes).
#[export] Instance FsNode_eq_dec : EqDecision FsNode.
Proof. solve_decision. Defined.
Abbreviation Fs := (gmap path FsNode).

(** The components of a path that is given as text. *)
Definition path_from (s : string) : path := filter (λ c, c ≠ "") (split_on "/"%char s).
Definition path_exists (p : path) (fs : Fs) : bool := bool_decide (is_Some (fs !! p)).
Definition path_display (p : path) : string := String.concat "/" p.
Definition without_subtree (p : path) (fs : Fs) : Fs :=
  filter (λ kv, take (length p) kv.1 ≠ p) fs.
Definition remove_dir_all (p : path) : M Fs ArconStateError unit := λ fs,
  match fs !! p with
  | Some Dir => (Ok tt, without_subtree p fs)
  | _ => (Err IO, fs)
  end.
(** The entry of a directory that a path is, if it is one: its name. *)
Definition child_of (p q : path) : option string :=
  if decide (take (length p) q = p) then
    match drop (length p) q with [name] => Some name | _ => None end
  else None.
(** [read_dir] lists the directory in an order of its own. *)
Definition read_dir (p : path) : M Fs ArconStateError (list (string * FsNode)) := λ fs,
  match fs !! p with
  | Some Dir =>
      (Ok (omap (λ kv, name ← child_of p kv.1; Some (name, kv.2)) (map_to_list fs)), fs)
  | _ => (Err IO, fs)
  end.

(** [create_dir_all] makes the missing ancestors of the path, and fails where one is a file. *)
Fixpoint ancestors (parent p : path) : list path :=
  match p with
  | [] => []
  | c :: p' => (parent ++ [c]) :: ancestors (parent ++ [c]) p'
  end.
Definition make_dir (p : path) : M Fs ArconStateError unit := λ fs,
  match fs !! p with
  | None => (Ok tt, <[p := Dir]> fs)
  | Some Dir => (Ok tt, fs)
  | Some (File _) => (Err IO, fs)
  end.
Definition create_dir_all (p : path) : M Fs ArconStateError unit :=
  for_each make_dir (ancestors [] p).

(** Paths have no [.], [..] or links, so that a path that exists is canonical. *)
Definition canonicalize (p : path) : M Fs ArconStateError path := λ fs,
  (if path_exists p fs then Ok p else Err IO, fs).

(** The directory a path is in, which the calls that create a file need. *)
Definition parent_is_dir (p : path) (fs : Fs) : bool :=
  match removelast p with
  | [] => true
  | d => bool_decide (fs !! d = Some Dir)
  end.
(** [File::create] truncates the file; what the writer is given afterwards is stored by [write_file]. *)
Definition create_file (p : path) : M Fs ArconStateError unit := λ fs,
  match fs !! p, parent_is_dir p fs with
  | Some Dir, _ | _, false => (Err IO, fs)
  | _, true => (Ok tt, <[p := File []]> fs)
  end.
Definition write_file (p : path) (contents : bytes) : M Fs ArconStateError unit := λ fs,
  (Ok tt, <[p := File contents]> fs).
(** [File::open] and reading the file to its end. *)
Definition open_file (p : path) : M Fs ArconStateError bytes := λ fs,
  match fs !! p with
  | Some (File contents) => (Ok contents, fs)
  | _ => (Err IO, fs)
  end.
(** [File::read_to_string]: what is not text is an error. *)
Definition read_to_string (p : path) : M Fs ArconStateError string :=
  contents ← open_file p;
  if utf8_valid contents then mret (from_bytes contents) else fail IO.
(** A file that is opened for appending is created if need be, and keeps its contents. *)
Definition open_append (p : path) : M Fs ArconStateError unit := λ fs,
  match fs !! p, parent_is_dir p fs with
  | Some (File _), _ => (Ok tt, fs)
  | Some Dir, _ | None, false => (Err IO, fs)
  | None, true => (Ok tt, <[p := File []]> fs)
  end.
Definition append_file (p : path) (b : bytes) : M Fs ArconStateError unit := λ fs,
  match fs !! p with
  | Some (File contents) => (Ok tt, <[p := File (contents ++ b)]> fs)
  | _ => (Err IO, fs)
  end.
Definition copy_file (source target : path) : M Fs ArconStateError unit :=
  contents ← open_file source;
  create_file target ;;
  write_file target contents.

(** ** A seekable writer ([BufWriter] over [File]) *)

Record Writer : Type := MkWriter { contents : bytes; position : nat }.
Definition Writer_new : Writer := MkWriter [] 0.
(** Writing overwrites from the position on and extends the file at its end. *)
Definition write_all (b : bytes) : M Writer ArconStateError unit :=
  modify (λ w, MkWriter (take (position w) (contents w) ++ b ++ drop (position w + length b) (contents w))
    (position w + length b)).
Definition seek_current : M Writer ArconStateError nat := gets position.
Definition seek_start (p : nat) : M Writer ArconStateError unit :=
  modify (λ w, MkWriter (contents w) p).

(** [Read::read_exact] into a buffer of [n] bytes. *)
Definition read_exact (n : nat) : M bytes ArconStateError bytes := λ reader,
  if bool_decide (n ≤ length reader)%nat then (Ok (take n reader), drop n reader)
  else (Err IO, []).

(** ** Lemmas *)

Lemma path_exists_false p fs : path_exists p fs = false ↔ fs !! p = None.
Proof. unfold path_exists. rewrite bool_decide_eq_false, eq_None_not_Some. done. Qed.

(** A write at the end of the file appends. *)
Lemma write_all_end b w :
  position w = length (contents w) →
  write_all b w = (Ok tt, MkWriter (contents w ++ b) (length (contents w ++ b))).
Proof.
  intros Hp. unfold write_all, modify. rewrite Hp, firstn_all, drop_ge, app_nil_r, length_app by lia.
  done.
Qed.
(** A write over bytes of the same length replaces them. *)
Lemma write_all_over front old b back p :
  p = length front → length b = length old →
  write_all b (MkWriter (front ++ old ++ back) p)
  = (Ok tt, MkWriter (front ++ b ++ back) (p + length b)).
Proof.
  intros -> Hb. unfold write_all, modify. cbn [contents position].
  rewrite take_app_length, Hb, <- drop_drop, drop_app_length, drop_app_length. done.
Qed.
Lemma read_exact_app b rest : read_exact (length b) (b ++ rest) = (Ok b, rest).
Proof.
  unfold read_exact. rewrite bool_decide_eq_true_2 by (rewrite length_app; lia).
  by rewrite take_app_length, drop_app_length.
Qed.

(** What [create_dir_all] leaves: every ancestor is a directory and nothing else has changed. *)
Lemma ancestors_app parent p q : ancestors parent (p ++ q) = ancestors parent p ++ ancestors (parent ++ p) q.
Proof.
  revert parent. induction p as [|c p IH]; intros parent; cbn; [by rewrite app_nil_r|].
  by rewrite IH, <- (assoc_L (++)).
Qed.
Lemma ancestors_length parent p q : q ∈ ancestors parent p → (length q ≤ length parent + length p)%nat.
Proof.
  revert parent. induction p as [|c p IH]; intros parent; cbn; [set_solver|].
  intros [->|Hq]%elem_of_cons; [rewrite length_app; cbn; lia|]. apply IH in Hq. rewrite length_app in Hq. cbn in *. lia.
Qed.
Lemma ancestors_self parent p : p ≠ [] → parent ++ p ∈ ancestors parent p.
Proof.
  revert parent. induction p as [|c p IH]; intros parent Hne; [done|]. cbn. destruct p as [|c' p]; [set_solver|].
  right. specialize (IH (parent ++ [c]) ltac:(done)). by rewrite <- (assoc_L (++)) in IH.
Qed.
Lemma make_dirs_ok l fs :
  (∀ p c, p ∈ l → fs !! p ≠ Some (File c)) →
  ∃ fs', for_each make_dir l fs = (Ok tt, fs') ∧
    ∀ p, fs' !! p = if decide (p ∈ l) then Some Dir else fs !! p.
Proof.
  revert fs. induction l as [|d l IH]; intros fs Hl; [by exists fs|].
  assert (∃ fs1, make_dir d fs = (Ok tt, fs1) ∧ ∀ p, fs1 !! p = if decide (p = d) then Some Dir else fs !! p)
    as (fs1 & E1 & H1).
  { unfold make_dir. destruct (fs !! d) as [[|c]|] eqn:E.
    - exists fs. split; [done|]. intros p. by case_decide; subst.
    - exfalso. eapply Hl; [|exact E]. set_solver.
    - eexists. split; [done|]. intros p. case_decide; subst; by simplify_map_eq. }
  destruct (IH fs1) as (fs2 & E2 & H2).
  { intros p c Hp. rewrite H1. case_decide; [done|]. apply Hl. set_solver. }
  exists fs2. cbn [for_each]. erewrite bind_ok by exact E1. split; [done|].
  intros p. rewrite H2, H1. pose proof (elem_of_cons l p d). repeat case_decide; naive_solver.
Qed.

(** Creating directories and files succeeds or reports an I/O error. *)
Lemma create_dir_all_outcome p fs :
  ∃ o fs', create_dir_all p fs = (o, fs') ∧ (o = Ok tt ∨ o = Err IO).
Proof.
  unfold create_dir_all. generalize (ancestors [] p). intros l. revert fs.
  induction l as [|d l IH]; intros fs; [by eexists _, _; split; [done|left]|]. cbn [for_each].
  unfold mbind, M_bind, make_dir at 1. destruct (fs !! d) as [[|c]|]; [apply IH|eauto 6|apply IH].
Qed.
Lemma create_file_outcome p fs : ∃ o fs', create_file p fs = (o, fs') ∧ (o = Ok tt ∨ o = Err IO).
Proof. unfold create_file. destruct (fs !! p) as [[|c]|], (parent_is_dir p fs); eauto 6. Qed.
