(* ===== verification/StateBackend.v ===== *)
(** The state-backend interface of [arcon_state]: handles and their key serialisation
    ([handles.rs]), the operation traits ([ops.rs]), the [Backend] trait ([lib.rs]), and the
    specification that an implementation of the interface promises to its clients. *)

From S2P Require Import Prelude Error Serialization.

(** ** Values and state types *)

(** The part of [std::any::Any] the in-memory backend uses: a type id and a canonical code.  The ids
    of base types are odd, so that they differ from those of vectors and options. *)
Class Any (T : Type) := {
  any_eq_dec :: EqDecision T;
  any_countable :: Countable T;
  type_id : positive;
}.
Arguments type_id T {_}.
#[export] Instance Any_list T `{Any T} : Any (list T) := {| type_id := (type_id T)~0~0 |}.
#[export] Instance Any_option T `{Any T} : Any (option T) := {| type_id := (type_id T)~1~0 |}.

(** [trait Value: Message + Default + Clone + 'static] and [trait Key].  A value's codec obeys the
    laws of prost. *)
Class Value (T : Type) := {
  value_message :: Message T;
  value_laws :: MessageLaws T;
  value_any :: Any T;
}.
Class Key (K : Type) := { key_message :: Message K }.
#[export] Instance Key_Value T `{Value T} : Key T | 10 := {| key_message := value_message |}.

(** [trait Reducer] and [trait Aggregator]: pure user functions, of which the code itself supplies
    one whose [merge_accumulators] and [accumulator_into_result] panic. *)
Definition Reducer (T : Type) : Type := T → T → T.
Record Aggregator (Input Accumulator Result : Type) : Type := {
  create_accumulator : Accumulator;
  agg_add : Accumulator → Input → Accumulator;
  merge_accumulators : Accumulator → Accumulator → StateResult Accumulator;
  accumulator_into_result : Accumulator → StateResult Result;
}.
Arguments create_accumulator {_ _ _}.
Arguments agg_add {_ _ _}.
Arguments merge_accumulators {_ _ _}.
Arguments accumulator_into_result {_ _ _}.

(** The state types and the extra data a handle carries for each. *)
Inductive StateType : Type :=
| ValueState (T : Type)
| MapState (K V : Type)
| VecState (T : Type)
| ReducerState (T : Type)
| AggregatorState (Input Accumulator Result : Type).

Definition ExtraData (S : StateType) : Type :=
  match S with
  | ReducerState T => Reducer T
  | AggregatorState Inp A R => Aggregator Inp A R
  | _ => unit
  end.

(** ** Handles ([handles.rs]) *)

Record Handle (S : StateType) (IK N : Type) : Type := MkHandle {
  h_id : string;
  item_key : IK;
  namespace : N;
  extra_data : ExtraData S;
  registered : bool;
}.
Arguments MkHandle {S IK N}.
Arguments h_id {S IK N}.
Arguments item_key {S IK N}.
Arguments namespace {S IK N}.
Arguments extra_data {S IK N}.
Arguments registered {S IK N}.

Definition value_handle (T : Type) (id : string) : Handle (ValueState T) unit unit :=
  @MkHandle (ValueState T) _ _ id tt tt tt false.
Definition map_handle (K V : Type) (id : string) : Handle (MapState K V) unit unit :=
  @MkHandle (MapState K V) _ _ id tt tt tt false.
Definition vec_handle (T : Type) (id : string) : Handle (VecState T) unit unit :=
  @MkHandle (VecState T) _ _ id tt tt tt false.
Definition reducer_handle {T} (id : string) (reducer : Reducer T)
  : Handle (ReducerState T) unit unit :=
  @MkHandle (ReducerState T) _ _ id tt tt reducer false.
Definition aggregator_handle {Inp A R} (id : string) (aggregator : Aggregator Inp A R)
  : Handle (AggregatorState Inp A R) unit unit :=
  @MkHandle (AggregatorState Inp A R) _ _ id tt tt aggregator false.

Section handle.
Context {S : StateType} {IK N : Type}.
Implicit Type h : Handle S IK N.

Definition with_item_key {NIK} (h : Handle S IK N) (k : NIK) : Handle S NIK N :=
  MkHandle (h_id h) k (namespace h) (extra_data h) (registered h).
Definition with_namespace {NN} (h : Handle S IK N) (n : NN) : Handle S IK NN :=
  MkHandle (h_id h) (item_key h) n (extra_data h) (registered h).
(** [set_item_key] and [set_namespace] write to a [Cell]; the model returns the new handle. *)
Definition set_item_key h (k : IK) : Handle S IK N := with_item_key h k.
Definition set_namespace h (n : N) : Handle S IK N := with_namespace h n.
Definition set_registered h : Handle S IK N :=
  MkHandle (h_id h) (item_key h) (namespace h) (extra_data h) true.

Context `{FixedBytes IK, FixedBytes N}.

Definition metakey_size h : nat := (fb_SIZE IK + fb_SIZE N)%nat.

Definition serialize_metakeys_into {X} `{BufMut X} h (dest : X) : StateResult X :=
  dest ← serialize_into dest (item_key h);
  serialize_into dest (namespace h).
Definition serialize_metakeys h : StateResult bytes := serialize_metakeys_into h ([] : bytes).
Definition serialize_metakeys_and_key_into {X K} `{BufMut X, Key K} h (key : K) (dest : X)
  : StateResult X :=
  dest ← serialize_metakeys_into h dest;
  protobuf_serialize_into dest key.
Definition serialize_metakeys_and_key {K} `{Key K} h (key : K) : StateResult bytes :=
  serialize_metakeys_and_key_into h key ([] : bytes).

Definition serialize_id_and_metakeys_into {X} `{BufMut X} h (dest : X) : StateResult X :=
  dest ← serialize_bytes_into dest (as_bytes (h_id h));
  serialize_metakeys_into h dest.
Definition serialize_id_and_metakeys h : StateResult bytes :=
  serialize_id_and_metakeys_into h ([] : bytes).
Definition serialize_id_metakeys_and_key_into {X K} `{BufMut X, Key K} h (dest : X) (key : K)
  : StateResult X :=
  dest ← serialize_id_and_metakeys_into h dest;
  protobuf_serialize_into dest key.
Definition serialize_id_metakeys_and_key {K} `{Key K} h (key : K) : StateResult bytes :=
  serialize_id_metakeys_and_key_into h ([] : bytes) key.
End handle.

(** [Handle::activate] panics on a handle that was never registered. *)
Definition activate {B E S IK N} (h : Handle S IK N) : M B E (Handle S IK N) :=
  if registered h then mret h
  else panic "State handles should be registered before activation!".

(** ** The operation traits ([ops.rs]) *)

Abbreviation StateM B := (M B ArconStateError).

Class ValueOps (B : Type) := {
  value_clear {T IK N} `{Value T, FixedBytes IK, FixedBytes N} :
    Handle (ValueState T) IK N → StateM B unit;
  value_get {T IK N} `{Value T, FixedBytes IK, FixedBytes N} :
    Handle (ValueState T) IK N → StateM B (option T);
  value_set {T IK N} `{Value T, FixedBytes IK, FixedBytes N} :
    Handle (ValueState T) IK N → T → StateM B (option T);
  value_fast_set {T IK N} `{Value T, FixedBytes IK, FixedBytes N} :
    Handle (ValueState T) IK N → T → StateM B unit;
}.

(** An iterator of results is the list of the results it yields. *)
Class MapOps (B : Type) := {
  map_clear {K V IK N} `{Key K, Value V, FixedBytes IK, FixedBytes N} :
    Handle (MapState K V) IK N → StateM B unit;
  map_get {K V IK N} `{Key K, Value V, FixedBytes IK, FixedBytes N} :
    Handle (MapState K V) IK N → K → StateM B (option V);
  map_fast_insert {K V IK N} `{Key K, Value V, FixedBytes IK, FixedBytes N} :
    Handle (MapState K V) IK N → K → V → StateM B unit;
  map_insert {K V IK N} `{Key K, Value V, FixedBytes IK, FixedBytes N} :
    Handle (MapState K V) IK N → K → V → StateM B (option V);
  map_insert_all {K V IK N} `{Key K, Value V, FixedBytes IK, FixedBytes N} :
    Handle (MapState K V) IK N → list (K * V) → StateM B unit;
  map_remove {K V IK N} `{Key K, Value V, FixedBytes IK, FixedBytes N} :
    Handle (MapState K V) IK N → K → StateM B (option V);
  map_fast_remove {K V IK N} `{Key K, Value V, FixedBytes IK, FixedBytes N} :
    Handle (MapState K V) IK N → K → StateM B unit;
  map_contains {K V IK N} `{Key K, Value V, FixedBytes IK, FixedBytes N} :
    Handle (MapState K V) IK N → K → StateM B bool;
  map_iter {K V IK N} `{Key K, Value V, FixedBytes IK, FixedBytes N} :
    Handle (MapState K V) IK N → StateM B (list (StateResult (K * V)));
  map_keys {K V IK N} `{Key K, Value V, FixedBytes IK, FixedBytes N} :
    Handle (MapState K V) IK N → StateM B (list (StateResult K));
  map_values {K V IK N} `{Key K, Value V, FixedBytes IK, FixedBytes N} :
    Handle (MapState K V) IK N → StateM B (list (StateResult V));
  map_len {K V IK N} `{Key K, Value V, FixedBytes IK, FixedBytes N} :
    Handle (MapState K V) IK N → StateM B Z;
  map_is_empty {K V IK N} `{Key K, Value V, FixedBytes IK, FixedBytes N} :
    Handle (MapState K V) IK N → StateM B bool;
}.

Class VecOps (B : Type) := {
  vec_clear {T IK N} `{Value T, FixedBytes IK, FixedBytes N} :
    Handle (VecState T) IK N → StateM B unit;
  vec_append {T IK N} `{Value T, FixedBytes IK, FixedBytes N} :
    Handle (VecState T) IK N → T → StateM B unit;
  vec_get {T IK N} `{Value T, FixedBytes IK, FixedBytes N} :
    Handle (VecState T) IK N → StateM B (list T);
  vec_iter {T IK N} `{Value T, FixedBytes IK, FixedBytes N} :
    Handle (VecState T) IK N → StateM B (list (StateResult T));
  vec_set {T IK N} `{Value T, FixedBytes IK, FixedBytes N} :
    Handle (VecState T) IK N → list T → StateM B unit;
  vec_add_all {T IK N} `{Value T, FixedBytes IK, FixedBytes N} :
    Handle (VecState T) IK N → list T → StateM B unit;
  vec_len {T IK N} `{Value T, FixedBytes IK, FixedBytes N} :
    Handle (VecState T) IK N → StateM B Z;
  vec_is_empty {T IK N} `{Value T, FixedBytes IK, FixedBytes N} :
    Handle (VecState T) IK N → StateM B bool;
}.

Class ReducerOps (B : Type) := {
  reducer_clear {T IK N} `{Value T, FixedBytes IK, FixedBytes N} :
    Handle (ReducerState T) IK N → StateM B unit;
  reducer_get {T IK N} `{Value T, FixedBytes IK, FixedBytes N} :
    Handle (ReducerState T) IK N → StateM B (option T);
  reducer_reduce {T IK N} `{Value T, FixedBytes IK, FixedBytes N} :
    Handle (ReducerState T) IK N → T → StateM B unit;
}.

Class AggregatorOps (B : Type) := {
  aggregator_clear {Inp A R IK N} `{Value Inp, Value A, FixedBytes IK, FixedBytes N} :
    Handle (AggregatorState Inp A R) IK N → StateM B unit;
  aggregator_get {Inp A R IK N} `{Value Inp, Value A, FixedBytes IK, FixedBytes N} :
    Handle (AggregatorState Inp A R) IK N → StateM B R;
  aggregator_aggregate {Inp A R IK N} `{Value Inp, Value A, FixedBytes IK, FixedBytes N} :
    Handle (AggregatorState Inp A R) IK N → Inp → StateM B unit;
}.

(** ** The trait [Backend] ([lib.rs])

    The constructors of a backend touch the file system and are modelled in [Restore.v]. *)
Class Backend (B : Type) := {
  backend_value_ops :: ValueOps B;
  backend_map_ops :: MapOps B;
  backend_vec_ops :: VecOps B;
  backend_reducer_ops :: ReducerOps B;
  backend_aggregator_ops :: AggregatorOps B;
  was_restored : B → bool;
  checkpoint : string → StateM B unit;
  start_session : B → B;
  session_drop_hook : option (B → B);
  register_value_handle {T IK N} `{Value T, FixedBytes IK, FixedBytes N} :
    Handle (ValueState T) IK N → StateM B (Handle (ValueState T) IK N);
  register_map_handle {K V IK N} `{Key K, Value V, FixedBytes IK, FixedBytes N} :
    Handle (MapState K V) IK N → StateM B (Handle (MapState K V) IK N);
  register_vec_handle {T IK N} `{Value T, FixedBytes IK, FixedBytes N} :
    Handle (VecState T) IK N → StateM B (Handle (VecState T) IK N);
  register_reducer_handle {T IK N} `{Value T, FixedBytes IK, FixedBytes N} :
    Handle (ReducerState T) IK N → StateM B (Handle (ReducerState T) IK N);
  register_aggregator_handle {Inp A R IK N} `{Value Inp, Value A, FixedBytes IK, FixedBytes N} :
    Handle (AggregatorState Inp A R) IK N → StateM B (Handle (AggregatorState Inp A R) IK N);
}.

(** [BackendContainer::session] and the [Drop] of [Session]. *)
Definition session {B} `{Backend B} (b : B) : B := start_session b.
Definition drop_session {B} `{Backend B} (b : B) : B :=
  match session_drop_hook with
  | Some drop_hook => drop_hook b
  | None => b
  end.

(** ** Active handles ([handles.rs])

    An [ActiveHandle] pairs a handle with the backend of the session; in the model the backend is
    the state of the monad, so activation is the registration check and each method delegates. *)
Module ActiveValue.
Section ops.
Context {B T IK N} `{Backend B, Value T, FixedBytes IK, FixedBytes N}.
Implicit Type h : Handle (ValueState T) IK N.
Definition clear h : StateM B unit := activate h ≫= value_clear.
Definition get h : StateM B (option T) := activate h ≫= value_get.
Definition set h (v : T) : StateM B (option T) := h ← activate h; value_set h v.
Definition fast_set h (v : T) : StateM B unit := h ← activate h; value_fast_set h v.
End ops.
End ActiveValue.

Module ActiveMap.
Section ops.
Context {B K V IK N} `{Backend B, Key K, Value V, FixedBytes IK, FixedBytes N}.
Implicit Type h : Handle (MapState K V) IK N.
Definition clear h : StateM B unit := activate h ≫= map_clear.
Definition get h (k : K) : StateM B (option V) := h ← activate h; map_get h k.
Definition fast_insert h (k : K) (v : V) : StateM B unit :=
  h ← activate h; map_fast_insert h k v.
Definition insert h (k : K) (v : V) : StateM B (option V) :=
  h ← activate h; map_insert h k v.
Definition insert_all h (kvs : list (K * V)) : StateM B unit :=
  h ← activate h; map_insert_all h kvs.
Definition remove h (k : K) : StateM B (option V) := h ← activate h; map_remove h k.
Definition fast_remove h (k : K) : StateM B unit := h ← activate h; map_fast_remove h k.
Definition contains h (k : K) : StateM B bool := h ← activate h; map_contains h k.
Definition iter h : StateM B (list (StateResult (K * V))) := activate h ≫= map_iter.
Definition keys h : StateM B (list (StateResult K)) := activate h ≫= map_keys.
Definition values h : StateM B (list (StateResult V)) := activate h ≫= map_values.
Definition len h : StateM B Z := activate h ≫= map_len.
Definition is_empty h : StateM B bool := activate h ≫= map_is_empty.
End ops.
End ActiveMap.

Module ActiveVec.
Section ops.
Context {B T IK N} `{Backend B, Value T, FixedBytes IK, FixedBytes N}.
Implicit Type h : Handle (VecState T) IK N.
Definition clear h : StateM B unit := activate h ≫= vec_clear.
Definition append h (v : T) : StateM B unit := h ← activate h; vec_append h v.
Definition get h : StateM B (list T) := activate h ≫= vec_get.
Definition iter h : StateM B (list (StateResult T)) := activate h ≫= vec_iter.
Definition set h (v : list T) : StateM B unit := h ← activate h; vec_set h v.
Definition add_all h (vs : list T) : StateM B unit := h ← activate h; vec_add_all h vs.
Definition is_empty h : StateM B bool := activate h ≫= vec_is_empty.
Definition len h : StateM B Z := activate h ≫= vec_len.
End ops.
End ActiveVec.

Module ActiveReducer.
Section ops.
Context {B T IK N} `{Backend B, Value T, FixedBytes IK, FixedBytes N}.
Implicit Type h : Handle (ReducerState T) IK N.
Definition clear h : StateM B unit := activate h ≫= reducer_clear.
Definition get h : StateM B (option T) := activate h ≫= reducer_get.
Definition reduce h (v : T) : StateM B unit := h ← activate h; reducer_reduce h v.
End ops.
End ActiveReducer.

Module ActiveAggregator.
Section ops.
Context {B Inp A : Type} {R : Type} {IK N : Type} `{Backend B, Value Inp, Value A, FixedBytes IK, FixedBytes N}.
Implicit Type h : Handle (AggregatorState Inp A R) IK N.
Definition clear h : StateM B unit := activate h ≫= aggregator_clear.
Definition get h : StateM B R := activate h ≫= aggregator_get.
Definition aggregate h (v : Inp) : StateM B unit :=
  h ← activate h; aggregator_aggregate h v.
End ops.
End ActiveAggregator.

(** ** The specification of a backend

    A backend keeps one region of data per state id.  In a region, each state kind represents an
    abstract content for every serialised metakey: an optional value, a finite map, a sequence, a
    reduced value or an accumulator.  An operation through a handle changes the region of the
    handle's id only, and there only what is stored under the handle's metakeys. *)

Definition metakeys {S IK N} `{Metakey IK, Metakey N} (h : Handle S IK N) : bytes :=
  mk_enc (item_key h) ++ mk_enc (namespace h).

Definition handle_wf {S IK N} `{Metakey IK, Metakey N} (h : Handle S IK N) : Prop :=
  mk_wf (item_key h) ∧ mk_wf (namespace h).

Class BackendRep (B : Type) := {
  (** What the representation needs of the whole backend. *)
  backend_ok : B → Prop;
  Region : Type;
  region : B → string → option Region;
  ValRep {T} `{Value T} : Region → bytes → option T → Prop;
  MapRep {K V} `{Key K, !MessageLaws K, EqDecision K, !Countable K, Value V} :
    Region → bytes → gmap K V → Prop;
  VecRep {T} `{Value T} : Region → bytes → list T → Prop;
  RedRep {T} `{Value T} : (T → T → T) → Region → bytes → option T → Prop;
  AggRep {Inp A R} `{Value Inp, Value A} : Aggregator Inp A R → Region → bytes → option A → Prop;
  (** The same for states that were stored before, with the same reducer or aggregator, and whose
      handles are not registered again yet. *)
  VecStored {T} `{Value T} : Region → bytes → list T → Prop;
  RedStored {T} `{Value T} : Reducer T → Region → bytes → option T → Prop;
  AggStored {Inp A R} `{Value Inp, Value A} : Aggregator Inp A R → Region → bytes → option A → Prop;
  (** The reducers and aggregators that the backend runs as they are meant. *)
  red_ok {T} : Reducer T → Prop;
  agg_ok {Inp A R} : Aggregator Inp A R → Prop;
}.

(** [b'] differs from [b] at most in the region of [id], which is [r'] in [b']. *)
Definition updates {B} `{BackendRep B} (b b' : B) (id : string) (r' : Region) : Prop :=
  region b' id = Some r' ∧ ∀ id', id' ≠ id → region b' id' = region b id'.
(** [b'] and [b] hold the same data. *)
Definition same_data {B} `{BackendRep B} (b b' : B) : Prop :=
  ∀ id, region b' id = region b id.
(** Going from region [r] to [r'] keeps what [Rep] represents away from the metakeys [mk]. *)
Definition frames {R X} (Rep : R → bytes → X → Prop) (r r' : R) (mk : bytes) : Prop :=
  ∀ mk' x, length mk' = length mk → mk' ≠ mk → Rep r mk' x → Rep r' mk' x.

(** The two shapes of an operation's contract: it returns [a] and leaves the data as it is, or it
    returns [a] and makes [x'] what the handle's metakeys represent in the region of its id. *)
Definition reads {B A} `{BackendRep B} (m : StateM B A) (b : B) (a : A) : Prop :=
  ∃ b', m b = (Ok a, b') ∧ same_data b b'.
Definition writes {B A X} `{BackendRep B} (Rep : Region → bytes → X → Prop)
    (m : StateM B A) (b : B) (id : string) (r : Region) (mk : bytes) (a : A) (x' : X) : Prop :=
  ∃ b' r', m b = (Ok a, b') ∧ updates b b' id r' ∧ Rep r' mk x' ∧ frames Rep r r' mk.

(** A registration makes what is stored accessible, and what was never stored initial, at every
    metakeys of the handle's size. *)
Definition registers {B S IK N X} `{BackendRep B, FixedBytes IK, FixedBytes N} (Stored Rep : Region → bytes → X → Prop) (x0 : X)
    (m : StateM B (Handle S IK N)) (b : B) (h : Handle S IK N) : Prop :=
  ∃ b' r', m b = (Ok (set_registered h), b') ∧ backend_ok b' ∧ updates b b' (h_id h) r' ∧
    match region b (h_id h) with
    | Some r => ∀ mk x, length mk = metakey_size h → Stored r mk x → Rep r' mk x
    | None => ∀ mk, length mk = metakey_size h → Rep r' mk x0
    end.

(** The length of a vector is a [usize]. *)
Definition vec_fits {T} (l : list T) : Prop := len l < 2 ^ 64.

(** What every backend promises. *)
Class BackendSpec (B : Type) `{Backend B, BackendRep B} : Prop := {
  session_spec b : same_data b (session b);
  drop_session_spec b : same_data b (drop_session b);
  session_ok b : backend_ok b → backend_ok (session b);
  drop_session_ok b : backend_ok b → backend_ok (drop_session b);
  region_ok b id r : region b id = Some r → backend_ok b;
  checkpoint_spec path b : backend_ok b → ∃ o b', checkpoint path b = (o, b') ∧
    backend_ok b' ∧ same_data b b' ∧ (o = Ok tt ∨ ∃ e, o = Err e);

  vec_stored {T} `{Value T} r mk (l : list T) : VecRep r mk l → VecStored r mk l;
  red_stored {T} `{Value T} f r mk (x : option T) : RedRep f r mk x → RedStored f r mk x;
  agg_stored {Inp A R} `{Value Inp, Value A} (ag : Aggregator Inp A R) r mk (x : option A) :
    AggRep ag r mk x → AggStored ag r mk x;

  register_value_spec {T IK N} `{Value T, FixedBytes IK, FixedBytes N} b
    (h : Handle (ValueState T) IK N) :
    backend_ok b → registers ValRep ValRep None (register_value_handle h) b h;
  register_map_spec {K V IK N} `{Key K, !MessageLaws K, EqDecision K, !Countable K, Value V, FixedBytes IK, FixedBytes N} b
    (h : Handle (MapState K V) IK N) :
    backend_ok b → registers MapRep MapRep (∅ : gmap K V) (register_map_handle h) b h;
  register_vec_spec {T IK N} `{Value T, FixedBytes IK, FixedBytes N} b
    (h : Handle (VecState T) IK N) :
    backend_ok b → registers VecStored VecRep [] (register_vec_handle h) b h;
  register_reducer_spec {T IK N} `{Value T, FixedBytes IK, FixedBytes N} b
    (h : Handle (ReducerState T) IK N) :
    backend_ok b → red_ok (extra_data h) →
    registers (RedStored (extra_data h)) (RedRep (extra_data h)) None (register_reducer_handle h) b h;
  register_aggregator_spec {Inp A R IK N} `{Value Inp, Value A, FixedBytes IK, FixedBytes N} b
    (h : Handle (AggregatorState Inp A R) IK N) :
    backend_ok b → agg_ok (extra_data h) →
    registers (AggStored (extra_data h)) (AggRep (extra_data h)) None (register_aggregator_handle h) b h;

  value_get_spec {T IK N} `{Value T, Metakey IK, Metakey N} (h : Handle (ValueState T) IK N) b r x :
    region b (h_id h) = Some r → ValRep r (metakeys h) x → reads (value_get h) b x;
  value_set_spec {T IK N} `{Value T, Metakey IK, Metakey N} (h : Handle (ValueState T) IK N) b r x v :
    region b (h_id h) = Some r → ValRep r (metakeys h) x →
    writes ValRep (value_set h v) b (h_id h) r (metakeys h) x (Some v);
  value_fast_set_spec {T IK N} `{Value T, Metakey IK, Metakey N} (h : Handle (ValueState T) IK N)
    b r x v :
    region b (h_id h) = Some r → ValRep r (metakeys h) x →
    writes ValRep (value_fast_set h v) b (h_id h) r (metakeys h) tt (Some v);
  value_clear_spec {T IK N} `{Value T, Metakey IK, Metakey N} (h : Handle (ValueState T) IK N) b r x :
    region b (h_id h) = Some r → ValRep r (metakeys h) x →
    writes ValRep (value_clear h) b (h_id h) r (metakeys h) tt (None : option T);

  vec_get_spec {T IK N} `{Value T, Metakey IK, Metakey N} (h : Handle (VecState T) IK N) b r x :
    region b (h_id h) = Some r → VecRep r (metakeys h) x → reads (vec_get h) b x;
  vec_iter_spec {T IK N} `{Value T, Metakey IK, Metakey N} (h : Handle (VecState T) IK N) b r x :
    region b (h_id h) = Some r → VecRep r (metakeys h) x → reads (vec_iter h) b (Ok <$> x);
  vec_len_spec {T IK N} `{Value T, Metakey IK, Metakey N} (h : Handle (VecState T) IK N) b r x :
    region b (h_id h) = Some r → VecRep r (metakeys h) x → reads (vec_len h) b (len x);
  vec_is_empty_spec {T IK N} `{Value T, Metakey IK, Metakey N} (h : Handle (VecState T) IK N) b r x :
    region b (h_id h) = Some r → VecRep r (metakeys h) x →
    reads (vec_is_empty h) b (bool_decide (x = []));
  vec_append_spec {T IK N} `{Value T, Metakey IK, Metakey N} (h : Handle (VecState T) IK N) b r x v :
    region b (h_id h) = Some r → VecRep r (metakeys h) x → vec_fits (x ++ [v]) →
    writes VecRep (vec_append h v) b (h_id h) r (metakeys h) tt (x ++ [v]);
  vec_set_spec {T IK N} `{Value T, Metakey IK, Metakey N} (h : Handle (VecState T) IK N) b r x l :
    region b (h_id h) = Some r → VecRep r (metakeys h) x → vec_fits l →
    writes VecRep (vec_set h l) b (h_id h) r (metakeys h) tt l;
  vec_add_all_spec {T IK N} `{Value T, Metakey IK, Metakey N} (h : Handle (VecState T) IK N) b r x l :
    region b (h_id h) = Some r → VecRep r (metakeys h) x → vec_fits (x ++ l) →
    writes VecRep (vec_add_all h l) b (h_id h) r (metakeys h) tt (x ++ l);
  vec_clear_spec {T IK N} `{Value T, Metakey IK, Metakey N} (h : Handle (VecState T) IK N) b r x :
    region b (h_id h) = Some r → VecRep r (metakeys h) x →
    writes VecRep (vec_clear h) b (h_id h) r (metakeys h) tt ([] : list T);

  reducer_get_spec {T IK N} `{Value T, Metakey IK, Metakey N} (h : Handle (ReducerState T) IK N)
    b r x :
    region b (h_id h) = Some r → RedRep (extra_data h) r (metakeys h) x → reads (reducer_get h) b x;
  reducer_reduce_spec {T IK N} `{Value T, Metakey IK, Metakey N} (h : Handle (ReducerState T) IK N)
    b r x (v : T) :
    region b (h_id h) = Some r → RedRep (extra_data h) r (metakeys h) x →
    writes (RedRep (extra_data h)) (reducer_reduce h v) b (h_id h) r (metakeys h) tt
      (Some (match x with Some old => extra_data h old v | None => v end));
  reducer_clear_spec {T IK N} `{Value T, Metakey IK, Metakey N} (h : Handle (ReducerState T) IK N)
    b r x :
    region b (h_id h) = Some r → RedRep (extra_data h) r (metakeys h) x →
    writes (RedRep (extra_data h)) (reducer_clear h) b (h_id h) r (metakeys h) tt (None : option T);

  aggregator_get_spec {Inp A R IK N} `{Value Inp, Value A, Metakey IK, Metakey N}
    (h : Handle (AggregatorState Inp A R) IK N) b r (x : option A) :
    region b (h_id h) = Some r → AggRep (extra_data h) r (metakeys h) x →
    ∃ b', aggregator_get h b =
      (accumulator_into_result (extra_data h) (default (create_accumulator (extra_data h)) x), b') ∧
      same_data b b';
  aggregator_aggregate_spec {Inp A R IK N} `{Value Inp, Value A, Metakey IK, Metakey N}
    (h : Handle (AggregatorState Inp A R) IK N) b r (x : option A) v :
    region b (h_id h) = Some r → AggRep (extra_data h) r (metakeys h) x →
    writes (AggRep (extra_data h)) (aggregator_aggregate h v) b (h_id h) r (metakeys h) tt
      (Some (agg_add (extra_data h) (default (create_accumulator (extra_data h)) x) v));
  aggregator_clear_spec {Inp A R IK N} `{Value Inp, Value A, Metakey IK, Metakey N}
    (h : Handle (AggregatorState Inp A R) IK N) b r (x : option A) :
    region b (h_id h) = Some r → AggRep (extra_data h) r (metakeys h) x →
    writes (AggRep (extra_data h)) (aggregator_clear h) b (h_id h) r (metakeys h) tt (None : option A);
}.

(** The part of the contract about map states, as a class of its own. *)
Class MapSpec (B K V IK N : Type) `{Backend B, BackendRep B, Key K, !MessageLaws K,
    EqDecision K, !Countable K, Value V, Metakey IK, Metakey N} : Prop := {
  map_get_spec (h : Handle (MapState K V) IK N) b r m k :
    region b (h_id h) = Some r → MapRep r (metakeys h) m → reads (map_get h k) b (m !! k);
  map_contains_spec (h : Handle (MapState K V) IK N) b r m k :
    region b (h_id h) = Some r → MapRep r (metakeys h) m →
    reads (map_contains h k) b (bool_decide (is_Some (m !! k)));
  map_len_spec (h : Handle (MapState K V) IK N) b r m :
    region b (h_id h) = Some r → MapRep r (metakeys h) m →
    reads (map_len h) b (Z.of_nat (size m));
  map_is_empty_spec (h : Handle (MapState K V) IK N) b r m :
    region b (h_id h) = Some r → MapRep r (metakeys h) m →
    reads (map_is_empty h) b (bool_decide (m = ∅));
  map_insert_spec (h : Handle (MapState K V) IK N) b r m k v :
    region b (h_id h) = Some r → MapRep r (metakeys h) m →
    writes MapRep (map_insert h k v) b (h_id h) r (metakeys h) (m !! k) (<[k:=v]> m);
  map_fast_insert_spec (h : Handle (MapState K V) IK N) b r m k v :
    region b (h_id h) = Some r → MapRep r (metakeys h) m →
    writes MapRep (map_fast_insert h k v) b (h_id h) r (metakeys h) tt (<[k:=v]> m);
  map_insert_all_spec (h : Handle (MapState K V) IK N) b r m kvs :
    region b (h_id h) = Some r → MapRep r (metakeys h) m →
    writes MapRep (map_insert_all h kvs) b (h_id h) r (metakeys h) tt
      (foldl (λ m kv, <[kv.1:=kv.2]> m) m kvs);
  map_remove_spec (h : Handle (MapState K V) IK N) b r m k :
    region b (h_id h) = Some r → MapRep r (metakeys h) m →
    writes MapRep (map_remove h k) b (h_id h) r (metakeys h) (m !! k) (delete k m);
  map_fast_remove_spec (h : Handle (MapState K V) IK N) b r m k :
    region b (h_id h) = Some r → MapRep r (metakeys h) m →
    writes MapRep (map_fast_remove h k) b (h_id h) r (metakeys h) tt (delete k m);
  map_clear_spec (h : Handle (MapState K V) IK N) b r m :
    region b (h_id h) = Some r → MapRep (K:=K) (V:=V) r (metakeys h) m →
    writes (MapRep (K:=K) (V:=V)) (map_clear h) b (h_id h) r (metakeys h) tt ∅;
  map_iter_spec (h : Handle (MapState K V) IK N) b r m :
    handle_wf h → region b (h_id h) = Some r → MapRep r (metakeys h) m →
    ∃ l, reads (map_iter h) b (Ok <$> l) ∧ l ≡ₚ map_to_list m;
  map_keys_spec (h : Handle (MapState K V) IK N) b r (m : gmap K V) :
    handle_wf h → region b (h_id h) = Some r → MapRep r (metakeys h) m →
    ∃ l, reads (map_keys h) b (Ok <$> l) ∧ l ≡ₚ (map_to_list m).*1;
  map_values_spec (h : Handle (MapState K V) IK N) b r (m : gmap K V) :
    region b (h_id h) = Some r → MapRep r (metakeys h) m →
    ∃ l, reads (map_values h) b (Ok <$> l) ∧ l ≡ₚ (map_to_list m).*2;
}.

(** ** Facts shared by the implementations and the clients of the interface *)

Lemma same_data_refl {B} `{BackendRep B} (b : B) : same_data b b.
Proof. done. Qed.
#[export] Hint Resolve same_data_refl : arcon.

Lemma frames_refl {R X} (Rep : R → bytes → X → Prop) r mk : frames Rep r r mk.
Proof. by intros ?. Qed.
Lemma frames_trans {R X} (Rep : R → bytes → X → Prop) r1 r2 r3 mk :
  frames Rep r1 r2 mk → frames Rep r2 r3 mk → frames Rep r1 r3 mk.
Proof. intros H1 H2 mk' x Hl Hne Hx. eauto. Qed.
Lemma updates_trans {B} `{BackendRep B} (b1 b2 b3 : B) id r2 r3 :
  updates b1 b2 id r2 → updates b2 b3 id r3 → updates b1 b3 id r3.
Proof. intros [_ H1] [H2 H3]. split; [done|]. intros id' Hne. by rewrite H3, H1. Qed.
Lemma updates_refl {B} `{BackendRep B} (b : B) id r : region b id = Some r → updates b b id r.
Proof. by split. Qed.
Lemma same_data_trans {B} `{BackendRep B} (b1 b2 b3 : B) :
  same_data b1 b2 → same_data b2 b3 → same_data b1 b3.
Proof. intros H1 H2 id. by rewrite H2. Qed.
#[export] Hint Resolve frames_refl updates_refl : arcon.
#[export] Hint Resolve frames_trans updates_trans same_data_trans : arcon.

Section metakey_lemmas.
Context {S : StateType} {IK N : Type} `{Metakey IK, Metakey N}.
Implicit Type h : Handle S IK N.

Lemma serialize_metakeys_into_ok h (dest : bytes) :
  len dest ≤ 2 ^ 40 → serialize_metakeys_into h dest = Ok (dest ++ metakeys h).
Proof.
  intros Hd. unfold serialize_metakeys_into, serialize_into, metakeys.
  pose proof (mk_small (T:=IK)). pose proof (mk_small (T:=N)).
  rewrite mk_into_vec by (unfold usize_max; lia). cbn [mbind outcome_bind].
  rewrite mk_into_vec by (unfold usize_max; rewrite length_app, mk_enc_length; lia).
  by rewrite (assoc_L (++)).
Qed.
Lemma serialize_metakeys_ok h : serialize_metakeys h = Ok (metakeys h).
Proof. unfold serialize_metakeys. by rewrite serialize_metakeys_into_ok. Qed.
Lemma serialize_metakeys_and_key_ok {K} `{Key K, !MessageLaws K} h (k : K) :
  serialize_metakeys_and_key h k = Ok (metakeys h ++ ld k).
Proof.
  unfold serialize_metakeys_and_key, serialize_metakeys_and_key_into.
  rewrite serialize_metakeys_into_ok by (simpl; lia). cbn [mbind outcome_bind app].
  apply protobuf_serialize_into_ok.
Qed.
Lemma length_metakeys h : length (metakeys h) = metakey_size h.
Proof. unfold metakeys, metakey_size. by rewrite length_app, !mk_enc_length. Qed.
Lemma metakeys_inj h h' :
  handle_wf h → handle_wf h' → metakeys h = metakeys h' →
  item_key h = item_key h' ∧ namespace h = namespace h'.
Proof.
  unfold metakeys. intros [] [] [He1 He2]%app_inj_1; [|by rewrite !mk_enc_length].
  split; by apply mk_enc_inj.
Qed.
End metakey_lemmas.

(** The namespace and item key of a handle select disjoint data: two handles of the same id and
    different metakeys never overlap. *)
Lemma metakeys_disjoint {S IK N} `{Metakey IK, Metakey N} (h h' : Handle S IK N) :
  handle_wf h → handle_wf h' → (item_key h, namespace h) ≠ (item_key h', namespace h') →
  metakeys h ≠ metakeys h' ∧ length (metakeys h) = length (metakeys h').
Proof.
  intros Hw Hw' Hne. split; [|by rewrite !length_metakeys].
  intros [Hi Hn]%metakeys_inj; [congruence|done..].
Qed.
