(* ===== verification/Tables.v ===== *)
(** Tables of bytes: how a finite map from byte strings to stored data represents the contents of the
    state kinds.  The in-memory backend stores boxed values, the disk backends stored encodings;
    [box] is how a value is stored. *)

From S2P Require Import Prelude Error Serialization StateBackend.

Section tables.
Context {D : Type}.
Abbreviation table := (gmap bytes D).
Implicit Types (t : table) (mk : bytes).

(** A value, a reduced value or an accumulator is the entry of the metakeys. *)
Definition entry_rep {X} (box : X → D) t mk (x : option X) : Prop := t !! mk = box <$> x.

(** The entries under the metakeys are those of a map, and no key is too short to be sliced. *)
Definition entries_rep {K V} `{Key K, !MessageLaws K, EqDecision K, !Countable K} (box : V → D)
    t mk (m : gmap K V) : Prop :=
  (∀ k, t !! (mk ++ ld k) = box <$> m !! k) ∧
  (∀ key d, t !! key = Some d →
    (length mk ≤ length key)%nat ∧ (take (length mk) key = mk → ∃ k, key = mk ++ ld k)).

(** A write at the metakeys does not touch what other metakeys of the same size represent. *)
Lemma frames_entry_alter {X} (box : X → D) t t' mk :
  (∀ k, k ≠ mk → t' !! k = t !! k) → frames (entry_rep box) t t' mk.
Proof. intros Ht mk' x _ Hne. unfold entry_rep. by rewrite Ht. Qed.
Lemma lookup_insert_insert_ne t mk d d' k :
  k ≠ mk → <[mk := d]> (<[mk := d']> t) !! k = t !! k.
Proof. intros. by rewrite !lookup_insert_ne. Qed.

Definition is_under mk (kv : bytes * D) : Prop := take (length mk) kv.1 = mk.
#[export] Instance is_under_dec mk kv : Decision (is_under mk kv).
Proof. unfold is_under. apply _. Defined.
Definition long_keys mk (l : list (bytes * D)) : Prop :=
  Forall (λ kv, (length mk ≤ length kv.1)%nat) l.

Section entries.
Context {K V : Type} `{Key K, !MessageLaws K, EqDecision K, !Countable K} {box : V → D}.
Implicit Type m : gmap K V.
Abbreviation map_rep := (entries_rep (K:=K) box).

Lemma entries_rep_long t mk m : map_rep t mk m → long_keys mk (map_to_list t).
Proof.
  intros [_ Hl]. apply Forall_forall. intros [k d] Hk%elem_of_map_to_list. by eapply Hl.
Qed.

(** The entries under the metakeys, in the order of the table, are those of the map. *)
Lemma entries_rep_list t mk m :
  map_rep t mk m →
  filter (is_under mk) (map_to_list t) ≡ₚ (λ kv, (mk ++ ld kv.1, box kv.2)) <$> map_to_list m.
Proof.
  intros [Hg Hl]. apply NoDup_Permutation.
  - apply NoDup_filter, NoDup_map_to_list.
  - apply NoDup_fmap_2_strong; [|apply NoDup_map_to_list].
    intros [k1 v1] [k2 v2] H1%elem_of_map_to_list H2%elem_of_map_to_list E.
    injection E as E%(inj (mk ++.))%ld_inj _. cbn in E. congruence.
  - intros [key d]. rewrite list_elem_of_filter, elem_of_map_to_list, list_elem_of_fmap.
    unfold is_under. cbn. split.
    + intros [Hu Ht]. destruct (Hl _ _ Ht) as [_ Hk]. destruct (Hk Hu) as [k ->].
      rewrite Hg in Ht. destruct (m !! k) as [v|] eqn:Hm; simplify_eq/=.
      exists (k, v). by rewrite elem_of_map_to_list.
    + intros ([k v] & Heq & Hm%elem_of_map_to_list). simplify_eq/=.
      by rewrite Hg, Hm, take_app_length.
Qed.

(** Updates of one entry. *)
Lemma entries_rep_insert t mk m k v :
  map_rep t mk m → map_rep (<[mk ++ ld k := box v]> t) mk (<[k := v]> m).
Proof.
  intros [Hg Hl]. split.
  - intros k'. destruct (decide (k' = k)) as [->|Hne]; [by simplify_map_eq|].
    rewrite !lookup_insert_ne; [apply Hg|done|]. by intros E%(inj (mk ++.))%ld_inj.
  - intros key d [[<- _]|[_ Ht]]%lookup_insert_Some; [|by eapply Hl].
    rewrite length_app. split; [lia|eauto].
Qed.
Lemma entries_rep_delete t mk m k :
  map_rep t mk m → map_rep (delete (mk ++ ld k) t) mk (delete k m).
Proof.
  intros [Hg Hl]. split.
  - intros k'. destruct (decide (k' = k)) as [->|Hne]; [by simplify_map_eq|].
    rewrite !lookup_delete_ne; [apply Hg|done|]. by intros E%(inj (mk ++.))%ld_inj.
  - intros key d [_ Ht]%lookup_delete_Some. by eapply Hl.
Qed.
(** Removing every entry under the metakeys empties the map. *)
Lemma entries_rep_clear t t' mk m :
  (∀ key, t' !! key = if decide (take (length mk) key = mk) then None else t !! key) →
  map_rep t mk m → map_rep t' mk ∅.
Proof.
  intros Ht [Hg Hl]. split.
  - intros k. by rewrite Ht, lookup_empty, take_app_length, decide_True.
  - intros key d. rewrite Ht. case_decide; [done|]. intros Hk. by destruct (Hl _ _ Hk).
Qed.

(** Changing only entries under the metakeys, and never adding a short key, frames. *)
Lemma entries_frames t t' mk :
  (∀ key, take (length mk) key ≠ mk → t' !! key = t !! key) →
  (∀ key d, t' !! key = Some d → take (length mk) key = mk → (length mk ≤ length key)%nat) →
  frames map_rep t t' mk.
Proof.
  intros Hsame Hlong mk' m Hlen Hne [Hg Hl].
  assert (Hother : ∀ key, take (length mk) key = mk' → t' !! key = t !! key).
  { intros key Hk. apply Hsame. congruence. }
  split.
  - intros k. rewrite Hother; [apply Hg|]. by rewrite <- Hlen, take_app_length.
  - intros key d Hk. rewrite Hlen. destruct (decide (take (length mk) key = mk)) as [E|E].
    + split; [by eapply Hlong|]. intros. congruence.
    + rewrite <- Hlen. eapply Hl. by rewrite <- Hsame.
Qed.
Lemma entries_frames_insert t mk k d : frames map_rep t (<[mk ++ ld (T:=K) k := d]> t) mk.
Proof.
  apply entries_frames.
  - intros key Hk. rewrite lookup_insert_ne; [done|]. intros <-. by rewrite take_app_length in Hk.
  - intros key d' _ <-. rewrite length_take. lia.
Qed.
Lemma entries_frames_delete t mk k : frames map_rep t (delete (mk ++ ld (T:=K) k) t) mk.
Proof.
  apply entries_frames.
  - intros key Hk. rewrite lookup_delete_ne; [done|]. intros <-. by rewrite take_app_length in Hk.
  - intros key d' _ <-. rewrite length_take. lia.
Qed.
Lemma entries_frames_clear t t' mk :
  (∀ key, t' !! key = if decide (take (length mk) key = mk) then None else t !! key) →
  frames map_rep t t' mk.
Proof.
  intros Ht. apply entries_frames; intros key.
  - intros Hk. by rewrite Ht, decide_False.
  - intros d. rewrite Ht. by case_decide.
Qed.

(** A sequence of insertions. *)
Lemma entries_rep_insert_all t mk m kvs :
  map_rep t mk m →
  map_rep (foldl (λ t kv, <[mk ++ ld kv.1 := box kv.2]> t) t kvs) mk (foldl (λ m kv, <[kv.1:=kv.2]> m) m kvs).
Proof.
  revert t m. induction kvs as [|[k v] kvs IH]; intros t m Hm; [done|].
  apply (IH (<[mk ++ ld k := box v]> t) (<[k := v]> m)). by apply entries_rep_insert.
Qed.
Lemma entries_frames_insert_all t mk (kvs : list (K * V)) :
  frames map_rep t (foldl (λ t kv, <[mk ++ ld kv.1 := box kv.2]> t) t kvs) mk.
Proof.
  revert t. induction kvs as [|[k v] kvs IH]; intros t; cbn [foldl]; [apply frames_refl|].
  eapply frames_trans; [|apply IH]. apply entries_frames_insert.
Qed.
End entries.
End tables.
#[export] Hint Resolve frames_entry_alter entries_rep_insert entries_rep_delete : arcon.
#[export] Hint Resolve entries_frames_insert entries_frames_delete : arcon.
