(* ===== verification/ByteStore.v ===== *)
(** What the disk backends ([arcon_state/src/sled], [arcon_state/src/rocks]) share: the encodings that
    both write under the metakeys, the loops that read them, and the merge operators. *)

From S2P Require Import Prelude Error Serialization StateBackend Tables.

(** ** Vectors ([vec_ops.rs])

    A vector is stored as the number of its elements, in eight bytes, and its encoded elements. *)
Section vec.
Context `{BuildProfile} {T : Type} `{Value T}.

(** The operand of [vec_append]: one element, with its count.  (The capacities the code reserves
    have no effect on the contents and are left out.) *)
Definition encode_one (value : T) : StateResult bytes :=
  serialized ← serialize_into ([] : bytes) (UInt 1 : usize);
  protobuf_serialize_into serialized value.

(** The storage [vec_set] writes. *)
Fixpoint push_all (storage : bytes) (value : list T) : StateResult bytes :=
  match value with
  | [] => Ok storage
  | elem :: value' => storage ← protobuf_serialize_into storage elem; push_all storage value'
  end.
Definition encode_vec (value : list T) : StateResult bytes :=
  storage ← serialize_into ([] : bytes) (UInt (len value) : usize);
  push_all storage value.

(** The operand of [vec_add_all]: the length is filled in after the elements are counted. *)
Fixpoint push_counting (serialized : bytes) (n : Z) (values : list T) : StateResult (bytes * Z) :=
  match values with
  | [] => Ok (serialized, n)
  | elem :: values' =>
      n ← u_add 64 n 1;
      serialized ← protobuf_serialize_into serialized elem;
      push_counting serialized n values'
  end.
Definition encode_counted (values : list T) : StateResult bytes :=
  serialized ← serialize_into ([] : bytes) (UInt 0 : usize);
  p ← push_counting serialized 0 values;
  slice ← serialize_into (as_mut_slice p.1) (UInt p.2 : usize);
  Ok (slice_contents slice).

(** [while !reader.is_empty() { res.push(deserialize_from(&mut reader)?) }]: an iteration that consumes
    nothing would repeat forever, so as many iterations as there are bytes are enough. *)
Fixpoint read_elements (fuel : nat) (reader : bytes) (res : list T) : StateResult (list T) :=
  match fuel, reader with
  | _, [] => Ok res
  | O, _ => Diverge
  | S fuel', _ =>
      p ← protobuf_deserialize_from reader;
      read_elements fuel' p.2 (res ++ [p.1])
  end.
Definition decode_vec (serialized : bytes) : StateResult (list T) :=
  p ← (deserialize_from serialized : StateResult (usize * bytes));
  res ← read_elements (length p.2) p.2 [];
  if bool_decide (len res = uint_val p.1) then Ok res
  else Panic "assertion failed: `(left == right)`".

(** The items of [vec_iter].  How much of its input prost has consumed when it rejects it is not
    known, so the list ends with the first error. *)
Fixpoint iter_elements (fuel : nat) (reader : bytes) : list (StateResult T) :=
  match fuel, reader with
  | _, [] | O, _ => []
  | S fuel', _ =>
      match protobuf_deserialize_from reader with
      | Ok p => Ok p.1 :: iter_elements fuel' p.2
      | Err e => [Err e]
      | Panic msg => [Panic msg]
      | Diverge => [Diverge]
      end
  end.
Definition decode_iter (serialized : bytes) : StateResult (list (StateResult T)) :=
  p ← (deserialize_from serialized : StateResult (usize * bytes));
  Ok (iter_elements (length p.2) p.2).

Definition decode_len (storage : bytes) : StateResult Z :=
  match storage with
  | [] => Ok 0
  | _ => p ← (deserialize_from storage : StateResult (usize * bytes)); Ok (uint_val p.1)
  end.
End vec.

(** ** Merge operators

    An operator maps the stored operand, if there is one, and further ones to what is stored next;
    [None] is the failure it reports to the database. *)

(** [.or_else(|e| { eprintln!(..); Err(()) }).ok()?] *)
Definition or_none {A B} (o : StateResult A) (k : A → StateResult (option B)) : StateResult (option B) :=
  match o with
  | Ok a => k a
  | Err _ => Ok None
  | Panic msg => Panic msg
  | Diverge => Diverge
  end.

(** [existent.into_iter().chain(rest)] *)
Definition chain {A} (existent : option A) (rest : list A) : list A := option_list existent ++ rest.
Lemma chain_app {A} (existent : option A) l1 l2 : chain existent (l1 ++ l2) = chain existent l1 ++ l2.
Proof. unfold chain. by rewrite (assoc_L (++)). Qed.

Section vec_merge.
Context `{BuildProfile}.

Fixpoint merge_operands (result : bytes) (n : Z) (ops : list bytes) : StateResult (option (bytes * Z)) :=
  match ops with
  | [] => Ok (Some (result, n))
  | op :: ops' =>
      or_none (deserialize_from op : StateResult (usize * bytes)) (λ p,
        n ← u_add 64 n (uint_val p.1);
        merge_operands (result ++ p.2) n ops')
  end.
Definition merge_vecs (ops : list bytes) : StateResult (option bytes) :=
  or_none (serialize_into ([] : bytes) (UInt 0 : usize)) (λ result,
    merged ← merge_operands result 0 ops;
    match merged with
    | None => Ok None
    | Some (result, n) =>
        or_none (serialize_into (as_mut_slice result) (UInt n : usize)) (λ slice,
          Ok (Some (slice_contents slice)))
    end).
End vec_merge.

(** [reducer_ops.rs]: the fold stops at the first operand that does not decode. *)
Section reducer_merge.
Context {T : Type} `{Value T} (reduce_fn : Reducer T).

Fixpoint try_reduce (acc : option T) (ops : list bytes) : StateResult (option T) :=
  match ops with
  | [] => Ok acc
  | op :: ops' =>
      value ← protobuf_deserialize op;
      try_reduce (Some (match acc with None => value | Some old => reduce_fn old value end)) ops'
  end.
Definition merge_reduced (ops : list bytes) : StateResult (option bytes) :=
  or_none (try_reduce None ops) (λ res,
    match res with
    | Some v => or_none (protobuf_serialize v) (λ serialized, Ok (Some serialized))
    | None => Ok None
    end).
End reducer_merge.

(** [aggregator_ops.rs]: an operand is marked as an accumulator or as a value. *)
Definition ACCUMULATOR_MARKER : Z := 172.
Definition VALUE_MARKER : Z := 0.

Section aggregator_merge.
Context {Inp A R : Type} `{Value Inp, Value A} (aggregator : Aggregator Inp A R).

Definition first_accumulator (first : option bytes) : StateResult (option A) :=
  match first with
  | None => Ok (Some (create_accumulator aggregator))
  | Some (marker :: operand) =>
      if marker =? ACCUMULATOR_MARKER then
        or_none (protobuf_deserialize operand) (λ acc, Ok (Some acc))
      else if marker =? VALUE_MARKER then
        or_none (protobuf_deserialize operand) (λ value : Inp,
          Ok (Some (agg_add aggregator (create_accumulator aggregator) value)))
      else Ok None
  | Some [] => Ok None
  end.
Fixpoint merge_slices (accumulator : A) (slices : list bytes) : StateResult (option A) :=
  match slices with
  | [] => Ok (Some accumulator)
  | (marker :: operand) :: slices' =>
      if marker =? ACCUMULATOR_MARKER then
        or_none (protobuf_deserialize operand) (λ second_acc,
          accumulator ← merge_accumulators aggregator accumulator second_acc;
          merge_slices accumulator slices')
      else if marker =? VALUE_MARKER then
        or_none (protobuf_deserialize operand) (λ value : Inp,
          merge_slices (agg_add aggregator accumulator value) slices')
      else Ok None
  | [] :: _ => Ok None
  end.
Definition merge_aggregated (ops : list bytes) : StateResult (option bytes) :=
  first ← first_accumulator (head ops);
  match first with
  | None => Ok None
  | Some accumulator =>
      merged ← merge_slices accumulator (tail ops);
      match merged with
      | None => Ok None
      | Some accumulator =>
          or_none (protobuf_serialize_into [ACCUMULATOR_MARKER] accumulator) (λ result, Ok (Some result))
      end
  end.

(** [assert_eq!(serialized[0], ACCUMULATOR_MARKER)] and decoding the rest. *)
Definition decode_accumulator (serialized : bytes) : StateResult A :=
  match serialized with
  | [] => Panic "index out of bounds: the len is 0 but the index is 0"
  | marker :: operand =>
      if bool_decide (marker = ACCUMULATOR_MARKER) then protobuf_deserialize operand
      else Panic "assertion failed: `(left == right)`"
  end.
(** The operand of [aggregator_aggregate]. *)
Definition encode_value (value : Inp) : StateResult bytes :=
  protobuf_serialize_into [VALUE_MARKER] value.
End aggregator_merge.

(** ** What is stored *)

Definition vec_enc {T} `{Value T} (l : list T) : bytes := to_le_bytes 8 (len l) ++ (l ≫= ld).
Definition acc_enc {A} `{Value A} (a : A) : bytes := ACCUMULATOR_MARKER :: ld a.

(** A vector that was never written has no entry. *)
Definition vec_bytes {T} `{Value T} (t : gmap bytes bytes) (mk : bytes) (l : list T) : Prop :=
  (t !! mk = Some (vec_enc l) ∧ vec_fits l) ∨ (t !! mk = None ∧ l = []).

Lemma frames_vec_bytes {T} `{Value T} (t t' : gmap bytes bytes) mk :
  (∀ k, k ≠ mk → t' !! k = t !! k) → frames (vec_bytes (T:=T)) t t' mk.
Proof. intros Ht mk' x _ Hne. unfold vec_bytes. by rewrite Ht. Qed.

(** ** Lemmas: vectors *)

Lemma usize_into_vec (target : bytes) n :
  len target ≤ 2 ^ 32 →
  serialize_into target (UInt n : usize) = Ok (target ++ to_le_bytes 8 n).
Proof.
  intros Ht. unfold serialize_into. cbn [fb_serialize_into FixedBytes_uint].
  rewrite (int_into_vec 8); [done|apply length_to_le_bytes|unfold usize_max; lia].
Qed.
Lemma usize_from_slice n (rest : bytes) :
  0 ≤ n < 2 ^ 64 → deserialize_from (to_le_bytes 8 n ++ rest) = Ok (UInt n : usize, rest).
Proof. intros Hn. unfold deserialize_from. by apply (uint_from_slice 8 (UInt n)). Qed.
(** Filling in a length that was reserved in front. *)
Lemma usize_fill n n0 (rest : bytes) :
  (slice ← serialize_into (as_mut_slice (to_le_bytes 8 n0 ++ rest)) (UInt n : usize); Ok (slice_contents slice))
  = Ok (to_le_bytes 8 n ++ rest).
Proof.
  unfold serialize_into. cbn [fb_serialize_into FixedBytes_uint]. unfold int_serialize_into.
  cbn [remaining_mut BufMut_MutSlice as_mut_slice unwritten uint_val].
  rewrite length_app, !length_to_le_bytes, (proj2 (Z.leb_le _ _)) by lia. cbn [mbind outcome_bind].
  unfold slice_contents. cbn [put_slice BufMut_MutSlice written unwritten as_mut_slice].
  pose proof (drop_app_length (to_le_bytes 8 n0) rest) as Hd. rewrite length_to_le_bytes in *. by rewrite Hd.
Qed.

Section vec_lemmas.
Context `{BuildProfile} {T : Type} `{Value T}.
Implicit Types (l : list T) (v : T).

Lemma vec_fits_u64 l : vec_fits l → in_u 64 (len l).
Proof. unfold vec_fits, in_u. lia. Qed.

Lemma encode_one_ok v : encode_one v = Ok (vec_enc [v]).
Proof.
  unfold encode_one. rewrite usize_into_vec by (simpl; lia). cbn [mbind outcome_bind].
  rewrite protobuf_serialize_into_ok. unfold vec_enc. cbn [mbind list_bind length]. by rewrite app_nil_r.
Qed.
Lemma push_all_ok storage l : push_all storage l = Ok (storage ++ (l ≫= ld)).
Proof.
  revert storage. induction l as [|v l IH]; intros storage; cbn; [by rewrite app_nil_r|].
  rewrite protobuf_serialize_into_ok. cbn. by rewrite IH, <- (assoc_L (++)).
Qed.
Lemma encode_vec_ok l : encode_vec l = Ok (vec_enc l).
Proof.
  unfold encode_vec. rewrite usize_into_vec by (simpl; lia). cbn [mbind outcome_bind app].
  apply push_all_ok.
Qed.
Lemma push_counting_ok serialized n l :
  0 ≤ n → in_u 64 (n + len l) →
  push_counting serialized n l = Ok (serialized ++ (l ≫= ld), n + len l).
Proof.
  revert serialized n. induction l as [|v l IH]; intros s n Hn Hl; cbn -[Z.add].
  { by rewrite app_nil_r, Z.add_0_r. }
  cbn [length] in Hl. unfold in_u in Hl.
  rewrite u_add_ok by (unfold in_u; lia). cbn [mbind outcome_bind].
  rewrite protobuf_serialize_into_ok. cbn [mbind outcome_bind].
  rewrite IH by (unfold in_u; lia). rewrite <- (assoc_L (++)). do 2 f_equal. lia.
Qed.
Lemma encode_counted_ok l : vec_fits l → encode_counted l = Ok (vec_enc l).
Proof.
  intros Hl. unfold encode_counted. rewrite usize_into_vec by (simpl; lia). cbn [mbind outcome_bind app].
  rewrite push_counting_ok by (lia || by apply vec_fits_u64). cbn [mbind outcome_bind fst snd].
  apply usize_fill.
Qed.

(** Reading back takes an iteration per element, each of which has at least one byte. *)
Lemma read_elements_ok fuel l res :
  (length (l ≫= ld) ≤ fuel)%nat → read_elements fuel (l ≫= ld) res = Ok (res ++ l).
Proof.
  revert fuel res. induction l as [|v l IH]; intros fuel res Hf.
  { destruct fuel; cbn; by rewrite app_nil_r. }
  pose proof (ld_nonempty v) as Hv. cbn [mbind list_bind] in *. rewrite length_app in Hf.
  assert (0 < length (ld v))%nat by (destruct (ld v); [done|cbn; lia]).
  destruct fuel as [|fuel]; [lia|]. cbn [read_elements].
  destruct (ld v ++ _) as [|b bs] eqn:E; [by apply app_eq_nil in E as [? _]|]. rewrite <- E.
  rewrite protobuf_deserialize_from_ok. cbn [mbind outcome_bind fst snd].
  rewrite IH by lia. by rewrite <- (assoc_L (++)).
Qed.
Lemma decode_vec_ok l : vec_fits l → decode_vec (vec_enc l) = Ok l.
Proof.
  intros Hl. unfold decode_vec, vec_enc. rewrite usize_from_slice by (unfold vec_fits in Hl; lia).
  cbn [mbind outcome_bind fst snd uint_val]. rewrite read_elements_ok by done. cbn.
  by rewrite bool_decide_eq_true_2.
Qed.
Lemma iter_elements_ok fuel l :
  (length (l ≫= ld) ≤ fuel)%nat → iter_elements fuel (l ≫= ld) = Ok <$> l.
Proof.
  revert fuel. induction l as [|v l IH]; intros fuel Hf; [by destruct fuel|].
  pose proof (ld_nonempty v) as Hv. cbn [mbind list_bind] in *. rewrite length_app in Hf.
  assert (0 < length (ld v))%nat by (destruct (ld v); [done|cbn; lia]).
  destruct fuel as [|fuel]; [lia|]. cbn [iter_elements].
  destruct (ld v ++ _) as [|b bs] eqn:E; [by apply app_eq_nil in E as [? _]|]. rewrite <- E.
  rewrite protobuf_deserialize_from_ok. cbn. by rewrite IH by lia.
Qed.
Lemma decode_iter_ok l : vec_fits l → decode_iter (vec_enc l) = Ok (Ok <$> l).
Proof.
  intros Hl. unfold decode_iter, vec_enc. rewrite usize_from_slice by (unfold vec_fits in Hl; lia).
  cbn [mbind outcome_bind fst snd]. by rewrite iter_elements_ok.
Qed.
Lemma vec_enc_length l : (8 ≤ length (vec_enc l))%nat.
Proof. unfold vec_enc. rewrite length_app, length_to_le_bytes. lia. Qed.
Lemma decode_len_ok l : vec_fits l → decode_len (vec_enc l) = Ok (len l).
Proof.
  intros Hl. unfold decode_len. pose proof (vec_enc_length l).
  destruct (vec_enc l) as [|b bs] eqn:E; [cbn in *; lia|]. rewrite <- E. unfold vec_enc.
  by rewrite usize_from_slice by (unfold vec_fits in Hl; lia).
Qed.

(** Merging vectors concatenates them. *)
Lemma merge_operands_ok result n (ls : list (list T)) :
  0 ≤ n → in_u 64 (n + len (concat ls)) →
  merge_operands result n (vec_enc <$> ls) = Ok (Some (result ++ (concat ls ≫= ld), n + len (concat ls))).
Proof.
  revert result n. induction ls as [|l ls IH]; intros result n Hn Hl; cbn [fmap list_fmap concat].
  { cbn. by rewrite app_nil_r, Z.add_0_r. }
  cbn [concat] in Hl. rewrite length_app in Hl. unfold in_u in Hl.
  cbn [merge_operands]. unfold vec_enc at 1. rewrite usize_from_slice by lia.
  cbn [or_none fst snd uint_val]. rewrite u_add_ok by (unfold in_u; lia). cbn [mbind outcome_bind].
  rewrite IH by (unfold in_u; lia). rewrite length_app, bind_app, <- (assoc_L (++)). do 3 f_equal. lia.
Qed.
Lemma merge_vecs_ok (ls : list (list T)) :
  vec_fits (concat ls) → merge_vecs (vec_enc <$> ls) = Ok (Some (vec_enc (concat ls))).
Proof.
  intros Hl. unfold merge_vecs. rewrite usize_into_vec by (simpl; lia). cbn [or_none app].
  rewrite merge_operands_ok by (lia || by apply vec_fits_u64). cbn [mbind outcome_bind].
  pose proof (usize_fill (0 + len (concat ls)) 0 (concat ls ≫= ld)) as Hf.
  destruct (serialize_into _ _); cbn [mbind outcome_bind or_none] in *; [|done..]. injection Hf as ->. done.
Qed.

Context (t : gmap bytes bytes) (mk : bytes) (x : list T) (Hx : vec_bytes t mk x).

Lemma vec_bytes_fits : vec_fits x.
Proof using Hx. by destruct Hx as [[_ ?]|[_ ->]]. Qed.
(** Merging an encoded vector into the entry appends it. *)
Lemma vec_bytes_merge l :
  vec_fits (x ++ l) → merge_vecs (chain (t !! mk) [vec_enc l]) = Ok (Some (vec_enc (x ++ l))).
Proof using Hx.
  intros Hl. destruct Hx as [[-> _]|[-> ->]].
  - pose proof (merge_vecs_ok [x; l]) as Hm. cbn [concat] in Hm. rewrite app_nil_r in Hm. by apply Hm.
  - pose proof (merge_vecs_ok [l]) as Hm. cbn [concat] in Hm. rewrite app_nil_r in Hm. by apply Hm.
Qed.
End vec_lemmas.

(** ** Lemmas: reducers and aggregators *)

Lemma merge_reduced_ok {T} `{Value T} (f : Reducer T) (x : option T) v :
  merge_reduced f (chain (ld <$> x) [ld v])
  = Ok (Some (ld (match x with Some old => f old v | None => v end))).
Proof.
  unfold merge_reduced. destruct x as [old|]; cbn; rewrite !protobuf_deserialize_ok; cbn;
    rewrite ?protobuf_deserialize_ok; cbn; by rewrite protobuf_serialize_ok.
Qed.

Section aggregator_lemmas.
Context {Inp A R : Type} `{Value Inp, Value A} (ag : Aggregator Inp A R).

Lemma encode_value_ok (v : Inp) : encode_value v = Ok (VALUE_MARKER :: ld v).
Proof. unfold encode_value. by rewrite protobuf_serialize_into_ok. Qed.
Lemma decode_accumulator_ok (a : A) : decode_accumulator (acc_enc a) = Ok a.
Proof. unfold decode_accumulator, acc_enc. by rewrite bool_decide_eq_true_2, protobuf_deserialize_ok. Qed.
Lemma merge_aggregated_ok (x : option A) (v : Inp) :
  merge_aggregated ag (chain (acc_enc <$> x) [VALUE_MARKER :: ld v])
  = Ok (Some (acc_enc (agg_add ag (default (create_accumulator ag) x) v))).
Proof.
  unfold merge_aggregated. destruct x as [a|]; cbn; rewrite protobuf_deserialize_ok; cbn;
    rewrite ?protobuf_deserialize_ok; cbn; by rewrite protobuf_serialize_into_ok.
Qed.
End aggregator_lemmas.

(** ** Regions of the disk backends

    A region is a table of bytes with the configuration of its tree or column family. *)
Record KvRegion (C : Type) : Type := MkKv { kv_entries : gmap bytes bytes; kv_config : C }.
Arguments MkKv {C}.
Arguments kv_entries {C}.
Arguments kv_config {C}.

(** A table represents [x], and the configuration lets the operations work on it. *)
Definition configured {C X} (P : C → Prop) (Rep : gmap bytes bytes → bytes → X → Prop)
    (r : KvRegion C) (mk : bytes) (x : X) : Prop :=
  P (kv_config r) ∧ Rep (kv_entries r) mk x.
Lemma frames_configured {C X} (P : C → Prop) (Rep : gmap bytes bytes → bytes → X → Prop) c t t' mk :
  frames Rep t t' mk → frames (configured P Rep) (MkKv t c) (MkKv t' c) mk.
Proof. intros Hf mk' x Hl Hne [Hc Hx]. split; [done|]. by apply Hf. Qed.
#[export] Hint Resolve frames_vec_bytes frames_configured : arcon.

(** ** Composing operations

    The operations of the disk backends are sequences of steps that only read the data, with at most
    one step that alters a region. *)
Section steps.
Context {B : Type} `{BackendRep B}.

Definition alters {A} (m : StateM B A) (b : B) (id : string) (r' : Region) (a : A) : Prop :=
  ∃ b', m b = (Ok a, b') ∧ updates b b' id r'.

Lemma reads_ret {A} (a : A) (b : B) : reads (mret a) b a.
Proof. by exists b. Qed.
Lemma reads_lift {A} (o : StateResult A) (b : B) a : o = Ok a → reads (lift o) b a.
Proof. intros ->. by exists b. Qed.
Lemma reads_bind {A A'} (m : StateM B A) (k : A → StateM B A') b a a' :
  reads m b a → (∀ b', same_data b b' → reads (k a) b' a') → reads (m ≫= k) b a'.
Proof.
  intros (b1 & E1 & H1) Hk. destruct (Hk b1 H1) as (b2 & E2 & H2).
  exists b2. step_ok E1. eauto using same_data_trans.
Qed.
Lemma reads_lift_bind {A A'} (o : StateResult A) (k : A → StateM B A') b a a' :
  o = Ok a → reads (k a) b a' → reads (lift o ≫= k) b a'.
Proof. intros -> (b' & E & Hb). by exists b'. Qed.

Lemma alters_bind {A A'} (m : StateM B A) (k : A → StateM B A') b id r' a a' :
  reads m b a → (∀ b', same_data b b' → alters (k a) b' id r' a') → alters (m ≫= k) b id r' a'.
Proof.
  intros (b1 & E1 & H1) Hk. destruct (Hk b1 H1) as (b2 & E2 & Hr & Ho).
  exists b2. step_ok E1. split; [done|]. split; [done|]. intros id' Hne. by rewrite Ho, H1.
Qed.
Lemma alters_lift_bind {A A'} (o : StateResult A) (k : A → StateM B A') b id r' a a' :
  o = Ok a → alters (k a) b id r' a' → alters (lift o ≫= k) b id r' a'.
Proof. intros -> (b' & E & Hb). by exists b'. Qed.
Lemma alters_then {A A'} (m : StateM B A) (k : A → StateM B A') b id r' a a' :
  alters m b id r' a → (∀ b', reads (k a) b' a') → alters (m ≫= k) b id r' a'.
Proof.
  intros (b1 & E1 & Hr & Ho) Hk. destruct (Hk b1) as (b2 & E2 & H2).
  exists b2. step_ok E1. split; [done|]. split; [by rewrite H2|]. intros id' Hne. by rewrite H2, Ho.
Qed.
Lemma alters_writes {A X} (Rep : Region → bytes → X → Prop) (m : StateM B A) b id r mk r' a x' :
  alters m b id r' a → Rep r' mk x' → frames Rep r r' mk → writes Rep m b id r mk a x'.
Proof. intros (b' & E & Hu) ? ?. by exists b', r'. Qed.
(** Steps that only read before a write, and a result after it. *)
Lemma writes_bind {A A' X} (Rep : Region → bytes → X → Prop) (m : StateM B A) (k : A → StateM B A') b id r mk a a' x' :
  reads m b a → (∀ b', same_data b b' → writes Rep (k a) b' id r mk a' x') → writes Rep (m ≫= k) b id r mk a' x'.
Proof.
  intros (b1 & E1 & Hs) Hk. destruct (Hk b1 Hs) as (b2 & r2 & E2 & [Hr Ho] & Hx & Hf).
  exists b2, r2. step_ok E1. split; [done|]. split; [|done]. split; [done|]. intros id' Hne. by rewrite Ho, Hs.
Qed.
Lemma writes_lift_bind {A A' X} (Rep : Region → bytes → X → Prop) (o : StateResult A) (k : A → StateM B A') b id r mk a a' x' :
  o = Ok a → writes Rep (k a) b id r mk a' x' → writes Rep (lift o ≫= k) b id r mk a' x'.
Proof. intros -> (b' & r' & E & Hb). by exists b', r'. Qed.
Lemma writes_result {A X} (Rep : Region → bytes → X → Prop) (m1 m2 : StateM B unit) b id r mk (a : A) x' :
  writes Rep (m1 ;; m2) b id r mk tt x' → writes Rep (m1 ;; m2 ;; mret a) b id r mk a x'.
Proof.
  intros (b' & r' & E & Hb). exists b', r'. split; [|done]. rewrite <- bind_assoc. by step_ok E.
Qed.
(** A sequence of writes at the same metakeys. *)
Lemma writes_seq {A A' X} (Rep : Region → bytes → X → Prop) (m : StateM B A) (k : A → StateM B A') b id r mk a a' x x' :
  writes Rep m b id r mk a x →
  (∀ b1 r1, region b1 id = Some r1 → Rep r1 mk x → writes Rep (k a) b1 id r1 mk a' x') →
  writes Rep (m ≫= k) b id r mk a' x'.
Proof.
  intros (b1 & r1 & E1 & Hu1 & Hx & Hf1) Hk. destruct (Hk b1 r1 (proj1 Hu1) Hx) as (b2 & r2 & E2 & Hu2 & Hx2 & Hf2).
  exists b2, r2. step_ok E1. split; [done|]. split; [by eapply updates_trans|]. split; [done|]. by eapply frames_trans.
Qed.
End steps.

(** Reading the entry of a vector, or the absence of one. *)
Lemma reads_vec {B} `{BackendRep B} {T A} `{Value T} (f : bytes → StateResult A) (a0 : A) (g : list T → A)
    (t : gmap bytes bytes) mk x (b : B) :
  vec_bytes t mk x → a0 = g [] → (vec_fits x → f (vec_enc x) = Ok (g x)) →
  reads (match t !! mk with Some s => lift (f s) | None => mret a0 end) b (g x).
Proof.
  intros [[-> Hfit]|[-> ->]] -> Hf; [|apply reads_ret]. by apply reads_lift, Hf.
Qed.

(** The entry of a key after an insertion, and a merge that stores something. *)
Lemma entry_rep_insert {D X} (box : X → D) (t : gmap bytes D) mk x :
  entry_rep box (<[mk := box x]> t) mk (Some x).
Proof. unfold entry_rep. by rewrite lookup_insert_eq. Qed.
Lemma entry_rep_delete {D X} (box : X → D) (t : gmap bytes D) mk :
  entry_rep box (delete mk t) mk None.
Proof. unfold entry_rep. by rewrite lookup_delete_eq. Qed.
Lemma vec_bytes_insert {T} `{Value T} (t : gmap bytes bytes) mk (l : list T) :
  vec_fits l → vec_bytes (<[mk := vec_enc l]> t) mk l.
Proof. left. by rewrite lookup_insert_eq. Qed.
Lemma vec_bytes_delete {T} `{Value T} (t : gmap bytes bytes) mk :
  vec_bytes (delete mk t) mk ([] : list T).
Proof. right. by rewrite lookup_delete_eq. Qed.
Lemma lookup_insert_other {D} (t : gmap bytes D) mk d k : k ≠ mk → <[mk := d]> t !! k = t !! k.
Proof. intros. by rewrite lookup_insert_ne. Qed.
Lemma lookup_delete_other {D} (t : gmap bytes D) mk k : k ≠ mk → delete mk t !! k = t !! k.
Proof. intros. by rewrite lookup_delete_ne. Qed.
#[export] Hint Resolve reads_ret entry_rep_insert entry_rep_delete vec_bytes_insert vec_bytes_delete : arcon.
#[export] Hint Resolve lookup_insert_other lookup_delete_other : arcon.
