(* ===== verification/InMemory.v ===== *)
(** [arcon_state/src/in_memory]: the hash-map backend, and the proof that it implements the
    backend interface of [StateBackend.v]. *)

From S2P Require Import Prelude Error Serialization StateBackend Tables.

(** ** Stored values *)

(** [SmallBox<dyn Any + Send>]: the type id and the value's code. *)
Record StoredValue : Type := MkStored { sv_type : positive; sv_code : positive }.

Definition SmallBox_new {T} `{Any T} (value : T) : StoredValue :=
  let _ := any_eq_dec in let _ := any_countable in MkStored (type_id T) (encode value).
(** [downcast_ref::<T>().context(InMemoryWrongType)?.clone()] *)
Definition downcast {T} `{Any T} (dynamic : StoredValue) : StateResult T :=
  let _ := any_eq_dec in let _ := any_countable in
  if decide (sv_type dynamic = type_id T) then ok_or InMemoryWrongType (decode (sv_code dynamic))
  else Err InMemoryWrongType.

Lemma downcast_new {T} `{Any T} (v : T) : downcast (SmallBox_new v) = Ok v.
Proof. unfold downcast. cbn. rewrite decide_True by done. by rewrite decode_encode. Qed.

(** ** The backend ([mod.rs]) *)

Abbreviation Table := (gmap bytes StoredValue).
Record InMemory : Type := MkInMemory { data : gmap string Table }.
Definition InMemory_default : InMemory := MkInMemory ∅.

Module InMem.
Section access.
Context {S : StateType} {IK N : Type}.
Implicit Type h : Handle S IK N.

(** [get] and [get_mut] unwrap the lookup of the handle's id; writing through the reference
    that [get_mut] returns is [put]. *)
Definition get h : StateM InMemory Table := λ s,
  (expect "called `Option::unwrap()` on a `None` value" (data s !! h_id h), s).
Definition get_mut h : StateM InMemory Table := get h.
Definition put h (t : Table) : StateM InMemory unit := λ s,
  (Ok tt, MkInMemory (<[h_id h := t]> (data s))).

Definition register h : StateM InMemory (Handle S IK N) := λ s,
  (Ok (set_registered h),
   MkInMemory (<[h_id h := default ∅ (data s !! h_id h)]> (data s))).
End access.

(** [&k[..prefix.len()] == &prefix[..]] *)
Definition has_prefix (prefix k : bytes) : StateResult bool :=
  if bool_decide (length prefix ≤ length k)%nat
  then Ok (bool_decide (take (length prefix) k = prefix))
  else Panic "range end index out of range for slice".

(** ** Value operations ([value_ops.rs]) *)
Section value_ops.
Context {T IK N : Type} `{Value T, FixedBytes IK, FixedBytes N}.
Implicit Type h : Handle (ValueState T) IK N.

Definition value_clear h : StateM InMemory unit :=
  t ← get_mut h;
  key ← lift (serialize_metakeys h);
  put h (delete key t).
Definition value_get h : StateM InMemory (option T) :=
  t ← get h;
  key ← lift (serialize_metakeys h);
  match t !! key with
  | Some dynamic => typed ← lift (downcast dynamic); mret (Some typed)
  | None => mret None
  end.
Definition value_set h (value : T) : StateM InMemory (option T) :=
  key ← lift (serialize_metakeys h);
  t ← get_mut h;
  put h (<[key := SmallBox_new value]> t) ;;
  match t !! key with
  | Some dynamic => typed ← lift (downcast dynamic); mret (Some typed)
  | None => mret None
  end.
Definition value_fast_set h (value : T) : StateM InMemory unit :=
  key ← lift (serialize_metakeys h);
  t ← get_mut h;
  put h (<[key := SmallBox_new value]> t).
End value_ops.

(** ** Map operations ([map_ops.rs]) *)
Section map_ops.
Context {K V IK N : Type} `{Key K, Value V, FixedBytes IK, FixedBytes N}.
Implicit Type h : Handle (MapState K V) IK N.

(** [HashMap::retain] visits the entries in the map's own order. *)
Definition map_clear h : StateM InMemory unit :=
  key ← lift (serialize_metakeys h);
  t ← get_mut h;
  for_each (λ kv,
    p ← lift (has_prefix key kv.1);
    if (p : bool) then t' ← get_mut h; put h (delete kv.1 t') else mret tt) (map_to_list t).
Definition map_get h (key : K) : StateM InMemory (option V) :=
  key ← lift (serialize_metakeys_and_key h key);
  t ← get h;
  match t !! key with
  | Some dynamic => value ← lift (downcast dynamic); mret (Some value)
  | None => mret None
  end.
Definition map_fast_insert h (key : K) (value : V) : StateM InMemory unit :=
  key ← lift (serialize_metakeys_and_key h key);
  t ← get_mut h;
  put h (<[key := SmallBox_new value]> t).
Definition map_insert h (key : K) (value : V) : StateM InMemory (option V) :=
  key ← lift (serialize_metakeys_and_key h key);
  t ← get_mut h;
  put h (<[key := SmallBox_new value]> t) ;;
  match t !! key with
  | None => mret None
  | Some old_dynamic => old ← lift (downcast old_dynamic); mret (Some old)
  end.
Definition map_insert_all h (key_value_pairs : list (K * V)) : StateM InMemory unit :=
  for_each (λ kv, map_fast_insert h kv.1 kv.2) key_value_pairs.
Definition map_remove h (key : K) : StateM InMemory (option V) :=
  key ← lift (serialize_metakeys_and_key h key);
  t ← get_mut h;
  put h (delete key t) ;;
  match t !! key with
  | Some dynamic => typed ← lift (downcast dynamic); mret (Some typed)
  | None => mret None
  end.
Definition map_fast_remove h (key : K) : StateM InMemory unit :=
  key ← lift (serialize_metakeys_and_key h key);
  t ← get_mut h;
  put h (delete key t).
Definition map_contains h (key : K) : StateM InMemory bool :=
  key ← lift (serialize_metakeys_and_key h key);
  t ← get h;
  mret (bool_decide (is_Some (t !! key))).

(** The closures mapped over the table: [filter_map] keeps the entries under the prefix, and a
    key shorter than the prefix panics when the iterator reaches it. *)
Definition under_prefix {A} (prefix : bytes) (f : bytes * StoredValue → StateResult A)
    (kv : bytes * StoredValue) : option (StateResult A) :=
  match has_prefix prefix kv.1 with
  | Ok false => None
  | Ok true => Some (f kv)
  | Err e => Some (Err e)
  | Panic msg => Some (Panic msg)
  | Diverge => Some Diverge
  end.
Definition decode_key (k : bytes) : StateResult K :=
  ik ← (deserialize_from k : StateResult (IK * bytes));
  ns ← (deserialize_from ik.2 : StateResult (N * bytes));
  fst <$> protobuf_deserialize_from ns.2.

Definition map_iter h : StateM InMemory (list (StateResult (K * V))) :=
  prefix ← lift (serialize_metakeys h);
  t ← get h;
  mret (omap (under_prefix prefix (λ kv,
    key ← decode_key kv.1; value ← downcast kv.2; Ok (key, value))) (map_to_list t)).
Definition map_keys h : StateM InMemory (list (StateResult K)) :=
  prefix ← lift (serialize_metakeys h);
  t ← get h;
  mret (omap (under_prefix prefix (λ kv, decode_key kv.1)) (map_to_list t)).
Definition map_values h : StateM InMemory (list (StateResult V)) :=
  prefix ← lift (serialize_metakeys h);
  t ← get h;
  mret (omap (under_prefix prefix (λ kv, downcast kv.2)) (map_to_list t)).

(** [filter(..).count()] and [filter(..).next().is_none()] *)
Fixpoint count_prefix (prefix : bytes) (l : list (bytes * StoredValue)) : StateResult Z :=
  match l with
  | [] => Ok 0
  | kv :: l' =>
      p ← has_prefix prefix kv.1;
      n ← count_prefix prefix l';
      Ok (if (p : bool) then 1 + n else n)
  end.
Fixpoint none_prefix (prefix : bytes) (l : list (bytes * StoredValue)) : StateResult bool :=
  match l with
  | [] => Ok true
  | kv :: l' =>
      p ← has_prefix prefix kv.1;
      if (p : bool) then Ok false else none_prefix prefix l'
  end.
Definition map_len h : StateM InMemory Z :=
  prefix ← lift (serialize_metakeys h);
  t ← get h;
  lift (count_prefix prefix (map_to_list t)).
Definition map_is_empty h : StateM InMemory bool :=
  prefix ← lift (serialize_metakeys h);
  t ← get h;
  lift (none_prefix prefix (map_to_list t)).
End map_ops.

(** ** Vector operations ([vec_ops.rs]) *)
Section vec_ops.
Context {T IK N : Type} `{Value T, FixedBytes IK, FixedBytes N}.
Implicit Type h : Handle (VecState T) IK N.

Definition vec_clear h : StateM InMemory unit :=
  key ← lift (serialize_metakeys h);
  t ← get_mut h;
  put h (delete key t).
(** [entry(key).or_insert_with(..)] writes the entry before the downcast can fail. *)
Definition vec_add_all h (value : list T) : StateM InMemory unit :=
  key ← lift (serialize_metakeys h);
  t ← get_mut h;
  let dynamic := default (SmallBox_new ([] : list T)) (t !! key) in
  put h (<[key := dynamic]> t) ;;
  vec ← lift (downcast dynamic);
  put h (<[key := SmallBox_new (vec ++ value)]> t).
Definition vec_append h (value : T) : StateM InMemory unit :=
  key ← lift (serialize_metakeys h);
  t ← get_mut h;
  let storage := default (SmallBox_new ([] : list T)) (t !! key) in
  put h (<[key := storage]> t) ;;
  vec ← lift (downcast storage);
  put h (<[key := SmallBox_new (vec ++ [value])]> t).
Definition vec_get h : StateM InMemory (list T) :=
  key ← lift (serialize_metakeys h);
  t ← get h;
  match t !! key with
  | Some storage => lift (downcast storage)
  | None => mret []
  end.
Definition vec_iter h : StateM InMemory (list (StateResult T)) :=
  key ← lift (serialize_metakeys h);
  t ← get h;
  match t !! key with
  | Some storage => vec ← lift (downcast storage); mret (Ok <$> (vec : list T))
  | None => mret []
  end.
Definition vec_set h (value : list T) : StateM InMemory unit :=
  key ← lift (serialize_metakeys h);
  t ← get_mut h;
  put h (<[key := SmallBox_new value]> t).
Definition vec_len h : StateM InMemory Z :=
  key ← lift (serialize_metakeys h);
  t ← get h;
  match t !! key with
  | Some dynamic => vec ← lift (downcast dynamic); mret (len (vec : list T))
  | None => mret 0
  end.
Definition vec_is_empty h : StateM InMemory bool :=
  key ← lift (serialize_metakeys h);
  t ← get h;
  match t !! key with
  | Some dynamic => vec ← lift (downcast dynamic); mret (bool_decide ((vec : list T) = []))
  | None => mret true
  end.
End vec_ops.

(** ** Reducer and aggregator operations ([reducer_ops.rs], [aggregator_ops.rs]) *)
Section reducer_ops.
Context {T IK N : Type} `{Value T, FixedBytes IK, FixedBytes N}.
Implicit Type h : Handle (ReducerState T) IK N.

Definition reducer_clear h : StateM InMemory unit :=
  key ← lift (serialize_metakeys h);
  t ← get_mut h;
  put h (delete key t).
Definition reducer_get h : StateM InMemory (option T) :=
  key ← lift (serialize_metakeys h);
  t ← get h;
  match t !! key with
  | Some dynamic => value ← lift (downcast dynamic); mret (Some value)
  | None => mret None
  end.
Definition reducer_reduce h (value : T) : StateM InMemory unit :=
  key ← lift (serialize_metakeys h);
  t ← get_mut h;
  match t !! key with
  | None => put h (<[key := SmallBox_new value]> t)
  | Some dynamic =>
      old ← lift (downcast dynamic);
      put h (<[key := SmallBox_new (extra_data h old value : T)]> t)
  end.
End reducer_ops.

Section aggregator_ops.
Context {Inp A : Type} {R : Type} {IK N : Type}.
Context `{Value Inp, Value A, FixedBytes IK, FixedBytes N}.
Implicit Type h : Handle (AggregatorState Inp A R) IK N.

Definition aggregator_clear h : StateM InMemory unit :=
  key ← lift (serialize_metakeys h);
  t ← get_mut h;
  put h (delete key t).
Definition aggregator_get h : StateM InMemory R :=
  key ← lift (serialize_metakeys h);
  t ← get h;
  match t !! key with
  | Some dynamic =>
      current_accumulator ← lift (downcast dynamic);
      lift (accumulator_into_result (extra_data h) current_accumulator)
  | None => lift (accumulator_into_result (extra_data h) (create_accumulator (extra_data h)))
  end.
Definition aggregator_aggregate h (value : Inp) : StateM InMemory unit :=
  key ← lift (serialize_metakeys h);
  t ← get_mut h;
  let dynamic := default (SmallBox_new (create_accumulator (extra_data h))) (t !! key) in
  put h (<[key := dynamic]> t) ;;
  current_accumulator ← lift (downcast dynamic);
  put h (<[key := SmallBox_new (agg_add (extra_data h) current_accumulator value)]> t).
End aggregator_ops.
End InMem.

#[export] Instance InMemory_ValueOps : ValueOps InMemory := {
  value_clear _ _ _ _ _ _ := InMem.value_clear;
  value_get _ _ _ _ _ _ := InMem.value_get;
  value_set _ _ _ _ _ _ := InMem.value_set;
  value_fast_set _ _ _ _ _ _ := InMem.value_fast_set;
}.
#[export] Instance InMemory_MapOps : MapOps InMemory := {
  map_clear _ _ _ _ _ _ _ _ := InMem.map_clear;
  map_get _ _ _ _ _ _ _ _ := InMem.map_get;
  map_fast_insert _ _ _ _ _ _ _ _ := InMem.map_fast_insert;
  map_insert _ _ _ _ _ _ _ _ := InMem.map_insert;
  map_insert_all _ _ _ _ _ _ _ _ := InMem.map_insert_all;
  map_remove _ _ _ _ _ _ _ _ := InMem.map_remove;
  map_fast_remove _ _ _ _ _ _ _ _ := InMem.map_fast_remove;
  map_contains _ _ _ _ _ _ _ _ := InMem.map_contains;
  map_iter _ _ _ _ _ _ _ _ := InMem.map_iter;
  map_keys _ _ _ _ _ _ _ _ := InMem.map_keys;
  map_values _ _ _ _ _ _ _ _ := InMem.map_values;
  map_len _ _ _ _ _ _ _ _ := InMem.map_len;
  map_is_empty _ _ _ _ _ _ _ _ := InMem.map_is_empty;
}.
#[export] Instance InMemory_VecOps : VecOps InMemory := {
  vec_clear _ _ _ _ _ _ := InMem.vec_clear;
  vec_append _ _ _ _ _ _ := InMem.vec_append;
  vec_get _ _ _ _ _ _ := InMem.vec_get;
  vec_iter _ _ _ _ _ _ := InMem.vec_iter;
  vec_set _ _ _ _ _ _ := InMem.vec_set;
  vec_add_all _ _ _ _ _ _ := InMem.vec_add_all;
  vec_len _ _ _ _ _ _ := InMem.vec_len;
  vec_is_empty _ _ _ _ _ _ := InMem.vec_is_empty;
}.
#[export] Instance InMemory_ReducerOps : ReducerOps InMemory := {
  reducer_clear _ _ _ _ _ _ := InMem.reducer_clear;
  reducer_get _ _ _ _ _ _ := InMem.reducer_get;
  reducer_reduce _ _ _ _ _ _ := InMem.reducer_reduce;
}.
#[export] Instance InMemory_AggregatorOps : AggregatorOps InMemory := {
  aggregator_clear _ _ _ _ _ _ _ _ _ := InMem.aggregator_clear;
  aggregator_get _ _ _ _ _ _ _ _ _ := InMem.aggregator_get;
  aggregator_aggregate _ _ _ _ _ _ _ _ _ := InMem.aggregator_aggregate;
}.
#[export] Instance InMemory_Backend : Backend InMemory := {
  was_restored _ := false;
  checkpoint _ := mret tt;
  start_session b := b;
  session_drop_hook := None;
  register_value_handle _ _ _ _ _ _ := InMem.register;
  register_map_handle _ _ _ _ _ _ _ _ := InMem.register;
  register_vec_handle _ _ _ _ _ _ := InMem.register;
  register_reducer_handle _ _ _ _ _ _ := InMem.register;
  register_aggregator_handle _ _ _ _ _ _ _ _ _ := InMem.register;
}.

(** ** The representation *)

Abbreviation box_rep := (entry_rep SmallBox_new).
Abbreviation map_rep := (entries_rep SmallBox_new).
Definition vec_rep {T} `{Value T} (t : Table) (mk : bytes) (l : list T) : Prop :=
  t !! mk = Some (SmallBox_new l) ∨ t !! mk = None ∧ l = [].

#[export] Instance InMemory_BackendRep : BackendRep InMemory := {|
  backend_ok _ := True;
  Region := Table;
  region b id := data b !! id;
  ValRep T _ := box_rep;
  MapRep K V _ _ _ _ _ := map_rep;
  VecRep T _ := vec_rep;
  RedRep T _ _ := box_rep;
  AggRep Inp A R _ _ _ := box_rep;
  VecStored T _ := vec_rep;
  RedStored T _ _ := box_rep;
  AggStored Inp A R _ _ _ := box_rep;
  red_ok _ _ := True;
  agg_ok _ _ _ _ := True;
|}.

Section tables.
Context {S : StateType} {IK N : Type}.
Implicit Type h : Handle S IK N.

Lemma inmem_get_ok h b t : data b !! h_id h = Some t → InMem.get h b = (Ok t, b).
Proof. intros Hb. unfold InMem.get. by rewrite Hb. Qed.
Lemma put_updates h b t : updates b (MkInMemory (<[h_id h := t]> (data b))) (h_id h) t.
Proof.
  split; cbn; [by simplify_map_eq|]. intros id' Hne. by rewrite lookup_insert_ne.
Qed.
Lemma register_ok {X} `{FixedBytes IK, FixedBytes N} (Rep : Region → bytes → X → Prop) x0 h b :
  (∀ mk, Rep (∅ : Table) mk x0) → registers Rep Rep x0 (InMem.register h) b h.
Proof.
  intros He. eexists _, _. split; [reflexivity|]. split; [done|]. split; [apply put_updates|].
  cbn. by destruct (data b !! h_id h).
Qed.

(** Writes that replace the table of the handle. *)
Lemma put_writes {A X : Type} (Rep : Table → bytes → X → Prop) (m : StateM InMemory A) h
    (b : InMemory) (r : Table) (mk : bytes) (a : A) (r' : Table) (x' : X) :
  m b = (Ok a, MkInMemory (<[h_id h := r']> (data b))) →
  Rep r' mk x' → frames Rep r r' mk →
  writes (Rep : Region → _) m b (h_id h) r mk a x'.
Proof. intros Hm Hr Hf. eexists _, r'. eauto using put_updates. Qed.
End tables.

(** A write at the metakeys does not touch what other metakeys of the same size represent. *)
Lemma frames_vec_alter {T} `{Value T} (r r' : Table) mk :
  (∀ k, k ≠ mk → r' !! k = r !! k) → frames (vec_rep (T:=T)) r r' mk.
Proof. intros Hr mk' x _ Hne. unfold vec_rep. by rewrite Hr. Qed.
#[export] Hint Resolve frames_vec_alter : arcon.
#[export] Hint Extern 1 (_ !! _ = _ !! _) => progress simplify_map_eq : arcon.

(** Run an operation on a table: the serialised key and the table lookups are known. *)
Ltac run_inmem Hr :=
  cbn [value_clear value_get value_set value_fast_set vec_clear vec_append vec_get vec_iter vec_set
    vec_add_all vec_len vec_is_empty reducer_clear reducer_get reducer_reduce aggregator_clear
    aggregator_get aggregator_aggregate InMemory_ValueOps InMemory_VecOps InMemory_ReducerOps
    InMemory_AggregatorOps map_clear map_get map_fast_insert map_insert map_insert_all map_remove
    map_fast_remove map_contains map_iter map_keys map_values map_len map_is_empty InMemory_MapOps
    backend_value_ops backend_map_ops backend_vec_ops backend_reducer_ops backend_aggregator_ops
    InMemory_Backend];
  cbv beta delta [InMem.value_clear InMem.value_get InMem.value_set InMem.value_fast_set
    InMem.vec_clear InMem.vec_append InMem.vec_get InMem.vec_iter InMem.vec_set InMem.vec_add_all
    InMem.vec_len InMem.vec_is_empty InMem.reducer_clear InMem.reducer_get InMem.reducer_reduce
    InMem.aggregator_clear InMem.aggregator_get InMem.aggregator_aggregate
    InMem.map_get InMem.map_fast_insert InMem.map_insert InMem.map_remove InMem.map_fast_remove
    InMem.map_contains InMem.map_iter InMem.map_keys InMem.map_values InMem.map_len
    InMem.map_is_empty InMem.get_mut];
  unfold mbind, M_bind, lift;
  rewrite ?serialize_metakeys_ok, ?serialize_metakeys_and_key_ok;
  cbv beta iota; rewrite ?(inmem_get_ok _ _ _ Hr); cbv beta iota;
  rewrite ?serialize_metakeys_ok; cbv beta iota.

(** A read returns without touching the state; a write replaces one entry of the table. *)
Ltac inmem_read Hr Hx :=
  eexists; split; [run_inmem Hr; cbn in Hx|apply same_data_refl].
Tactic Notation "inmem_write" constr(Rep) ident(h) ident(Hr) ident(Hx) "by" tactic3(tac) :=
  eapply (put_writes Rep _ h);
  [run_inmem Hr; unfold InMem.put; cbn in Hx; tac
  |unfold entry_rep, vec_rep; simplify_map_eq; eauto
  |eauto using lookup_insert_insert_ne with arcon].

Section in_memory_values.
Context {T : Type} `{Value T} {IK N : Type} `{Metakey IK, Metakey N}.
Implicit Type b : InMemory.

Section value.
Context (h : Handle (ValueState T) IK N) b (r : Table) (x : option T).
Context (Hr : region b (h_id h) = Some r) (Hx : ValRep r (metakeys h) x).

Lemma inmem_value_get : reads (value_get h) b x.
Proof using Hr Hx.
  inmem_read Hr Hx. rewrite Hx. destruct x; cbn; [by rewrite downcast_new|done].
Qed.
Lemma inmem_value_set v :
  writes ValRep (value_set h v) b (h_id h) r (metakeys h) x (Some v).
Proof using Hr Hx.
  inmem_write box_rep h Hr Hx by (rewrite Hx; destruct x; cbn; [by rewrite downcast_new|done]).
Qed.
Lemma inmem_value_fast_set v :
  writes ValRep (value_fast_set h v) b (h_id h) r (metakeys h) tt (Some v).
Proof using Hr. inmem_write box_rep h Hr Hx by done. Qed.
Lemma inmem_value_clear :
  writes ValRep (value_clear h) b (h_id h) r (metakeys h) tt (None : option T).
Proof using Hr. inmem_write box_rep h Hr Hx by done. Qed.
End value.

Section vec.
Context (h : Handle (VecState T) IK N) b (r : Table) (x : list T).
Context (Hr : region b (h_id h) = Some r) (Hx : VecRep r (metakeys h) x).

Lemma inmem_vec_get : reads (vec_get h) b x.
Proof using Hr Hx.
  inmem_read Hr Hx. destruct Hx as [-> | [-> ->]]; cbn; [by rewrite downcast_new|done].
Qed.
Lemma inmem_vec_iter : reads (vec_iter h) b (Ok <$> x).
Proof using Hr Hx.
  inmem_read Hr Hx. destruct Hx as [-> | [-> ->]]; cbn; [by rewrite downcast_new|done].
Qed.
Lemma inmem_vec_len : reads (vec_len h) b (len x).
Proof using Hr Hx.
  inmem_read Hr Hx. destruct Hx as [-> | [-> ->]]; cbn; [by rewrite downcast_new|done].
Qed.
Lemma inmem_vec_is_empty : reads (vec_is_empty h) b (bool_decide (x = [])).
Proof using Hr Hx.
  inmem_read Hr Hx. destruct Hx as [-> | [-> ->]]; cbn; [by rewrite downcast_new|done].
Qed.
Lemma vec_default : downcast (default (SmallBox_new ([] : list T)) (r !! metakeys h)) = Ok x.
Proof using Hx. destruct Hx as [-> | [-> ->]]; cbn; apply downcast_new. Qed.
Lemma inmem_vec_add_all (l : list T) :
  writes VecRep (vec_add_all h l) b (h_id h) r (metakeys h) tt (x ++ l).
Proof using Hr Hx.
  inmem_write vec_rep h Hr Hx by (rewrite vec_default; cbn; by rewrite insert_insert_eq).
Qed.
Lemma inmem_vec_append v :
  writes VecRep (vec_append h v) b (h_id h) r (metakeys h) tt (x ++ [v]).
Proof using Hr Hx.
  inmem_write vec_rep h Hr Hx by (rewrite vec_default; cbn; by rewrite insert_insert_eq).
Qed.
Lemma inmem_vec_set l : writes VecRep (vec_set h l) b (h_id h) r (metakeys h) tt l.
Proof using Hr. inmem_write vec_rep h Hr Hx by done. Qed.
Lemma inmem_vec_clear :
  writes VecRep (vec_clear h) b (h_id h) r (metakeys h) tt ([] : list T).
Proof using Hr. inmem_write vec_rep h Hr Hx by done. Qed.
End vec.

Section reducer.
Context (h : Handle (ReducerState T) IK N) b (r : Table) (x : option T).
Context (Hr : region b (h_id h) = Some r) (Hx : RedRep (extra_data h) r (metakeys h) x).

Lemma inmem_reducer_get : reads (reducer_get h) b x.
Proof using Hr Hx.
  inmem_read Hr Hx. rewrite Hx. destruct x; cbn; [by rewrite downcast_new|done].
Qed.
Lemma inmem_reducer_reduce (v : T) :
  writes (RedRep (extra_data h)) (reducer_reduce h v) b (h_id h) r (metakeys h) tt
    (Some (match x with Some old => extra_data h old v | None => v end)).
Proof using Hr Hx.
  destruct x; inmem_write box_rep h Hr Hx by (rewrite Hx; cbn; by rewrite ?downcast_new).
Qed.
Lemma inmem_reducer_clear :
  writes (RedRep (extra_data h)) (reducer_clear h) b (h_id h) r (metakeys h) tt (None : option T).
Proof using Hr. inmem_write box_rep h Hr Hx by done. Qed.
End reducer.

Section aggregator.
Context {Inp : Type} {R : Type} `{Value Inp}.
Context (h : Handle (AggregatorState Inp T R) IK N) b (r : Table) (x : option T).
Context (Hr : region b (h_id h) = Some r) (Hx : AggRep (extra_data h) r (metakeys h) x).

Lemma inmem_aggregator_get :
  ∃ b', aggregator_get h b =
    (accumulator_into_result (extra_data h) (default (create_accumulator (extra_data h)) x), b')
    ∧ same_data b b'.
Proof using Hr Hx.
  inmem_read Hr Hx. rewrite Hx. destruct x; cbn; [by rewrite downcast_new|done].
Qed.
Lemma inmem_aggregator_aggregate (v : Inp) :
  writes (AggRep (extra_data h)) (aggregator_aggregate h v) b (h_id h) r (metakeys h) tt
    (Some (agg_add (extra_data h) (default (create_accumulator (extra_data h)) x) v)).
Proof using Hr Hx.
  destruct x; inmem_write (entry_rep (SmallBox_new (T:=T))) h Hr Hx by (rewrite Hx; cbn;
    rewrite downcast_new; cbn; by rewrite insert_insert_eq).
Qed.
Lemma inmem_aggregator_clear :
  writes (AggRep (extra_data h)) (aggregator_clear h) b (h_id h) r (metakeys h) tt (None : option T).
Proof using Hr. inmem_write (entry_rep (SmallBox_new (T:=T))) h Hr Hx by done. Qed.
End aggregator.
End in_memory_values.

(** ** Map states *)

Section in_memory_maps.
Context {K V : Type} `{Key K, !MessageLaws K, EqDecision K, !Countable K, Value V}.
Implicit Types (t : Table) (m : gmap K V) (mk : bytes).

Lemma has_prefix_ok mk (kv : bytes * StoredValue) :
  (length mk ≤ length kv.1)%nat →
  InMem.has_prefix mk kv.1 = Ok (bool_decide (is_under mk kv)).
Proof. intros. unfold InMem.has_prefix. by rewrite bool_decide_eq_true_2. Qed.

(** The traversals over the table, in terms of those entries. *)
Lemma omap_under_prefix {A : Type} mk (f : bytes * StoredValue → StateResult A) l :
  long_keys mk l →
  omap (InMem.under_prefix mk f) l = f <$> filter (is_under mk) l.
Proof.
  induction 1 as [|kv l Hkv _ IH]; [done|]. rewrite filter_cons. cbn.
  unfold InMem.under_prefix at 1. rewrite has_prefix_ok by done.
  destruct (decide (is_under mk kv)).
  - rewrite bool_decide_eq_true_2 by done. cbn. by f_equal.
  - by rewrite bool_decide_eq_false_2.
Qed.
Lemma count_prefix_ok mk l :
  long_keys mk l → InMem.count_prefix mk l = Ok (len (filter (is_under mk) l)).
Proof.
  induction 1 as [|kv l Hkv _ IH]; [done|]. rewrite filter_cons. cbn.
  rewrite has_prefix_ok by done. cbn. rewrite IH. cbn. destruct (decide (is_under mk kv)).
  - rewrite bool_decide_eq_true_2 by done. do 1 f_equal. cbn [length]. lia.
  - by rewrite bool_decide_eq_false_2.
Qed.
Lemma none_prefix_ok mk l :
  long_keys mk l →
  InMem.none_prefix mk l = Ok (bool_decide (filter (is_under mk) l = [])).
Proof.
  induction 1 as [|kv l Hkv _ IH]; [done|]. rewrite filter_cons. cbn.
  rewrite has_prefix_ok by done. cbn. destruct (decide (is_under mk kv)).
  - by rewrite bool_decide_eq_true_2.
  - by rewrite bool_decide_eq_false_2, IH.
Qed.

Context {IK N : Type} `{Metakey IK, Metakey N}.
Implicit Type h : Handle (MapState K V) IK N.

Lemma decode_key_ok h k :
  handle_wf h → InMem.decode_key (IK:=IK) (N:=N) (metakeys h ++ ld k) = Ok (k : K).
Proof.
  intros [Hik Hns]. unfold InMem.decode_key, metakeys, deserialize_from.
  rewrite <- !(assoc_L (++)), mk_from_slice by done. cbn.
  rewrite mk_from_slice by done. cbn.
  by rewrite <- (app_nil_r (ld k)), protobuf_deserialize_from_ok.
Qed.

(** The loop of [map_clear] deletes what it visits under the prefix. *)
Definition retained mk t (l : list (bytes * StoredValue)) : Table :=
  foldl (λ t kv, if decide (is_under mk kv) then delete kv.1 t else t) t l.
Lemma lookup_retained mk t l key :
  retained mk t l !! key =
  if decide (take (length mk) key = mk ∧ key ∈ l.*1) then None else t !! key.
Proof.
  revert t. induction l as [|kv l IH]; intros t; cbn [retained foldl].
  - rewrite decide_False; [done|]. set_solver.
  - fold (retained mk (if decide (is_under mk kv) then delete kv.1 t else t) l). rewrite IH.
    clear IH. unfold is_under. rewrite fmap_cons.
    destruct (decide (key = kv.1)) as [->|Hk]; repeat case_decide;
      rewrite ?elem_of_cons in *; try tauto; by simplify_map_eq.
Qed.

Section op.
Context h (b : InMemory) (r : Table) m.
Context (Hr : region b (h_id h) = Some r) (Hm : MapRep r (metakeys h) m).

Lemma inmem_map_get k : reads (map_get h k) b (m !! k).
Proof using Hr Hm.
  inmem_read Hr Hm. destruct Hm as [-> _]. destruct (m !! k); cbn; [by rewrite downcast_new|done].
Qed.
Lemma inmem_map_contains k : reads (map_contains h k) b (bool_decide (is_Some (m !! k))).
Proof using Hr Hm.
  inmem_read Hr Hm. destruct Hm as [-> _]. unfold mret, M_ret. do 2 f_equal.
  apply bool_decide_ext. by rewrite fmap_is_Some.
Qed.
Lemma inmem_map_len : reads (map_len h) b (Z.of_nat (size m)).
Proof using Hr Hm.
  inmem_read Hr Hm. rewrite count_prefix_ok by (eapply entries_rep_long; exact Hm). do 3 f_equal.
  by rewrite (entries_rep_list _ _ _ Hm), length_fmap, length_map_to_list.
Qed.
Lemma inmem_map_is_empty : reads (map_is_empty h) b (bool_decide (m = ∅)).
Proof using Hr Hm.
  inmem_read Hr Hm. rewrite none_prefix_ok by (eapply entries_rep_long; exact Hm). do 2 f_equal.
  apply bool_decide_ext. rewrite <- map_to_list_empty_iff.
  pose proof (entries_rep_list _ _ _ Hm) as Hp. split; intros E.
  - rewrite E in Hp. symmetry in Hp. apply Permutation_nil_r in Hp. by apply fmap_nil_inv in Hp.
  - rewrite E in Hp. by apply Permutation_nil_r in Hp.
Qed.

Lemma inmem_map_fast_insert k v :
  writes MapRep (map_fast_insert h k v) b (h_id h) r (metakeys h) tt (<[k:=v]> m).
Proof using Hr Hm.
  eapply (put_writes (entries_rep (K:=K) (SmallBox_new (T:=V))) _ h);
    [by run_inmem Hr|eapply entries_rep_insert; exact Hm|apply entries_frames_insert].
Qed.
Lemma inmem_map_insert k v :
  writes MapRep (map_insert h k v) b (h_id h) r (metakeys h) (m !! k) (<[k:=v]> m).
Proof using Hr Hm.
  eapply (put_writes (entries_rep (K:=K) (SmallBox_new (T:=V))) _ h); [|eapply entries_rep_insert; exact Hm|apply entries_frames_insert].
  run_inmem Hr. unfold InMem.put. destruct Hm as [-> _].
  destruct (m !! k); cbn; [by rewrite downcast_new|done].
Qed.
Lemma inmem_map_remove k :
  writes MapRep (map_remove h k) b (h_id h) r (metakeys h) (m !! k) (delete k m).
Proof using Hr Hm.
  eapply (put_writes (entries_rep (K:=K) (SmallBox_new (T:=V))) _ h); [|eapply entries_rep_delete; exact Hm|apply entries_frames_delete].
  run_inmem Hr. unfold InMem.put. destruct Hm as [-> _].
  destruct (m !! k); cbn; [by rewrite downcast_new|done].
Qed.
Lemma inmem_map_fast_remove k :
  writes MapRep (map_fast_remove h k) b (h_id h) r (metakeys h) tt (delete k m).
Proof using Hr Hm.
  eapply (put_writes (entries_rep (K:=K) (SmallBox_new (T:=V))) _ h);
    [by run_inmem Hr|eapply entries_rep_delete; exact Hm|apply entries_frames_delete].
Qed.

Lemma entries_values {A : Type} (f : bytes * StoredValue → StateResult A) (g : K * V → A) :
  (∀ k v, f (metakeys h ++ ld k, SmallBox_new v) = Ok (g (k, v))) →
  ∃ l, omap (InMem.under_prefix (metakeys h) f) (map_to_list r) = Ok <$> l ∧
    l ≡ₚ g <$> map_to_list m.
Proof using Hm.
  intros Hf. rewrite omap_under_prefix by (eapply entries_rep_long; exact Hm).
  assert (f <$> filter (is_under (metakeys h)) (map_to_list r) ≡ₚ
          Ok <$> (g <$> map_to_list m)) as (l & -> & Hl)%Permutation_map_inv.
  { rewrite (entries_rep_list _ _ _ Hm), <- !list_fmap_compose.
    erewrite list_fmap_ext; [done|]. intros i [k v] _. cbn. apply Hf. }
  by exists l.
Qed.
Lemma inmem_map_iter :
  handle_wf h → ∃ l, reads (map_iter h) b (Ok <$> l) ∧ l ≡ₚ map_to_list m.
Proof using Hr Hm.
  intros Hwf. edestruct (entries_values (λ kv, key ← InMem.decode_key (IK:=IK) (N:=N) kv.1;
    value ← downcast kv.2; Ok (key, value)) id) as (l & Hl & Hp).
  { intros k v. cbn. rewrite decode_key_ok by done. cbn. by rewrite downcast_new. }
  exists l. rewrite list_fmap_id in Hp. split; [|done].
  inmem_read Hr Hm. by rewrite <- Hl.
Qed.
Lemma inmem_map_keys :
  handle_wf h → ∃ l, reads (map_keys h) b (Ok <$> l) ∧ l ≡ₚ (map_to_list m).*1.
Proof using Hr Hm.
  intros Hwf. edestruct (entries_values (λ kv, InMem.decode_key (IK:=IK) (N:=N) kv.1) fst)
    as (l & Hl & Hp).
  { intros k v. cbn. by rewrite decode_key_ok. }
  exists l. split; [|done]. inmem_read Hr Hm. by rewrite <- Hl.
Qed.
Lemma inmem_map_values :
  ∃ l, reads (map_values h) b (Ok <$> l) ∧ l ≡ₚ (map_to_list m).*2.
Proof using Hr Hm.
  edestruct (entries_values (λ kv, downcast kv.2) snd) as (l & Hl & Hp).
  { intros k v. cbn. by rewrite downcast_new. }
  exists l. split; [|done]. inmem_read Hr Hm. by rewrite <- Hl.
Qed.

Lemma clear_loop l b0 t0 :
  long_keys (metakeys h) l → data b0 !! h_id h = Some t0 →
  for_each (λ kv, p ← lift (InMem.has_prefix (metakeys h) kv.1);
    if (p : bool) then t' ← InMem.get_mut h; InMem.put h (delete kv.1 t') else mret tt) l b0
  = (Ok tt, MkInMemory (<[h_id h := retained (metakeys h) t0 l]> (data b0))).
Proof using Type.
  intros Hl. revert b0 t0. induction Hl as [|kv l Hkv _ IH]; intros b0 t0 Hb; cbn.
  - rewrite insert_id by done. by destruct b0.
  - unfold mbind, M_bind, lift. rewrite has_prefix_ok by done.
    destruct (decide (is_under (metakeys h) kv)) as [Hu|Hu].
    + rewrite bool_decide_eq_true_2 by done. unfold InMem.get_mut.
      rewrite (inmem_get_ok _ _ _ Hb). cbn. unfold mbind, M_bind, lift in IH.
      erewrite IH by (cbn; by simplify_map_eq). cbn. by rewrite insert_insert_eq.
    + rewrite bool_decide_eq_false_2 by done. cbn. by apply IH.
Qed.
Lemma inmem_map_clear :
  writes (MapRep (K:=K) (V:=V)) (map_clear h) b (h_id h) r (metakeys h) tt ∅.
Proof using Hr Hm.
  assert (Hlk : ∀ key, retained (metakeys h) r (map_to_list r) !! key =
    if decide (take (length (metakeys h)) key = metakeys h) then None else r !! key).
  { intros key. rewrite lookup_retained. repeat case_decide; try tauto.
    destruct (r !! key) as [sv|] eqn:E; [|done]. exfalso. apply elem_of_map_to_list in E.
    assert (key ∈ (map_to_list r).*1) by (apply list_elem_of_fmap; by exists (key, sv)). tauto. }
  eapply (put_writes (entries_rep (K:=K) (SmallBox_new (T:=V))) _ h _ r).
  - cbn. unfold InMem.map_clear. unfold mbind at 1, M_bind at 1, lift at 1.
    rewrite serialize_metakeys_ok. unfold mbind at 1, M_bind at 1. unfold InMem.get_mut at 1.
    rewrite (inmem_get_ok _ _ _ Hr). eapply clear_loop; [eapply entries_rep_long; exact Hm|done].
  - eapply entries_rep_clear; [exact Hlk|exact Hm].
  - by apply entries_frames_clear.
Qed.
End op.

Lemma inmem_map_insert_all h (b : InMemory) r m kvs :
  region b (h_id h) = Some r → MapRep r (metakeys h) m →
  writes MapRep (map_insert_all h kvs) b (h_id h) r (metakeys h) tt
    (foldl (λ m kv, <[kv.1:=kv.2]> m) m kvs).
Proof.
  revert b r m. induction kvs as [|[k v] kvs IH]; intros b r m Hr Hm.
  - exists b, r. cbn. eauto with arcon.
  - destruct (inmem_map_fast_insert h b r m Hr Hm k v) as (b1 & r1 & H5 & Hu1 & Hm1 & Hf1).
    destruct (IH b1 r1 _ (proj1 Hu1) Hm1) as (b2 & r2 & H6 & Hu2 & Hm2 & Hf2).
    exists b2, r2. cbn -[insert]. split; [|by eauto with arcon].
    unfold InMem.map_insert_all. cbn [for_each fst snd]. erewrite bind_ok by exact H5. apply H6.
Qed.
End in_memory_maps.

(** ** The backend contract holds *)

#[export] Instance InMemory_MapSpec K V IK N `{Key K, !MessageLaws K, EqDecision K, !Countable K,
  Value V, Metakey IK, Metakey N} : MapSpec InMemory K V IK N.
Proof.
  split.
  - intros. by eapply inmem_map_get.
  - intros. by eapply inmem_map_contains.
  - intros. by eapply inmem_map_len.
  - intros. by eapply inmem_map_is_empty.
  - intros. by eapply inmem_map_insert.
  - intros. by eapply inmem_map_fast_insert.
  - intros. by eapply inmem_map_insert_all.
  - intros. by eapply inmem_map_remove.
  - intros. by eapply inmem_map_fast_remove.
  - intros. by eapply inmem_map_clear.
  - intros. by eapply inmem_map_iter.
  - intros. by eapply inmem_map_keys.
  - intros. by eapply inmem_map_values.
Qed.

#[export] Instance InMemory_BackendSpec : BackendSpec InMemory.
Proof.
  split.
  - done.
  - done.
  - done.
  - done.
  - done.
  - intros path b _. exists (Ok tt), b. do 3 (split; [done|]). by left.
  - done.
  - done.
  - done.
  - intros. by apply (register_ok box_rep).
  - intros. apply (register_ok (entries_rep (K:=K) (SmallBox_new (T:=V)))). by split.
  - intros. apply (register_ok vec_rep). by right.
  - intros. by apply (register_ok box_rep).
  - intros. by apply (register_ok box_rep).
  - intros. by eapply inmem_value_get.
  - intros. by eapply inmem_value_set.
  - intros. by eapply inmem_value_fast_set.
  - intros. by eapply inmem_value_clear.
  - intros. by eapply inmem_vec_get.
  - intros. by eapply inmem_vec_iter.
  - intros. by eapply inmem_vec_len.
  - intros. by eapply inmem_vec_is_empty.
  - intros. by eapply inmem_vec_append.
  - intros. by eapply inmem_vec_set.
  - intros. by eapply inmem_vec_add_all.
  - intros. by eapply inmem_vec_clear.
  - intros. by eapply inmem_reducer_get.
  - intros. by eapply inmem_reducer_reduce.
  - intros. by eapply inmem_reducer_clear.
  - intros. by eapply inmem_aggregator_get.
  - intros. by eapply inmem_aggregator_aggregate.
  - intros. by eapply inmem_aggregator_clear.
Qed.
