(* ===== verification/BackendLaws.v ===== *)
(** Consequences of the backend contract that hold for every implementation, and the errors that
    are particular to the in-memory one. *)

From S2P Require Import Prelude Error Serialization StateBackend InMemory.

(** A value type over any countable type, for concrete inputs. *)
Definition countable_Value {T} `{EqDecision T, !Countable T} (id : positive) : Value T :=
  {| value_message := countable_Message;
     value_laws := countable_MessageLaws;
     value_any := {| any_eq_dec := _; any_countable := _; type_id := id |} |}.

Section contract.
Context {B : Type} `{BackendSpec B}.

(** What a map state holds after a bulk insertion is what iterating over it yields, and other
    namespaces and item keys keep their content. *)
Theorem map_insert_all_iter {K V IK N} `{Key K, !MessageLaws K, EqDecision K, !Countable K,
    Value V, Metakey IK, Metakey N, !MapSpec B K V IK N}
    (h h' : Handle (MapState K V) IK N) (b : B) r (m m' : gmap K V) kvs :
  registered h = true → registered h' = true → h_id h' = h_id h → handle_wf h → handle_wf h' →
  (item_key h, namespace h) ≠ (item_key h', namespace h') →
  region b (h_id h) = Some r → MapRep r (metakeys h) m → MapRep r (metakeys h') m' →
  ∃ b1 b2 b3 l l',
    ActiveMap.insert_all h kvs b = (Ok tt, b1) ∧
    ActiveMap.iter h b1 = (Ok (Ok <$> l), b2) ∧
    l ≡ₚ map_to_list (foldl (λ m kv, <[kv.1:=kv.2]> m) m kvs) ∧
    ActiveMap.iter h' b2 = (Ok (Ok <$> l'), b3) ∧ l' ≡ₚ map_to_list m'.
Proof.
  intros Hreg Hreg' Hid Hw Hw' Hne Hr Hm Hm'.
  destruct (metakeys_disjoint _ _ Hw Hw' Hne) as [Hmk Hlen].
  destruct (map_insert_all_spec h b r m kvs Hr Hm) as (b1 & r1 & E1 & [Hr1 _] & Hm1 & Hf).
  destruct (map_iter_spec h b1 r1 _ Hw Hr1 Hm1) as (l & (b2 & E2 & Hs2) & Hl).
  assert (Hr2 : region b2 (h_id h') = Some r1) by (by rewrite Hs2, Hid).
  destruct (map_iter_spec h' b2 r1 m' Hw' Hr2) as (l' & (b3 & E3 & _) & Hl').
  { apply Hf; [by symmetry|done|done]. }
  exists b1, b2, b3, l, l'. unfold ActiveMap.insert_all, ActiveMap.iter, activate.
  rewrite Hreg, Hreg'. unfold mbind at 1 2 3, M_bind at 1 2 3. cbn. by rewrite E1, E2, E3.
Qed.
End contract.

#[local] Instance u64_Value : Value u64 := countable_Value 1.
#[local] Instance u64_laws : MessageLaws u64 := countable_MessageLaws.

Definition example_handle (item_key namespace : Z) : Handle (MapState u64 u64) u64 u64 :=
  set_registered (with_namespace (with_item_key (map_handle u64 u64 "state") (UInt item_key))
    (UInt namespace)).
Definition example_backend : InMemory := MkInMemory {["state"%string := ∅]}.

Example map_insert_all_iter_witness :
  ∃ b1 b2 b3 l l',
    ActiveMap.insert_all (example_handle 1 2) [(UInt 5, UInt 6); (UInt 5, UInt 7)] example_backend
      = (Ok tt, b1) ∧
    ActiveMap.iter (example_handle 1 2) b1 = (Ok (Ok <$> l), b2) ∧
    l ≡ₚ map_to_list (foldl (λ m kv, <[kv.1:=kv.2]> m) (∅ : gmap u64 u64)
      [(UInt 5, UInt 6); (UInt 5, UInt 7)]) ∧
    ActiveMap.iter (example_handle 2 1) b2 = (Ok (Ok <$> l'), b3) ∧
    l' ≡ₚ map_to_list (∅ : gmap u64 u64).
Proof.
  eapply (map_insert_all_iter (example_handle 1 2) (example_handle 2 1) example_backend);
    [done..|reflexivity| |]; done.
Defined.

(** C13: Every operation of the in-memory backend, map states included, meets the contract. *)
Theorem in_memory_implements_backend :
  BackendSpec InMemory ∧
  ∀ K V IK N `{Key K, !MessageLaws K, EqDecision K, !Countable K, Value V, Metakey IK, Metakey N},
    MapSpec InMemory K V IK N.
Proof. split; [apply _|]. intros. apply _. Qed.

(** Setting a value over one of another type fails with [InMemoryWrongType], but only after the old
    value is overwritten: the state then reads back the new value. *)
Theorem value_set_wrong_type {T U IK N} `{Value T, Value U, Metakey IK, Metakey N}
    (h : Handle (ValueState T) IK N) (b : InMemory) (r : Table) (old : U) (v : T) :
  type_id T ≠ type_id U → registered h = true →
  data b !! h_id h = Some r → r !! metakeys h = Some (SmallBox_new old) →
  ∃ b', ActiveValue.set h v b = (Err InMemoryWrongType, b') ∧
    ActiveValue.get h b' = (Ok (Some v), b').
Proof.
  intros Hne Hreg Hr Hold. exists (MkInMemory (<[h_id h := <[metakeys h := SmallBox_new v]> r]> (data b))).
  unfold ActiveValue.set, ActiveValue.get, activate. rewrite Hreg. split.
  - unfold mbind at 1, M_bind at 1. cbn. run_inmem Hr. unfold InMem.put. rewrite Hold.
    unfold downcast. cbn. by rewrite decide_False.
  - unfold mbind at 1, M_bind at 1. cbn.
    unfold InMem.value_get, mbind, M_bind, lift.
    rewrite (inmem_get_ok _ _ (<[metakeys h := SmallBox_new v]> r)) by (cbn; by simplify_map_eq).
    rewrite serialize_metakeys_ok, lookup_insert_eq. by rewrite downcast_new.
Qed.

#[local] Instance u32_Value : Value u32 := countable_Value 3.
Definition example_value : Handle (ValueState u64) unit unit :=
  set_registered (value_handle u64 "state").

Example value_set_wrong_type_witness :
  ∃ b', ActiveValue.set example_value (UInt 7)
      (MkInMemory {["state"%string := {[ [] := SmallBox_new (UInt 4 : u32) ]}]})
    = (Err InMemoryWrongType, b') ∧
    ActiveValue.get example_value b' = (Ok (Some (UInt 7)), b').
Proof. by eapply (value_set_wrong_type example_value _ _ (UInt 4 : u32)). Defined.
