(* ===== verification/Metered.v ===== *)
(** [arcon_state/src/metered]: the ring buffer of measurements, and the backend that wraps another
    one and times each of its operations. *)

From S2P Require Import Prelude Error Serialization StateBackend InMemory.

(** ** The ring buffer *)

Record DataPoint : Type := MkDataPoint { operation : string; dp_start : Z; dp_duration : Z }.
Definition DataPoint_default : DataPoint := MkDataPoint "" 0 0.

(** [num_pushed] is a [usize]. *)
Record Metrics : Type := MkMetrics { num_pushed : Z; storage : list DataPoint }.

Section metrics.
Context `{BuildProfile}.

Definition Metrics_new (cap : Z) : Metrics :=
  MkMetrics 0 (replicate (Z.to_nat cap) DataPoint_default).

Definition Metrics_push {E} (dp : DataPoint) : M Metrics E unit :=
  m ← get_st;
  i ← lift (u_rem (num_pushed m) (len (storage m)));
  put_st (MkMetrics (num_pushed m) (<[Z.to_nat i := dp]> (storage m))) ;;
  m ← get_st;
  n ← lift (u_add 64 (num_pushed m) 1);
  put_st (MkMetrics n (storage m)).

Definition Metrics_deref (m : Metrics) : list DataPoint :=
  if len (storage m) <? num_pushed m then storage m
  else take (Z.to_nat (num_pushed m)) (storage m).

(** The fold of [summary]; the text it is printed into is left out. *)
Record Summary : Type := MkSummary { s_count : Z; s_min : Z; s_avg : Z; s_max : Z }.
Definition Summary_initial : Summary := MkSummary 0 u64_max 0 0.
Definition summary_step {E} (acc : gmap string Summary) (dp : DataPoint)
  : outcome E (gmap string Summary) :=
  let s := default Summary_initial (acc !! operation dp) in
  prod ← u_mul 64 (s_avg s) (s_count s);
  sum ← u_add 64 prod (dp_duration dp);
  n ← u_add 64 (s_count s) 1;
  a ← u_div sum n;
  Ok (<[operation dp :=
    MkSummary n (Z.min (s_min s) (dp_duration dp)) a (Z.max (s_max s) (dp_duration dp))]> acc).
Fixpoint summary_fold {E} (acc : gmap string Summary) (l : list DataPoint)
  : outcome E (gmap string Summary) :=
  match l with
  | [] => Ok acc
  | dp :: l' => acc ← summary_step acc dp; summary_fold acc l'
  end.
Definition summary {E} (m : Metrics) : outcome E (gmap string Summary) :=
  summary_fold ∅ (Metrics_deref m).
End metrics.

(** ** The wrapper

    [readings] counts the readings of the clock that were taken; it is not a field of the code. *)
Record Metered (B : Type) : Type := MkMetered {
  inner : B;
  backend_name : string;
  metrics : Metrics;
  readings : nat;
}.
Arguments MkMetered {B}.
Arguments inner {B}.
Arguments backend_name {B}.
Arguments metrics {B}.
Arguments readings {B}.

Section metered.
Context `{BuildProfile, Clock} {B : Type}.

Definition Instant_now {E} : M (Metered B) E Z := λ m,
  (Ok (instant (readings m)),
   MkMetered (inner m) (backend_name m) (metrics m) (S (readings m))).

Definition nanos_between {E} (start end_ : Z) : outcome E Z :=
  if end_ <? start then Panic "supplied instant is later than self"
  else Ok ((end_ - start) mod 2 ^ 64).

(** A [Result] of the measured function, an error included, is a value for [measure]: the data
    point is pushed and the result returned.  A panic unwinds through it. *)
Definition measure_mut {A} (operation_name : string) (func : StateM B A)
  : StateM (Metered B) A :=
  start ← Instant_now;
  res ← (λ m, let '(o, b) := func (inner m) in
    let m' := MkMetered b (backend_name m) (metrics m) (readings m) in
    match o with
    | Ok _ | Err _ => (Ok o, m')
    | Panic msg => (Panic msg, m')
    | Diverge => (Diverge, m')
    end);
  end_ ← Instant_now;
  duration ← lift (nanos_between start end_);
  start ← lift (nanos_between absolute_start start);
  zoom metrics (λ ms m, MkMetered (inner m) (backend_name m) ms (readings m))
    (Metrics_push (MkDataPoint operation_name start duration)) ;;
  lift res.
(** [measure] takes [&self]; the metrics are in a [RefCell], so it is the same computation. *)
Definition measure {A} (operation_name : string) (func : StateM B A) : StateM (Metered B) A :=
  measure_mut operation_name func.

(** The iterators measure every [next], the last one that yields nothing included; they are
    modelled as driven to their end. *)
Definition measure_iter {A} (operation_name : string) (func : StateM B (list (StateResult A)))
  : StateM (Metered B) (list (StateResult A)) :=
  iter ← measure operation_name func;
  for_each (λ _, measure (operation_name +:+ "::next") (mret tt)) (tt :: ((λ _, tt) <$> iter)) ;;
  mret iter.

Context `{Backend B}.

#[export] Instance Metered_ValueOps : ValueOps (Metered B) := {
  value_clear _ _ _ _ _ _ h := measure_mut "ValueOps::value_clear" (value_clear h);
  value_get _ _ _ _ _ _ h := measure "ValueOps::value_get" (value_get h);
  value_set _ _ _ _ _ _ h v := measure_mut "ValueOps::value_set" (value_set h v);
  value_fast_set _ _ _ _ _ _ h v := measure_mut "ValueOps::value_fast_set" (value_fast_set h v);
}.
#[export] Instance Metered_MapOps : MapOps (Metered B) := {
  map_clear _ _ _ _ _ _ _ _ h := measure_mut "MapOps::map_clear" (map_clear h);
  map_get _ _ _ _ _ _ _ _ h k := measure "MapOps::map_get" (map_get h k);
  map_fast_insert _ _ _ _ _ _ _ _ h k v :=
    measure_mut "MapOps::map_fast_insert" (map_fast_insert h k v);
  map_insert _ _ _ _ _ _ _ _ h k v := measure_mut "MapOps::map_insert" (map_insert h k v);
  map_insert_all _ _ _ _ _ _ _ _ h kvs :=
    measure_mut "MapOps::map_insert_all" (map_insert_all h kvs);
  map_remove _ _ _ _ _ _ _ _ h k := measure_mut "MapOps::map_remove" (map_remove h k);
  map_fast_remove _ _ _ _ _ _ _ _ h k :=
    measure_mut "MapOps::map_fast_remove" (map_fast_remove h k);
  map_contains _ _ _ _ _ _ _ _ h k := measure "MapOps::map_contains" (map_contains h k);
  map_iter _ _ _ _ _ _ _ _ h := measure_iter "MapOps::map_iter" (map_iter h);
  map_keys _ _ _ _ _ _ _ _ h := measure_iter "MapOps::map_keys" (map_keys h);
  map_values _ _ _ _ _ _ _ _ h := measure_iter "MapOps::map_values" (map_values h);
  map_len _ _ _ _ _ _ _ _ h := measure "MapOps::map_len" (map_len h);
  map_is_empty _ _ _ _ _ _ _ _ h := measure "MapOps::map_is_empty" (map_is_empty h);
}.
#[export] Instance Metered_VecOps : VecOps (Metered B) := {
  vec_clear _ _ _ _ _ _ h := measure_mut "VecOps::vec_clear" (vec_clear h);
  vec_append _ _ _ _ _ _ h v := measure_mut "VecOps::vec_append" (vec_append h v);
  vec_get _ _ _ _ _ _ h := measure "VecOps::vec_get" (vec_get h);
  vec_iter _ _ _ _ _ _ h := measure_iter "VecOps::vec_iter" (vec_iter h);
  vec_set _ _ _ _ _ _ h v := measure_mut "VecOps::vec_set" (vec_set h v);
  vec_add_all _ _ _ _ _ _ h vs := measure_mut "VecOps::vec_add_all" (vec_add_all h vs);
  vec_len _ _ _ _ _ _ h := measure "VecOps::vec_len" (vec_len h);
  vec_is_empty _ _ _ _ _ _ h := measure "VecOps::vec_is_empty" (vec_is_empty h);
}.
#[export] Instance Metered_ReducerOps : ReducerOps (Metered B) := {
  reducer_clear _ _ _ _ _ _ h := measure_mut "ReducerOps::reducer_clear" (reducer_clear h);
  reducer_get _ _ _ _ _ _ h := measure "ReducerOps::reducer_get" (reducer_get h);
  reducer_reduce _ _ _ _ _ _ h v := measure_mut "ReducerOps::reducer_reduce" (reducer_reduce h v);
}.
#[export] Instance Metered_AggregatorOps : AggregatorOps (Metered B) := {
  aggregator_clear _ _ _ _ _ _ _ _ _ h :=
    measure_mut "AggregatorOps::aggregator_clear" (aggregator_clear h);
  aggregator_get _ _ _ _ _ _ _ _ _ h :=
    measure "AggregatorOps::aggregator_get" (aggregator_get h);
  aggregator_aggregate _ _ _ _ _ _ _ _ _ h v :=
    measure_mut "AggregatorOps::aggregator_aggregate" (aggregator_aggregate h v);
}.

Definition on_inner (f : B → B) (m : Metered B) : Metered B :=
  MkMetered (f (inner m)) (backend_name m) (metrics m) (readings m).
#[export] Instance Metered_Backend : Backend (Metered B) := {
  was_restored m := was_restored (inner m);
  checkpoint path := measure "Backend::checkpoint" (checkpoint path);
  start_session := on_inner start_session;
  session_drop_hook := on_inner <$> session_drop_hook;
  register_value_handle _ _ _ _ _ _ h :=
    measure_mut "Backend::register_value_handle" (register_value_handle h);
  register_map_handle _ _ _ _ _ _ _ _ h :=
    measure_mut "Backend::register_map_handle" (register_map_handle h);
  register_vec_handle _ _ _ _ _ _ h :=
    measure_mut "Backend::register_vec_handle" (register_vec_handle h);
  register_reducer_handle _ _ _ _ _ _ h :=
    measure_mut "Backend::register_reducer_handle" (register_reducer_handle h);
  register_aggregator_handle _ _ _ _ _ _ _ _ _ h :=
    measure_mut "Backend::register_aggregator_handle" (register_aggregator_handle h);
}.
End metered.

(** ** The ring buffer keeps the latest measurements *)

Section ring.
Context `{BuildProfile} {E : Type}.

Lemma Metrics_push_ok (dp : DataPoint) m :
  storage m ≠ [] → 0 ≤ num_pushed m → num_pushed m + 1 ≤ usize_max →
  @Metrics_push _ E dp m =
    (Ok tt, MkMetrics (num_pushed m + 1)
      (<[Z.to_nat (num_pushed m mod len (storage m)) := dp]> (storage m))).
Proof.
  intros Hne H0 Hmax. unfold Metrics_push, mbind, M_bind, get_st, lift, put_st.
  rewrite u_rem_ok by (destruct (storage m); [done|simpl; lia]). cbn [num_pushed storage].
  by rewrite u_add_ok by (unfold in_u, usize_max in *; lia).
Qed.

(** Invariant of [n] pushes into a buffer of [cap] entries. *)
Definition ring_inv (cap : Z) (l : list DataPoint) (m : Metrics) : Prop :=
  num_pushed m = len l ∧ len (storage m) = cap ∧
  ∀ j dp, len l - cap ≤ Z.of_nat j → l !! j = Some dp →
    storage m !! Z.to_nat (Z.of_nat j mod cap) = Some dp.

Lemma ring_inv_push cap l m dp :
  0 < cap → len l + 1 ≤ usize_max → ring_inv cap l m →
  ∃ m', @Metrics_push _ E dp m = (Ok tt, m') ∧ ring_inv cap (l ++ [dp]) m'.
Proof.
  intros Hcap Hmax (Hn & Hlen & Hl). eexists. split.
  { apply Metrics_push_ok; [|lia..]. intros E0. rewrite E0 in Hlen. simpl in Hlen. lia. }
  split; [cbn; rewrite length_app; simpl; lia|]. cbn [storage num_pushed].
  split; [by rewrite length_insert|]. intros j dp' Hj Hlk.
  rewrite length_app in Hj. cbn [length] in Hj. rewrite Hn, Hlen.
  pose proof (Z.mod_pos_bound (len l) cap Hcap). pose proof (Z.mod_pos_bound (Z.of_nat j) cap Hcap).
  apply lookup_app_Some in Hlk as [Hlk|[Hge Hlk]].
  - pose proof (lookup_lt_Some _ _ _ Hlk) as Hlt.
    rewrite list_lookup_insert_ne; [apply Hl; [lia|done]|].
    intros Heq%Z2Nat.inj; [|lia..].
    pose proof (Z_div_mod_eq_full (len l) cap). pose proof (Z_div_mod_eq_full (Z.of_nat j) cap).
    assert (len l / cap = Z.of_nat j / cap) by nia. lia.
  - apply list_lookup_singleton_Some in Hlk as [Hj0 ->].
    replace j with (length l) by lia. apply list_lookup_insert_eq.
    apply Nat2Z.inj_lt. lia.
Qed.

Lemma ring_inv_pushes cap l m :
  0 < cap → len l ≤ usize_max →
  Metrics_new cap = m → ∃ m', for_each (@Metrics_push _ E) l m = (Ok tt, m') ∧ ring_inv cap l m'.
Proof.
  intros Hcap. revert m. induction l as [|dp l IH] using rev_ind; intros m Hmax <-.
  - eexists. split; [done|]. unfold ring_inv, Metrics_new. cbn.
    rewrite length_replicate. repeat split; [lia|done].
  - rewrite length_app in Hmax. cbn [length] in Hmax.
    destruct (IH _ ltac:(lia) eq_refl) as (m1 & E1 & I1).
    destruct (ring_inv_push cap l m1 dp) as (m2 & E2 & I2); [done|lia|done|].
    exists m2. split; [|done]. rewrite for_each_app. erewrite bind_ok by exact E1.
    cbn [for_each]. by erewrite bind_ok by exact E2.
Qed.

(** After any sequence of pushes the buffer shows all of them while they fit, and afterwards
    exactly the last [cap] of them, each at its index modulo the capacity. *)
Theorem metrics_keeps_latest cap l :
  0 < cap → len l ≤ usize_max →
  ∃ m, for_each (@Metrics_push _ E) l (Metrics_new cap) = (Ok tt, m) ∧
    len (Metrics_deref m) = Z.min cap (len l) ∧
    (len l ≤ cap → Metrics_deref m = l) ∧
    (∀ j dp, len l - cap ≤ Z.of_nat j → l !! j = Some dp →
      Metrics_deref m !! Z.to_nat (Z.of_nat j mod cap) = Some dp).
Proof.
  intros Hcap Hmax. destruct (ring_inv_pushes cap l _ Hcap Hmax eq_refl) as (m & Hm & Hn & Hs & Hl).
  exists m. split; [done|]. unfold Metrics_deref. rewrite Hn.
  destruct (Z.ltb_spec (len (storage m)) (len l)) as [Hlt|Hge].
  { split; [lia|]. split; [lia|done]. }
  rewrite Nat2Z.id.
  assert (Hall : ∀ j dp, l !! j = Some dp → take (length l) (storage m) !! j = Some dp).
  { intros j dp Hj. pose proof (lookup_lt_Some _ _ _ Hj). rewrite lookup_take_lt by lia.
    rewrite <- (Hl j dp) by (done || lia). f_equal. rewrite Z.mod_small by lia. lia. }
  assert (Htl : length (take (length l) (storage m)) = length l) by (rewrite length_take; lia).
  split; [lia|]. split.
  - intros _. apply list_eq_same_length with (n := length l); [done|done|].
    intros j x y Hj H1 H2. apply Hall in H2. congruence.
  - intros j dp Hj Hlk. rewrite Z.mod_small, Nat2Z.id by (apply lookup_lt_Some in Hlk; lia). eauto.
Qed.
End ring.
Example metrics_keeps_latest_witness :
  let _ : BuildProfile := true in
  let dp n := MkDataPoint "op" n 0 in
  ∃ m, for_each (Metrics_push (E:=unit)) [dp 1; dp 2; dp 3] (Metrics_new 2) = (Ok tt, m) ∧
    len (Metrics_deref m) = Z.min 2 3 ∧
    (3 ≤ 2 → Metrics_deref m = [dp 1; dp 2; dp 3]) ∧
    (∀ j d, 3 - 2 ≤ Z.of_nat j → [dp 1; dp 2; dp 3] !! j = Some d →
      Metrics_deref m !! Z.to_nat (Z.of_nat j mod 2) = Some d).
Proof.
  intros profile dp. apply (metrics_keeps_latest 2 [dp 1; dp 2; dp 3]); [lia|by vm_compute].
Defined.

(** ** The wrapper is transparent *)

Section transparent.
Context `{profile : BuildProfile, MonotonicClock} (Hrel : overflow_checks = false).
Context {B : Type} `{Backend B}.

(** The ring buffer is usable: it has an entry and its counter is a [usize]. *)
Definition metered_ok (m : Metered B) : Prop :=
  storage (metrics m) ≠ [] ∧ in_u 64 (num_pushed (metrics m)).

Lemma Metrics_push_release (dp : DataPoint) (ms : Metrics) :
  storage ms ≠ [] → in_u 64 (num_pushed ms) →
  ∃ ms', @Metrics_push _ ArconStateError dp ms = (Ok tt, ms') ∧
    storage ms' ≠ [] ∧ in_u 64 (num_pushed ms').
Proof using Hrel.
  intros Hne Hin. unfold Metrics_push, mbind, M_bind, get_st, lift, put_st.
  rewrite u_rem_ok by (destruct (storage ms); [done|simpl; lia]). cbn [num_pushed storage].
  unfold u_add. destruct (wrapping_release (E:=ArconStateError) 64
    "attempt to add with overflow" (num_pushed ms + 1) Hrel) as (n & -> & Hn); [done|].
  eexists. split; [done|]. split; [|done]. cbn.
  intros Hnil%(f_equal length). rewrite length_insert in Hnil. by destruct (storage ms).
Qed.

Lemma nanos_between_ok {E} a b : a ≤ b → ∃ d, @nanos_between E a b = Ok d.
Proof using Type.
  intros Hab. unfold nanos_between. destruct (Z.ltb_spec b a); [lia|]. by eexists.
Qed.

(** Measuring an operation gives its result and its effect on the wrapped backend. *)
Lemma measure_transparent {A} name (func : StateM B A) m o b' :
  metered_ok m → func (inner m) = (o, b') →
  ∃ m', measure_mut name func m = (o, m') ∧ inner m' = b' ∧ metered_ok m'.
Proof using H0 Hrel.
  intros [Hne Hin] Hf.
  destruct (nanos_between_ok (E:=ArconStateError) (instant (readings m))
    (instant (S (readings m)))) as [d Hd]; [apply instant_mono; lia|].
  destruct (nanos_between_ok (E:=ArconStateError) absolute_start (instant (readings m)))
    as [s Hs]; [apply absolute_start_le|].
  destruct (Metrics_push_release (MkDataPoint name s d) (metrics m) Hne Hin)
    as (ms' & Hp & Hne' & Hin').
  unfold measure_mut, mbind, M_bind, Instant_now, lift, zoom.
  cbn [inner metrics readings backend_name]. rewrite Hf.
  by destruct o; cbn [inner metrics readings backend_name]; rewrite ?Hd, ?Hs, ?Hp; eexists.
Qed.

Lemma measure_iter_transparent {A} name (func : StateM B (list (StateResult A))) m l b' :
  metered_ok m → func (inner m) = (Ok l, b') →
  ∃ m', measure_iter name func m = (Ok l, m') ∧ inner m' = b' ∧ metered_ok m'.
Proof using H0 Hrel.
  intros Hm Hf. unfold measure_iter, measure.
  edestruct (measure_transparent name func m) as (m1 & E1 & Hb1 & Hm1); [done..|].
  step_ok E1.
  edestruct (for_each_inv (E:=ArconStateError) (λ m', metered_ok m' ∧ inner m' = b')
    (λ _ : unit, measure (name +:+ "::next") (mret tt)) (tt :: ((λ _, tt) <$> l)) m1)
    as (m2 & E2 & Hm2 & Hb2); [|done|].
  - intros [] m2 _ [Hm2 Hb2].
    edestruct (measure_transparent (name +:+ "::next") (mret tt) m2) as (m3 & E3 & Hb3 & Hm3);
      [done|done|]. exists m3. split; [exact E3|]. split; [done|congruence].
  - step_ok E2. by exists m2.
Qed.

Context `{!BackendRep B}.

(** The wrapped backend's data, visible while the ring buffer is usable. *)
#[local] Instance metered_ok_dec m : Decision (metered_ok m).
Proof using Type. unfold metered_ok. apply _. Defined.
#[export] Instance Metered_BackendRep : BackendRep (Metered B) := {|
  backend_ok m := metered_ok m ∧ backend_ok (inner m);
  Region := @Region B _;
  region m id := if decide (metered_ok m) then region (inner m) id else None;
  ValRep T _ := ValRep;
  MapRep K V _ _ _ _ _ := MapRep;
  VecRep T _ := VecRep;
  RedRep T _ := RedRep;
  AggRep Inp A R _ _ := AggRep;
  VecStored T _ := VecStored;
  RedStored T _ := RedStored;
  AggStored Inp A R _ _ := AggStored;
  red_ok T := red_ok;
  agg_ok Inp A R := agg_ok;
|}.

Lemma metered_region m id r :
  @region (Metered B) _ m id = Some r → metered_ok m ∧ @region B _ (inner m) id = Some r.
Proof using Type. cbn. by case_decide. Qed.
Lemma region_metered m id : metered_ok m → @region (Metered B) _ m id = @region B _ (inner m) id.
Proof using Type. intros. cbn. by rewrite decide_True. Qed.
Lemma metered_same_data m m' :
  metered_ok m → metered_ok m' → same_data (inner m) (inner m') → same_data m m'.
Proof using Type. intros Hm Hm' Hs id. rewrite !region_metered by done. apply Hs. Qed.
Lemma metered_updates m m' id r :
  metered_ok m → metered_ok m' → updates (inner m) (inner m') id r →
  @updates (Metered B) _ m m' id r.
Proof using Type.
  intros Hm Hm' [Hr Hs]. split; [by rewrite region_metered|].
  intros id' Hne. rewrite !region_metered by done. by apply Hs.
Qed.

Lemma metered_reads {A} name (func : StateM B A) m a :
  metered_ok m → reads func (inner m) a → reads (measure_mut name func) m a.
Proof using H0 Hrel.
  intros Hm (b' & Hf & Hs).
  edestruct (measure_transparent name func m) as (m' & E' & Hb & Hm'); [done..|].
  exists m'. split; [done|]. apply metered_same_data; [done..|]. by rewrite Hb.
Qed.
Lemma metered_reads_iter {A} name (func : StateM B (list (StateResult A))) m l :
  metered_ok m → reads func (inner m) l → reads (measure_iter name func) m l.
Proof using H0 Hrel.
  intros Hm (b' & Hf & Hs).
  edestruct (measure_iter_transparent name func m) as (m' & E' & Hb & Hm'); [done..|].
  exists m'. split; [done|]. apply metered_same_data; [done..|]. by rewrite Hb.
Qed.
Lemma metered_writes {A X} (Rep : @Region B _ → bytes → X → Prop) name (func : StateM B A) m id r
    mk (a : A) (x' : X) :
  metered_ok m → writes Rep func (inner m) id r mk a x' →
  @writes (Metered B) A X _ Rep (measure_mut name func) m id r mk a x'.
Proof using H0 Hrel.
  intros Hm (b' & r' & Hf & Hu & Hrest).
  edestruct (measure_transparent name func m) as (m' & E' & Hb & Hm'); [done..|].
  exists m', r'. split; [done|]. split; [|done]. apply metered_updates; [done..|]. by rewrite Hb.
Qed.
Lemma metered_registers {S IK N X} `{FixedBytes IK, FixedBytes N} (Stored Rep : @Region B _ → bytes → X → Prop) x0 name
    (func : StateM B (Handle S IK N)) m h :
  metered_ok m → registers Stored Rep x0 func (inner m) h →
  @registers (Metered B) S IK N X _ _ _ Stored Rep x0 (measure_mut name func) m h.
Proof using H0 Hrel.
  intros Hm (b' & r' & Hf & Hok & Hu & Hr).
  edestruct (measure_transparent name func m) as (m' & E' & Hb & Hm'); [done..|].
  exists m', r'. split; [done|]. split; [split; [done|by rewrite Hb]|].
  split; [apply metered_updates; [done..|by rewrite Hb]|]. by rewrite region_metered.
Qed.

Lemma metered_drop_session m :
  inner (drop_session m) = drop_session (inner m) ∧ metrics (drop_session m) = metrics m.
Proof using Type.
  unfold drop_session. cbn. by destruct session_drop_hook.
Qed.

Lemma metered_map_spec K V IK N `{Key K, !MessageLaws K, EqDecision K, !Countable K, Value V,
    Metakey IK, Metakey N, !MapSpec B K V IK N} : MapSpec (Metered B) K V IK N.
Proof using H0 Hrel.
  split.
  - intros h b r m k [Hm Hr]%metered_region Hx. apply metered_reads; [done|]. by eapply map_get_spec.
  - intros h b r m k [Hm Hr]%metered_region Hx. apply metered_reads; [done|]. by eapply map_contains_spec.
  - intros h b r m [Hm Hr]%metered_region Hx. apply metered_reads; [done|]. by eapply map_len_spec.
  - intros h b r m [Hm Hr]%metered_region Hx. apply metered_reads; [done|]. by eapply map_is_empty_spec.
  - intros h b r m k v [Hm Hr]%metered_region Hx. refine (metered_writes (MapRep (K:=K) (V:=V)) _ _ _ _ _ _ _ _ Hm _). by eapply map_insert_spec.
  - intros h b r m k v [Hm Hr]%metered_region Hx. refine (metered_writes (MapRep (K:=K) (V:=V)) _ _ _ _ _ _ _ _ Hm _). by eapply map_fast_insert_spec.
  - intros h b r m kvs [Hm Hr]%metered_region Hx. refine (metered_writes (MapRep (K:=K) (V:=V)) _ _ _ _ _ _ _ _ Hm _). by eapply map_insert_all_spec.
  - intros h b r m k [Hm Hr]%metered_region Hx. refine (metered_writes (MapRep (K:=K) (V:=V)) _ _ _ _ _ _ _ _ Hm _). by eapply map_remove_spec.
  - intros h b r m k [Hm Hr]%metered_region Hx. refine (metered_writes (MapRep (K:=K) (V:=V)) _ _ _ _ _ _ _ _ Hm _). by eapply map_fast_remove_spec.
  - intros h b r m [Hm Hr]%metered_region Hx. refine (metered_writes (MapRep (K:=K) (V:=V)) _ _ _ _ _ _ _ _ Hm _). by eapply map_clear_spec.
  - intros h b r m Hw [Hm Hr]%metered_region Hx.
    edestruct (map_iter_spec h (inner b) r m) as (l & Hl & Hp); [done..|].
    exists l. split; [|done]. by eapply metered_reads_iter.
  - intros h b r m Hw [Hm Hr]%metered_region Hx.
    edestruct (map_keys_spec h (inner b) r m) as (l & Hl & Hp); [done..|].
    exists l. split; [|done]. by eapply metered_reads_iter.
  - intros h b r m [Hm Hr]%metered_region Hx.
    edestruct (map_values_spec h (inner b) r m) as (l & Hl & Hp); [done..|].
    exists l. split; [|done]. by eapply metered_reads_iter.
Qed.

(** A change of the wrapped backend that keeps its data and leaves the ring buffer alone. *)
Lemma metered_inner_data m m' :
  metrics m' = metrics m → same_data (inner m) (inner m') → same_data m m'.
Proof using Type.
  intros Hme Hs id. cbn. assert (metered_ok m' ↔ metered_ok m) by (unfold metered_ok; by rewrite Hme).
  repeat case_decide; [apply Hs|tauto..|done].
Qed.

Lemma metered_backend_spec : BackendSpec B → BackendSpec (Metered B).
Proof using H0 Hrel.
  intros Hspec. split; try (intros; match goal with Hr : region _ _ = Some _ |- _ =>
    apply metered_region in Hr as [Hm Hr] end).
  - intros m. apply metered_inner_data; [done|]. apply session_spec.
  - intros m. destruct (metered_drop_session m) as [Hi Hme].
    apply metered_inner_data; [done|]. rewrite Hi. apply drop_session_spec.
  - intros m [Hm Hok]. split; [done|]. by apply session_ok.
  - intros m [Hm Hok]. destruct (metered_drop_session m) as [Hi Hme].
    split; [unfold metered_ok; by rewrite Hme|]. rewrite Hi. by apply drop_session_ok.
  - split; [done|]. by eapply region_ok.
  - intros path m [Hm Hok]. destruct (checkpoint_spec path (inner m) Hok) as (o & b' & Hc & Hok' & Hs & Ho).
    edestruct (measure_transparent "Backend::checkpoint" (checkpoint path) m) as (m' & E' & Hi & Hm');
      [done|exact Hc|].
    exists o, m'. split; [exact E'|]. subst b'. split; [done|]. split; [|done].
    by apply metered_same_data.
  - intros ? ? r mk l. apply (vec_stored (B:=B)).
  - intros ? ? f r mk l. apply (red_stored (B:=B)).
  - intros ? ? ? ? ? ag r mk l. apply (agg_stored (B:=B)).
  - intros; apply (metered_registers ValRep ValRep None); [by match goal with Hb : backend_ok _ |- _ => apply Hb end|].
    apply register_value_spec. by match goal with Hb : backend_ok _ |- _ => apply Hb end.
  - intros; apply (metered_registers MapRep MapRep ∅); [by match goal with Hb : backend_ok _ |- _ => apply Hb end|].
    apply register_map_spec. by match goal with Hb : backend_ok _ |- _ => apply Hb end.
  - intros; apply (metered_registers VecStored VecRep []); [by match goal with Hb : backend_ok _ |- _ => apply Hb end|].
    apply register_vec_spec. by match goal with Hb : backend_ok _ |- _ => apply Hb end.
  - intros ? ? ? ? ? ? b h [Hm Hb] Hok. apply (metered_registers (RedStored (extra_data h)) (RedRep (extra_data h)) None); [done|].
    by apply register_reducer_spec.
  - intros ? ? ? ? ? ? ? ? ? b h [Hm Hb] Hok. apply (metered_registers (AggStored (extra_data h)) (AggRep (extra_data h)) None); [done|].
    by apply register_aggregator_spec.
  - apply metered_reads; [done|]. by eapply value_get_spec.
  - refine (metered_writes (ValRep (T:=T)) _ _ _ _ _ _ _ _ Hm _). by eapply value_set_spec.
  - refine (metered_writes (ValRep (T:=T)) _ _ _ _ _ _ _ _ Hm _). by eapply value_fast_set_spec.
  - refine (metered_writes (ValRep (T:=T)) _ _ _ _ _ _ _ _ Hm _). by eapply value_clear_spec.
  - apply metered_reads; [done|]. by eapply vec_get_spec.
  - apply metered_reads_iter; [done|]. by eapply vec_iter_spec.
  - apply metered_reads; [done|]. by eapply vec_len_spec.
  - apply metered_reads; [done|]. by eapply vec_is_empty_spec.
  - refine (metered_writes (VecRep (T:=T)) _ _ _ _ _ _ _ _ Hm _). by eapply vec_append_spec.
  - refine (metered_writes (VecRep (T:=T)) _ _ _ _ _ _ _ _ Hm _). by eapply vec_set_spec.
  - refine (metered_writes (VecRep (T:=T)) _ _ _ _ _ _ _ _ Hm _). by eapply vec_add_all_spec.
  - refine (metered_writes (VecRep (T:=T)) _ _ _ _ _ _ _ _ Hm _). by eapply vec_clear_spec.
  - apply metered_reads; [done|]. by eapply reducer_get_spec.
  - refine (metered_writes (RedRep (extra_data h)) _ _ _ _ _ _ _ _ Hm _). by eapply reducer_reduce_spec.
  - refine (metered_writes (RedRep (extra_data h)) _ _ _ _ _ _ _ _ Hm _). by eapply reducer_clear_spec.
  - edestruct (aggregator_get_spec h (inner b) r x) as (b' & Hg & Hs); [done..|].
    edestruct (measure_transparent "AggregatorOps::aggregator_get" (aggregator_get h) b)
      as (m' & E' & Hi & Hm'); [done|exact Hg|].
    exists m'. split; [exact E'|]. apply metered_same_data; [done..|]. by rewrite Hi.
  - refine (metered_writes (AggRep (extra_data h)) _ _ _ _ _ _ _ _ Hm _). by eapply aggregator_aggregate_spec.
  - refine (metered_writes (AggRep (extra_data h)) _ _ _ _ _ _ _ _ Hm _). by eapply aggregator_clear_spec.
Qed.
End transparent.

(** C20: Wrapping a backend keeps its contract: whatever the wrapped backend promises, the metered one
    promises too, as long as the ring buffer is usable.  The release profile is assumed because the
    counter of pushes is never reset and would overflow in a debug build. *)
Theorem metered_implements_backend `{profile : BuildProfile, MonotonicClock}
    (B : Type) `{BackendSpec B} :
  overflow_checks = false →
  BackendSpec (Metered B) ∧
  ∀ K V IK N `{Key K, !MessageLaws K, EqDecision K, !Countable K, Value V, Metakey IK, Metakey N,
    !MapSpec B K V IK N}, MapSpec (Metered B) K V IK N.
Proof.
  intros Hrel. split; [by apply metered_backend_spec|].
  intros. by apply metered_map_spec.
Qed.

(** A clock that ticks once per reading, for concrete inputs. *)
#[local] Instance ticking_clock : Clock := {| absolute_start := 0; instant := Z.of_nat |}.
#[local] Instance ticking_monotonic : MonotonicClock.
Proof. split; cbn; intros; lia. Qed.
#[local] Instance release_profile : BuildProfile := false.

Example metered_implements_backend_witness :
  BackendSpec (Metered InMemory) ∧
  ∀ K V IK N `{Key K, !MessageLaws K, EqDecision K, !Countable K, Value V, Metakey IK, Metakey N,
    !MapSpec InMemory K V IK N}, MapSpec (Metered InMemory) K V IK N.
Proof. by apply (metered_implements_backend InMemory). Defined.

(** What a measured operation does beyond delegating: a success or an error pushes one data point
    with its name; with an empty ring buffer (a capacity of zero is accepted from the environment)
    the wrapped operation takes effect and the call then panics. *)
Theorem measure_records `{profile : BuildProfile, MonotonicClock} {B A} `{Backend B} name
    (func : StateM B A) (m : Metered B) (r : StateResult A) b' :
  func (inner m) = (r, b') → (∃ a, r = Ok a) ∨ (∃ e, r = Err e) →
  0 ≤ num_pushed (metrics m) < usize_max →
  ∃ m', inner m' = b' ∧
    if decide (storage (metrics m) = [])
    then ∃ msg, measure name func m = (Panic msg, m')
    else measure name func m = (r, m') ∧
      num_pushed (metrics m') = num_pushed (metrics m) + 1 ∧
      operation <$> storage (metrics m') !!
        Z.to_nat (num_pushed (metrics m) mod len (storage (metrics m))) = Some name.
Proof.
  intros Hf Hr Hn.
  destruct (nanos_between_ok (E:=ArconStateError) (instant (readings m))
    (instant (S (readings m)))) as [d Hd]; [apply instant_mono; lia|].
  destruct (nanos_between_ok (E:=ArconStateError) absolute_start (instant (readings m)))
    as [s Hs]; [apply absolute_start_le|].
  unfold measure, measure_mut, mbind, M_bind, Instant_now, lift, zoom.
  cbn [inner metrics readings backend_name]. rewrite Hf.
  destruct (decide (storage (metrics m) = [])) as [Hnil|Hne].
  - destruct Hr as [[a ->]|[e ->]]; cbn [inner metrics readings backend_name]; rewrite Hd, Hs;
      unfold Metrics_push, mbind, M_bind, get_st, lift; rewrite Hnil;
      cbn; eexists; (split; [|by eexists]); done.
  - assert (Hidx : (Z.to_nat (num_pushed (metrics m) mod len (storage (metrics m)))
      < length (storage (metrics m)))%nat).
    { apply Nat2Z.inj_lt. rewrite Z2Nat.id; apply Z.mod_pos_bound;
        destruct (storage (metrics m)); try done; simpl; lia. }
    destruct Hr as [[a ->]|[e ->]]; cbn [inner metrics readings backend_name]; rewrite Hd, Hs;
      rewrite Metrics_push_ok by (done || lia); eexists; (split; [|split; [done|]]); try done;
      cbn; by rewrite list_lookup_insert_eq.
Qed.
Example measure_records_witness :
  ∃ m', inner m' = InMemory_default ∧
    if decide ([] = @nil DataPoint)
    then ∃ msg, measure "Backend::checkpoint" (checkpoint (B:=InMemory) "path")
        (MkMetered InMemory_default "InMemory" (MkMetrics 0 []) 0) = (Panic msg, m')
    else True.
Proof.
  apply (measure_records "Backend::checkpoint" (checkpoint (B:=InMemory) "path")
    (MkMetered InMemory_default "InMemory" (MkMetrics 0 []) 0) (Ok tt)); [done|eauto|by cbn].
Defined.
