(* ===== verification/Restore.v ===== *)
(** [Backend::restore_or_create] of [arcon_state/src/lib.rs]: the choice between the last complete
    checkpoint and a fresh state, over the file system of [Files.v]; the constructors of the in-memory
    and the metered backends; and the names of the backend types. *)

From S2P Require Import Prelude Error Serialization StateBackend InMemory Files Metered.
From Stdlib Require Import Ascii.

(** ** Checkpoints *)

Record Config : Type := MkConfig {
  live_state_base_path : path;
  checkpoints_base_path : path;
  backend_ids : list string;
}.

(** The constructors of a backend, which read and write the file system. *)
Class BackendCtor (B : Type) := {
  create : path → M Fs ArconStateError B;
  restore : path → path → M Fs ArconStateError B;
}.

Definition CHECKPOINT_PREFIX : string := "checkpoint_".
Definition checkpoint_name (id : string) (epoch : Z) : string :=
  CHECKPOINT_PREFIX +:+ id +:+ "_" +:+ display_unsigned epoch.

(** The id and the epoch that the name of a directory entry denotes. *)
Definition parse_entry (base : path) (entry : string * FsNode) : StateResult (string * Z) :=
  let invalid_path := InvalidPath (path_display (base ++ [entry.1])) in
  match strip_prefix CHECKPOINT_PREFIX entry.1, entry.2 with
  | Some dir_name, Dir =>
      match split_on "_" dir_name with
      | id :: rest =>
          epoch_part ← ok_or invalid_path (head rest);
          epoch ← ok_or invalid_path (parse_unsigned u64_max epoch_part);
          match tail rest with
          | [] => Ok (id, epoch)
          | _ => Err invalid_path
          end
      | [] => Err invalid_path
      end
  | _, _ => Err invalid_path
  end.

(** The loop over the directory entries. *)
Fixpoint collect_checkpoints (config : Config) (checkpoints : gmap string (gset Z))
    (entries : list (string * FsNode)) : StateResult (gmap string (gset Z)) :=
  match entries with
  | [] => Ok checkpoints
  | entry :: entries' =>
      p ← parse_entry (checkpoints_base_path config) entry;
      checkpoints_for_id ←
        ok_or (UnknownNode p.1 (backend_ids config)) (checkpoints !! p.1);
      collect_checkpoints config (<[p.1 := {[p.2]} ∪ checkpoints_for_id]> checkpoints) entries'
  end.

Definition initial_checkpoints (config : Config) : gmap string (gset Z) :=
  list_to_map ((λ id, (id, ∅)) <$> backend_ids config).

(** The intersection of all the sets, in the order of the hash map. *)
Definition complete_checkpoints (checkpoints : gmap string (gset Z)) : option (gset Z) :=
  match (map_to_list checkpoints).*2 with
  | [] => None
  | s :: others => Some (foldl (λ complete other, complete ∩ other) s others)
  end.
(** [ce.iter().last()]: the greatest element of a [BTreeSet]. *)
Definition last_of (s : gset Z) : option Z :=
  foldr (λ x acc, Some (match acc with Some y => Z.max x y | None => x end)) None (elements s).

Definition restore_or_create {B} `{BackendCtor B} (config : Config) (id : string)
  : M Fs ArconStateError B :=
  let state_path := live_state_base_path config ++ [id] in
  exists_ ← gets (path_exists state_path);
  (if (exists_ : bool) then remove_dir_all state_path else mret tt) ;;
  entries ← read_dir (checkpoints_base_path config);
  checkpoints ← lift (collect_checkpoints config (initial_checkpoints config) entries);
  match complete_checkpoints checkpoints ≫= last_of with
  | Some epoch => restore state_path (checkpoints_base_path config ++ [checkpoint_name id epoch])
  | None => create state_path
  end.

(** ** Constructors *)

(** The in-memory backend overrides [restore_or_create]; none of the three touches the disk. *)
#[export] Instance InMemory_ctor : BackendCtor InMemory := {
  create _ := mret InMemory_default;
  restore _ _ := mret InMemory_default;
}.
Definition InMemory_restore_or_create (config : Config) (id : string)
  : M Fs ArconStateError InMemory := mret InMemory_default.

Section metered_ctor.
Context `{BuildProfile, Clock} {B : Type}.
(** [type_name::<B>()] and the variable ARCON_SB_METRICS_LEN of the environment. *)
Context (type_name : string) (metrics_len : option string).

(** [10 * MB / size_of::<DataPoint>()], where [MB] is [2 << 20] and a data point takes 32 bytes:
    a fat pointer and two [u64]. *)
Definition DEFAULT_METRICS_CAP : Z := 10 * Z.shiftl 2 20 / 32.
Definition metrics_cap : Z :=
  default DEFAULT_METRICS_CAP (s ← metrics_len; parse_unsigned usize_max s).

Definition new_from_initial_measurement (inner : StateResult B) (dp : DataPoint)
  : StateResult (Metered B) :=
  inner ← inner;
  let '(o, metrics) := Metrics_push dp (Metrics_new metrics_cap) in
  o ;; Ok (MkMetered inner type_name metrics 0).

(** The measurement around a constructor; the readings are the first ones. *)
Definition measure_ctor (operation_name : string) (ctor : M Fs ArconStateError B)
  : M Fs ArconStateError (Metered B) := λ fs,
  let '(o, fs') := ctor fs in
  let start := instant 0 in let end_ := instant 1 in
  match o with
  | Panic msg => (Panic msg, fs')
  | Diverge => (Diverge, fs')
  | Ok _ | Err _ =>
      (d ← nanos_between start end_; s ← nanos_between absolute_start start;
       new_from_initial_measurement o (MkDataPoint operation_name s d), fs')
  end.

Context `{BackendCtor B}.
#[export] Instance Metered_ctor : BackendCtor (Metered B) := {
  create live_path := measure_ctor "Backend::create" (create live_path);
  restore live_path checkpoint_path :=
    measure_ctor "Backend::restore" (restore live_path checkpoint_path);
}.
Definition Metered_restore_or_create (config : Config) (id : string)
  : M Fs ArconStateError (Metered B) :=
  measure_ctor "Backend::restore_or_create" (restore_or_create config id).
End metered_ctor.

(** ** Lemmas *)

Lemma parse_entry_name base id epoch :
  has_char "_" id = false → in_u 64 epoch →
  parse_entry base (checkpoint_name id epoch, Dir) = Ok (id, epoch).
Proof.
  intros Hid He. unfold parse_entry, checkpoint_name. cbn [fst snd].
  rewrite strip_prefix_app. change ("_" +:+ ?x)%string with (String "_" x). rewrite split_on_app by done.
  rewrite split_on_none by apply has_char_display. cbn [head tail].
  cbn. rewrite parse_display; [done|]. unfold in_u, u64_max in *. lia.
Qed.

Lemma last_of_spec s :
  match last_of s with
  | Some m => m ∈ s ∧ ∀ x, x ∈ s → x ≤ m
  | None => s = ∅
  end.
Proof.
  unfold last_of.
  assert (∀ l : list Z, match foldr (λ x acc, Some (match acc with Some y => Z.max x y | None => x end))
      None l with Some m => m ∈ l ∧ ∀ x, x ∈ l → x ≤ m | None => l = [] end) as Hl.
  { induction l as [|x l IH]; simpl; [done|].
    destruct (foldr _ None l) as [m|]; [|subst; split; [set_solver|]; intros; set_solver by lia].
    destruct IH as [Hm Hmax]. split.
    - destruct (Z.max_spec x m) as [[_ ->]|[_ ->]]; set_solver.
    - intros y [->|Hy]%elem_of_cons; [lia|]. specialize (Hmax y Hy). lia. }
  specialize (Hl (elements s)). destruct (foldr _ None (elements s)).
  - destruct Hl as [Hin Hmax]. split; [by apply elem_of_elements|].
    intros x Hx. by apply Hmax, elem_of_elements.
  - by apply elements_empty_iff, leibniz_equiv in Hl.
Qed.

Lemma complete_checkpoints_spec checkpoints :
  checkpoints ≠ ∅ →
  ∃ s, complete_checkpoints checkpoints = Some s ∧
    ∀ e, e ∈ s ↔ ∀ id s', checkpoints !! id = Some s' → e ∈ s'.
Proof.
  intros Hne. unfold complete_checkpoints.
  assert (Hin : ∀ s' : gset Z, s' ∈ (map_to_list checkpoints).*2 ↔ ∃ id, checkpoints !! id = Some s').
  { intros s'. rewrite list_elem_of_fmap. setoid_rewrite <- elem_of_map_to_list.
    split; [intros ([id s] & -> & ?); eauto|intros [id ?]; by exists (id, s')]. }
  destruct ((map_to_list checkpoints).*2) as [|s others] eqn:El.
  { apply fmap_nil_inv, map_to_list_empty_iff in El. done. }
  eexists. split; [done|]. intros e.
  assert (Hf : ∀ l (s0 : gset Z), e ∈ foldl (λ complete other, complete ∩ other) s0 l ↔
    e ∈ s0 ∧ ∀ s', s' ∈ l → e ∈ s').
  { induction l as [|s1 l IH]; intros s0; simpl; [set_solver|]. rewrite IH. set_solver. }
  rewrite Hf. setoid_rewrite elem_of_cons in Hin. split.
  - intros [Hs Ho] id s' Hid. destruct (proj2 (Hin s') (ex_intro _ id Hid)) as [->|]; eauto.
  - intros Hall. split.
    + destruct (proj1 (Hin s) (or_introl eq_refl)) as [id Hid]. eauto.
    + intros s' Hs'. destruct (proj1 (Hin s') (or_intror Hs')) as [id Hid]. eauto.
Qed.

(** The loop succeeds when every entry denotes a checkpoint of a known id, and adds their epochs. *)
Lemma collect_checkpoints_ok config entries checkpoints :
  (∀ entry, entry ∈ entries → ∃ id e,
    parse_entry (checkpoints_base_path config) entry = Ok (id, e) ∧ id ∈ dom checkpoints) →
  ∃ result, collect_checkpoints config checkpoints entries = Ok result ∧
    dom result = dom checkpoints ∧
    ∀ id s s', checkpoints !! id = Some s → result !! id = Some s' →
      ∀ e, e ∈ s' ↔ e ∈ s ∨ ∃ entry, entry ∈ entries ∧
        parse_entry (checkpoints_base_path config) entry = Ok (id, e).
Proof.
  revert checkpoints. induction entries as [|entry entries IH]; intros cps Hall.
  { exists cps. split; [done|]. split; [done|]. intros id s s' ? ?. simplify_eq. set_solver. }
  destruct (Hall entry) as (id & e & Hp & [s Hs]%elem_of_dom); [set_solver|].
  destruct (IH (<[id := {[e]} ∪ s]> cps)) as (result & Hr & Hdom & Hel).
  { intros en Hen. destruct (Hall en) as (id' & e' & ? & ?); [set_solver|].
    exists id', e'. split; [done|]. by rewrite dom_insert_lookup_L. }
  exists result. cbn [collect_checkpoints]. rewrite Hp. cbn. rewrite Hs. cbn.
  split; [done|]. split; [by rewrite Hdom, dom_insert_lookup_L|].
  intros id' s1 s' H1 H2 e'.
  destruct (decide (id' = id)) as [->|Hne].
  - simplify_eq. rewrite (Hel id ({[e]} ∪ s) s') by (done || by simplify_map_eq).
    setoid_rewrite elem_of_cons. split.
    + intros [[->%elem_of_singleton|]%elem_of_union|(en & ? & ?)]; naive_solver.
    + intros [?|(en & [->|?] & ?)]; [set_solver| |naive_solver].
      left. rewrite Hp in *. set_solver.
  - rewrite (Hel id' s1 s') by (done || by simplify_map_eq). setoid_rewrite elem_of_cons.
    split; [naive_solver|]. intros [?|(en & [->|?] & ?)]; [naive_solver| |naive_solver].
    congruence.
Qed.

Lemma read_dir_ok base fs :
  fs !! base = Some Dir →
  ∃ entries, read_dir base fs = (Ok entries, fs) ∧
    ∀ name ft, (name, ft) ∈ entries ↔ fs !! (base ++ [name]) = Some ft.
Proof.
  intros Hb. unfold read_dir. rewrite Hb. eexists. split; [done|]. intros name ft.
  rewrite list_elem_of_omap. setoid_rewrite elem_of_map_to_list'. unfold child_of. split.
  - intros ([q ft'] & Hq & Hc). cbn in *.
    case_decide as Ht; [|done]. destruct (drop (length base) q) as [|n [|]] eqn:Ed; simplify_eq/=.
    rewrite <- (take_drop (length base) q), Ed, Ht in Hq. done.
  - intros Hf. exists (base ++ [name], ft). split; [done|]. cbn.
    by rewrite take_app_length, decide_True, drop_app_length.
Qed.

(** ** What [restore_or_create] chooses *)

(** Every entry of the checkpoint directory is one that a node with a known id wrote. *)
Definition store_wf (config : Config) (fs : Fs) : Prop :=
  fs !! checkpoints_base_path config = Some Dir ∧
  (∀ id, id ∈ backend_ids config → has_char "_" id = false) ∧
  ∀ name ft, fs !! (checkpoints_base_path config ++ [name]) = Some ft → ∃ id e,
    name = checkpoint_name id e ∧ ft = Dir ∧ id ∈ backend_ids config ∧ in_u 64 e.
(** Epoch [e] was checkpointed by every backend. *)
Definition complete (config : Config) (fs : Fs) (e : Z) : Prop :=
  in_u 64 e ∧ ∀ id, id ∈ backend_ids config →
    fs !! (checkpoints_base_path config ++ [checkpoint_name id e]) = Some Dir.

Section store.
Context (config : Config) (fs : Fs) (Hwf : store_wf config fs).

Lemma initial_lookup id :
  id ∈ backend_ids config → initial_checkpoints config !! id = Some ∅.
Proof using Type.
  intros Hi. apply elem_of_list_to_map_1'; [|by apply list_elem_of_fmap; exists id].
  intros y (? & ? & ?)%list_elem_of_fmap. by simplify_eq.
Qed.
Lemma dom_initial id : id ∈ dom (initial_checkpoints config) ↔ id ∈ backend_ids config.
Proof using Type.
  unfold initial_checkpoints. rewrite dom_list_to_map_L, elem_of_list_to_set, <- list_fmap_compose.
  cbn. by rewrite list_fmap_id.
Qed.

Lemma entry_epoch (entries : list (string * FsNode)) id e :
  (∀ name ft, (name, ft) ∈ entries ↔ fs !! (checkpoints_base_path config ++ [name]) = Some ft) →
  id ∈ backend_ids config →
  (∃ entry, entry ∈ entries ∧ parse_entry (checkpoints_base_path config) entry = Ok (id, e)) ↔
  fs !! (checkpoints_base_path config ++ [checkpoint_name id e]) = Some Dir ∧ in_u 64 e.
Proof using Hwf.
  destruct Hwf as (_ & Hids & Hfiles). intros Hent Hi. split.
  - intros ([name ft] & Hin%Hent & Hp).
    destruct (Hfiles _ _ Hin) as (i' & e' & -> & -> & Hi' & He').
    rewrite parse_entry_name in Hp by eauto. by simplify_eq.
  - intros (Hin%Hent & He). eexists. split; [done|]. apply parse_entry_name; eauto.
Qed.

(** The epochs the code intersects are the complete ones. *)
Lemma collect_complete (entries : list (string * FsNode)) :
  (∀ name ft, (name, ft) ∈ entries ↔ fs !! (checkpoints_base_path config ++ [name]) = Some ft) →
  backend_ids config ≠ [] →
  ∃ result s, collect_checkpoints config (initial_checkpoints config) entries = Ok result ∧
    complete_checkpoints result = Some s ∧ ∀ e, e ∈ s ↔ complete config fs e.
Proof using Hwf.
  intros Hent Hne. pose proof Hwf as (_ & Hids & Hfiles).
  destruct (collect_checkpoints_ok config entries (initial_checkpoints config))
    as (result & Hcol & Hdom & Hel).
  { intros [name ft] Hin%Hent. destruct (Hfiles _ _ Hin) as (i & e & -> & -> & Hi & He).
    exists i, e. split; [apply parse_entry_name; eauto|]. by apply dom_initial. }
  assert (Hdomi : ∀ i, i ∈ dom result ↔ i ∈ backend_ids config).
  { intros i. by rewrite Hdom, dom_initial. }
  destruct (complete_checkpoints_spec result) as (s & Hs & Hcomplete).
  { intros ->. destruct (backend_ids config) as [|i l]; [done|]. specialize (Hdomi i). set_solver. }
  exists result, s. split; [done|]. split; [done|]. intros e. rewrite Hcomplete.
  assert (Hin : ∀ i s', i ∈ backend_ids config → result !! i = Some s' → e ∈ s' ↔
    fs !! (checkpoints_base_path config ++ [checkpoint_name i e]) = Some Dir ∧ in_u 64 e).
  { intros i s' Hi Hs'. rewrite (Hel i ∅ s' (initial_lookup i Hi) Hs'), (entry_epoch entries) by done.
    set_solver. }
  split.
  - intros Hall. assert (Hone : ∀ i, i ∈ backend_ids config →
        fs !! (checkpoints_base_path config ++ [checkpoint_name i e]) = Some Dir ∧ in_u 64 e).
    { intros i Hi. pose proof (proj2 (Hdomi i) Hi) as [s' Hs']%elem_of_dom. apply (Hin i s'); eauto. }
    split; [|by intros i [? ?]%Hone].
    destruct (backend_ids config) as [|i l]; [done|]. apply (Hone i). set_solver.
  - intros [He Hall] i s' Hs'. assert (Hi : i ∈ backend_ids config).
    { apply Hdomi. by apply elem_of_dom_2 in Hs'. }
    apply (Hin i s'); auto.
Qed.
End store.

Section restore.
Context {B : Type} `{BackendCtor B} (config : Config) (id : string) (fs : Fs).

(** The file system after the live state of an earlier run is removed. *)
Definition cleaned : Fs :=
  let p := live_state_base_path config ++ [id] in
  if path_exists p fs then without_subtree p fs else fs.

Lemma restore_or_create_unfold :
  (∀ c, fs !! (live_state_base_path config ++ [id]) ≠ Some (File c)) →
  @restore_or_create B _ config id fs =
  (entries ← read_dir (checkpoints_base_path config);
   checkpoints ← lift (collect_checkpoints config (initial_checkpoints config) entries);
   match complete_checkpoints checkpoints ≫= last_of with
   | Some epoch => restore (live_state_base_path config ++ [id])
       (checkpoints_base_path config ++ [checkpoint_name id epoch])
   | None => create (live_state_base_path config ++ [id])
   end) cleaned.
Proof using Type.
  intros Hf. unfold restore_or_create, cleaned, path_exists, remove_dir_all.
  unfold mbind at 1, M_bind at 1. cbn [gets]. unfold mbind at 1, M_bind at 1.
  unfold gets. case_bool_decide as He; [|done].
  destruct He as [[|c] E]; rewrite E in *; [done|by destruct (Hf c)].
Qed.

(** C36: The node's backend is restored from the greatest epoch that every backend has checkpointed,
    and created afresh when there is none. *)
Theorem restore_or_create_last_complete :
  (∀ c, fs !! (live_state_base_path config ++ [id]) ≠ Some (File c)) →
  store_wf config cleaned → backend_ids config ≠ [] →
  (∀ e, complete config cleaned e → (∀ e', complete config cleaned e' → e' ≤ e) →
    @restore_or_create B _ config id fs =
      restore (live_state_base_path config ++ [id])
        (checkpoints_base_path config ++ [checkpoint_name id e]) cleaned) ∧
  ((∀ e, ¬ complete config cleaned e) →
    @restore_or_create B _ config id fs = create (live_state_base_path config ++ [id]) cleaned).
Proof using Type.
  intros Hf Hwf Hids. rewrite restore_or_create_unfold by done.
  destruct (read_dir_ok _ _ (proj1 Hwf)) as (entries & Hread & Hent). step_ok Hread.
  destruct (collect_complete config cleaned Hwf entries Hent Hids)
    as (result & s & Hcol & Hs & Hiff).
  unfold mbind at 1 3, M_bind at 1 2, lift. rewrite Hcol, Hs. cbn.
  pose proof (last_of_spec s) as Hlast. split.
  - intros e He Hmax. destruct (last_of s) as [m|].
    + destruct Hlast as [Hm Hle]. assert (m = e) as ->; [|done].
      apply Z.le_antisymm; [by apply Hmax, Hiff|by apply Hle, Hiff].
    + subst s. apply Hiff in He. set_solver.
  - intros Hnone. destruct (last_of s) as [m|]; [|done]. destruct Hlast as [Hm _].
    by apply Hiff, Hnone in Hm.
Qed.
End restore.

(** A backend that remembers what it was restored from, for a concrete input: two nodes, of which
    one has checkpointed the epochs 1 and 2 and the other only epoch 1. *)
#[local] Instance remembering_ctor : BackendCtor (option path) := {
  create _ := mret None;
  restore _ checkpoint_path := mret (Some checkpoint_path);
}.
Definition example_config : Config := MkConfig ["live"] ["cp"] ["a"; "b"].
Definition example_fs : Fs :=
  <[["cp"; checkpoint_name "a" 1] := Dir]> (<[["cp"; checkpoint_name "a" 2] := Dir]>
  (<[["cp"; checkpoint_name "b" 1] := Dir]> {[["cp"] := Dir]})).

Lemma example_lookup name ft :
  example_fs !! ["cp"; name] = Some ft →
  ft = Dir ∧ (name = checkpoint_name "a" 1 ∨ name = checkpoint_name "a" 2 ∨
    name = checkpoint_name "b" 1).
Proof.
  unfold example_fs. intros Hl.
  repeat (apply lookup_insert_Some in Hl as [[Hn <-]|[_ Hl]]; [split; [done|]; naive_solver|]).
  by apply lookup_singleton_Some in Hl as [? _].
Qed.
Lemma example_store_wf : store_wf example_config example_fs.
Proof.
  split; [done|]. split.
  - intros i Hi. cbn in Hi. set_unfold. by destruct Hi as [->|[->|[]]].
  - intros name ft [-> [->|[->| ->]]]%example_lookup; eexists _, _; split; try done;
      split; try done; (split; [cbn; set_solver|by vm_compute]).
Qed.
Lemma example_complete e : complete example_config example_fs e → e = 1.
Proof.
  intros [He Hall].
  pose proof (parse_entry_name ["cp"] "b" e eq_refl He) as Hp.
  destruct (example_lookup (checkpoint_name "b" e) Dir) as [_ Hn]; [apply Hall; cbn; set_solver|].
  destruct Hn as [Hn|[Hn|Hn]]; rewrite Hn in Hp; vm_compute in Hp; congruence.
Qed.

Example restore_or_create_last_complete_witness :
  @restore_or_create (option path) _ example_config "a" example_fs =
    restore ["live"; "a"] ["cp"; "checkpoint_a_1"] example_fs.
Proof.
  refine (proj1 (restore_or_create_last_complete (B:=option path) example_config "a" example_fs
    _ _ _) 1 _ _).
  - done.
  - exact example_store_wf.
  - done.
  - split; [by vm_compute|]. intros i Hi. cbn in Hi. set_unfold. by destruct Hi as [->|[->|[]]].
  - intros e He. by rewrite (example_complete e He).
Defined.

(** ** Entries that are not checkpoints *)

(** The naming scheme: the directory of a known backend's checkpoint, whose id has no underscore. *)
Definition checkpoint_entry (config : Config) (entry : string * FsNode) : Prop :=
  entry.2 = Dir ∧ ∃ id epoch, entry.1 = CHECKPOINT_PREFIX +:+ id +:+ "_" +:+ epoch ∧
    has_char "_" id = false ∧ has_char "_" epoch = false ∧
    is_Some (parse_unsigned u64_max epoch) ∧ id ∈ backend_ids config.
(** The error that names what is wrong with an entry. *)
Definition refusal (config : Config) (name : string) (err : ArconStateError) : Prop :=
  err = InvalidPath (path_display (checkpoints_base_path config ++ [name])) ∨
  ∃ id, err = UnknownNode id (backend_ids config) ∧ id ∉ backend_ids config.

Lemma parse_entry_spec config entry :
  match parse_entry (checkpoints_base_path config) entry with
  | Ok (id, _) => checkpoint_entry config entry ↔ id ∈ backend_ids config
  | Err err => ¬ checkpoint_entry config entry ∧ refusal config entry.1 err
  | _ => False
  end.
Proof.
  assert (Hscheme : ∀ id digits, has_char "_" id = false → has_char "_" digits = false →
    entry.1 = CHECKPOINT_PREFIX +:+ id +:+ "_" +:+ digits →
    strip_prefix CHECKPOINT_PREFIX entry.1 = Some (id +:+ String "_" digits) ∧
    split_on "_" (id +:+ String "_" digits) = [id; digits]).
  { intros id digits Hi Hd ->. rewrite strip_prefix_app. split; [done|].
    by rewrite split_on_app, split_on_none by done. }
  assert (Hbad : (∀ dir_name id digits, strip_prefix CHECKPOINT_PREFIX entry.1 = Some dir_name →
      split_on "_" dir_name = [id; digits] → entry.2 = Dir → parse_unsigned u64_max digits = None) →
    ¬ checkpoint_entry config entry).
  { intros Hno (Hdir & id & digits & Hn & Hi & Hd & [e He] & _).
    destruct (Hscheme id digits Hi Hd Hn) as [Hp Hs]. specialize (Hno _ _ _ Hp Hs Hdir). congruence. }
  unfold parse_entry.
  destruct (strip_prefix CHECKPOINT_PREFIX entry.1) as [dir_name|] eqn:Hp; [|split; [by apply Hbad|by left]].
  destruct (entry.2) as [|contents] eqn:Hdir; [|split; [by apply Hbad|by left]].
  destruct (split_on "_" dir_name) as [|id [|digits rest]] eqn:Hs; cbn [head tail ok_or mbind outcome_bind];
    [split; [apply Hbad; intros; congruence|by left]..|].
  destruct (parse_unsigned u64_max digits) as [e|] eqn:He; cbn [ok_or mbind outcome_bind].
  2: { split; [|by left]. apply Hbad. intros ? ? ? [= <-] Hs' _. rewrite Hs in Hs'. congruence. }
  destruct rest as [|part rest]; cbn [tail].
  2: { split; [|by left]. apply Hbad. intros ? ? ? [= <-] Hs' _. rewrite Hs in Hs'. congruence. }
  destruct (split_on_two _ _ _ _ Hs) as (Hn & Hi & Hd). split.
  - intros (_ & id' & digits' & Hn' & Hi' & Hd' & _ & Hin).
    destruct (Hscheme id' digits' Hi' Hd' Hn') as [Hp' Hs']. congruence.
  - intros Hin. split; [done|]. exists id, digits.
    apply strip_prefix_inv in Hp. rewrite Hp, Hn. split; [done|]. split; [done|]. split; [done|]. by split; [eexists|].
Qed.

(** The loop stops at the first entry that is not a checkpoint. *)
Lemma collect_checkpoints_rejects config checkpoints entries :
  (∀ id, id ∈ dom checkpoints ↔ id ∈ backend_ids config) →
  Exists (λ entry, ¬ checkpoint_entry config entry) entries →
  ∃ entry err, entry ∈ entries ∧ ¬ checkpoint_entry config entry ∧ refusal config entry.1 err ∧
    collect_checkpoints config checkpoints entries = Err err.
Proof.
  intros Hdom Hex. revert checkpoints Hdom. induction entries as [|entry entries IH]; intros checkpoints Hdom.
  { by apply Exists_nil in Hex. }
  cbn [collect_checkpoints]. pose proof (parse_entry_spec config entry) as Hp.
  destruct (parse_entry (checkpoints_base_path config) entry) as [[id e]|err| |]; [|destruct Hp; exists entry, err; split; [by left|done]|done|done].
  cbn [mbind outcome_bind fst snd].
  destruct (checkpoints !! id) as [s|] eqn:Hs; cbn [ok_or mbind outcome_bind].
  - assert (id ∈ backend_ids config) as Hid by (apply Hdom; by eapply elem_of_dom_2).
    apply Exists_cons in Hex as [Hex|Hex]; [by destruct Hex; apply Hp|].
    destruct (IH Hex (<[id := {[e]} ∪ s]> checkpoints)) as (en & err & Hin & ? & ? & ?).
    { intros i. rewrite dom_insert_lookup_L by done. apply Hdom. }
    exists en, err. set_solver.
  - apply not_elem_of_dom in Hs. rewrite Hdom in Hs. eexists entry, _.
    split; [by left|]. split; [by rewrite Hp|]. split; [|done]. right. by exists id.
Qed.

(** The name of a checkpoint of a backend whose id has an underscore is not of the scheme. *)
Lemma underscore_entry config id e ft :
  has_char "_" id = true → ¬ checkpoint_entry config (checkpoint_name id e, ft).
Proof.
  intros Hid (_ & i & d & Hn & Hi & Hd & _). cbn [fst] in Hn. unfold checkpoint_name in Hn.
  apply (f_equal (strip_prefix CHECKPOINT_PREFIX)) in Hn. rewrite !strip_prefix_app in Hn. injection Hn as Hn.
  apply (f_equal (λ s, length (split_on "_" s))) in Hn.
  pose proof (length_split_on "_" id ("_" +:+ display_unsigned e)) as Hlen.
  change ("_" +:+ d)%string with (String "_" d) in Hn.
  change ("_" +:+ display_unsigned e)%string with (String "_" (display_unsigned e)) in *.
  rewrite (split_on_app _ i), (split_on_none _ d) in Hn by done.
  assert (split_on "_" (String "_" (display_unsigned e)) = [""; display_unsigned e]%string) as Hs.
  { simpl. by rewrite split_on_none by apply has_char_display. }
  rewrite Hs in Hlen. cbn [length] in Hn, Hlen.
  destruct (split_on "_" id) as [|x [|]] eqn:E; cbn [length] in Hlen; [lia| |lia].
  destruct (split_on_one _ _ _ E) as [-> Hx]. congruence.
Qed.

(** C40: One entry of the checkpoint directory that is not the checkpoint of a known backend by the naming
    scheme fails the whole call, whatever the other entries, and after the live state has been
    removed; the error names such an entry.  The checkpoints of a backend whose own id contains an
    underscore are such entries, so that a node with that id fails to start once it has one. *)
Theorem restore_rejects_foreign_entries {B} `{BackendCtor B} config id fs name ft :
  (∀ c, fs !! (live_state_base_path config ++ [id]) ≠ Some (File c)) →
  cleaned config id fs !! checkpoints_base_path config = Some Dir →
  cleaned config id fs !! (checkpoints_base_path config ++ [name]) = Some ft →
  ¬ checkpoint_entry config (name, ft) ∨ (∃ i e, name = checkpoint_name i e ∧ has_char "_" i = true) →
  ∃ name' ft' err, @restore_or_create B _ config id fs = (Err err, cleaned config id fs) ∧
    cleaned config id fs !! (checkpoints_base_path config ++ [name']) = Some ft' ∧
    ¬ checkpoint_entry config (name', ft') ∧ refusal config name' err.
Proof.
  intros Hf Hdir Hname Hbad. assert (Hforeign : ¬ checkpoint_entry config (name, ft)).
  { destruct Hbad as [?|(i & e & -> & Hi)]; [done|by apply underscore_entry]. }
  rewrite restore_or_create_unfold by done.
  destruct (read_dir_ok _ _ Hdir) as (entries & Hread & Hent). step_ok Hread.
  destruct (collect_checkpoints_rejects config (initial_checkpoints config) entries)
    as ([name' ft'] & err & Hin & Hno & Href & Hc); [apply dom_initial| |].
  { apply Exists_exists. exists (name, ft). by rewrite Hent. }
  exists name', ft', err. split; [|by rewrite <- Hent]. apply bind_err. unfold lift. by rewrite Hc.
Qed.
Example restore_rejects_foreign_entries_witness :
  let fs : Fs := <[["cp"; "checkpoint_node_1_7"] := Dir]> (<[["cp"; "checkpoint_node_6"] := Dir]> {[["cp"] := Dir]}) in
  let config := MkConfig ["live"] ["cp"] ["node_1"; "node"] in
  ∃ name' ft' err, @restore_or_create (option path) _ config "node_1" fs = (Err err, fs) ∧
    fs !! ["cp"; name'] = Some ft' ∧ ¬ checkpoint_entry config (name', ft') ∧ refusal config name' err.
Proof.
  intros fs config. apply (restore_rejects_foreign_entries (B:=option path) config "node_1" fs "checkpoint_node_1_7" Dir); try done.
  right. by exists "node_1", 7.
Defined.

(** ** The names of the backend types *)

Module BackendTypes.
Inductive BackendType : Type :=
| InMemory | MeteredInMemory | Rocks | MeteredRocks | Sled | MeteredSled | Faster | MeteredFaster.

(** The cargo features that decide which variants exist. *)
Record Features : Type := { rocks : bool; sled : bool; faster : bool }.

Definition variants (f : Features) : list BackendType :=
  [InMemory; MeteredInMemory] ++
  (if rocks f then [Rocks; MeteredRocks] else []) ++
  (if sled f then [Sled; MeteredSled] else []) ++
  (if faster f then [Faster; MeteredFaster] else []).

Definition to_string (t : BackendType) : string :=
  match t with
  | InMemory => "InMemory"
  | MeteredInMemory => "MeteredInMemory"
  | Rocks => "Rocks"
  | MeteredRocks => "MeteredRocks"
  | Sled => "Sled"
  | MeteredSled => "MeteredSled"
  | Faster => "Faster"
  | MeteredFaster => "MeteredFaster"
  end.

Definition to_ascii_lowercase (a : ascii) : ascii :=
  let n := N_of_ascii a in
  if ((65 <=? n) && (n <=? 90))%N then ascii_of_N (n + 32) else a.
Fixpoint eq_ignore_ascii_case (s t : string) : bool :=
  match s, t with
  | EmptyString, EmptyString => true
  | String a s', String b t' =>
      bool_decide (to_ascii_lowercase a = to_ascii_lowercase b) && eq_ignore_ascii_case s' t'
  | _, _ => false
  end.

Definition from_str (f : Features) (s : string) : outcome string BackendType :=
  let arms := variants f in
  match list_find (λ t, eq_ignore_ascii_case s (to_string t) = true) arms with
  | Some (_, t) => Ok t
  | None => Err ("valid values: " +:+ String.concat ", " (to_string <$> variants f))
  end.

Lemma eq_ignore_ascii_case_refl s : eq_ignore_ascii_case s s = true.
Proof. induction s as [|a s IH]; simpl; [done|]. by rewrite bool_decide_eq_true_2. Qed.

(** Printing a backend type and parsing it, in any letter case, gives the type back, for exactly
    the types that the enabled features provide. *)
Theorem backend_type_roundtrip f t s :
  eq_ignore_ascii_case s (to_string t) = true →
  (from_str f s = Ok t ↔ t ∈ variants f) ∧
  (t ∉ variants f → ∃ msg, from_str f s = Err msg).
Proof.
  intros Hs. assert (Huniq : ∀ t', eq_ignore_ascii_case s (to_string t') = true → t' = t).
  { assert (Hsame : ∀ x y z, eq_ignore_ascii_case x y = true → eq_ignore_ascii_case x z = true →
      eq_ignore_ascii_case y z = true).
    { induction x as [|a x IH]; intros [|b y] [|c z]; simpl; try done.
      rewrite !andb_true_iff, !bool_decide_eq_true. intros [-> ?] [-> ?]. eauto. }
    intros t' Ht'. pose proof (Hsame _ _ _ Ht' Hs) as Heq. clear -Heq.
    by destruct t, t'; vm_compute in Heq. }
  unfold from_str. destruct (list_find _ (variants f)) as [[i t']|] eqn:Hf.
  - apply list_find_Some in Hf as (Hi & Ht' & _). pose proof (Huniq _ Ht') as ->.
    apply list_elem_of_lookup_2 in Hi. done.
  - apply list_find_None in Hf. assert (Hni : t ∉ variants f).
    { intros Hin. rewrite Forall_forall in Hf. by apply (Hf _ Hin). }
    split; [done|eauto].
Qed.
Example backend_type_roundtrip_witness :
  (from_str {| rocks := true; sled := false; faster := false |} "meteredrocks"
    = Ok MeteredRocks ↔ MeteredRocks ∈ variants {| rocks := true; sled := false; faster := false |}) ∧
  (MeteredRocks ∉ variants {| rocks := true; sled := false; faster := false |} →
    ∃ msg, from_str {| rocks := true; sled := false; faster := false |} "meteredrocks" = Err msg).
Proof. by apply backend_type_roundtrip. Defined.
End BackendTypes.
