(* ===== verification/Sled.v ===== *)
(** [arcon_state/src/sled]: the backend over the database sled. *)

From S2P Require Import Prelude Error Serialization Files StateBackend Tables ByteStore Restore.

(** ** The crate sled

    What the code uses of [sled::Db], [sled::Tree] and [sled::Batch].  A tree is a handle to a part of
    the database; the errors of the crate carry nothing the code reads. *)
Definition MergeOperator : Type := bytes → option bytes → bytes → StateResult (option bytes).
Abbreviation SledExport := (list (bytes * bytes * list (list bytes))).

Class SledApi (Db : Type) : Type := {
  Tree : Type;
  Batch : Type;
  sled_open : path → M Fs unit Db;
  open_tree : string → M Db unit Tree;
  tree_get : Tree → bytes → M Db unit (option bytes);
  tree_insert : Tree → bytes → bytes → M Db unit (option bytes);
  tree_remove : Tree → bytes → M Db unit (option bytes);
  tree_contains_key : Tree → bytes → M Db unit bool;
  tree_scan_prefix : Tree → bytes → M Db unit (list (outcome unit (bytes * bytes)));
  tree_merge : Tree → bytes → bytes → M Db unit (option bytes);
  tree_set_merge_operator : Tree → MergeOperator → Db → Db;
  tree_apply_batch : Tree → Batch → M Db unit unit;
  Batch_default : Batch;
  batch_insert : bytes → bytes → Batch → Batch;
  batch_remove : bytes → Batch → Batch;
  db_export : Db → SledExport;
  db_import : SledExport → Db → Db;
}.

(** The feature [sled_checkpoints] of the build. *)
Class SledCheckpoints : Type := sled_checkpoints : bool.

(** ** The backend ([mod.rs])

    [disk] is the file system that [checkpoint] writes to. *)
Record Sled (Db : Type) : Type := MkSled { db : Db; restored : bool; disk : Fs }.
Arguments MkSled {Db}.
Arguments db {Db}.
Arguments restored {Db}.
Arguments disk {Db}.

(** [impl From<sled::Error> for ArconStateError], applied by [?]. *)
Definition sled_try {S A : Type} (m : M S unit A) : M S ArconStateError A :=
  on_outcome (map_err (λ _, SledError)) m.
Definition on_db {Db A : Type} (m : M Db unit A) : StateM (Sled Db) A :=
  zoom db (λ d s, MkSled d (restored s) (disk s)) (sled_try m).
Definition on_disk {Db A : Type} (m : M Fs ArconStateError A) : StateM (Sled Db) A :=
  zoom disk (λ fs s, MkSled (db s) (restored s) fs) m.

Module Sled.
Section access.
Context {Db : Type} `{SledApi Db}.

Definition tree (tree_name : string) : StateM (Sled Db) Tree := on_db (open_tree tree_name).
Definition get (tree_name : string) (key : bytes) : StateM (Sled Db) (option bytes) :=
  t ← tree tree_name; on_db (tree_get t key).
Definition put (tree_name : string) (key value : bytes) : StateM (Sled Db) (option bytes) :=
  t ← tree tree_name; on_db (tree_insert t key value).
Definition remove (tree_name : string) (key : bytes) : StateM (Sled Db) (option bytes) :=
  t ← tree tree_name; on_db (tree_remove t key).
Fixpoint batch_removing (keys : list (outcome unit bytes)) (batch : Batch) : StateResult Batch :=
  match keys with
  | [] => Ok batch
  | key :: keys' => key ← map_err (λ _, SledError) key; batch_removing keys' (batch_remove key batch)
  end.
Definition remove_prefix (tree_name : string) (prefix : bytes) : StateM (Sled Db) unit :=
  t ← tree tree_name;
  entries ← on_db (tree_scan_prefix t prefix);
  batch ← lift (batch_removing ((λ entry : outcome unit (bytes * bytes), fst <$> entry) <$> (entries : list _)) Batch_default);
  on_db (tree_apply_batch t batch).
Definition contains (tree_name : string) (key : bytes) : StateM (Sled Db) bool :=
  t ← tree tree_name; on_db (tree_contains_key t key).
(** A merge, whose result the code drops. *)
Definition merge (tree_name : string) (key value : bytes) : StateM (Sled Db) unit :=
  t ← tree tree_name; on_db (tree_merge t key value) ;; mret tt.
End access.

(** ** Value operations ([value_ops.rs]) *)
Section value_ops.
Context {Db T IK N : Type} `{SledApi Db, Value T, FixedBytes IK, FixedBytes N}.
Implicit Type h : Handle (ValueState T) IK N.

Definition value_clear h : StateM (Sled Db) unit :=
  key ← lift (serialize_metakeys h);
  remove (h_id h) key ;; mret tt.
Definition value_get h : StateM (Sled Db) (option T) :=
  key ← lift (serialize_metakeys h);
  found ← get (h_id h) key;
  match found with
  | Some serialized => value ← lift (protobuf_deserialize serialized); mret (Some value)
  | None => mret None
  end.
Definition value_set h (value : T) : StateM (Sled Db) (option T) :=
  key ← lift (serialize_metakeys h);
  serialized ← lift (protobuf_serialize value);
  old ← put (h_id h) key serialized;
  match old with
  | Some bytes => old ← lift (protobuf_deserialize bytes); mret (Some old)
  | None => mret None
  end.
Definition value_fast_set h (value : T) : StateM (Sled Db) unit :=
  key ← lift (serialize_metakeys h);
  serialized ← lift (protobuf_serialize value);
  put (h_id h) key serialized ;; mret tt.
End value_ops.

(** ** Map operations ([map_ops.rs]) *)
Section map_ops.
Context {Db K V IK N : Type} `{SledApi Db, Key K, Value V, FixedBytes IK, FixedBytes N}.
Implicit Type h : Handle (MapState K V) IK N.

Definition map_clear h : StateM (Sled Db) unit :=
  prefix ← lift (serialize_metakeys h);
  remove_prefix (h_id h) prefix.
Definition map_get h (key : K) : StateM (Sled Db) (option V) :=
  key ← lift (serialize_metakeys_and_key h key);
  found ← get (h_id h) key;
  match found with
  | Some serialized => value ← lift (protobuf_deserialize serialized); mret (Some value)
  | None => mret None
  end.
Definition map_fast_insert h (key : K) (value : V) : StateM (Sled Db) unit :=
  key ← lift (serialize_metakeys_and_key h key);
  serialized ← lift (protobuf_serialize value);
  put (h_id h) key serialized ;; mret tt.
Definition map_insert h (key : K) (value : V) : StateM (Sled Db) (option V) :=
  key ← lift (serialize_metakeys_and_key h key);
  serialized ← lift (protobuf_serialize value);
  old ← put (h_id h) key serialized;
  match old with
  | Some x => old ← lift (protobuf_deserialize x); mret (Some old)
  | None => mret None
  end.
Fixpoint batch_inserting h (key_value_pairs : list (K * V)) (batch : Batch) : StateResult Batch :=
  match key_value_pairs with
  | [] => Ok batch
  | (user_key, value) :: pairs =>
      key ← serialize_metakeys_and_key h user_key;
      serialized ← protobuf_serialize value;
      batch_inserting h pairs (batch_insert key serialized batch)
  end.
Definition map_insert_all h (key_value_pairs : list (K * V)) : StateM (Sled Db) unit :=
  t ← tree (h_id h);
  batch ← lift (batch_inserting h key_value_pairs Batch_default);
  on_db (tree_apply_batch t batch).
Definition map_remove h (key : K) : StateM (Sled Db) (option V) :=
  key ← lift (serialize_metakeys_and_key h key);
  old ← remove (h_id h) key;
  match old with
  | Some bytes => old ← lift (protobuf_deserialize bytes); mret (Some old)
  | None => mret None
  end.
Definition map_fast_remove h (key : K) : StateM (Sled Db) unit :=
  key ← lift (serialize_metakeys_and_key h key);
  remove (h_id h) key ;; mret tt.
Definition map_contains h (key : K) : StateM (Sled Db) bool :=
  key ← lift (serialize_metakeys_and_key h key);
  contains (h_id h) key.

(** The key of a map entry: the metakeys are decoded and dropped. *)
Definition decode_key (db_key : bytes) : StateResult K :=
  ik ← (deserialize_from db_key : StateResult (IK * bytes));
  ns ← (deserialize_from ik.2 : StateResult (N * bytes));
  fst <$> protobuf_deserialize_from ns.2.
Definition scan {A} h (f : bytes * bytes → StateResult A) : StateM (Sled Db) (list (StateResult A)) :=
  prefix ← lift (serialize_metakeys h);
  t ← tree (h_id h);
  entries ← on_db (tree_scan_prefix t prefix);
  mret ((λ entry, map_err (λ _, SledError) entry ≫= f) <$> entries).
Definition map_iter h : StateM (Sled Db) (list (StateResult (K * V))) :=
  scan h (λ entry, key ← decode_key entry.1; value ← protobuf_deserialize entry.2; Ok (key, value)).
Definition map_keys h : StateM (Sled Db) (list (StateResult K)) := scan h (λ entry, decode_key entry.1).
Definition map_values h : StateM (Sled Db) (list (StateResult V)) :=
  scan h (λ entry, protobuf_deserialize entry.2).
Definition map_len h : StateM (Sled Db) Z :=
  prefix ← lift (serialize_metakeys h);
  t ← tree (h_id h);
  entries ← on_db (tree_scan_prefix t prefix);
  mret (len entries).
Definition map_is_empty h : StateM (Sled Db) bool :=
  prefix ← lift (serialize_metakeys h);
  t ← tree (h_id h);
  entries ← on_db (tree_scan_prefix t prefix);
  mret (bool_decide (entries = [])).
End map_ops.

(** ** Vector operations and their merge operator ([vec_ops.rs]) *)
Section vec_ops.
Context `{BuildProfile} {Db T IK N : Type} `{SledApi Db, Value T, FixedBytes IK, FixedBytes N}.
Implicit Type h : Handle (VecState T) IK N.

Definition vec_merge : MergeOperator := λ _ existent new, merge_vecs (chain existent [new]).

Definition vec_clear h : StateM (Sled Db) unit :=
  key ← lift (serialize_metakeys h);
  remove (h_id h) key ;; mret tt.
Definition vec_append h (value : T) : StateM (Sled Db) unit :=
  key ← lift (serialize_metakeys h);
  serialized ← lift (encode_one value);
  merge (h_id h) key serialized.
Definition vec_get h : StateM (Sled Db) (list T) :=
  key ← lift (serialize_metakeys h);
  found ← get (h_id h) key;
  match found with
  | Some serialized => lift (decode_vec serialized)
  | None => mret []
  end.
Definition vec_iter h : StateM (Sled Db) (list (StateResult T)) :=
  key ← lift (serialize_metakeys h);
  found ← get (h_id h) key;
  match found with
  | Some serialized => lift (decode_iter serialized)
  | None => mret []
  end.
Definition vec_set h (value : list T) : StateM (Sled Db) unit :=
  key ← lift (serialize_metakeys h);
  storage ← lift (encode_vec value);
  put (h_id h) key storage ;; mret tt.
Definition vec_add_all h (values : list T) : StateM (Sled Db) unit :=
  key ← lift (serialize_metakeys h);
  serialized ← lift (encode_counted values);
  merge (h_id h) key serialized.
Definition vec_len h : StateM (Sled Db) Z :=
  key ← lift (serialize_metakeys h);
  found ← get (h_id h) key;
  match found with
  | Some storage => lift (decode_len storage)
  | None => mret 0
  end.
Definition vec_is_empty h : StateM (Sled Db) bool :=
  n ← vec_len h; mret (bool_decide (n = 0)).
End vec_ops.

(** ** Reducers and aggregators ([reducer_ops.rs], [aggregator_ops.rs]) *)
Section reducer_ops.
Context {Db T IK N : Type} `{SledApi Db, Value T, FixedBytes IK, FixedBytes N}.
Implicit Type h : Handle (ReducerState T) IK N.

Definition make_reducer_merge (reduce_fn : Reducer T) : MergeOperator := λ _ existent new,
  merge_reduced reduce_fn (chain existent [new]).

Definition reducer_clear h : StateM (Sled Db) unit :=
  key ← lift (serialize_metakeys h);
  remove (h_id h) key ;; mret tt.
Definition reducer_get h : StateM (Sled Db) (option T) :=
  key ← lift (serialize_metakeys h);
  found ← get (h_id h) key;
  match found with
  | Some storage => value ← lift (protobuf_deserialize storage); mret (Some value)
  | None => mret None
  end.
Definition reducer_reduce h (value : T) : StateM (Sled Db) unit :=
  key ← lift (serialize_metakeys h);
  serialized ← lift (protobuf_serialize value);
  merge (h_id h) key serialized.
End reducer_ops.

Section aggregator_ops.
Context {Db Inp A R IK N : Type} `{SledApi Db, Value Inp, Value A, FixedBytes IK, FixedBytes N}.
Implicit Type h : Handle (AggregatorState Inp A R) IK N.

Definition make_aggregator_merge (aggregator : Aggregator Inp A R) : MergeOperator := λ _ existent new,
  merge_aggregated aggregator (chain existent [new]).

Definition aggregator_clear h : StateM (Sled Db) unit :=
  key ← lift (serialize_metakeys h);
  remove (h_id h) key ;; mret tt.
Definition aggregator_get h : StateM (Sled Db) R :=
  key ← lift (serialize_metakeys h);
  found ← get (h_id h) key;
  match found with
  | Some serialized =>
      current_accumulator ← lift (decode_accumulator serialized);
      lift (accumulator_into_result (extra_data h) current_accumulator)
  | None => lift (accumulator_into_result (extra_data h) (create_accumulator (extra_data h)))
  end.
Definition aggregator_aggregate h (value : Inp) : StateM (Sled Db) unit :=
  key ← lift (serialize_metakeys h);
  serialized ← lift (encode_value value);
  merge (h_id h) key serialized.
End aggregator_ops.

(** ** Checkpoints: the export of the database in a file ([mod.rs]) *)
Section checkpoint.
Context `{BuildProfile, SledCheckpoints} {Db : Type} `{SledApi Db}.
Abbreviation Write := (M Writer ArconStateError).
Abbreviation Read := (M bytes ArconStateError).

Definition write_usize (n : Z) : Write unit := write_all (to_le_bytes 8 n).
Definition write_len_and_bytes (bytes : bytes) : Write unit :=
  write_usize (len bytes) ;; write_all bytes.
(** The loop over [vvecs], which also counts them: the entries of a database, of which there are
    fewer than 2^64. *)
Fixpoint write_vvecs (length_ : Z) (vvecs : list (list bytes)) : Write Z :=
  match vvecs with
  | [] => mret length_
  | vecs :: vvecs' =>
      write_usize (len vecs) ;;
      for_each write_len_and_bytes vecs ;;
      write_vvecs (length_ + 1) vvecs'
  end.
Definition write_collection (collection : bytes * bytes * list (list bytes)) : Write unit :=
  let '(typ, name, vvecs) := collection in
  write_len_and_bytes typ ;;
  write_len_and_bytes name ;;
  length_spot ← seek_current;
  write_usize 0 ;;
  length_ ← write_vvecs 0 vvecs;
  after_vecs ← seek_current;
  seek_start length_spot ;;
  write_usize length_ ;;
  seek_start after_vecs.
Definition write_export (export_data : SledExport) : Write unit :=
  write_usize (len export_data) ;;
  for_each write_collection export_data.

Definition EXPORT_NAME : string := "SLED_EXPORT".
Definition checkpoint (checkpoint_path : string) : StateM (Sled Db) unit :=
  if sled_checkpoints then
    export_data ← gets (λ b, db_export (db b));
    let p := path_from checkpoint_path in
    exists_ ← gets (λ b, path_exists p (disk b));
    (if (exists_ : bool) then mret tt else on_disk (create_dir_all p)) ;;
    let p := p ++ [EXPORT_NAME] in
    on_disk (create_file p) ;;
    let '(o, writer) := write_export export_data Writer_new in
    on_disk (write_file p (contents writer)) ;;
    lift o
  else mret tt.

(** [Vec::with_capacity] and [vec![0u8; n]]: more than [isize::MAX] bytes are refused with a panic.  On
    the 64-bit targets a [Vec] takes 24 bytes and its iterator 32, so that an entry of the result takes 80. *)
Definition isize_max : Z := 2 ^ 63 - 1.
Definition with_capacity (element_size capacity : Z) : Read unit :=
  if isize_max <? capacity * element_size then panic "capacity overflow" else mret tt.

Definition read_length : Read Z := length_bytes ← read_exact 8; mret (from_le_bytes length_bytes).
Definition read_bytes_starting_with_len : Read bytes :=
  length_ ← read_length; with_capacity 1 length_ ;; read_exact (Z.to_nat length_).
(** [for _ in 0..n { res.push(m?) }] *)
Fixpoint collect {A} (n : nat) (m : Read A) : Read (list A) :=
  match n with
  | O => mret []
  | S n' => x ← m; xs ← collect n' m; mret (x :: xs)
  end.
Definition read_vecs : Read (list bytes) :=
  vecs_length ← read_length;
  with_capacity 24 vecs_length ;;
  collect (Z.to_nat vecs_length) read_bytes_starting_with_len.
Definition read_collection : Read (bytes * bytes * list (list bytes)) :=
  typ ← read_bytes_starting_with_len;
  name ← read_bytes_starting_with_len;
  vvecs_length ← read_length;
  with_capacity 24 vvecs_length ;;
  vvecs ← collect (Z.to_nat vvecs_length) read_vecs;
  mret (typ, name, vvecs).
Definition parse_dumped_sled_export (file : bytes) : StateResult SledExport :=
  ((length_ ← read_length;
    with_capacity 80 length_ ;;
    collect (Z.to_nat length_) read_collection) file).1.

Definition create (live_path : path) : M Fs ArconStateError (Sled Db) :=
  db ← sled_try (sled_open live_path);
  disk ← get_st;
  mret (MkSled db false disk).
Definition restore (live_path checkpoint_path : path) : M Fs ArconStateError (Sled Db) :=
  db ← sled_try (sled_open live_path);
  if sled_checkpoints then
    file ← open_file (checkpoint_path ++ [EXPORT_NAME]);
    import_data ← lift (parse_dumped_sled_export file);
    disk ← get_st;
    mret (MkSled (db_import import_data db) true disk)
  else
    disk ← get_st;
    mret (MkSled db false disk).
End checkpoint.

(** ** Registration ([mod.rs]) *)
Section register.
Context {Db : Type} `{SledApi Db} {S : StateType} {IK N : Type}.
Implicit Type h : Handle S IK N.

Definition register h : StateM (Sled Db) (Handle S IK N) := mret (set_registered h).
Definition register_merging (message : string) (operator : MergeOperator) h
  : StateM (Sled Db) (Handle S IK N) :=
  t ← on_outcome (expect_ok message) (tree (h_id h));
  modify (λ b, MkSled (tree_set_merge_operator t operator (db b)) (restored b) (disk b)) ;;
  mret (set_registered h).
End register.
End Sled.

Section instances.
Context `{BuildProfile, SledCheckpoints} {Db : Type} `{SledApi Db}.

#[export] Instance Sled_ValueOps : ValueOps (Sled Db) := {
  value_clear _ _ _ _ _ _ := Sled.value_clear;
  value_get _ _ _ _ _ _ := Sled.value_get;
  value_set _ _ _ _ _ _ := Sled.value_set;
  value_fast_set _ _ _ _ _ _ := Sled.value_fast_set;
}.
#[export] Instance Sled_MapOps : MapOps (Sled Db) := {
  map_clear _ _ _ _ _ _ _ _ := Sled.map_clear;
  map_get _ _ _ _ _ _ _ _ := Sled.map_get;
  map_fast_insert _ _ _ _ _ _ _ _ := Sled.map_fast_insert;
  map_insert _ _ _ _ _ _ _ _ := Sled.map_insert;
  map_insert_all _ _ _ _ _ _ _ _ := Sled.map_insert_all;
  map_remove _ _ _ _ _ _ _ _ := Sled.map_remove;
  map_fast_remove _ _ _ _ _ _ _ _ := Sled.map_fast_remove;
  map_contains _ _ _ _ _ _ _ _ := Sled.map_contains;
  map_iter _ _ _ _ _ _ _ _ := Sled.map_iter;
  map_keys _ _ _ _ _ _ _ _ := Sled.map_keys;
  map_values _ _ _ _ _ _ _ _ := Sled.map_values;
  map_len _ _ _ _ _ _ _ _ := Sled.map_len;
  map_is_empty _ _ _ _ _ _ _ _ := Sled.map_is_empty;
}.
#[export] Instance Sled_VecOps : VecOps (Sled Db) := {
  vec_clear _ _ _ _ _ _ := Sled.vec_clear;
  vec_append _ _ _ _ _ _ := Sled.vec_append;
  vec_get _ _ _ _ _ _ := Sled.vec_get;
  vec_iter _ _ _ _ _ _ := Sled.vec_iter;
  vec_set _ _ _ _ _ _ := Sled.vec_set;
  vec_add_all _ _ _ _ _ _ := Sled.vec_add_all;
  vec_len _ _ _ _ _ _ := Sled.vec_len;
  vec_is_empty _ _ _ _ _ _ := Sled.vec_is_empty;
}.
#[export] Instance Sled_ReducerOps : ReducerOps (Sled Db) := {
  reducer_clear _ _ _ _ _ _ := Sled.reducer_clear;
  reducer_get _ _ _ _ _ _ := Sled.reducer_get;
  reducer_reduce _ _ _ _ _ _ := Sled.reducer_reduce;
}.
#[export] Instance Sled_AggregatorOps : AggregatorOps (Sled Db) := {
  aggregator_clear _ _ _ _ _ _ _ _ _ := Sled.aggregator_clear;
  aggregator_get _ _ _ _ _ _ _ _ _ := Sled.aggregator_get;
  aggregator_aggregate _ _ _ _ _ _ _ _ _ := Sled.aggregator_aggregate;
}.
#[export] Instance Sled_Backend : Backend (Sled Db) := {
  was_restored := restored;
  checkpoint := Sled.checkpoint;
  start_session b := b;
  session_drop_hook := None;
  register_value_handle _ _ _ _ _ _ := Sled.register;
  register_map_handle _ _ _ _ _ _ _ _ := Sled.register;
  register_vec_handle _ _ _ _ _ _ :=
    Sled.register_merging "Could not get the tree when registering a vec" Sled.vec_merge;
  register_reducer_handle _ _ _ _ _ _ h :=
    Sled.register_merging "Could not get the tree when registering a reducer"
      (Sled.make_reducer_merge (extra_data h)) h;
  register_aggregator_handle _ _ _ _ _ _ _ _ _ h :=
    Sled.register_merging "Could not get the tree when registering an aggregator"
      (Sled.make_aggregator_merge (extra_data h)) h;
}.
#[export] Instance Sled_ctor : BackendCtor (Sled Db) := {
  create := Sled.create;
  restore := Sled.restore;
}.
End instances.
