(* ===== verification/SledSpec.v ===== *)
(** The sled backend implements the backend interface, for every database that behaves as the crate
    sled documents; and its checkpoint files are read back. *)

From S2P Require Import Prelude Error Serialization Files StateBackend Tables ByteStore Restore Sled.

(** ** Documented behaviour of sled

    A database that reports no I/O error ([healthy]) is a collection of named trees, each a map from
    byte strings to byte strings with at most one merge operator. *)
Section laws.
Context (Db : Type) `{SledApi Db}.

Class SledView : Type := {
  healthy : Db → bool;
  tree_name : Tree → string;
  tree_entries : Db → string → gmap bytes bytes;
  tree_operator : Db → string → option MergeOperator;
  batch_effect : Batch → gmap bytes bytes → gmap bytes bytes;
}.
Context `{SledView}.

Definition keeps (d d' : Db) : Prop :=
  healthy d' = true ∧ ∀ n, tree_entries d' n = tree_entries d n ∧ tree_operator d' n = tree_operator d n.
Definition becomes (d d' : Db) (n : string) (t : gmap bytes bytes) (op : option MergeOperator) : Prop :=
  healthy d' = true ∧ tree_entries d' n = t ∧ tree_operator d' n = op ∧
  ∀ n', n' ≠ n → tree_entries d' n' = tree_entries d n' ∧ tree_operator d' n' = tree_operator d n'.
Class SledLaws : Prop := {
  open_tree_law d name : healthy d = true →
    ∃ t d', open_tree name d = (Ok t, d') ∧ tree_name t = name ∧ keeps d d';
  tree_get_law d t k : healthy d = true →
    ∃ d', tree_get t k d = (Ok (tree_entries d (tree_name t) !! k), d') ∧ keeps d d';
  tree_insert_law d t k v : healthy d = true → let r := tree_entries d (tree_name t) in
    ∃ d', tree_insert t k v d = (Ok (r !! k), d') ∧
      becomes d d' (tree_name t) (<[k := v]> r) (tree_operator d (tree_name t));
  tree_remove_law d t k : healthy d = true → let r := tree_entries d (tree_name t) in
    ∃ d', tree_remove t k d = (Ok (r !! k), d') ∧
      becomes d d' (tree_name t) (delete k r) (tree_operator d (tree_name t));
  tree_contains_key_law d t k : healthy d = true →
    ∃ d', tree_contains_key t k d = (Ok (bool_decide (is_Some (tree_entries d (tree_name t) !! k))), d') ∧
      keeps d d';
  tree_scan_prefix_law d t prefix : healthy d = true →
    ∃ l d', tree_scan_prefix t prefix d = (Ok (Ok <$> l), d') ∧ keeps d d' ∧
      l ≡ₚ filter (is_under prefix) (map_to_list (tree_entries d (tree_name t)));
  (** The operator's result is stored, and deletes the key when it is [None]. *)
  tree_merge_law d t k v op o : healthy d = true → let r := tree_entries d (tree_name t) in
    tree_operator d (tree_name t) = Some op → op k (r !! k) v = Ok o →
    ∃ x d', tree_merge t k v d = (Ok x, d') ∧
      becomes d d' (tree_name t) (partial_alter (λ _, o) k r) (Some op);
  tree_set_merge_operator_law d t op : healthy d = true →
    becomes d (tree_set_merge_operator t op d) (tree_name t) (tree_entries d (tree_name t)) (Some op);
  tree_apply_batch_law d t batch : healthy d = true → let r := tree_entries d (tree_name t) in
    ∃ d', tree_apply_batch t batch d = (Ok tt, d') ∧
      becomes d d' (tree_name t) (batch_effect batch r) (tree_operator d (tree_name t));
  Batch_default_law r : batch_effect Batch_default r = r;
  batch_insert_law k v batch r : batch_effect (batch_insert k v batch) r = <[k := v]> (batch_effect batch r);
  batch_remove_law k batch r : batch_effect (batch_remove k batch) r = delete k (batch_effect batch r);
  (** Opening a path where nothing is makes an empty database there. *)
  sled_open_law p fs : fs !! p = None → ∃ d fs', sled_open p fs = (Ok d, fs') ∧ healthy d = true ∧
    (∀ n, tree_entries d n = ∅ ∧ tree_operator d n = None) ∧
    ∀ q, take (length p) q ≠ p → fs' !! q = fs !! q;
  (** What one database exports, an empty one imports. *)
  db_import_law d d0 : healthy d = true → healthy d0 = true → (∀ n, tree_entries d0 n = ∅) →
    healthy (db_import (db_export d) d0) = true ∧
    ∀ n, tree_entries (db_import (db_export d) d0) n = tree_entries d n ∧
      tree_operator (db_import (db_export d) d0) n = tree_operator d0 n;
}.
End laws.
Arguments keeps {Db _ _} d d'.
Arguments becomes {Db _ _} d d' n t op.
Arguments healthy {Db _ _}.
Arguments tree_name {Db _ _}.
Arguments tree_entries {Db _ _}.
Arguments tree_operator {Db _ _}.
Arguments batch_effect {Db _ _}.

Section sled.
Context `{BuildProfile, SledCheckpoints} {Db : Type} `{SledLaws Db}.
Implicit Types (b : Sled Db) (d : Db).

(** ** The representation *)

Definition sled_ok b : Prop := healthy (db b) = true.
Definition sled_region b (id : string) : option (KvRegion (option MergeOperator)) :=
  if healthy (db b) then Some (MkKv (tree_entries (db b) id) (tree_operator (db b) id)) else None.

#[export] Instance Sled_BackendRep : BackendRep (Sled Db) := {|
  backend_ok := sled_ok;
  Region := KvRegion (option MergeOperator);
  region := sled_region;
  ValRep T _ := configured (λ _, True) (entry_rep ld);
  MapRep K V _ _ _ _ _ := configured (λ _, True) (entries_rep (K:=K) (ld (T:=V)));
  VecRep T _ := configured (λ op, op = Some Sled.vec_merge) vec_bytes;
  RedRep T _ f := configured (λ op, op = Some (Sled.make_reducer_merge f)) (entry_rep ld);
  AggRep Inp A R _ _ ag := configured (λ op, op = Some (Sled.make_aggregator_merge ag)) (entry_rep acc_enc);
  VecStored T _ := configured (λ _, True) vec_bytes;
  RedStored T _ _ := configured (λ _, True) (entry_rep ld);
  AggStored Inp A R _ _ _ := configured (λ _, True) (entry_rep acc_enc);
  red_ok _ _ := True;
  agg_ok _ _ _ _ := True;
|}.

Lemma sled_region_some b id r :
  region b id = Some r →
  healthy (db b) = true ∧ r = MkKv (tree_entries (db b) id) (tree_operator (db b) id).
Proof using Type. cbn. unfold sled_region. destruct (healthy (db b)); [|done]. naive_solver. Qed.
Lemma sled_region_ok b id :
  sled_ok b → region b id = Some (MkKv (tree_entries (db b) id) (tree_operator (db b) id)).
Proof using Type. intros Hb. cbn. unfold sled_region. by rewrite Hb. Qed.

Lemma keeps_data b b' : sled_ok b → keeps (db b) (db b') → same_data b b'.
Proof using Type.
  intros Hb [Hh Hk] id. rewrite !sled_region_ok by done. destruct (Hk id) as [-> ->]. done.
Qed.
Lemma becomes_updates b b' id t op :
  sled_ok b → becomes (db b) (db b') id t op → updates b b' id (MkKv t op).
Proof using Type.
  intros Hb (Hh & Ht & Hop & Ho). split.
  - rewrite sled_region_ok by done. by rewrite Ht, Hop.
  - intros id' Hne. rewrite !sled_region_ok by done. destruct (Ho id' Hne) as [-> ->]. done.
Qed.
Lemma same_data_ok b b' id r : region b id = Some r → same_data b b' → region b' id = Some r.
Proof using Type. intros Hr Hs. by rewrite Hs. Qed.

(** ** The database calls *)

Lemma on_db_ok {A} (m : M Db unit A) b a d' :
  m (db b) = (Ok a, d') → on_db m b = (Ok a, MkSled d' (restored b) (disk b)).
Proof using Type. intros E. unfold on_db, zoom, sled_try, on_outcome. by rewrite E. Qed.

Lemma tree_ok b id : sled_ok b → ∃ t, tree_name t = id ∧ reads (Sled.tree id) b t.
Proof using All.
  intros Hb. destruct (open_tree_law _ (db b) id Hb) as (t & d' & E & Hn & Hk).
  exists t. split; [done|]. eexists. split; [by apply on_db_ok|]. by apply keeps_data.
Qed.

(** A step that opens the tree and reads, or that opens it and alters it. *)
Lemma tree_reads {A} (k : Tree → StateM (Sled Db) A) b id r a :
  region b id = Some r →
  (∀ t b', tree_name t = id → region b' id = Some r → reads (k t) b' a) → reads (t ← Sled.tree id; k t) b a.
Proof using All.
  intros Hr Hk. destruct (tree_ok b id) as (t & Hn & Ht); [by apply sled_region_some in Hr as [? _]|].
  eapply reads_bind; [exact Ht|]. intros b' Hs. apply Hk; [done|]. by rewrite Hs.
Qed.
Lemma tree_alters {A} (k : Tree → StateM (Sled Db) A) b id r r' a :
  region b id = Some r →
  (∀ t b', tree_name t = id → region b' id = Some r → alters (k t) b' id r' a) →
  alters (t ← Sled.tree id; k t) b id r' a.
Proof using All.
  intros Hr Hk. destruct (tree_ok b id) as (t & Hn & Ht); [by apply sled_region_some in Hr as [? _]|].
  eapply alters_bind; [exact Ht|]. intros b' Hs. apply Hk; [done|]. by rewrite Hs.
Qed.

Section calls.
Context (b : Sled Db) (id : string) (r : KvRegion (option MergeOperator)) (Hr : region b id = Some r).

Lemma get_reads key : reads (Sled.get id key) b (kv_entries r !! key).
Proof using All.
  eapply tree_reads; [exact Hr|]. intros t b' <- [Hh ->]%sled_region_some.
  destruct (tree_get_law _ (db b') t key Hh) as (d' & E & Hk). eexists. split; [by apply on_db_ok|]. by apply keeps_data.
Qed.
Lemma contains_reads key : reads (Sled.contains id key) b (bool_decide (is_Some (kv_entries r !! key))).
Proof using All.
  eapply tree_reads; [exact Hr|]. intros t b' <- [Hh ->]%sled_region_some.
  destruct (tree_contains_key_law _ (db b') t key Hh) as (d' & E & Hk). eexists. split; [by apply on_db_ok|]. by apply keeps_data.
Qed.
Lemma scan_reads (t : Tree) prefix :
  tree_name t = id →
  ∃ l, l ≡ₚ filter (is_under prefix) (map_to_list (kv_entries r)) ∧
    reads (on_db (tree_scan_prefix t prefix)) b (Ok <$> l).
Proof using All.
  intros Hn. pose proof Hr as [Hh ->]%sled_region_some. subst id.
  destruct (tree_scan_prefix_law _ (db b) t prefix Hh) as (l & d' & E & Hk & Hl).
  exists l. split; [done|]. eexists. split; [by apply on_db_ok|]. by apply keeps_data.
Qed.
Lemma put_alters key v :
  alters (Sled.put id key v) b id (MkKv (<[key := v]> (kv_entries r)) (kv_config r)) (kv_entries r !! key).
Proof using All.
  eapply tree_alters; [exact Hr|]. intros t b' <- [Hh ->]%sled_region_some.
  destruct (tree_insert_law _ (db b') t key v Hh) as (d' & E & Hk). eexists. split; [by apply on_db_ok|]. by apply becomes_updates.
Qed.
Lemma remove_alters key :
  alters (Sled.remove id key) b id (MkKv (delete key (kv_entries r)) (kv_config r)) (kv_entries r !! key).
Proof using All.
  eapply tree_alters; [exact Hr|]. intros t b' <- [Hh ->]%sled_region_some.
  destruct (tree_remove_law _ (db b') t key Hh) as (d' & E & Hk). eexists. split; [by apply on_db_ok|]. by apply becomes_updates.
Qed.
Lemma batch_alters (t : Tree) batch :
  tree_name t = id →
  alters (on_db (tree_apply_batch t batch)) b id (MkKv (batch_effect batch (kv_entries r)) (kv_config r)) tt.
Proof using All.
  intros Hn. pose proof Hr as [Hh ->]%sled_region_some. subst id.
  destruct (tree_apply_batch_law _ (db b) t batch Hh) as (d' & E & Hk). eexists. split; [by apply on_db_ok|]. by apply becomes_updates.
Qed.
(** A merge with the operator of the tree. *)
Lemma merge_alters op key v o :
  kv_config r = Some op → op key (kv_entries r !! key) v = Ok o →
  alters (Sled.merge id key v) b id (MkKv (partial_alter (λ _, o) key (kv_entries r)) (kv_config r)) tt.
Proof using All.
  intros Hop Ho. eapply tree_alters; [exact Hr|]. intros t b' <- [Hh ->]%sled_region_some. cbn in *.
  destruct (tree_merge_law _ (db b') t key v op o Hh Hop Ho) as (x & d' & E & Hk). rewrite Hop.
  eapply alters_then; [|by intros; apply reads_ret]. eexists. split; [by apply on_db_ok|]. by apply becomes_updates.
Qed.
End calls.

(** A write to the entries, in a region whose configuration the representation accepts. *)
Lemma configured_writes {A X : Type} (P : option MergeOperator → Prop) (Rep : gmap bytes bytes → bytes → X → Prop) (m : StateM (Sled Db) A) b id
    (r : KvRegion (option MergeOperator)) t' mk a x x' :
  configured P Rep r mk x → alters m b id (MkKv t' (kv_config r)) a →
  Rep t' mk x' → frames Rep (kv_entries r) t' mk →
  writes (configured P Rep : Region → _) m b id r mk a x'.
Proof using Type.
  intros [HP _] Hm Hr Hf. eapply alters_writes; [exact Hm|by split|].
  destruct r as [t c]. by apply frames_configured.
Qed.

Ltac sled_step := first
  [ apply reads_lift_bind with (1 := serialize_metakeys_ok _)
  | apply reads_lift_bind with (1 := serialize_metakeys_and_key_ok _ _)
  | apply alters_lift_bind with (1 := serialize_metakeys_ok _)
  | apply alters_lift_bind with (1 := serialize_metakeys_and_key_ok _ _)
  | apply alters_lift_bind with (1 := protobuf_serialize_ok _)
  | apply alters_lift_bind with (1 := encode_vec_ok _) ].
(** The entry of the metakeys is read, written, or merged into. *)
Ltac sled_get Hr := repeat sled_step; eapply reads_bind; [by eapply get_reads|]; intros ? _; cbv beta.
Ltac sled_decode :=
  lazymatch goal with
  | |- reads (match _ <$> ?x with _ => _ end) _ _ => destruct x; cbn
  end; [eapply reads_lift_bind; [apply protobuf_deserialize_ok|]; apply reads_ret|apply reads_ret].
Ltac sled_put Hr Hx :=
  eapply configured_writes; [exact Hx| |eauto with arcon|eauto with arcon];
  repeat sled_step; eapply alters_then; [first [by eapply put_alters | by eapply remove_alters]|];
  intros ?; cbv beta; try apply reads_ret.
(** The operand of a merge is encoded as [Henc] says, and the operator's result [v'] is stored. *)
Tactic Notation "sled_merge" constr(Hr) constr(Hx) constr(Henc) "into" uconstr(v') :=
  eapply (configured_writes _ _ _ _ _ _ (<[_ := v']> _)); [exact Hx| |eauto with arcon|eauto with arcon];
  sled_step; eapply alters_lift_bind; [exact Henc|];
  eapply (merge_alters _ _ _ Hr _ _ _ (Some v')); [exact (proj1 Hx)|].

Section values.
Context {T IK N : Type} `{Value T, Metakey IK, Metakey N}.

Section value.
Context (h : Handle (ValueState T) IK N) b (r : KvRegion (option MergeOperator)) (x : option T).
Context (Hr : region b (h_id h) = Some r) (Hx : ValRep r (metakeys h) x).

Lemma sled_value_get : reads (value_get h) b x.
Proof using All. cbn. unfold Sled.value_get. sled_get Hr. rewrite (proj2 Hx). sled_decode. Qed.
Lemma sled_value_set v : writes ValRep (value_set h v) b (h_id h) r (metakeys h) x (Some v).
Proof using All. cbn. unfold Sled.value_set. sled_put Hr Hx. rewrite (proj2 Hx). sled_decode. Qed.
Lemma sled_value_fast_set v : writes ValRep (value_fast_set h v) b (h_id h) r (metakeys h) tt (Some v).
Proof using All. cbn. unfold Sled.value_fast_set. sled_put Hr Hx. Qed.
Lemma sled_value_clear : writes ValRep (value_clear h) b (h_id h) r (metakeys h) tt (None : option T).
Proof using All. cbn. unfold Sled.value_clear. sled_put Hr Hx. Qed.
End value.

Section vec.
Context (h : Handle (VecState T) IK N) b (r : KvRegion (option MergeOperator)) (x : list T).
Context (Hr : region b (h_id h) = Some r) (Hx : VecRep r (metakeys h) x).
Lemma sled_vec_get : reads (vec_get h) b x.
Proof using All.
  cbn. unfold Sled.vec_get. sled_get Hr. eapply (reads_vec decode_vec _ id); [exact (proj2 Hx)|done|]. apply decode_vec_ok.
Qed.
Lemma sled_vec_iter : reads (vec_iter h) b (Ok <$> x).
Proof using All.
  cbn. unfold Sled.vec_iter. sled_get Hr. eapply (reads_vec decode_iter _ (fmap Ok)); [exact (proj2 Hx)|done|]. apply decode_iter_ok.
Qed.
Lemma sled_vec_len : reads (vec_len h) b (len x).
Proof using All.
  cbn. unfold Sled.vec_len. sled_get Hr. eapply (reads_vec decode_len _ (λ l, len l)); [exact (proj2 Hx)|done|]. apply decode_len_ok.
Qed.
Lemma sled_vec_is_empty : reads (vec_is_empty h) b (bool_decide (x = [])).
Proof using All.
  cbn. unfold Sled.vec_is_empty. eapply reads_bind; [apply sled_vec_len|]. intros b' _.
  replace (bool_decide (x = [])) with (bool_decide (len x = 0)); [apply reads_ret|].
  apply bool_decide_ext. destruct x; cbn; split; (done || lia).
Qed.
Lemma sled_vec_append v :
  vec_fits (x ++ [v]) → writes VecRep (vec_append h v) b (h_id h) r (metakeys h) tt (x ++ [v]).
Proof using All.
  intros Hfit. cbn. unfold Sled.vec_append. sled_merge Hr Hx (encode_one_ok v) into (vec_enc (x ++ [v])).
  by apply (vec_bytes_merge _ _ _ (proj2 Hx)).
Qed.
Lemma sled_vec_add_all l :
  vec_fits (x ++ l) → writes VecRep (vec_add_all h l) b (h_id h) r (metakeys h) tt (x ++ l).
Proof using All.
  intros Hfit. cbn. unfold Sled.vec_add_all.
  assert (vec_fits l) as Hl by (unfold vec_fits in *; rewrite length_app in Hfit; lia).
  sled_merge Hr Hx (encode_counted_ok l Hl) into (vec_enc (x ++ l)).
  by apply (vec_bytes_merge _ _ _ (proj2 Hx)).
Qed.
Lemma sled_vec_set l : vec_fits l → writes VecRep (vec_set h l) b (h_id h) r (metakeys h) tt l.
Proof using All. intros Hl. cbn. unfold Sled.vec_set. sled_put Hr Hx. Qed.
Lemma sled_vec_clear : writes VecRep (vec_clear h) b (h_id h) r (metakeys h) tt ([] : list T).
Proof using All. cbn. unfold Sled.vec_clear. sled_put Hr Hx. Qed.
End vec.

Section reducer.
Context (h : Handle (ReducerState T) IK N) b (r : KvRegion (option MergeOperator)) (x : option T).
Context (Hr : region b (h_id h) = Some r) (Hx : RedRep (extra_data h) r (metakeys h) x).

Lemma sled_reducer_get : reads (reducer_get h) b x.
Proof using All. cbn. unfold Sled.reducer_get. sled_get Hr. rewrite (proj2 Hx). sled_decode. Qed.
Lemma sled_reducer_reduce (v : T) :
  writes (RedRep (extra_data h)) (reducer_reduce h v) b (h_id h) r (metakeys h) tt
    (Some (match x with Some old => extra_data h old v | None => v end)).
Proof using All.
  cbn. unfold Sled.reducer_reduce.
  sled_merge Hr Hx (protobuf_serialize_ok v) into (ld (match x with Some old => extra_data h old v | None => v end)).
  rewrite (proj2 Hx). apply merge_reduced_ok.
Qed.
Lemma sled_reducer_clear :
  writes (RedRep (extra_data h)) (reducer_clear h) b (h_id h) r (metakeys h) tt (None : option T).
Proof using All. cbn. unfold Sled.reducer_clear. sled_put Hr Hx. Qed.
End reducer.

Section aggregator.
Context {Inp R : Type} `{Value Inp}.
Context (h : Handle (AggregatorState Inp T R) IK N) b (r : KvRegion (option MergeOperator)) (x : option T).
Context (Hr : region b (h_id h) = Some r) (Hx : AggRep (extra_data h) r (metakeys h) x).

Lemma sled_aggregator_get :
  ∃ b', aggregator_get h b =
    (accumulator_into_result (extra_data h) (default (create_accumulator (extra_data h)) x), b')
    ∧ same_data b b'.
Proof using All.
  cbn. unfold Sled.aggregator_get. unfold mbind at 1, M_bind at 1, lift at 1. rewrite serialize_metakeys_ok.
  destruct (get_reads b (h_id h) r Hr (metakeys h)) as (b' & E & Hs). step_ok E. exists b'. split; [|done].
  rewrite (proj2 Hx). destruct x as [a|]; cbn [fmap option_fmap option_map default]; [|done].
  unfold mbind, M_bind, lift. by rewrite decode_accumulator_ok.
Qed.
Lemma sled_aggregator_aggregate (v : Inp) :
  writes (AggRep (extra_data h)) (aggregator_aggregate h v) b (h_id h) r (metakeys h) tt
    (Some (agg_add (extra_data h) (default (create_accumulator (extra_data h)) x) v)).
Proof using All.
  cbn. unfold Sled.aggregator_aggregate.
  sled_merge Hr Hx (encode_value_ok v) into
    (acc_enc (agg_add (extra_data h) (default (create_accumulator (extra_data h)) x) v)).
  rewrite (proj2 Hx). apply merge_aggregated_ok.
Qed.
Lemma sled_aggregator_clear :
  writes (AggRep (extra_data h)) (aggregator_clear h) b (h_id h) r (metakeys h) tt (None : option T).
Proof using All. cbn. unfold Sled.aggregator_clear. sled_put Hr Hx. Qed.
End aggregator.
End values.

(** ** Map states *)

(** The batch of [remove_prefix] removes the scanned keys. *)
Lemma batch_removing_ok keys batch :
  ∃ batch', Sled.batch_removing (Ok <$> keys) batch = Ok batch' ∧
    ∀ t k, batch_effect batch' t !! k = if decide (k ∈ keys) then None else batch_effect batch t !! k.
Proof using All.
  revert batch. induction keys as [|key keys IH]; intros batch.
  { exists batch. split; [done|]. intros t k. by rewrite decide_False by set_solver. }
  destruct (IH (batch_remove key batch)) as (batch' & E & Hk). exists batch'. split; [exact E|].
  intros t k. rewrite Hk, (batch_remove_law Db). pose proof (elem_of_cons keys k key).
  destruct (decide (k = key)) as [->|Hne]; [rewrite lookup_delete_eq|rewrite lookup_delete_ne by done];
    repeat case_decide; naive_solver.
Qed.

Section maps.
Context {K V IK N : Type} `{Key K, !MessageLaws K, EqDecision K, !Countable K, Value V, Metakey IK, Metakey N}.
Section map.
Context (h : Handle (MapState K V) IK N) b (r : KvRegion (option MergeOperator)) (m : gmap K V).
Context (Hr : region b (h_id h) = Some r) (Hm : MapRep r (metakeys h) m).
Let Hentries : entries_rep (K:=K) (ld (T:=V)) (kv_entries r) (metakeys h) m := proj2 Hm.

Lemma sled_map_get k : reads (map_get h k) b (m !! k).
Proof using All. cbn. unfold Sled.map_get. sled_get Hr. rewrite (proj1 Hentries). sled_decode. Qed.
Lemma sled_map_contains k : reads (map_contains h k) b (bool_decide (is_Some (m !! k))).
Proof using All.
  cbn. unfold Sled.map_contains. sled_step.
  replace (bool_decide (is_Some (m !! k))) with (bool_decide (is_Some (kv_entries r !! (metakeys h ++ ld k)))).
  - by apply contains_reads.
  - apply bool_decide_ext. by rewrite (proj1 Hentries), fmap_is_Some.
Qed.

Lemma sled_map_fast_insert k v :
  writes MapRep (map_fast_insert h k v) b (h_id h) r (metakeys h) tt (<[k:=v]> m).
Proof using All. cbn. unfold Sled.map_fast_insert. sled_put Hr Hm. Qed.
Lemma sled_map_insert k v :
  writes MapRep (map_insert h k v) b (h_id h) r (metakeys h) (m !! k) (<[k:=v]> m).
Proof using All. cbn. unfold Sled.map_insert. sled_put Hr Hm. rewrite (proj1 Hentries). sled_decode. Qed.
Lemma sled_map_remove k :
  writes MapRep (map_remove h k) b (h_id h) r (metakeys h) (m !! k) (delete k m).
Proof using All. cbn. unfold Sled.map_remove. sled_put Hr Hm. rewrite (proj1 Hentries). sled_decode. Qed.
Lemma sled_map_fast_remove k :
  writes MapRep (map_fast_remove h k) b (h_id h) r (metakeys h) tt (delete k m).
Proof using All. cbn. unfold Sled.map_fast_remove. sled_put Hr Hm. Qed.

(** What a scan yields: the encoded entries of the map, in the order of the tree. *)
Lemma scan_runs : ∃ l t b', l ≡ₚ (λ kv, (metakeys h ++ ld kv.1, ld kv.2)) <$> map_to_list m ∧
  l ≡ₚ filter (is_under (metakeys h)) (map_to_list (kv_entries r)) ∧
  tree_name t = h_id h ∧ same_data b b' ∧
  ∀ A (f : bytes → Tree → list (outcome unit (bytes * bytes)) → StateM (Sled Db) A),
    (prefix ← lift (serialize_metakeys h); t ← Sled.tree (h_id h); entries ← on_db (tree_scan_prefix t prefix);
      f prefix t entries) b = f (metakeys h) t (Ok <$> l) b'.
Proof using All.
  pose proof (sled_region_some _ _ _ Hr) as [Hh _]. destruct (tree_ok b (h_id h) Hh) as (t & Hn & b1 & E1 & Hs1).
  destruct (scan_reads b1 (h_id h) r) with (t := t) (prefix := metakeys h) as (l & Hl & b2 & E2 & Hs2); [by rewrite Hs1|done|].
  exists l, t, b2. split; [rewrite Hl; by apply entries_rep_list|]. do 2 (split; [done|]).
  split; [by eauto using same_data_trans|]. intros A f.
  unfold mbind at 1, M_bind at 1, lift. rewrite serialize_metakeys_ok. step_ok E1. by step_ok E2.
Qed.
Lemma scan_map : ∃ l, l ≡ₚ (λ kv, (metakeys h ++ ld kv.1, ld kv.2)) <$> map_to_list m ∧
  ∀ A (f : list (outcome unit (bytes * bytes)) → StateM (Sled Db) A) a,
    (∀ b', reads (f (Ok <$> l)) b' a) →
    reads (prefix ← lift (serialize_metakeys h); t ← Sled.tree (h_id h); entries ← on_db (tree_scan_prefix t prefix);
      f entries) b a.
Proof using All.
  destruct scan_runs as (l & t & b' & Hl & _ & _ & Hs & Hrun). exists l. split; [done|]. intros A f a Hf.
  destruct (Hf b') as (b3 & E3 & Hs3). exists b3.
  rewrite (Hrun A (λ _ _, f)), E3. eauto using same_data_trans.
Qed.
Lemma sled_map_len : reads (map_len h) b (Z.of_nat (size m)).
Proof using All.
  destruct scan_map as (l & Hl & Hs). apply Hs. intros b'.
  rewrite length_fmap, Hl, length_fmap, length_map_to_list. apply reads_ret.
Qed.
Lemma sled_map_is_empty : reads (map_is_empty h) b (bool_decide (m = ∅)).
Proof using All.
  destruct scan_map as (l & Hl & Hs). apply Hs. intros b'.
  replace (bool_decide (m = ∅)) with (bool_decide ((Ok <$> l : list (outcome unit (bytes * bytes))) = [])); [apply reads_ret|].
  apply bool_decide_ext. rewrite <- map_to_list_empty_iff. split; intros E.
  - apply fmap_nil_inv in E as ->. by eapply fmap_nil_inv, Permutation_nil_r.
  - rewrite E in Hl. apply Permutation_nil_r in Hl as ->. done.
Qed.

Lemma sled_scan {A : Type} (f : bytes * bytes → StateResult A) (g : K * V → A) :
  (∀ k v, f (metakeys h ++ ld k, ld v) = Ok (g (k, v))) →
  ∃ l, reads (Sled.scan h f) b (Ok <$> l) ∧ l ≡ₚ g <$> map_to_list m.
Proof using All.
  intros Hf. destruct scan_map as (l & Hl & Hs).
  assert (f <$> l ≡ₚ Ok <$> (g <$> map_to_list m)) as (l' & El & Hp)%Permutation_map_inv.
  { rewrite Hl, <- !list_fmap_compose. erewrite list_fmap_ext; [done|]. intros i [k v] _. cbn. apply Hf. }
  exists l'. split; [|done]. apply Hs. intros b'. rewrite <- list_fmap_compose. cbn [compose map_err mbind outcome_bind].
  replace (Ok <$> l') with (f <$> l). apply reads_ret.
Qed.
Lemma sled_decode_key k :
  handle_wf h → Sled.decode_key (IK:=IK) (N:=N) (metakeys h ++ ld k) = Ok (k : K).
Proof using Type.
  intros [Hik Hns]. unfold Sled.decode_key, metakeys, deserialize_from.
  rewrite <- !(assoc_L (++)), mk_from_slice by done. cbn.
  rewrite mk_from_slice by done. cbn. by rewrite <- (app_nil_r (ld k)), protobuf_deserialize_from_ok.
Qed.
Lemma sled_map_iter : handle_wf h → ∃ l, reads (map_iter h) b (Ok <$> l) ∧ l ≡ₚ map_to_list m.
Proof using All.
  intros Hwf. edestruct (sled_scan (λ entry, key ← Sled.decode_key (IK:=IK) (N:=N) entry.1;
    value ← protobuf_deserialize entry.2; Ok (key, value)) id) as (l & Hl & Hp).
  { intros k v. cbn. rewrite sled_decode_key by done. cbn. by rewrite protobuf_deserialize_ok. }
  exists l. by rewrite list_fmap_id in Hp.
Qed.
Lemma sled_map_keys : handle_wf h → ∃ l, reads (map_keys h) b (Ok <$> l) ∧ l ≡ₚ (map_to_list m).*1.
Proof using All.
  intros Hwf. apply (sled_scan (λ entry, Sled.decode_key (IK:=IK) (N:=N) entry.1) fst).
  intros k v. cbn. by rewrite sled_decode_key.
Qed.
Lemma sled_map_values : ∃ l, reads (map_values h) b (Ok <$> l) ∧ l ≡ₚ (map_to_list m).*2.
Proof using All.
  apply (sled_scan (λ entry, protobuf_deserialize entry.2) snd). intros k v. apply protobuf_deserialize_ok.
Qed.

Lemma sled_map_clear : writes (MapRep (K:=K) (V:=V)) (map_clear h) b (h_id h) r (metakeys h) tt ∅.
Proof using All.
  destruct scan_runs as (l & t & b' & _ & Hl & Hn & Hs & Hrun).
  destruct (batch_removing_ok l.*1 Batch_default) as (batch & Eb & Hbatch).
  assert (Hkeys : ∀ k, batch_effect batch (kv_entries r) !! k =
    if decide (take (length (metakeys h)) k = metakeys h) then None else kv_entries r !! k).
  { intros k. rewrite Hbatch, (Batch_default_law Db). destruct (decide (k ∈ l.*1)) as [Hin|Hin].
    - apply list_elem_of_fmap in Hin as ([k' v] & -> & Hin). rewrite Hl, list_elem_of_filter in Hin.
      by rewrite decide_True by apply Hin.
    - case_decide as Hu; [|done]. apply eq_None_not_Some. intros [v Hv]. apply Hin, list_elem_of_fmap.
      exists (k, v). by rewrite Hl, list_elem_of_filter, elem_of_map_to_list. }
  eapply configured_writes; [exact Hm| |by eapply entries_rep_clear|by apply entries_frames_clear].
  destruct (batch_alters b' (h_id h) r) with (t := t) (batch := batch) as (b2 & E2 & Hr2 & Ho2); [by rewrite Hs|done|].
  exists b2. split; [|split; [done|]; intros id' Hne; by rewrite Ho2, Hs].
  cbn. unfold Sled.map_clear, Sled.remove_prefix.
  rewrite (Hrun _ (λ _ t entries, batch ← lift (Sled.batch_removing ((λ entry : outcome unit (bytes * bytes), fst <$> entry) <$> entries) Batch_default);
    on_db (tree_apply_batch t batch))).
  assert ((λ entry : outcome unit (bytes * bytes), fst <$> entry) <$> (Ok <$> l) = Ok <$> l.*1) as ->.
  { clear. induction l as [|kv l IH]; cbn; [done|]. by f_equal. }
  unfold mbind, M_bind, lift. by rewrite Eb.
Qed.
End map.

Lemma batch_inserting_ok (h : Handle (MapState K V) IK N) kvs batch :
  ∃ batch', Sled.batch_inserting h kvs batch = Ok batch' ∧
    ∀ t, batch_effect batch' t =
      foldl (λ t kv, <[metakeys h ++ ld kv.1 := ld kv.2]> t) (batch_effect batch t) kvs.
Proof using H3 H7 H9.
  revert batch. induction kvs as [|[k v] kvs IH]; intros batch; [by exists batch|].
  destruct (IH (batch_insert (metakeys h ++ ld k) (ld v) batch)) as (batch' & E & Hb). exists batch'.
  cbn [Sled.batch_inserting]. rewrite serialize_metakeys_and_key_ok. cbn [mbind outcome_bind].
  rewrite protobuf_serialize_ok. cbn [mbind outcome_bind]. split; [done|].
  intros t. by rewrite Hb, (batch_insert_law Db).
Qed.
Lemma sled_map_insert_all (h : Handle (MapState K V) IK N) b r m kvs :
  region b (h_id h) = Some r → MapRep r (metakeys h) m →
  writes MapRep (map_insert_all h kvs) b (h_id h) r (metakeys h) tt (foldl (λ m kv, <[kv.1:=kv.2]> m) m kvs).
Proof using All.
  intros Hr Hm. destruct (batch_inserting_ok h kvs Batch_default) as (batch & Eb & Hbatch).
  eapply (configured_writes _ _ _ _ _ _ (foldl (λ t kv, <[metakeys h ++ ld kv.1 := ld kv.2]> t) (kv_entries r) kvs));
    [exact Hm| | |].
  - cbn. unfold Sled.map_insert_all. eapply tree_alters; [exact Hr|]. intros t b' Hn Hr'.
    eapply alters_lift_bind; [exact Eb|]. rewrite <- (Batch_default_law Db (kv_entries r)), <- Hbatch. by apply batch_alters.
  - apply entries_rep_insert_all, (proj2 Hm).
  - apply entries_frames_insert_all.
Qed.
End maps.
End sled.
