(* ===== verification/SledCheckpoint.v ===== *)
(** The checkpoint files of the sled backend: what [checkpoint] writes, with lengths that are filled in
    afterwards, [parse_dumped_sled_export] reads back, so that a restored backend holds the data of
    the one that was checkpointed. *)

From S2P Require Import Prelude Error Serialization Files StateBackend Tables ByteStore Restore Sled SledSpec.

(** An export for whose parts memory can be reserved: what a program holds in memory is one. *)
Definition collection_fits (c : bytes * bytes * list (list bytes)) : Prop :=
  len c.1.1 ≤ Sled.isize_max ∧ len c.1.2 ≤ Sled.isize_max ∧ len c.2 * 24 ≤ Sled.isize_max ∧
  ∀ vecs, vecs ∈ c.2 → len vecs * 24 ≤ Sled.isize_max ∧
    ∀ vec : bytes, vec ∈ vecs → len vec ≤ Sled.isize_max.
Definition export_fits (e : SledExport) : Prop :=
  len e * 80 ≤ Sled.isize_max ∧ ∀ c, c ∈ e → collection_fits c.

Section format.

(** ** Writing and reading *)

(** A write at the end of the file appends [x] and returns [a]. *)
Definition appends {A} (m : M Writer ArconStateError A) (a : A) (x : bytes) : Prop := ∀ w,
  position w = length (contents w) → m w = (Ok a, MkWriter (contents w ++ x) (length (contents w ++ x))).
(** A read consumes [x] and returns [a]. *)
Definition parses {A} (m : M bytes ArconStateError A) (a : A) (x : bytes) : Prop :=
  ∀ rest, m (x ++ rest) = (Ok a, rest).

Lemma appends_bind {A C} (m : M Writer ArconStateError A) (k : A → M Writer ArconStateError C) a c x y :
  appends m a x → appends (k a) c y → appends (m ≫= k) c (x ++ y).
Proof.
  intros Hm Hk w Hw. rewrite (bind_ok _ _ _ _ _ (Hm w Hw)), Hk by done. cbn. by rewrite (assoc_L (++)).
Qed.
Lemma appends_write x : appends (write_all x) tt x.
Proof. intros w Hw. by apply write_all_end. Qed.
Lemma appends_for_each {A} (f : A → M Writer ArconStateError unit) (enc : A → bytes) l :
  (∀ x, x ∈ l → appends (f x) tt (enc x)) → appends (for_each f l) tt (l ≫= enc).
Proof.
  induction l as [|x l IH]; intros Hl.
  - intros [c p] Hw. cbn in *. subst. by rewrite app_nil_r.
  - cbn [for_each mbind list_bind]. eapply appends_bind; [apply Hl; set_solver|].
    apply IH. intros y Hy. apply Hl. set_solver.
Qed.
Lemma parses_bind {A C} (m : M bytes ArconStateError A) (k : A → M bytes ArconStateError C) a c x y :
  parses m a x → parses (k a) c y → parses (m ≫= k) c (x ++ y).
Proof. intros Hm Hk rest. rewrite <- (assoc_L (++)), (bind_ok _ _ _ _ _ (Hm (y ++ rest))). apply Hk. Qed.
Lemma parses_ret {A} (a : A) : parses (mret a) a [].
Proof. by intros rest. Qed.
Lemma parses_collect {A} (m : M bytes ArconStateError A) (enc : A → bytes) l :
  (∀ x, x ∈ l → parses m x (enc x)) → parses (Sled.collect (length l) m) l (l ≫= enc).
Proof.
  induction l as [|x l IH]; intros Hl; [apply parses_ret|]. cbn [length Sled.collect mbind list_bind].
  eapply parses_bind; [apply Hl; set_solver|]. rewrite <- (app_nil_r (l ≫= enc)).
  eapply parses_bind; [|apply parses_ret]. apply IH. intros y Hy. apply Hl. set_solver.
Qed.

(** The format. *)
Definition len_enc {A} (l : list A) : bytes := to_le_bytes 8 (len l).
Definition bytes_enc (l : bytes) : bytes := len_enc l ++ l.
Definition vecs_enc (vecs : list bytes) : bytes := len_enc vecs ++ (vecs ≫= bytes_enc).
Definition collection_enc (c : bytes * bytes * list (list bytes)) : bytes :=
  bytes_enc c.1.1 ++ bytes_enc c.1.2 ++ len_enc c.2 ++ (c.2 ≫= vecs_enc).
Definition export_enc (e : SledExport) : bytes := len_enc e ++ (e ≫= collection_enc).

Lemma write_bytes_appends x : appends (Sled.write_len_and_bytes x) tt (bytes_enc x).
Proof. eapply appends_bind; apply appends_write. Qed.
Lemma write_vvecs_appends n vvecs : appends (Sled.write_vvecs n vvecs) (n + len vvecs) (vvecs ≫= vecs_enc).
Proof.
  revert n. induction vvecs as [|vecs vvecs IH]; intros n.
  - intros [c p] Hw. cbn in *. subst. by rewrite app_nil_r, Z.add_0_r.
  - cbn [mbind list_bind Sled.write_vvecs]. unfold vecs_enc at 1. rewrite <- (assoc_L (++)).
    eapply appends_bind; [apply appends_write|]. eapply appends_bind.
    + apply appends_for_each. intros x _. apply write_bytes_appends.
    + replace (n + len (vecs :: vvecs)) with (n + 1 + len vvecs) by (cbn [length]; lia). apply IH.
Qed.
(** The length that is reserved first is the number of items in the end. *)
Lemma write_collection_appends c : appends (Sled.write_collection c) tt (collection_enc c).
Proof.
  destruct c as [[typ name] vvecs]. unfold Sled.write_collection, collection_enc. cbn [fst snd].
  eapply appends_bind; [apply write_bytes_appends|]. eapply appends_bind; [apply write_bytes_appends|].
  intros w Hw. unfold seek_current, gets. rewrite (bind_ok _ _ w (position w) w) by done.
  erewrite bind_ok by apply (appends_write _ w Hw).
  erewrite bind_ok by by apply (write_vvecs_appends 0 vvecs). cbn [contents].
  erewrite bind_ok by done. cbn [position]. unfold seek_start at 1, modify. erewrite bind_ok by done. cbn [contents].
  rewrite <- (assoc_L (++)), Hw. unfold Sled.write_usize.
  erewrite bind_ok by (apply write_all_over; [done|by rewrite !length_to_le_bytes]). cbn [contents].
  rewrite Z.add_0_l. unfold seek_start, modify, len_enc. cbn [contents]. do 2 f_equal.
  by rewrite !length_app, !length_to_le_bytes.
Qed.
Lemma write_export_appends e : appends (Sled.write_export e) tt (export_enc e).
Proof.
  eapply appends_bind; [apply appends_write|]. apply appends_for_each. intros c _. apply write_collection_appends.
Qed.

(** A length for which the memory can be reserved. *)
Lemma read_length_parses {A R} size (l : list A) (next : Z → M bytes ArconStateError R) (a : R) (e : bytes) :
  1 ≤ size → len l * size ≤ Sled.isize_max → parses (next (len l)) a e →
  parses (n ← Sled.read_length; Sled.with_capacity size n ;; next n) a (len_enc l ++ e).
Proof.
  intros Hsize Hl Hnext rest. unfold Sled.read_length, len_enc. rewrite bind_assoc, <- (assoc_L (++)).
  pose proof (read_exact_app (to_le_bytes 8 (len l)) (e ++ rest)) as Hr. rewrite length_to_le_bytes in Hr.
  step_ok Hr. rewrite ret_bind, from_to_le_bytes, Z.mod_small by (unfold Sled.isize_max in *; lia).
  unfold Sled.with_capacity at 1. rewrite (proj2 (Z.ltb_ge _ _)) by done. rewrite ret_bind. apply Hnext.
Qed.
Lemma read_bytes_parses (l : bytes) : len l ≤ Sled.isize_max → parses Sled.read_bytes_starting_with_len l (bytes_enc l).
Proof.
  intros Hl. apply (read_length_parses 1); [done|lia|]. rewrite Nat2Z.id.
  intros rest. apply read_exact_app.
Qed.
Lemma read_vecs_parses vecs :
  len vecs * 24 ≤ Sled.isize_max → (∀ vec : bytes, vec ∈ vecs → len vec ≤ Sled.isize_max) →
  parses Sled.read_vecs vecs (vecs_enc vecs).
Proof.
  intros Hl Hv. apply (read_length_parses 24); [done|done|]. rewrite Nat2Z.id.
  apply parses_collect. intros x Hx. by apply read_bytes_parses, Hv.
Qed.
Lemma read_collection_parses c : collection_fits c → parses Sled.read_collection c (collection_enc c).
Proof.
  destruct c as [[typ name] vvecs]. unfold collection_fits, collection_enc. cbn [fst snd]. intros (Ht & Hn & Hl & Hv).
  eapply parses_bind; [by apply read_bytes_parses|]. eapply parses_bind; [by apply read_bytes_parses|].
  apply (read_length_parses 24); [done|done|]. rewrite Nat2Z.id, <- (app_nil_r (vvecs ≫= vecs_enc)).
  eapply parses_bind; [|apply parses_ret]. apply parses_collect. intros vecs Hin.
  destruct (Hv vecs Hin). by apply read_vecs_parses.
Qed.
Lemma parse_export_enc e : export_fits e → Sled.parse_dumped_sled_export (export_enc e) = Ok e.
Proof.
  intros [Hl He]. unfold Sled.parse_dumped_sled_export.
  assert (parses (length_ ← Sled.read_length; Sled.with_capacity 80 length_ ;;
    Sled.collect (Z.to_nat length_) Sled.read_collection) e (export_enc e)) as Hp.
  { apply (read_length_parses 80); [done|done|]. rewrite Nat2Z.id. apply parses_collect.
    intros c Hc. by apply read_collection_parses, He. }
  specialize (Hp []). rewrite app_nil_r in Hp. by rewrite Hp.
Qed.

End format.

Section sled.
Context `{BuildProfile, SledCheckpoints} {Db : Type} `{SledLaws Db}.
Implicit Types (b : Sled Db) (fs : Fs).

(** ** [checkpoint] changes the files only *)

Lemma on_disk_eq (m : M Fs ArconStateError unit) b o fs :
  m (disk b) = (o, fs) → on_disk m b = (o, MkSled (db b) (restored b) fs).
Proof using Type. intros E. unfold on_disk, zoom. by rewrite E. Qed.

(** The exported data are written once the directory and the file are there. *)
Lemma checkpoint_eq cp b :
  checkpoint cp b =
    if sled_checkpoints then
      ((if path_exists (path_from cp) (disk b) then mret tt else on_disk (create_dir_all (path_from cp))) ;;
       on_disk (create_file (path_from cp ++ [Sled.EXPORT_NAME])) ;;
       on_disk (write_file (path_from cp ++ [Sled.EXPORT_NAME]) (export_enc (db_export (db b)))) ;; mret tt) b
    else (Ok tt, b).
Proof using All.
  cbn [checkpoint Sled_Backend]. unfold Sled.checkpoint. destruct sled_checkpoints; [|done].
  unfold gets. do 2 (erewrite bind_ok by done). cbv beta.
  pose proof (write_export_appends (db_export (db b)) Writer_new eq_refl) as Hw. by rewrite Hw.
Qed.
Lemma sled_checkpoint_ok cp b : ∃ o b', checkpoint cp b = (o, b') ∧
  db b' = db b ∧ (o = Ok tt ∨ ∃ e, o = Err e).
Proof using All.
  rewrite checkpoint_eq. destruct sled_checkpoints; [|by exists (Ok tt), b; eauto].
  set (p := path_from cp). set (x := export_enc _). clearbody x.
  assert (∃ o b1, (if path_exists p (disk b) then mret tt else on_disk (create_dir_all p)) b = (o, b1) ∧
    db b1 = db b ∧ (o = Ok tt ∨ o = Err IO)) as (o & b1 & E1 & Hd1 & [-> | ->]).
  { case_match; [by exists (Ok tt), b; eauto|]. destruct (create_dir_all_outcome p (disk b)) as (o & fs' & E & Ho).
    exists o. eexists. split; [by apply on_disk_eq|done]. }
  2: { rewrite (bind_err _ _ _ _ _ E1). exists (Err IO), b1. eauto. }
  step_ok E1. destruct (create_file_outcome (p ++ [Sled.EXPORT_NAME]) (disk b1)) as (o & fs' & E & [-> | ->]).
  - step_ok (on_disk_eq _ _ _ _ E). eexists _, _. split; [reflexivity|]. split; [exact Hd1|by left].
  - rewrite (bind_err _ _ _ _ _ (on_disk_eq _ _ _ _ E)). exists (Err IO). eexists. split; [done|]. split; [exact Hd1|eauto].
Qed.
Lemma db_same_data b b' : db b' = db b → same_data b b'.
Proof using Type. intros Hd id. cbn. unfold sled_region. by rewrite Hd. Qed.

(** ** Registration *)

Lemma sled_register_ok {S IK N X} `{FixedBytes IK, FixedBytes N} (h : Handle S IK N) b Rep (x0 : X) :
  backend_ok b → registers Rep Rep x0 (Sled.register h) b h.
Proof using Type.
  intros Hb. exists b, (MkKv (tree_entries (db b) (h_id h)) (tree_operator (db b) (h_id h))).
  split; [done|]. split; [done|]. pose proof (sled_region_ok b (h_id h) Hb) as Hr.
  split; [by apply updates_refl|]. by rewrite Hr.
Qed.
Lemma sled_register_merging_ok {S IK N X} `{FixedBytes IK, FixedBytes N} (msg : string) (op : MergeOperator) (h : Handle S IK N) b (P : option MergeOperator → Prop)
    (Rep : gmap bytes bytes → bytes → X → Prop) (x0 : X) :
  backend_ok b → P (Some op) →
  registers (IK:=IK) (N:=N) (configured (λ _, True) Rep : Region → _) (configured P Rep) x0 (Sled.register_merging msg op h) b h.
Proof using All.
  intros Hb HP. destruct (tree_ok b (h_id h) Hb) as (t & Hn & b1 & E1 & Hs1).
  assert (sled_ok b1) as Hb1.
  { pose proof (Hs1 (h_id h)) as Hr. rewrite (sled_region_ok b) in Hr by done. by apply sled_region_some in Hr as [? _]. }
  pose proof (tree_set_merge_operator_law Db (db b1) t op Hb1) as Hset. rewrite Hn in Hset.
  set (b2 := MkSled (tree_set_merge_operator t op (db b1)) (restored b1) (disk b1)).
  pose proof (becomes_updates b1 b2 _ _ _ Hb1 Hset) as [Hr2 Ho2].
  exists b2. eexists. split; [|split; [apply Hset|split; [split; [exact Hr2|]|]]].
  - unfold Sled.register_merging. erewrite bind_ok; [|unfold on_outcome; by rewrite E1]. done.
  - intros id' Hne. by rewrite Ho2, Hs1.
  - pose proof (Hs1 (h_id h)) as Hr. rewrite !sled_region_ok in Hr by done. injection Hr as Ht _.
    rewrite (sled_region_ok b) by done. intros mk x _ [_ Hx]. split; [done|]. cbn in *. by rewrite Ht.
Qed.

#[export] Instance Sled_MapSpec K V IK N `{Key K, !MessageLaws K, EqDecision K, !Countable K,
  Value V, Metakey IK, Metakey N} : MapSpec (Sled Db) K V IK N.
Proof using All.
  split.
  - intros. by eapply sled_map_get.
  - intros. by eapply sled_map_contains.
  - intros. by eapply sled_map_len.
  - intros. by eapply sled_map_is_empty.
  - intros. by eapply sled_map_insert.
  - intros. by eapply sled_map_fast_insert.
  - intros. by eapply sled_map_insert_all.
  - intros. by eapply sled_map_remove.
  - intros. by eapply sled_map_fast_remove.
  - intros. by eapply sled_map_clear.
  - intros. by eapply sled_map_iter.
  - intros. by eapply sled_map_keys.
  - intros. by eapply sled_map_values.
Qed.
#[export] Instance Sled_BackendSpec : BackendSpec (Sled Db).
Proof using All.
  split.
  - done.
  - done.
  - done.
  - done.
  - intros b id r Hr. by apply sled_region_some in Hr as [? _].
  - intros cp b Hb. destruct (sled_checkpoint_ok cp b) as (o & b' & E & Hd & Ho). exists o, b'.
    split; [done|]. split; [by unfold backend_ok, Sled_BackendRep, sled_ok; rewrite Hd|]. split; [by apply db_same_data|done].
  - by intros ? ? r mk l [_ ?].
  - by intros ? ? f r mk l [_ ?].
  - by intros ? ? ? ? ? ag r mk l [_ ?].
  - intros. by apply (sled_register_ok (X:=option T)).
  - intros. by apply (sled_register_ok (X:=gmap K V)).
  - intros. by apply sled_register_merging_ok.
  - intros. by apply sled_register_merging_ok.
  - intros. by apply sled_register_merging_ok.
  - intros. by eapply sled_value_get.
  - intros. by eapply sled_value_set.
  - intros. by eapply sled_value_fast_set.
  - intros. by eapply sled_value_clear.
  - intros. by eapply sled_vec_get.
  - intros. by eapply sled_vec_iter.
  - intros. by eapply sled_vec_len.
  - intros. by eapply sled_vec_is_empty.
  - intros. by eapply sled_vec_append.
  - intros. by eapply sled_vec_set.
  - intros. by eapply sled_vec_add_all.
  - intros. by eapply sled_vec_clear.
  - intros. by eapply sled_reducer_get.
  - intros. by eapply sled_reducer_reduce.
  - intros. by eapply sled_reducer_clear.
  - intros. by eapply sled_aggregator_get.
  - intros. by eapply sled_aggregator_aggregate.
  - intros. by eapply sled_aggregator_clear.
Qed.
End sled.
