(* ===== verification/SledBackend.v ===== *)
(** What the sled backend promises, with a concrete database that behaves as sled documents. *)

From S2P Require Import Prelude Error Serialization Files StateBackend Tables ByteStore BackendLaws Restore Sled SledSpec SledCheckpoint.

Section properties.
Context `{BuildProfile, SledCheckpoints} {Db : Type} `{SledLaws Db}.
Implicit Types (b : Sled Db) (fs : Fs).

(** C16: Over a database that behaves as sled documents, every operation of the sled backend, map states
    included, meets the contract that the in-memory backend meets. *)
Theorem sled_implements_backend :
  BackendSpec (Sled Db) ∧
  ∀ K V IK N `{Key K, !MessageLaws K, EqDecision K, !Countable K, Value V, Metakey IK, Metakey N},
    MapSpec (Sled Db) K V IK N.
Proof using All. split; [apply _|]. intros. apply _. Qed.

(** What [create_dir_all] leaves, whether it is called or not. *)
Lemma checkpoint_dirs p b :
  (∀ q c, q ∈ ancestors [] p → disk b !! q ≠ Some (File c)) →
  ∃ fs, (if path_exists p (disk b) then mret tt else on_disk (create_dir_all p)) b
      = (Ok tt, MkSled (db b) (restored b) fs) ∧
    (∀ q, q ∉ ancestors [] p → fs !! q = disk b !! q) ∧
    parent_is_dir (p ++ [Sled.EXPORT_NAME]) fs = true.
Proof using Type.
  intros Hfile. assert (Hin : p ≠ [] → p ∈ ancestors [] p).
  { apply (ancestors_self []). }
  assert (Hparent : ∀ fs, (p ≠ [] → fs !! p = Some Dir) → parent_is_dir (p ++ [Sled.EXPORT_NAME]) fs = true).
  { intros fs Hd. unfold parent_is_dir. rewrite removelast_last. destruct p; [done|].
    by rewrite bool_decide_eq_true_2 by by apply Hd. }
  destruct (path_exists p (disk b)) eqn:He.
  - exists (disk b). split; [by destruct b|]. split; [done|]. apply Hparent. intros Hne.
    unfold path_exists in He. apply bool_decide_eq_true in He as [[|c] Hp]; [done|]. by destruct (Hfile p c (Hin Hne)).
  - destruct (make_dirs_ok (ancestors [] p) (disk b)) as (fs & E & Hfs); [naive_solver|].
    exists fs. split; [by apply on_disk_eq|]. split.
    + intros q Hq. by rewrite Hfs, decide_False.
    + apply Hparent. intros Hne. by rewrite Hfs, decide_True by auto.
Qed.

(** C17: With the feature [sled_checkpoints], a backend that is restored from a checkpoint holds, in every
    tree, what the backend that was checkpointed holds, and says that it was restored.  Without
    it, the checkpoint reports success and the backend restored from it is empty. *)
Theorem sled_restores_checkpoint cp live b :
  let p := path_from cp in
  backend_ok b → export_fits (db_export (db b)) →
  (∀ q c, q ∈ ancestors [] p → disk b !! q ≠ Some (File c)) → disk b !! (p ++ [Sled.EXPORT_NAME]) ≠ Some Dir →
  disk b !! live = None → take (length live) (p ++ [Sled.EXPORT_NAME]) ≠ live → live ∉ ancestors [] p →
  ∃ b' b'' fs, checkpoint cp b = (Ok tt, b') ∧ same_data b b' ∧
    Sled.restore live p (disk b') = (Ok b'', fs) ∧ backend_ok b'' ∧
    was_restored b'' = sled_checkpoints ∧
    ∀ id r, region b id = Some r → ∃ r'', region b'' id = Some r'' ∧
      kv_entries r'' = if sled_checkpoints then kv_entries r else ∅.
Proof using All.
  intros p Hb Hfits Hfile Hdir Hlive Hne Hanc. unfold Sled.restore. rewrite checkpoint_eq. fold p.
  assert (∃ b', (if sled_checkpoints then
      ((if path_exists p (disk b) then mret tt else on_disk (create_dir_all p)) ;;
       on_disk (create_file (p ++ [Sled.EXPORT_NAME])) ;;
       on_disk (write_file (p ++ [Sled.EXPORT_NAME]) (export_enc (db_export (db b)))) ;; mret tt) b
    else (Ok tt, b)) = (Ok tt, b') ∧ db b' = db b ∧ disk b' !! live = None ∧
      (sled_checkpoints = true → disk b' !! (p ++ [Sled.EXPORT_NAME]) = Some (File (export_enc (db_export (db b))))))
    as (b' & E & Hdb & Hlive' & Hf).
  { destruct sled_checkpoints; [|by exists b].
    destruct (checkpoint_dirs p b Hfile) as (fs & E1 & Hfs & Hp). step_ok E1.
    assert (create_file (p ++ [Sled.EXPORT_NAME]) fs = (Ok tt, <[p ++ [Sled.EXPORT_NAME] := File []]> fs)) as E2.
    { unfold create_file. rewrite Hp. destruct (fs !! (p ++ [Sled.EXPORT_NAME])) as [[|c]|] eqn:Ef; [|done..].
      rewrite Hfs in Ef; [done|]. intros Hin%ancestors_length. rewrite length_app in Hin. cbn in Hin. lia. }
    step_ok (on_disk_eq _ (MkSled (db b) (restored b) fs) _ _ E2). eexists. split; [reflexivity|]. cbn. split; [done|]. split.
    - rewrite !lookup_insert_ne; [by rewrite Hfs| |]; intros <-; by rewrite firstn_all in Hne.
    - intros _. by rewrite lookup_insert_eq. }
  exists b'. destruct (sled_open_law Db live (disk b') Hlive') as (d & fs' & Eo & Hd & Hempty & Hsame).
  assert (sled_try (sled_open live) (disk b') = (Ok d, fs')) as Eo' by (unfold sled_try, on_outcome; by rewrite Eo).
  destruct sled_checkpoints.
  - exists (MkSled (db_import (db_export (db b)) d) true fs'), fs'.
    destruct (db_import_law Db (db b) d Hb Hd) as [Hok Himp]; [naive_solver|].
    split; [exact E|]. split; [by apply db_same_data|]. split; [|split; [done|split; [done|]]].
    + step_ok Eo'. unfold open_file. unfold mbind at 1, M_bind at 1. rewrite Hsame, Hf by done.
      unfold lift. rewrite parse_export_enc by done. done.
    + intros id r [_ ->]%sled_region_some. eexists. split; [by apply sled_region_ok|]. apply Himp.
  - exists (MkSled d false fs'), fs'.
    split; [exact E|]. split; [by apply db_same_data|]. split; [|split; [done|split; [done|]]].
    + by step_ok Eo'.
    + intros id r _. eexists. split; [by apply sled_region_ok|]. apply Hempty.
Qed.

(** When the stored value of a reducer does not decode, a reduction reports success, and both the
    stored and the new value are gone: the merge operator logs the error and returns [None], which
    sled takes as the deletion of the key. *)
Theorem sled_failed_merge_deletes {T IK N} `{Value T, Metakey IK, Metakey N} (h : Handle (ReducerState T) IK N)
    b r stored v :
  registered h = true → region b (h_id h) = Some r →
  kv_config r = Some (Sled.make_reducer_merge (extra_data h)) →
  kv_entries r !! metakeys h = Some stored → decode_length_delimited stored = (None : option (T * bytes)) →
  ∃ b', ActiveReducer.reduce h v b = (Ok tt, b') ∧ reads (ActiveReducer.get h) b' None.
Proof using All.
  intros Hreg Hr Hop Hs Hdec. unfold ActiveReducer.reduce, ActiveReducer.get, activate. rewrite Hreg.
  assert (alters (reducer_reduce h v) b (h_id h) (MkKv (partial_alter (λ _, None) (metakeys h) (kv_entries r)) (kv_config r)) tt)
    as (b' & E & Hr' & _).
  { cbn. unfold Sled.reducer_reduce. 
    do 2 (eapply alters_lift_bind; [first [apply serialize_metakeys_ok|apply protobuf_serialize_ok]|]).
    eapply merge_alters; [exact Hr|exact Hop|].
    rewrite Hs. unfold Sled.make_reducer_merge, merge_reduced, chain. cbn [option_list option_rect app try_reduce].
    assert (protobuf_deserialize stored = (Err ProtobufDecodeError : StateResult T)) as ->; [|done].
    unfold protobuf_deserialize. by rewrite Hdec. }
  exists b'. split; [exact E|]. eapply (sled_reducer_get h b' _ None Hr'). split; [exact Hop|].
  unfold entry_rep. cbn. by rewrite lookup_partial_alter_eq.
Qed.
End properties.

(** ** A database in memory *)

Record MemDb : Type := MkMemDb {
  trees : gmap string (gmap bytes bytes);
  operators : gmap string MergeOperator;
}.
Definition mem_tree (d : MemDb) (n : string) : gmap bytes bytes := default ∅ (trees d !! n).
Definition mem_store (n : string) (t : gmap bytes bytes) (d : MemDb) : MemDb :=
  MkMemDb (<[n := t]> (trees d)) (operators d).

Definition export_tree (nt : string * gmap bytes bytes) : bytes * bytes * list (list bytes) :=
  (as_bytes "tree", as_bytes nt.1, (λ kv, [kv.1; kv.2]) <$> map_to_list nt.2).
Definition mem_export (d : MemDb) : SledExport := export_tree <$> map_to_list (trees d).
Definition import_pair (vecs : list bytes) : bytes * bytes :=
  match vecs with [k; v] => (k, v) | _ => ([], []) end.
Definition mem_import (e : SledExport) (d : MemDb) : MemDb :=
  foldr (λ c, mem_store (from_bytes c.1.2) (list_to_map (import_pair <$> c.2))) d e.

Definition mem_merge (t : string) (k v : bytes) : M MemDb unit (option bytes) := λ d,
  match operators d !! t with
  | Some op =>
      match op k (mem_tree d t !! k) v with
      | Ok o => (Ok o, mem_store t (partial_alter (λ _, o) k (mem_tree d t)) d)
      | _ => (Err tt, d)
      end
  | None => (Err tt, d)
  end.

#[local] Instance MemDb_api : SledApi MemDb := {
  Tree := string;
  Batch := list (bytes * option bytes);
  sled_open p fs := (Ok (MkMemDb ∅ ∅), <[p := Dir]> fs);
  open_tree name := mret name;
  tree_get t k := gets (λ d, mem_tree d t !! k);
  tree_insert t k v d := (Ok (mem_tree d t !! k), mem_store t (<[k := v]> (mem_tree d t)) d);
  tree_remove t k d := (Ok (mem_tree d t !! k), mem_store t (delete k (mem_tree d t)) d);
  tree_contains_key t k := gets (λ d, bool_decide (is_Some (mem_tree d t !! k)));
  tree_scan_prefix t prefix := gets (λ d, Ok <$> filter (is_under prefix) (map_to_list (mem_tree d t)));
  tree_merge := mem_merge;
  tree_set_merge_operator t op d := MkMemDb (trees d) (<[t := op]> (operators d));
  tree_apply_batch t batch d :=
    (Ok tt, mem_store t (foldr (λ kv, partial_alter (λ _, kv.2) kv.1) (mem_tree d t) batch) d);
  Batch_default := [];
  batch_insert k v batch := (k, Some v) :: batch;
  batch_remove k batch := (k, None) :: batch;
  db_export := mem_export;
  db_import := mem_import;
}.
#[local] Instance MemDb_view : SledView MemDb := {|
  healthy _ := true;
  tree_name t := t;
  tree_entries := mem_tree;
  tree_operator d n := operators d !! n;
  batch_effect batch r := foldr (λ kv, partial_alter (λ _, kv.2) kv.1) r batch;
|}.

Lemma mem_store_becomes (d : MemDb) n t : becomes d (mem_store n t d) n t (operators d !! n).
Proof.
  split; [done|]. cbn. unfold mem_tree, mem_store. cbn. rewrite lookup_insert_eq.
  do 2 (split; [done|]). intros n' Hne. by rewrite lookup_insert_ne.
Qed.
Lemma mem_import_export (d d0 : MemDb) n :
  (∀ n, mem_tree d0 n = ∅) → mem_tree (mem_import (mem_export d) d0) n = mem_tree d n ∧
  operators (mem_import (mem_export d) d0) !! n = operators d0 !! n.
Proof.
  intros Hempty. unfold mem_export.
  assert (Hi : ∀ l, trees (mem_import (export_tree <$> l) d0) = list_to_map l ∪ trees d0 ∧
    operators (mem_import (export_tree <$> l) d0) = operators d0).
  { induction l as [|[name t] l [IH1 IH2]]; [cbn; by rewrite map_empty_union|].
    change (mem_import (export_tree <$> (name, t) :: l) d0) with
      (mem_store (from_bytes (as_bytes name)) (list_to_map (import_pair <$> ((λ kv, [kv.1; kv.2]) <$> map_to_list t)))
        (mem_import (export_tree <$> l) d0)).
    cbn [trees operators mem_store list_to_map foldr uncurry]. split; [|done].
    rewrite IH1, from_as_bytes, <- list_fmap_compose, <- insert_union_l. f_equal. cbn.
    rewrite (list_fmap_ext _ id (map_to_list t)) by (by intros ? [] ?). by rewrite list_fmap_id, list_to_map_to_list. }
  destruct (Hi (map_to_list (trees d))) as [H1 ->]. split; [|done].
  unfold mem_tree in *. rewrite H1, list_to_map_to_list, lookup_union.
  specialize (Hempty n). destruct (trees d !! n), (trees d0 !! n); cbn in *; done.
Qed.

#[local] Instance MemDb_laws : SledLaws MemDb.
Proof.
  split; try (intros; cbn; eexists; split; [reflexivity|]; by first [apply mem_store_becomes|split]).
  - intros d name _. exists name, d. by repeat split.
  - intros d t prefix _. eexists _, d. split; [reflexivity|]. by repeat split.
  - intros d t k v op o _ r Hop Ho. cbn in t. exists o, (mem_store t (partial_alter (λ _, o) k (mem_tree d t)) d).
    split; [|rewrite <- Hop; apply mem_store_becomes]. cbn in Hop, Ho. change (mem_merge t k v d = (Ok o, mem_store t (partial_alter (λ _, o) k (mem_tree d t)) d)).
    unfold mem_merge. destruct (operators d !! t) as [op'|]; [|done]. injection Hop as ->.
    destruct (op k (mem_tree d t !! k) v); [by injection Ho as ->|done..].
  - intros d t op _. split; [done|]. cbn. split; [done|]. rewrite lookup_insert_eq.
    split; [done|]. intros n' Hne. by rewrite lookup_insert_ne.
  - done.
  - done.
  - done.
  - intros p fs Hp. eexists _, _. split; [reflexivity|]. split; [done|]. split.
    + intros n. unfold tree_entries, tree_operator. cbn. unfold mem_tree. cbn. by rewrite !lookup_empty.
    + intros q Hq. rewrite lookup_insert_ne; [done|]. intros <-. by rewrite firstn_all in Hq.
  - intros d d0 _ _ Hempty. split; [done|]. intros n. by apply mem_import_export.
Qed.

(** ** Concrete inputs *)

#[local] Instance debug_profile : BuildProfile := true.
#[local] Instance with_checkpoints : SledCheckpoints := true.

Example sled_implements_backend_witness :
  BackendSpec (Sled MemDb) ∧
  ∀ K V IK N `{Key K, !MessageLaws K, EqDecision K, !Countable K, Value V, Metakey IK, Metakey N},
    MapSpec (Sled MemDb) K V IK N.
Proof. exact (sled_implements_backend (Db:=MemDb)). Defined.

Definition example_sled : Sled MemDb :=
  MkSled (MkMemDb {["state"%string := {[ [1; 2] := [3] ]}]} ∅) false ∅.
Example sled_restores_checkpoint_witness :
  ∃ b' b'' fs, checkpoint "cp/checkpoint_a_1" example_sled = (Ok tt, b') ∧
    Sled.restore ["live"] ["cp"; "checkpoint_a_1"] (disk b') = (Ok b'', fs) ∧
    was_restored b'' = true ∧
    ∃ r'', region b'' "state" = Some r'' ∧ kv_entries r'' = {[ [1; 2] := [3] ]}.
Proof.
  destruct (sled_restores_checkpoint "cp/checkpoint_a_1" ["live"] example_sled)
    as (b' & b'' & fs & E1 & _ & E2 & _ & Hrestored & Hdata).
  - done.
  - assert (db_export (db example_sled) = [(as_bytes "tree", as_bytes "state", [[[1; 2]; [3]]])]) as -> by by vm_compute.
    split; [done|]. intros c ->%list_elem_of_singleton. split; [done|]. split; [done|]. split; [done|].
    intros vecs ->%list_elem_of_singleton. split; [done|]. intros vec [->|[->|[]%not_elem_of_nil]%elem_of_cons]%elem_of_cons; done.
  - intros q c _. cbn. by rewrite lookup_empty.
  - done.
  - done.
  - done.
  - by apply (bool_decide_unpack _).
  - exists b', b'', fs. split; [exact E1|]. split; [exact E2|]. split; [exact Hrestored|].
    destruct (Hdata "state"%string (MkKv {[ [1; 2] := [3] ]} None)) as (r'' & Hr & He); [by vm_compute|].
    exists r''. split; [exact Hr|exact He].
Defined.

#[local] Instance sled_u64 : Value u64 := countable_Value 1.
Definition summing : Handle (ReducerState u64) unit unit :=
  set_registered (reducer_handle "sum" (λ x y, UInt (uint_val x + uint_val y))).
Example sled_failed_merge_deletes_witness :
  ∃ b', ActiveReducer.reduce summing (UInt 5)
      (MkSled (MkMemDb {["sum"%string := {[ [] := [7] ]}]}
        {["sum"%string := Sled.make_reducer_merge (extra_data summing)]}) false ∅) = (Ok tt, b') ∧
    reads (ActiveReducer.get summing) b' None.
Proof. by eapply (sled_failed_merge_deletes summing _ _ [7] (UInt 5 : u64)). Defined.
