(* ===== verification/Rocks.v ===== *)
(** [arcon_state/src/rocks]: the backend over the database RocksDB. *)

From S2P Require Import Prelude Error Serialization Files StateBackend Tables ByteStore Restore.

(** ** The crate rocksdb

    What the code uses of it.  A column family is a named part of the database with options of its
    own; [MergeFn] is the shape of a merge operator: the key, the stored operand if there is one, and
    the operands to merge.  An error of the crate carries a text. *)
Definition MergeFn : Type := bytes → option bytes → list bytes → StateResult (option bytes).

Class RocksApi (Db : Type) : Type := {
  Options : Type;
  Options_default : Options;
  create_if_missing : bool → Options → Options;
  set_prefix_extractor : nat → Options → Options;
  set_merge_operator_associative : string → MergeFn → Options → Options;
  WriteOptions : Type;
  WriteOptions_default : WriteOptions;
  disable_wal : bool → WriteOptions → WriteOptions;
  ColumnFamily : Type;
  cf_handle : string → Db → option ColumnFamily;
  get_pinned_cf : ColumnFamily → bytes → M Db string (option bytes);
  put_cf_opt : ColumnFamily → bytes → bytes → WriteOptions → M Db string unit;
  delete_cf_opt : ColumnFamily → bytes → WriteOptions → M Db string unit;
  merge_cf_opt : ColumnFamily → bytes → bytes → WriteOptions → M Db string unit;
  prefix_iterator_cf : ColumnFamily → bytes → M Db string (list (bytes * bytes));
  drop_cf : string → M Db string unit;
  create_cf : string → Options → M Db string unit;
  WriteBatch : Type;
  WriteBatch_default : WriteBatch;
  wb_put_cf : ColumnFamily → bytes → bytes → WriteBatch → outcome string WriteBatch;
  wb_delete_range_cf : ColumnFamily → bytes → bytes → WriteBatch → outcome string WriteBatch;
  write_opt : WriteBatch → WriteOptions → M Db string unit;
  flush : M Db string unit;
  Checkpoint : Type;
  Checkpoint_new : Db → outcome string Checkpoint;
  create_checkpoint : Checkpoint → path → M Fs string unit;
  list_cf : Options → path → M Fs string (list string);
  open_cf_descriptors : Options → path → list (string * Options) → M Fs string Db;
}.

(** ** The backend ([mod.rs])

    [rdisk] is the file system that the backend reads and writes. *)
Section types.
Context (Db : Type) `{RocksApi Db}.

Record InitializedRocksDb : Type := MkInitialized { rdb : Db; options : gmap string Options }.
Inductive Inner : Type :=
| Initialized (i : InitializedRocksDb)
| Uninitialized (unknown_cfs : gset string) (known_cfs : gmap string Options).
Record Rocks : Type := MkRocks { inner : Inner; rpath : path; rrestored : bool; rdisk : Fs }.
End types.
Arguments MkInitialized {Db _}.
Arguments rdb {Db _}.
Arguments options {Db _}.
Arguments Initialized {Db _}.
Arguments Uninitialized {Db _}.
Arguments MkRocks {Db _}.
Arguments inner {Db _}.
Arguments rpath {Db _}.
Arguments rrestored {Db _}.
Arguments rdisk {Db _}.
Arguments Rocks Db {_}.
Arguments InitializedRocksDb Db {_}.

(** [impl From<rocksdb::Error> for ArconStateError], applied by [?]. *)
Definition rocks_try {S A : Type} (m : M S string A) : M S ArconStateError A :=
  on_outcome (map_err (λ _, RocksError)) m.

Module Rocks.
Section initialized.
Context `{BuildProfile} {Db : Type} `{RocksApi Db}.
Abbreviation InitM := (M (InitializedRocksDb Db) ArconStateError).

Definition default_write_opts : WriteOptions := disable_wal true WriteOptions_default.

Definition on_rdb {A : Type} (m : M Db string A) : InitM A :=
  zoom rdb (λ d i, MkInitialized d (options i)) (rocks_try m).

Definition get_cf_handle (cf_name : string) : InitM ColumnFamily := λ i,
  (ok_or (RocksMissingColumnFamily cf_name) (cf_handle cf_name (rdb i)), i).
Definition i_get (cf_name : string) (key : bytes) : InitM (option bytes) :=
  cf ← get_cf_handle cf_name;
  on_rdb (get_pinned_cf cf key).
Definition i_put (cf_name : string) (key value : bytes) : InitM unit :=
  cf ← get_cf_handle cf_name;
  on_rdb (put_cf_opt cf key value default_write_opts).
Definition i_remove (cf_name : string) (key : bytes) : InitM unit :=
  cf ← get_cf_handle cf_name;
  on_rdb (delete_cf_opt cf key default_write_opts).

(** [*end.last_mut().expect(..) += 1] on a vector of [u8]s. *)
Fixpoint increment_last (l : bytes) : StateResult bytes :=
  match l with
  | [] => Panic "unreachable, the empty case is covered a few lines above"
  | [x] => x ← u_add 8 x 1; Ok [x]
  | x :: l' => l' ← increment_last l'; Ok (x :: l')
  end.
Definition i_remove_prefix (cf_name : string) (prefix : bytes) : InitM unit :=
  match prefix with
  | [] =>
      cf_opts ← (λ i, (ok_or (RocksMissingOptions cf_name) (options i !! cf_name), i));
      on_rdb (drop_cf cf_name) ;;
      on_rdb (create_cf cf_name cf_opts)
  | _ =>
      cf ← get_cf_handle cf_name;
      end_ ← lift (increment_last prefix);
      wb ← lift (map_err (λ _, RocksError) (wb_delete_range_cf cf prefix end_ WriteBatch_default));
      on_rdb (write_opt wb default_write_opts)
  end.
Definition i_contains (cf_name : string) (key : bytes) : InitM bool :=
  cf ← get_cf_handle cf_name;
  found ← on_rdb (get_pinned_cf cf key);
  mret (bool_decide (is_Some found)).
Definition create_column_family_if_doesnt_exist (cf_name : string) (opts : Options) : InitM unit :=
  handle ← gets (λ i, cf_handle cf_name (rdb i));
  match handle with
  | Some _ => mret tt
  | None =>
      on_rdb (create_cf cf_name opts) ;;
      modify (λ i, MkInitialized (rdb i) (<[cf_name := opts]> (options i)))
  end.
(** A merge, as the operations of vectors, reducers and aggregators call it. *)
Definition i_merge (cf_name : string) (key value : bytes) : InitM unit :=
  cf ← get_cf_handle cf_name;
  on_rdb (merge_cf_opt cf key value default_write_opts).

(** [initialized] and [initialized_mut]: the database, once every column family is known. *)
Definition initialized {A : Type} (m : InitM A) : StateM (Rocks Db) A := λ b,
  match inner b with
  | Initialized i => let '(o, i') := m i in (o, MkRocks (Initialized i') (rpath b) (rrestored b) (rdisk b))
  | Uninitialized unknown_cfs _ => (Err (RocksUninitialized (elements unknown_cfs)), b)
  end.

Definition get (cf_name : string) (key : bytes) : StateM (Rocks Db) (option bytes) :=
  initialized (i_get cf_name key).
Definition put (cf_name : string) (key value : bytes) : StateM (Rocks Db) unit :=
  initialized (i_put cf_name key value).
Definition remove (cf_name : string) (key : bytes) : StateM (Rocks Db) unit :=
  initialized (i_remove cf_name key).
Definition remove_prefix (cf_name : string) (prefix : bytes) : StateM (Rocks Db) unit :=
  initialized (i_remove_prefix cf_name prefix).
Definition contains (cf_name : string) (key : bytes) : StateM (Rocks Db) bool :=
  initialized (i_contains cf_name key).

Definition on_rdisk {A : Type} (m : M Fs ArconStateError A) : StateM (Rocks Db) A :=
  zoom rdisk (λ fs b, MkRocks (inner b) (rpath b) (rrestored b) fs) m.
Definition set_inner (i : Inner Db) : StateM (Rocks Db) unit :=
  modify (λ b, MkRocks i (rpath b) (rrestored b) (rdisk b)).

(** The known column families are taken out of the backend before the database is opened. *)
Definition initialize : StateM (Rocks Db) unit :=
  inner_ ← gets inner;
  match inner_ with
  | Initialized _ => panic "assertion failed: !self.is_initialized()"
  | Uninitialized unknown_cfs known_cfs =>
      (if decide (unknown_cfs = ∅) then mret tt else panic "assertion failed: no_unknown_cfs") ;;
      set_inner (Uninitialized unknown_cfs ∅) ;;
      p ← gets rpath;
      let whole_db_opts := create_if_missing true Options_default in
      let cfds := map_to_list known_cfs in
      db ← on_rdisk (rocks_try (open_cf_descriptors whole_db_opts p cfds));
      set_inner (Initialized (MkInitialized db (list_to_map cfds)))
  end.
Definition create_column_family (cf_name : string) (opts : Options) : StateM (Rocks Db) unit :=
  inner_ ← gets inner;
  match inner_ with
  | Initialized _ => initialized (create_column_family_if_doesnt_exist cf_name opts)
  | Uninitialized unknown_cfs known_cfs =>
      if decide (is_Some (known_cfs !! cf_name)) then mret tt
      else
        let unknown_cfs := unknown_cfs ∖ {[cf_name]} in
        set_inner (Uninitialized unknown_cfs (<[cf_name := opts]> known_cfs)) ;;
        if decide (unknown_cfs = ∅) then initialize else mret tt
  end.
End initialized.

(** [common_options]: the prefix of a key is its metakeys. *)
Section options.
Context {Db : Type} `{RocksApi Db} {S : StateType} {IK N : Type} `{FixedBytes IK, FixedBytes N}.
Definition common_options (h : Handle S IK N) : Options :=
  set_prefix_extractor (fb_SIZE IK + fb_SIZE N)%nat Options_default.
End options.

(** ** Value operations ([value_ops.rs]) *)
Section value_ops.
Context {Db T IK N : Type} `{RocksApi Db, Value T, FixedBytes IK, FixedBytes N}.
Implicit Type h : Handle (ValueState T) IK N.

Definition value_clear h : StateM (Rocks Db) unit :=
  key ← lift (serialize_metakeys h);
  remove (h_id h) key ;; mret tt.
Definition value_get h : StateM (Rocks Db) (option T) :=
  key ← lift (serialize_metakeys h);
  found ← get (h_id h) key;
  match found with
  | Some serialized => value ← lift (protobuf_deserialize serialized); mret (Some value)
  | None => mret None
  end.
(** [if let Some(serialized) = self.get(..)? { Some(protobuf::deserialize(&serialized)?) } else { None }] *)
Definition decode_old {A} `{Message A} (found : option bytes) : StateResult (option A) :=
  match found with
  | Some serialized => value ← protobuf_deserialize serialized; Ok (Some value)
  | None => Ok None
  end.
Definition value_set h (value : T) : StateM (Rocks Db) (option T) :=
  key ← lift (serialize_metakeys h);
  found ← get (h_id h) key;
  old ← lift (decode_old found);
  serialized ← lift (protobuf_serialize value);
  put (h_id h) key serialized ;; mret old.
Definition value_fast_set h (value : T) : StateM (Rocks Db) unit :=
  key ← lift (serialize_metakeys h);
  serialized ← lift (protobuf_serialize value);
  put (h_id h) key serialized ;; mret tt.
End value_ops.

(** ** Map operations ([map_ops.rs]) *)
Section map_ops.
Context `{BuildProfile} {Db K V IK N : Type} `{RocksApi Db, Key K, Value V, FixedBytes IK, FixedBytes N}.
Implicit Type h : Handle (MapState K V) IK N.

Definition map_clear h : StateM (Rocks Db) unit :=
  prefix ← lift (serialize_metakeys h);
  remove_prefix (h_id h) prefix.
Definition map_get h (key : K) : StateM (Rocks Db) (option V) :=
  key ← lift (serialize_metakeys_and_key h key);
  found ← get (h_id h) key;
  match found with
  | Some serialized => value ← lift (protobuf_deserialize serialized); mret (Some value)
  | None => mret None
  end.
Definition map_fast_insert h (key : K) (value : V) : StateM (Rocks Db) unit :=
  key ← lift (serialize_metakeys_and_key h key);
  serialized ← lift (protobuf_serialize value);
  put (h_id h) key serialized ;; mret tt.
Definition map_insert h (key : K) (value : V) : StateM (Rocks Db) (option V) :=
  key ← lift (serialize_metakeys_and_key h key);
  found ← get (h_id h) key;
  old ← lift (decode_old found);
  serialized ← lift (protobuf_serialize value);
  put (h_id h) key serialized ;; mret old.
Fixpoint batch_putting h (cf : ColumnFamily) (key_value_pairs : list (K * V)) (wb : WriteBatch)
  : StateResult WriteBatch :=
  match key_value_pairs with
  | [] => Ok wb
  | (user_key, value) :: pairs =>
      key ← serialize_metakeys_and_key h user_key;
      serialized ← protobuf_serialize value;
      wb ← map_err (λ _, RocksError) (wb_put_cf cf key serialized wb);
      batch_putting h cf pairs wb
  end.
Definition map_insert_all h (key_value_pairs : list (K * V)) : StateM (Rocks Db) unit :=
  initialized (
    cf ← get_cf_handle (h_id h);
    wb ← lift (batch_putting h cf key_value_pairs WriteBatch_default);
    on_rdb (write_opt wb default_write_opts)).
Definition map_remove h (key : K) : StateM (Rocks Db) (option V) :=
  key ← lift (serialize_metakeys_and_key h key);
  found ← get (h_id h) key;
  old ← lift (decode_old found);
  remove (h_id h) key ;; mret old.
Definition map_fast_remove h (key : K) : StateM (Rocks Db) unit :=
  key ← lift (serialize_metakeys_and_key h key);
  remove (h_id h) key ;; mret tt.
Definition map_contains h (key : K) : StateM (Rocks Db) bool :=
  key ← lift (serialize_metakeys_and_key h key);
  contains (h_id h) key.

(** The entries under the metakeys, and the decoding of a key, whose metakeys are dropped. *)
Definition prefix_entries h : StateM (Rocks Db) (list (bytes * bytes)) :=
  initialized (
    prefix ← lift (serialize_metakeys h);
    cf ← get_cf_handle (h_id h);
    on_rdb (prefix_iterator_cf cf prefix)).
Definition decode_key (db_key : bytes) : StateResult K :=
  ik ← (deserialize_from db_key : StateResult (IK * bytes));
  ns ← (deserialize_from ik.2 : StateResult (N * bytes));
  fst <$> protobuf_deserialize_from ns.2.
Definition map_iter h : StateM (Rocks Db) (list (StateResult (K * V))) :=
  entries ← prefix_entries h;
  mret ((λ entry, key ← decode_key entry.1; value ← protobuf_deserialize entry.2; Ok (key, value)) <$> entries).
Definition map_keys h : StateM (Rocks Db) (list (StateResult K)) :=
  entries ← prefix_entries h; mret ((λ entry, decode_key entry.1) <$> entries).
Definition map_values h : StateM (Rocks Db) (list (StateResult V)) :=
  entries ← prefix_entries h; mret ((λ entry, protobuf_deserialize entry.2) <$> entries).
Definition map_len h : StateM (Rocks Db) Z := entries ← prefix_entries h; mret (len entries).
Definition map_is_empty h : StateM (Rocks Db) bool :=
  entries ← prefix_entries h; mret (bool_decide (entries = [])).
End map_ops.

(** ** Vector operations and their merge operator ([vec_ops.rs]) *)
Section vec_ops.
Context `{BuildProfile} {Db T IK N : Type} `{RocksApi Db, Value T, FixedBytes IK, FixedBytes N}.
Implicit Type h : Handle (VecState T) IK N.

Definition vec_merge : MergeFn := λ _ first rest, merge_vecs (chain first rest).

Definition vec_clear h : StateM (Rocks Db) unit :=
  key ← lift (serialize_metakeys h);
  remove (h_id h) key ;; mret tt.
Definition vec_append h (value : T) : StateM (Rocks Db) unit :=
  initialized (
    key ← lift (serialize_metakeys h);
    serialized ← lift (encode_one value);
    i_merge (h_id h) key serialized).
Definition vec_get h : StateM (Rocks Db) (list T) :=
  key ← lift (serialize_metakeys h);
  found ← get (h_id h) key;
  match found with
  | Some serialized => lift (decode_vec serialized)
  | None => mret []
  end.
Definition vec_iter h : StateM (Rocks Db) (list (StateResult T)) :=
  key ← lift (serialize_metakeys h);
  found ← get (h_id h) key;
  match found with
  | Some serialized => lift (decode_iter serialized)
  | None => mret []
  end.
Definition vec_set h (value : list T) : StateM (Rocks Db) unit :=
  key ← lift (serialize_metakeys h);
  storage ← lift (encode_vec value);
  put (h_id h) key storage.
Definition vec_add_all h (values : list T) : StateM (Rocks Db) unit :=
  initialized (
    key ← lift (serialize_metakeys h);
    serialized ← lift (encode_counted values);
    i_merge (h_id h) key serialized ;; mret tt).
(** A non-empty entry of less than eight bytes is a bug and panics. *)
Definition checked_len (storage : bytes) : StateResult Z :=
  if bool_decide (storage ≠ [] ∧ (length storage < 8)%nat) then Panic "vec stored with partial size?"
  else decode_len storage.
Definition vec_len h : StateM (Rocks Db) Z :=
  key ← lift (serialize_metakeys h);
  found ← get (h_id h) key;
  match found with
  | Some storage => lift (checked_len storage)
  | None => mret 0
  end.
Definition vec_is_empty h : StateM (Rocks Db) bool :=
  n ← vec_len h; mret (bool_decide (n = 0)).
End vec_ops.

(** ** Reducers and aggregators ([reducer_ops.rs], [aggregator_ops.rs]) *)
Section reducer_ops.
Context {Db T IK N : Type} `{RocksApi Db, Value T, FixedBytes IK, FixedBytes N}.
Implicit Type h : Handle (ReducerState T) IK N.

Definition make_reducer_merge (reduce_fn : Reducer T) : MergeFn := λ _ first rest,
  merge_reduced reduce_fn (chain first rest).

Definition reducer_clear h : StateM (Rocks Db) unit :=
  key ← lift (serialize_metakeys h);
  remove (h_id h) key ;; mret tt.
Definition reducer_get h : StateM (Rocks Db) (option T) :=
  key ← lift (serialize_metakeys h);
  found ← get (h_id h) key;
  match found with
  | Some storage => value ← lift (protobuf_deserialize storage); mret (Some value)
  | None => mret None
  end.
Definition reducer_reduce h (value : T) : StateM (Rocks Db) unit :=
  initialized (
    key ← lift (serialize_metakeys h);
    serialized ← lift (protobuf_serialize value);
    i_merge (h_id h) key serialized).
End reducer_ops.

Section aggregator_ops.
Context {Db Inp A R IK N : Type} `{RocksApi Db, Value Inp, Value A, FixedBytes IK, FixedBytes N}.
Implicit Type h : Handle (AggregatorState Inp A R) IK N.

Definition make_aggregator_merge (aggregator : Aggregator Inp A R) : MergeFn := λ _ first rest,
  merge_aggregated aggregator (chain first rest).

Definition aggregator_clear h : StateM (Rocks Db) unit :=
  key ← lift (serialize_metakeys h);
  remove (h_id h) key ;; mret tt.
Definition aggregator_get h : StateM (Rocks Db) R :=
  key ← lift (serialize_metakeys h);
  found ← get (h_id h) key;
  match found with
  | Some serialized =>
      current_accumulator ← lift (decode_accumulator serialized);
      lift (accumulator_into_result (extra_data h) current_accumulator)
  | None => lift (accumulator_into_result (extra_data h) (create_accumulator (extra_data h)))
  end.
Definition aggregator_aggregate h (value : Inp) : StateM (Rocks Db) unit :=
  initialized (
    key ← lift (serialize_metakeys h);
    serialized ← lift (encode_value value);
    i_merge (h_id h) key serialized).
End aggregator_ops.

(** ** Constructors, checkpoints and registration ([mod.rs]) *)
Section backend.
Context {Db : Type} `{RocksApi Db}.

(** What [list_cf] finds at a path; a path without a database has no column families. *)
Definition existing_column_families (listed : outcome string (list string)) : StateResult (gset string) :=
  match listed with
  | Ok cfs => Ok (list_to_set (filter (λ n, n ≠ "default") cfs))
  | Err e => if contains_str e "No such file or directory" then Ok ∅ else Err RocksError
  | Panic msg => Panic msg
  | Diverge => Diverge
  end.
Definition create (path_ : path) : M Fs ArconStateError (Rocks Db) :=
  let opts := create_if_missing true Options_default in
  exists_ ← gets (path_exists path_);
  (if (exists_ : bool) then mret tt else create_dir_all path_) ;;
  path_ ← on_outcome (map_err (λ _, InvalidPath (path_display path_))) (canonicalize path_);
  column_families ← on_outcome existing_column_families (list_cf opts path_);
  inner_ ← (if decide (column_families ≠ (∅ : gset string)) then
      mret (Uninitialized column_families {["default" := Options_default]})
    else
      let cfds := [("default", Options_default)] in
      db ← rocks_try (open_cf_descriptors opts path_ cfds);
      mret (Initialized (MkInitialized db (list_to_map cfds))));
  fs ← get_st;
  mret (MkRocks inner_ path_ false fs).

Definition copy_entry (live_path checkpoint_path : path) (entry : string * FsNode) : M Fs ArconStateError unit :=
  match entry.2 with
  | Dir => panic "assertion failed: entry.file_type().is_file()"
  | File _ => copy_file (checkpoint_path ++ [entry.1]) (live_path ++ [entry.1])
  end.
Definition restore (live_path checkpoint_path : path) : M Fs ArconStateError (Rocks Db) :=
  create_dir_all live_path ;;
  live ← read_dir live_path;
  match live with
  | [] =>
      entries ← read_dir checkpoint_path;
      for_each (copy_entry live_path checkpoint_path) entries ;;
      r ← create live_path;
      mret (MkRocks (inner r) (rpath r) true (rdisk r))
  | _ => lift (Err (RocksRestoreDirNotEmpty (path_display live_path)))
  end.

Definition checkpoint (checkpoint_path : string) : StateM (Rocks Db) unit :=
  let p := path_from checkpoint_path in
  initialized (on_rdb flush) ;;
  checkpointer ← initialized (λ i, (map_err (λ _, RocksError) (Checkpoint_new (rdb i)), i));
  exists_ ← gets (λ b, path_exists p (rdisk b));
  (if (exists_ : bool) then on_rdisk (remove_dir_all p) else mret tt) ;;
  on_rdisk (rocks_try (create_checkpoint checkpointer p)).

(** What the registrations share; the states that are merged set the operator of their column family. *)
Definition register {S IK N} (h : Handle S IK N) (opts : Options) : StateM (Rocks Db) (Handle S IK N) :=
  on_outcome (expect_ok "Could not create column family") (create_column_family (h_id h) opts) ;;
  mret (set_registered h).

Section handles.
Context `{BuildProfile} {IK N : Type} `{FixedBytes IK, FixedBytes N}.
Definition register_value {T} (h : Handle (ValueState T) IK N) := register h (common_options h).
Definition register_map {K V} (h : Handle (MapState K V) IK N) := register h (common_options h).
Definition register_vec {T} (h : Handle (VecState T) IK N) :=
  register h (set_merge_operator_associative "vec_merge" vec_merge (common_options h)).
Definition register_reducer {T} `{Value T} (h : Handle (ReducerState T) IK N) :=
  register h (set_merge_operator_associative "reducer_merge" (make_reducer_merge (extra_data h)) (common_options h)).
Definition register_aggregator {Inp A R} `{Value Inp, Value A} (h : Handle (AggregatorState Inp A R) IK N) :=
  register h (set_merge_operator_associative "aggregator_merge" (make_aggregator_merge (extra_data h)) (common_options h)).
End handles.
End backend.
End Rocks.

Section instances.
Context `{BuildProfile} {Db : Type} `{RocksApi Db}.

#[export] Instance Rocks_ValueOps : ValueOps (Rocks Db) := {
  value_clear _ _ _ _ _ _ := Rocks.value_clear;
  value_get _ _ _ _ _ _ := Rocks.value_get;
  value_set _ _ _ _ _ _ := Rocks.value_set;
  value_fast_set _ _ _ _ _ _ := Rocks.value_fast_set;
}.
#[export] Instance Rocks_MapOps : MapOps (Rocks Db) := {
  map_clear _ _ _ _ _ _ _ _ := Rocks.map_clear;
  map_get _ _ _ _ _ _ _ _ := Rocks.map_get;
  map_fast_insert _ _ _ _ _ _ _ _ := Rocks.map_fast_insert;
  map_insert _ _ _ _ _ _ _ _ := Rocks.map_insert;
  map_insert_all _ _ _ _ _ _ _ _ := Rocks.map_insert_all;
  map_remove _ _ _ _ _ _ _ _ := Rocks.map_remove;
  map_fast_remove _ _ _ _ _ _ _ _ := Rocks.map_fast_remove;
  map_contains _ _ _ _ _ _ _ _ := Rocks.map_contains;
  map_iter _ _ _ _ _ _ _ _ := Rocks.map_iter;
  map_keys _ _ _ _ _ _ _ _ := Rocks.map_keys;
  map_values _ _ _ _ _ _ _ _ := Rocks.map_values;
  map_len _ _ _ _ _ _ _ _ := Rocks.map_len;
  map_is_empty _ _ _ _ _ _ _ _ := Rocks.map_is_empty;
}.
#[export] Instance Rocks_VecOps : VecOps (Rocks Db) := {
  vec_clear _ _ _ _ _ _ := Rocks.vec_clear;
  vec_append _ _ _ _ _ _ := Rocks.vec_append;
  vec_get _ _ _ _ _ _ := Rocks.vec_get;
  vec_iter _ _ _ _ _ _ := Rocks.vec_iter;
  vec_set _ _ _ _ _ _ := Rocks.vec_set;
  vec_add_all _ _ _ _ _ _ := Rocks.vec_add_all;
  vec_len _ _ _ _ _ _ := Rocks.vec_len;
  vec_is_empty _ _ _ _ _ _ := Rocks.vec_is_empty;
}.
#[export] Instance Rocks_ReducerOps : ReducerOps (Rocks Db) := {
  reducer_clear _ _ _ _ _ _ := Rocks.reducer_clear;
  reducer_get _ _ _ _ _ _ := Rocks.reducer_get;
  reducer_reduce _ _ _ _ _ _ := Rocks.reducer_reduce;
}.
#[export] Instance Rocks_AggregatorOps : AggregatorOps (Rocks Db) := {
  aggregator_clear _ _ _ _ _ _ _ _ _ := Rocks.aggregator_clear;
  aggregator_get _ _ _ _ _ _ _ _ _ := Rocks.aggregator_get;
  aggregator_aggregate _ _ _ _ _ _ _ _ _ := Rocks.aggregator_aggregate;
}.
#[export] Instance Rocks_Backend : Backend (Rocks Db) := {
  was_restored := rrestored;
  checkpoint := Rocks.checkpoint;
  start_session b := b;
  session_drop_hook := None;
  register_value_handle _ _ _ _ _ _ := Rocks.register_value;
  register_map_handle _ _ _ _ _ _ _ _ := Rocks.register_map;
  register_vec_handle _ _ _ _ _ _ := Rocks.register_vec;
  register_reducer_handle _ _ _ _ _ _ := Rocks.register_reducer;
  register_aggregator_handle _ _ _ _ _ _ _ _ _ := Rocks.register_aggregator;
}.
#[export] Instance Rocks_ctor : BackendCtor (Rocks Db) := {
  create := Rocks.create;
  restore := Rocks.restore;
}.
End instances.
