(* ===== verification/RocksSpec.v ===== *)
(** The RocksDB backend implements the backend interface, for every database that behaves as the crate
    rocksdb documents, with the reducers and aggregators whose merges may be grouped. *)

From S2P Require Import Prelude Error Serialization Files StateBackend Tables ByteStore Restore Rocks.

(** ** Grouping

    RocksDB merges lazily: operands are merged with each other ([first] is [None]) before they are merged
    with the stored value, in groups of its choice.  A merge operator allows that when merging in
    steps is merging at once, and a merge that succeeds also succeeds, with the same result, after
    any of its operands have been merged with each other. *)
Definition groups (f : MergeFn) : Prop :=
  (∀ key first ops1 ops2 v, ops1 ≠ [] → ops2 ≠ [] → f key first ops1 = Ok (Some v) →
    f key (Some v) ops2 = f key first (ops1 ++ ops2)) ∧
  (∀ key first ops1 ops2 ops3 v, ops2 ≠ [] → f key first (ops1 ++ ops2 ++ ops3) = Ok (Some v) →
    ∃ op, f key None ops2 = Ok (Some op) ∧ f key first (ops1 ++ op :: ops3) = Ok (Some v)).

(** The order of keys, and the keys of a range. *)
Fixpoint lex_lt (k1 k2 : bytes) : bool :=
  match k1, k2 with
  | _, [] => false
  | [], _ :: _ => true
  | x :: k1', y :: k2' => (x <? y) || ((x =? y) && lex_lt k1' k2')
  end.
Definition in_range (start end_ key : bytes) : bool := negb (lex_lt key start) && lex_lt key end_.

(** ** Documented behaviour of RocksDB

    A database that reports no I/O error ([healthy]) is a collection of named column families, each a
    map from byte strings to byte strings with the options it was opened or created with. *)
Section laws.
Context (Db : Type) `{RocksApi Db}.

Class RocksView : Type := {
  healthy : Db → bool;
  cf_name : ColumnFamily → string;
  column_family : Db → string → option (KvRegion Options);
  prefix_of : Options → option nat;
  operator_of : Options → option MergeFn;
  wb_effect : WriteBatch → string → gmap bytes bytes → gmap bytes bytes;
}.
Context `{RocksView}.

Definition keeps (d d' : Db) : Prop :=
  healthy d' = true ∧ ∀ n, column_family d' n = column_family d n.
Definition becomes (d d' : Db) (n : string) (r : option (KvRegion Options)) : Prop :=
  healthy d' = true ∧ column_family d' n = r ∧ ∀ n', n' ≠ n → column_family d' n' = column_family d n'.
Class RocksLaws : Prop := {
  prefix_default : prefix_of Options_default = None;
  prefix_set n o : prefix_of (set_prefix_extractor n o) = Some n;
  prefix_set_merge name f o : prefix_of (set_merge_operator_associative name f o) = prefix_of o;
  operator_set name f o : operator_of (set_merge_operator_associative name f o) = Some f;
  cf_handle_law d n : healthy d = true →
    match cf_handle n d with
    | Some cf => cf_name cf = n ∧ is_Some (column_family d n)
    | None => column_family d n = None
    end;
  get_pinned_law d cf r k : healthy d = true → column_family d (cf_name cf) = Some r →
    ∃ d', get_pinned_cf cf k d = (Ok (kv_entries r !! k), d') ∧ keeps d d';
  put_law d cf r k v o : healthy d = true → column_family d (cf_name cf) = Some r →
    ∃ d', put_cf_opt cf k v o d = (Ok tt, d') ∧
      becomes d d' (cf_name cf) (Some (MkKv (<[k := v]> (kv_entries r)) (kv_config r)));
  delete_law d cf r k o : healthy d = true → column_family d (cf_name cf) = Some r →
    ∃ d', delete_cf_opt cf k o d = (Ok tt, d') ∧
      becomes d d' (cf_name cf) (Some (MkKv (delete k (kv_entries r)) (kv_config r)));
  merge_law d cf r k v o f x : healthy d = true → column_family d (cf_name cf) = Some r →
    operator_of (kv_config r) = Some f → groups f → f k (kv_entries r !! k) [v] = Ok (Some x) →
    ∃ d', merge_cf_opt cf k v o d = (Ok tt, d') ∧
      becomes d d' (cf_name cf) (Some (MkKv (<[k := x]> (kv_entries r)) (kv_config r)));
  (** Iteration by prefix needs a prefix extractor of the same size, and keys that it applies to. *)
  prefix_iterator_law d cf r prefix : healthy d = true → column_family d (cf_name cf) = Some r →
    prefix_of (kv_config r) = Some (length prefix) → long_keys prefix (map_to_list (kv_entries r)) →
    ∃ l d', prefix_iterator_cf cf prefix d = (Ok l, d') ∧ keeps d d' ∧
      l ≡ₚ filter (is_under prefix) (map_to_list (kv_entries r));
  (** The default column family is always there and cannot be dropped. *)
  default_cf d : healthy d = true → is_Some (column_family d "default");
  drop_cf_law d n : healthy d = true → n ≠ "default" → is_Some (column_family d n) →
    ∃ d', drop_cf n d = (Ok tt, d') ∧ becomes d d' n None;
  create_cf_law d n o : healthy d = true → column_family d n = None →
    ∃ d', create_cf n o d = (Ok tt, d') ∧ becomes d d' n (Some (MkKv ∅ o));
  WriteBatch_default_law n t : wb_effect WriteBatch_default n t = t;
  wb_put_law cf k v wb : ∃ wb', wb_put_cf cf k v wb = Ok wb' ∧ ∀ n t,
    wb_effect wb' n t = if decide (n = cf_name cf) then <[k := v]> (wb_effect wb n t) else wb_effect wb n t;
  wb_delete_range_law cf start end_ wb : lex_lt start end_ = true →
    ∃ wb', wb_delete_range_cf cf start end_ wb = Ok wb' ∧
      (∀ n t, n ≠ cf_name cf → wb_effect wb' n t = wb_effect wb n t) ∧
      ∀ t k, wb_effect wb' (cf_name cf) t !! k =
        if in_range start end_ k then None else wb_effect wb (cf_name cf) t !! k;
  (** A batch on the column families that exist is written at once. *)
  write_law d wb o : healthy d = true →
    (∀ n t, column_family d n = None → wb_effect wb n t = t) →
    ∃ d', write_opt wb o d = (Ok tt, d') ∧ healthy d' = true ∧ ∀ n,
      column_family d' n = (λ r, MkKv (wb_effect wb n (kv_entries r)) (kv_config r)) <$> column_family d n;
  flush_law d : healthy d = true → ∃ d', flush d = (Ok tt, d') ∧ keeps d d';
  Checkpoint_law d : healthy d = true → ∃ c, Checkpoint_new d = Ok c;
  create_checkpoint_outcome c p fs : ∃ o fs', create_checkpoint c p fs = (o, fs') ∧ (o = Ok tt ∨ ∃ e, o = Err e);
}.
End laws.
Arguments keeps {Db _ _} d d'.
Arguments becomes {Db _ _} d d' n r.
Arguments healthy {Db _ _}.
Arguments cf_name {Db _ _}.
Arguments column_family {Db _ _}.
Arguments prefix_of {Db _ _}.
Arguments operator_of {Db _ _}.
Arguments wb_effect {Db _ _}.

(** The range from a prefix to its successor holds the keys under the prefix. *)
Lemma lex_lt_irrefl k : lex_lt k k = false.
Proof. induction k as [|x k IH]; [done|]. cbn. by rewrite Z.ltb_irrefl, Z.eqb_refl, IH. Qed.
Lemma in_range_prefix q x key :
  in_range (q ++ [x]) (q ++ [x + 1]) key = bool_decide (take (length (q ++ [x])) key = q ++ [x]).
Proof.
  revert key. induction q as [|y q IH]; intros [|z key]; unfold in_range in *; cbn; try by rewrite ?bool_decide_eq_false_2.
  - rewrite take_0. destruct (Z.ltb_spec z x), (Z.eqb_spec z x), (Z.ltb_spec z (x + 1)), (Z.eqb_spec z (x + 1));
      subst; try lia; cbn; rewrite ?bool_decide_eq_true_2 by done; rewrite ?bool_decide_eq_false_2 by (naive_solver lia);
      by destruct key.
  - specialize (IH key). destruct (Z.ltb_spec z y), (Z.eqb_spec z y); subst; try lia; cbn.
    + rewrite bool_decide_eq_false_2; [done|intros [= -> _]; lia].
    + rewrite IH. apply bool_decide_ext. split; [by intros ->|by intros [= ->]].
    + rewrite bool_decide_eq_false_2; [done|intros [= -> _]; lia].
Qed.
Lemma increment_last_ok `{BuildProfile} q x :
  in_u 8 (x + 1) → Rocks.increment_last (q ++ [x]) = Ok (q ++ [x + 1]).
Proof.
  intros Hx. induction q as [|y q IH]; cbn [Rocks.increment_last app].
  - by rewrite u_add_ok.
  - destruct (q ++ [x]) eqn:E; [by destruct q|]. rewrite <- E in *. by rewrite IH.
Qed.
Lemma lex_lt_successor q x : lex_lt (q ++ [x]) (q ++ [x + 1]) = true.
Proof.
  induction q as [|y q IH]; cbn; [by rewrite (proj2 (Z.ltb_lt _ _)) by lia|]. by rewrite Z.ltb_irrefl, Z.eqb_refl.
Qed.

Section rocks.
Context `{BuildProfile} {Db : Type} `{RocksLaws Db}.
Implicit Types (b : Rocks Db) (d : Db).

(** ** The representation

    The configuration of a region is the options of the column family, and those that the backend
    remembers to create it again: none for the default one, which cannot be dropped. *)
Abbreviation Config := (Options * option Options)%type.

Definition rocks_ok b : Prop :=
  match inner b with Initialized i => healthy (rdb i) = true | Uninitialized _ _ => False end.
Definition remembered (i : InitializedRocksDb Db) (id : string) : option Options :=
  if decide (id = "default") then None else options i !! id.
Definition region_of (i : InitializedRocksDb Db) (id : string) : option (KvRegion Config) :=
  (λ r, MkKv (kv_entries r) (kv_config r, remembered i id)) <$> column_family (rdb i) id.
Definition rocks_region b (id : string) : option (KvRegion Config) :=
  match inner b with
  | Initialized i => if healthy (rdb i) then region_of i id else None
  | Uninitialized _ _ => None
  end.

Definition merges_with (f : MergeFn) (c : Config) : Prop := operator_of c.1 = Some f ∧ groups f.
(** The entries of a map are found by their prefix, the metakeys, and the column family can be created
    again. *)
Definition map_rep {K V} `{Key K, !MessageLaws K, EqDecision K, !Countable K, Value V}
    (r : KvRegion Config) (mk : bytes) (m : gmap K V) : Prop :=
  (∃ o, kv_config r = (o, Some o) ∧ prefix_of o = Some (length mk)) ∧
  entries_rep (K:=K) (ld (T:=V)) (kv_entries r) mk m.

(** The aggregators whose partial results may be merged. *)
Definition merges_partially {Inp A R} (ag : Aggregator Inp A R) : Prop :=
  (∀ x v, merge_accumulators ag x (agg_add ag (create_accumulator ag) v) = Ok (agg_add ag x v)) ∧
  (∀ x y z v, merge_accumulators ag x y = Ok z →
    merge_accumulators ag x (agg_add ag y v) = Ok (agg_add ag z v)) ∧
  (∀ x1 x2 x3 x12 x, merge_accumulators ag x1 x2 = Ok x12 → merge_accumulators ag x12 x3 = Ok x →
    ∃ x23, merge_accumulators ag x2 x3 = Ok x23 ∧ merge_accumulators ag x1 x23 = Ok x).

#[export] Instance Rocks_BackendRep : BackendRep (Rocks Db) := {|
  backend_ok := rocks_ok;
  Region := KvRegion Config;
  region := rocks_region;
  ValRep T _ := configured (λ _, True) (entry_rep ld);
  MapRep K V _ _ _ _ _ := map_rep (K:=K) (V:=V);
  VecRep T _ := configured (merges_with Rocks.vec_merge) vec_bytes;
  RedRep T _ f := configured (merges_with (Rocks.make_reducer_merge f)) (entry_rep ld);
  AggRep Inp A R _ _ ag := configured (merges_with (Rocks.make_aggregator_merge ag)) (entry_rep acc_enc);
  VecStored T _ := configured (merges_with Rocks.vec_merge) vec_bytes;
  RedStored T _ f := configured (merges_with (Rocks.make_reducer_merge f)) (entry_rep ld);
  AggStored Inp A R _ _ ag := configured (merges_with (Rocks.make_aggregator_merge ag)) (entry_rep acc_enc);
  red_ok T f := ∀ x y z : T, f (f x y) z = f x (f y z);
  agg_ok Inp A R := merges_partially;
|}.

(** ** Running the operations on the initialised database *)

Definition initialize_with b (i : InitializedRocksDb Db) : Rocks Db :=
  MkRocks (Initialized i) (rpath b) (rrestored b) (rdisk b).
Lemma rocks_region_some b id r :
  region b id = Some r → ∃ i r', inner b = Initialized i ∧ healthy (rdb i) = true ∧
    column_family (rdb i) id = Some r' ∧ r = MkKv (kv_entries r') (kv_config r', remembered i id).
Proof using Type.
  cbn. unfold rocks_region, region_of. destruct (inner b) as [i|]; [|done].
  destruct (healthy (rdb i)) eqn:Hh; [|done]. intros (r' & E & ->)%fmap_Some. by exists i, r'.
Qed.
Lemma region_initialized b i id :
  inner b = Initialized i → healthy (rdb i) = true → region b id = region_of i id.
Proof using Type. intros Hi Hh. cbn. unfold rocks_region. by rewrite Hi, Hh. Qed.

Lemma initialized_lift {A A'} (o : StateResult A) (k : A → M (InitializedRocksDb Db) ArconStateError A') b a :
  o = Ok a → Rocks.initialized (lift o ≫= k) b = Rocks.initialized (k a) b.
Proof using Type. by intros ->. Qed.
Lemma initialized_run {A} (m : M (InitializedRocksDb Db) ArconStateError A) b i o i' :
  inner b = Initialized i → m i = (o, i') → Rocks.initialized m b = (o, initialize_with b i').
Proof using Type. intros Hi E. unfold Rocks.initialized. by rewrite Hi, E. Qed.
Lemma reads_initialized_lift {A A'} (o : StateResult A) (k : A → M (InitializedRocksDb Db) ArconStateError A') b a a' :
  o = Ok a → reads (Rocks.initialized (k a)) b a' → reads (Rocks.initialized (lift o ≫= k)) b a'.
Proof using Type. intros Ho Hk. unfold reads. by rewrite (initialized_lift _ _ _ _ Ho). Qed.
Lemma alters_initialized_lift {A A'} (o : StateResult A) (k : A → M (InitializedRocksDb Db) ArconStateError A') b id r a a' :
  o = Ok a → alters (Rocks.initialized (k a)) b id r a' → alters (Rocks.initialized (lift o ≫= k)) b id r a'.
Proof using Type. intros Ho Hk. unfold alters. by rewrite (initialized_lift _ _ _ _ Ho). Qed.
Lemma initialized_ret {A A'} (m : M (InitializedRocksDb Db) ArconStateError A) b id r a (a' : A') :
  alters (Rocks.initialized m) b id r a → alters (Rocks.initialized (m ≫= λ _, mret a')) b id r a'.
Proof using Type.
  intros (b' & E & Hu). exists b'. split; [|done]. unfold Rocks.initialized in *. destruct (inner b) as [i|]; [|done].
  unfold mbind, M_bind. destruct (m i) as [[] i']; by simplify_eq.
Qed.

(** A call on the column family of a region: what it needs, and what a step of it means. *)
Section calls.
Context b (id : string) (r : KvRegion Config) (Hr : region b id = Some r).

Lemma initialized_cf : ∃ i cf r', inner b = Initialized i ∧ healthy (rdb i) = true ∧ cf_name cf = id ∧
  column_family (rdb i) id = Some r' ∧ r = MkKv (kv_entries r') (kv_config r', remembered i id) ∧
  ∀ A (k : ColumnFamily → M (InitializedRocksDb Db) ArconStateError A),
    Rocks.initialized (Rocks.get_cf_handle id ≫= k) b = Rocks.initialized (k cf) b.
Proof using All.
  destruct (rocks_region_some _ _ _ Hr) as (i & r' & Hi & Hh & Hc & ->).
  pose proof (cf_handle_law Db (rdb i) id Hh) as Hcf.
  destruct (cf_handle id (rdb i)) as [cf|] eqn:E; [|congruence]. destruct Hcf as [Hn _].
  exists i, cf, r'. repeat (split; [done|]). intros A k. unfold Rocks.initialized. rewrite Hi.
  unfold mbind, M_bind, Rocks.get_cf_handle. by rewrite E.
Qed.

Lemma on_rdb_run {A} (m : M Db string A) i a d' :
  inner b = Initialized i → m (rdb i) = (Ok a, d') →
  Rocks.initialized (Rocks.on_rdb m) b = (Ok a, initialize_with b (MkInitialized d' (options i))).
Proof using Type.
  intros Hi E. apply (initialized_run _ _ _ _ _ Hi). unfold Rocks.on_rdb, zoom, rocks_try, on_outcome. by rewrite E.
Qed.
Lemma rocks_keeps_data i d' :
  inner b = Initialized i → healthy (rdb i) = true → keeps (rdb i) d' →
  same_data b (initialize_with b (MkInitialized d' (options i))).
Proof using Type.
  intros Hi Hh [Hh' Hk] n. rewrite (region_initialized b i) by done. erewrite region_initialized by done.
  unfold region_of. by rewrite Hk.
Qed.
Lemma rocks_becomes_updates i d' r' :
  inner b = Initialized i → healthy (rdb i) = true → becomes (rdb i) d' id (Some r') →
  updates b (initialize_with b (MkInitialized d' (options i))) id (MkKv (kv_entries r') (kv_config r', remembered i id)).
Proof using Type.
  intros Hi Hh (Hh' & Hc & Hk). split.
  - erewrite region_initialized by done. unfold region_of. cbn [rdb options]. by rewrite Hc.
  - intros n Hne. rewrite (region_initialized b i) by done. erewrite region_initialized by done.
    unfold region_of. cbn [rdb options]. by rewrite Hk.
Qed.

(** A step that uses the handle and reads, or that uses it and changes the entries. *)
Lemma cf_reads {A} (m : ColumnFamily → M Db string A) a :
  (∀ d cf r', healthy d = true → cf_name cf = id → column_family d (cf_name cf) = Some r' → kv_entries r' = kv_entries r →
    kv_config r' = (kv_config r).1 → ∃ d', m cf d = (Ok a, d') ∧ keeps d d') →
  reads (Rocks.initialized (cf ← Rocks.get_cf_handle id; Rocks.on_rdb (m cf))) b a.
Proof using All.
  intros Hm. destruct initialized_cf as (i & cf & r' & Hi & Hh & Hn & Hc & Hrr & Hk).
  destruct (Hm (rdb i) cf r') as (d' & E & Hkeep); [done..|by rewrite Hn|by rewrite Hrr|by rewrite Hrr|].
  eexists. rewrite Hk. split; [by apply on_rdb_run|by apply rocks_keeps_data].
Qed.
Lemma cf_alters {A} (m : ColumnFamily → M Db string A) a t :
  (∀ d cf r', healthy d = true → cf_name cf = id → column_family d (cf_name cf) = Some r' → kv_entries r' = kv_entries r →
    kv_config r' = (kv_config r).1 →
    ∃ d', m cf d = (Ok a, d') ∧ becomes d d' (cf_name cf) (Some (MkKv t (kv_config r')))) →
  alters (Rocks.initialized (cf ← Rocks.get_cf_handle id; Rocks.on_rdb (m cf))) b id (MkKv t (kv_config r)) a.
Proof using All.
  intros Hm. destruct initialized_cf as (i & cf & r' & Hi & Hh & Hn & Hc & Hrr & Hk).
  destruct (Hm (rdb i) cf r') as (d' & E & Hbec); [done..|by rewrite Hn|by rewrite Hrr|by rewrite Hrr|].
  eexists. rewrite Hk. split; [by apply on_rdb_run|]. rewrite Hrr. cbn [kv_config]. rewrite Hn in Hbec.
  by apply (rocks_becomes_updates i d' _ Hi Hh Hbec).
Qed.

Lemma rocks_get_reads key : reads (Rocks.get id key) b (kv_entries r !! key).
Proof using All. apply cf_reads. intros d cf r' Hh _ Hc <- _. by apply get_pinned_law. Qed.
Lemma rocks_contains_reads key : reads (Rocks.contains id key) b (bool_decide (is_Some (kv_entries r !! key))).
Proof using All.
  destruct initialized_cf as (i & cf & r' & Hi & Hh & Hn & Hc & Hrr & Hk). rewrite Hrr. cbn [kv_entries].
  destruct (get_pinned_law Db (rdb i) cf r' key Hh) as (d' & E & Hkeep); [by rewrite Hn|].
  exists (initialize_with b (MkInitialized d' (options i))). split; [|by apply rocks_keeps_data].
  unfold Rocks.contains, Rocks.i_contains. rewrite Hk. eapply initialized_run; [done|].
  erewrite bind_ok; [done|]. unfold Rocks.on_rdb, zoom, rocks_try, on_outcome. by rewrite E.
Qed.
Lemma rocks_put_alters key v :
  alters (Rocks.put id key v) b id (MkKv (<[key := v]> (kv_entries r)) (kv_config r)) tt.
Proof using All. apply cf_alters. intros d cf r' Hh _ Hc <- _. by apply put_law. Qed.
Lemma rocks_remove_alters key :
  alters (Rocks.remove id key) b id (MkKv (delete key (kv_entries r)) (kv_config r)) tt.
Proof using All. apply cf_alters. intros d cf r' Hh _ Hc <- _. by apply delete_law. Qed.
Lemma rocks_merge_alters f key v x :
  merges_with f (kv_config r) → f key (kv_entries r !! key) [v] = Ok (Some x) →
  alters (Rocks.initialized (Rocks.i_merge id key v)) b id (MkKv (<[key := x]> (kv_entries r)) (kv_config r)) tt.
Proof using All.
  intros [Hop Hg] Hf. apply cf_alters. intros d cf r' Hh _ Hc He Hcfg. rewrite <- He in *.
  apply (merge_law Db d cf r' key v _ f x); [done|done| |done|done]. by rewrite Hcfg.
Qed.
Lemma prefix_reads prefix (o : Options) :
  (kv_config r).1 = o → prefix_of o = Some (length prefix) → long_keys prefix (map_to_list (kv_entries r)) →
  ∃ l, l ≡ₚ filter (is_under prefix) (map_to_list (kv_entries r)) ∧
    reads (Rocks.initialized (cf ← Rocks.get_cf_handle id; Rocks.on_rdb (prefix_iterator_cf cf prefix))) b l.
Proof using All.
  intros Ho Hp Hlong. destruct initialized_cf as (i & cf & r' & Hi & Hh & Hn & Hc & Hrr & Hk).
  rewrite Hrr in Ho, Hlong |- *. cbn in Ho. subst o.
  destruct (prefix_iterator_law Db (rdb i) cf r' prefix Hh) as (l & d' & E & Hkeep & Hl);
    [by rewrite Hn|done..|].
  exists l. split; [done|]. eexists. rewrite Hk. split; [by apply on_rdb_run|by apply rocks_keeps_data].
Qed.

(** Steps with the handle that write a batch on the column family. *)
Lemma with_cf_alters {A} (k : ColumnFamily → M (InitializedRocksDb Db) ArconStateError A) id' r' a :
  (∀ cf, cf_name cf = id → alters (Rocks.initialized (k cf)) b id' r' a) →
  alters (Rocks.initialized (Rocks.get_cf_handle id ≫= k)) b id' r' a.
Proof using All.
  intros Hcf. destruct initialized_cf as (i & cf & r'' & _ & _ & Hn & _ & _ & Hk). unfold alters. rewrite Hk.
  by apply Hcf.
Qed.
Lemma write_alters wb t o :
  (∀ n t', n ≠ id → wb_effect wb n t' = t') → wb_effect wb id (kv_entries r) = t →
  alters (Rocks.initialized (Rocks.on_rdb (write_opt wb o))) b id (MkKv t (kv_config r)) tt.
Proof using All.
  intros Hother Ht. destruct initialized_cf as (i & cf & r' & Hi & Hh & Hn & Hc & Hrr & Hk).
  destruct (write_law Db (rdb i) wb o Hh) as (d' & E & Hh' & Hcf').
  { intros n t' Hnone. apply Hother. congruence. }
  eexists. split; [by apply on_rdb_run|]. rewrite Hrr. cbn [kv_config].
  apply (rocks_becomes_updates i d' (MkKv t (kv_config r')) Hi Hh). split; [done|]. rewrite Hcf', Hc. cbn.
  rewrite Hrr in Ht. cbn in Ht. split; [by rewrite Ht|]. intros n Hne. rewrite Hcf'.
  destruct (column_family (rdb i) n) as [[e c]|]; [|done]. cbn. by rewrite Hother.
Qed.

(** The range from the prefix to its successor is deleted, or everything if the prefix is empty. *)
Lemma remove_prefix_alters prefix q x :
  prefix = q ++ [x] → in_u 8 (x + 1) →
  ∃ t : gmap bytes bytes, (∀ key, t !! key = if decide (take (length prefix) key = prefix) then None else kv_entries r !! key) ∧
    alters (Rocks.remove_prefix id prefix) b id (MkKv t (kv_config r)) tt.
Proof using All.
  intros Hp Hx. assert (∃ t : gmap bytes bytes, ∀ key, t !! key =
    if decide (take (length prefix) key = prefix) then None else kv_entries r !! key) as [t Ht].
  { exists (filter (λ kv, ¬ is_under prefix kv) (kv_entries r)). intros key. rewrite map_lookup_filter.
    unfold is_under. cbn. destruct (kv_entries r !! key); cbn; repeat case_decide; try done; case_guard; naive_solver. }
  exists t. split; [done|]. unfold Rocks.remove_prefix, Rocks.i_remove_prefix.
  destruct prefix as [|y prefix'] eqn:E; [by destruct q|]. rewrite <- E in *.
  apply with_cf_alters. intros cf Hcf. rewrite Hp in Ht |- *.
  eapply alters_initialized_lift; [by apply increment_last_ok|].
  destruct (wb_delete_range_law Db cf (q ++ [x]) (q ++ [x + 1]) WriteBatch_default) as (wb & Ewb & Hother & Hwb).
  { apply lex_lt_successor. }
  eapply alters_initialized_lift; [by rewrite Ewb|]. rewrite Hcf in *. apply write_alters.
  - intros n t' Hne. rewrite Hother by done. apply (WriteBatch_default_law Db).
  - apply map_eq. intros key. rewrite Hwb, in_range_prefix, Ht, (WriteBatch_default_law Db).
    case_decide; [by rewrite bool_decide_eq_true_2|by rewrite bool_decide_eq_false_2].
Qed.
Lemma remove_all_alters o :
  kv_config r = (o, Some o) →
  alters (Rocks.remove_prefix id []) b id (MkKv ∅ (kv_config r)) tt.
Proof using All.
  intros Ho. destruct initialized_cf as (i & cf & r' & Hi & Hh & Hn & Hc & Hrr & Hk).
  rewrite Hrr in Ho |- *. cbn in Ho |- *. injection Ho as Ho1 Ho2.
  assert (id ≠ "default" ∧ options i !! id = Some o) as [Hid Hopt] by (unfold remembered in Ho2; by case_decide).
  destruct (drop_cf_law Db (rdb i) id Hh) as (d1 & E1 & Hh1 & Hc1 & Hk1); [done|by rewrite Hc|].
  destruct (create_cf_law Db d1 id o Hh1 Hc1) as (d2 & E2 & Hh2 & Hc2 & Hk2).
  exists (initialize_with b (MkInitialized d2 (options i))). split.
  - eapply initialized_run; [done|]. unfold Rocks.i_remove_prefix, mbind, M_bind. rewrite Hopt. cbn [ok_or].
    unfold Rocks.on_rdb, zoom, rocks_try, on_outcome. rewrite E1. cbn [map_err].
    cbn [rdb]. by rewrite E2.
  - rewrite Ho1. apply (rocks_becomes_updates i d2 (MkKv ∅ o) Hi Hh). split; [done|]. split; [done|].
    intros n Hne. by rewrite Hk2, Hk1.
Qed.
End calls.
End rocks.
