(* ===== verification/RocksGroups.v ===== *)
(** The merge operators of the RocksDB backend: their operands may be merged in groups. *)

From S2P Require Import Prelude Error Serialization StateBackend ByteStore Rocks RocksSpec.

(** ** Vectors *)
Section vec.
Context `{BuildProfile}.

Lemma merge_operands_app result n ops1 ops2 :
  merge_operands result n (ops1 ++ ops2) =
    (merged ← merge_operands result n ops1;
     match merged with Some (result, n) => merge_operands result n ops2 | None => Ok None end).
Proof.
  revert result n. induction ops1 as [|op ops1 IH]; intros result n; [done|]. cbn [app merge_operands].
  destruct (deserialize_from op) as [p| | |]; cbn [or_none]; [|done..].
  destruct (u_add 64 n _); cbn [mbind outcome_bind]; [apply IH|done..].
Qed.
Lemma merge_operands_prefix x result n ops :
  merge_operands (x ++ result) n ops =
    (merged ← merge_operands result n ops;
     Ok (option_map (λ p : bytes * Z, (x ++ p.1, p.2)) merged) : StateResult (option (bytes * Z))).
Proof.
  revert result n. induction ops as [|op ops IH]; intros result n; [done|]. cbn [merge_operands].
  destruct (deserialize_from op) as [p| | |]; cbn [or_none]; [|done..].
  destruct (u_add 64 n _); cbn [mbind outcome_bind]; [by rewrite <- (assoc_L (++)), IH|done..].
Qed.
Definition stored (p : bytes * Z) : bytes := to_le_bytes 8 p.2 ++ p.1.
Lemma merge_vecs_eq ops :
  merge_vecs ops = (merged ← merge_operands [] 0 ops; Ok (option_map stored merged) : StateResult (option bytes)).
Proof.
  unfold merge_vecs. rewrite usize_into_vec by (simpl; lia). cbn [or_none app].
  rewrite <- (app_nil_r (to_le_bytes 8 0)) at 1. rewrite merge_operands_prefix.
  destruct (merge_operands [] 0 ops) as [[[q k]|]| | |]; cbn [mbind outcome_bind fmap option_fmap option_map fst snd]; try done.
  pose proof (usize_fill k 0 q) as Hf.
  destruct (serialize_into _ _); cbn [mbind outcome_bind or_none] in *; [|done..]. by injection Hf as ->.
Qed.
Lemma merge_vecs_some ops v :
  merge_vecs ops = Ok (Some v) ↔ ∃ p, merge_operands [] 0 ops = Ok (Some p) ∧ v = stored p.
Proof.
  rewrite merge_vecs_eq. destruct (merge_operands [] 0 ops) as [[p|]| | |]; cbn; naive_solver.
Qed.
Lemma uint_from_range (op rest : bytes) (x : usize) : deserialize_from op = Ok (x, rest) → in_u 64 (uint_val x).
Proof.
  unfold deserialize_from. cbn [fb_deserialize_from FixedBytes_uint]. unfold int_deserialize_from.
  destruct (_ <=? _) eqn:El; [|done]. cbn [copy_to_slice remaining Buf_slice] in *. intros [= <- _]. cbn.
  pose proof (from_le_bytes_range (take 8 op)) as Hr. rewrite length_take in Hr.
  apply Z.leb_le in El. replace (Z.of_nat (8 `min` length op)) with 8 in Hr by lia. exact Hr.
Qed.
Lemma merge_operands_range result n ops q k :
  in_u 64 n → merge_operands result n ops = Ok (Some (q, k)) → in_u 64 k.
Proof.
  revert result n. induction ops as [|op ops IH]; intros result n Hn; cbn [merge_operands]; [by intros [= <- <-]|].
  destruct (deserialize_from op) as [p| | |]; cbn [or_none]; [|done..].
  destruct (u_add 64 n _) as [n'| | |] eqn:Ea; cbn [mbind outcome_bind]; [|done..]. apply IH. by eapply u_add_range.
Qed.

(** Starting from the part [x'] with the length [j] rather than from all that was merged so far. *)
Lemma merge_operands_part x n x' j n' ops q k :
  in_u 64 n → in_u 64 j → u_add 64 n j = (Ok n' : StateResult Z) → merge_operands (x ++ x') n' ops = Ok (Some (q, k)) →
  ∃ q' k', merge_operands x' j ops = Ok (Some (q', k')) ∧ q = x ++ q' ∧ u_add 64 n k' = (Ok k : StateResult Z).
Proof.
  intros Hn. revert x' j n'. induction ops as [|op ops IH]; intros x' j n' Hj Ej; cbn [merge_operands].
  { intros [= <- <-]. by exists x', j. }
  destruct (deserialize_from op) as [[c y]| | |] eqn:Ed; cbn [or_none fst snd]; [|done..].
  apply uint_from_range in Ed. destruct (u_add 64 n' (uint_val c)) as [n''| | |] eqn:Ec; cbn [mbind outcome_bind]; [|done..].
  unfold in_u in *. destruct (u_add_assoc (E:=ArconStateError) 64 n j (uint_val c) n' n'') as (j' & Ej' & En); [lia..|done|done|].
  rewrite Ej'. cbn [mbind outcome_bind]. rewrite <- (assoc_L (++)). intros E.
  eapply IH; [|exact En|exact E]. by eapply u_add_range; [|exact Ej'].
Qed.

Lemma merge_operands_stored p ops :
  in_u 64 p.2 → merge_operands [] 0 (stored p :: ops) = merge_operands p.1 p.2 ops.
Proof.
  intros Hp. cbn [merge_operands]. unfold stored. rewrite usize_from_slice by exact Hp. cbn [or_none fst snd uint_val].
  rewrite u_add_ok by exact Hp. done.
Qed.
Lemma stored_step x n p ops n' :
  in_u 64 p.2 → u_add 64 n p.2 = (Ok n' : StateResult Z) →
  merge_operands x n (stored p :: ops) = merge_operands (x ++ p.1) n' ops.
Proof.
  intros Hp E. cbn [merge_operands]. unfold stored. rewrite usize_from_slice by exact Hp. cbn [or_none fst snd uint_val].
  by rewrite E.
Qed.

Lemma vec_merge_groups : groups Rocks.vec_merge.
Proof.
  assert (in_u 64 0) as H0 by done. split; unfold Rocks.vec_merge.
  - intros _ first ops1 ops2 v Hne1 _ ([q k] & Ep & ->)%merge_vecs_some.
    rewrite chain_app, !merge_vecs_eq, merge_operands_app, Ep. cbn [mbind outcome_bind]. change (chain (Some _) ops2) with (stored (q, k) :: ops2).
    rewrite merge_operands_stored; [done|]. by eapply merge_operands_range; [|exact Ep].
  - intros _ first ops1 ops2 ops3 v _.
    rewrite chain_app. intros (p & Ep & ->)%merge_vecs_some. rewrite merge_operands_app in Ep.
    destruct (merge_operands [] 0 (chain first ops1)) as [[[x n]|]| | |] eqn:E1; cbn [mbind outcome_bind] in Ep; try done.
    rewrite merge_operands_app in Ep. destruct (merge_operands x n ops2) as [[[y m]|]| | |] eqn:E2; cbn [mbind outcome_bind] in Ep; try done.
    assert (in_u 64 n) as Hn by by eapply merge_operands_range; [|exact E1].
    destruct (merge_operands_part x n [] 0 n ops2 y m) as (q & k & Eq & -> & Ek); [done|done| |by rewrite app_nil_r|].
    { by rewrite u_add_ok, Z.add_0_r by by rewrite Z.add_0_r. }
    assert (in_u 64 k) as Hk by by eapply merge_operands_range; [|exact Eq].
    exists (stored (q, k)). split; [apply merge_vecs_some; by exists (q, k)|].
    apply merge_vecs_some. exists p. split; [|done]. rewrite chain_app, merge_operands_app, E1. cbn [mbind outcome_bind].
    by rewrite (stored_step x n (q, k) ops3 m).
Qed.
End vec.

(** ** Reducers *)
Section reducer.
Context {T : Type} `{Value T} (f : Reducer T).

Lemma try_reduce_app acc ops1 ops2 :
  try_reduce f acc (ops1 ++ ops2) = (acc ← try_reduce f acc ops1; try_reduce f acc ops2).
Proof using Type.
  revert acc. induction ops1 as [|op ops1 IH]; intros acc; [done|]. cbn [app try_reduce].
  destruct (protobuf_deserialize op); cbn [mbind outcome_bind]; [apply IH|done..].
Qed.
Lemma merge_reduced_some ops v :
  merge_reduced f ops = Ok (Some v) ↔ ∃ x, try_reduce f None ops = Ok (Some x) ∧ v = ld x.
Proof using Type.
  unfold merge_reduced. destruct (try_reduce f None ops) as [[x|]| | |]; cbn [or_none]; [|naive_solver..].
  rewrite protobuf_serialize_ok. cbn. naive_solver.
Qed.
Lemma try_reduce_is_some x ops y : try_reduce f (Some x) ops = Ok y → is_Some y.
Proof using Type.
  revert x. induction ops as [|op ops IH]; intros x; cbn [try_reduce]; [by intros [= <-]|].
  destruct (protobuf_deserialize op); cbn [mbind outcome_bind]; [apply IH|done..].
Qed.

Context (Hassoc : ∀ x y z, f (f x y) z = f x (f y z)).

Lemma try_reduce_part x u ops y :
  try_reduce f (Some (f x u)) ops = Ok (Some y) → ∃ p, try_reduce f (Some u) ops = Ok (Some p) ∧ f x p = y.
Proof using Hassoc.
  revert u. induction ops as [|op ops IH]; intros u; cbn [try_reduce]; [intros [= <-]; eauto|].
  destruct (protobuf_deserialize op); cbn [mbind outcome_bind]; [|done..]. rewrite Hassoc. apply IH.
Qed.

Lemma reducer_merge_groups : groups (Rocks.make_reducer_merge f).
Proof using Hassoc.
  split; unfold Rocks.make_reducer_merge.
  - intros _ first ops1 ops2 v _ _ (x & Ex & ->)%merge_reduced_some. rewrite chain_app. unfold merge_reduced.
    rewrite try_reduce_app, Ex. cbn [mbind outcome_bind]. change (chain (Some _) ops2) with (ld x :: ops2).
    cbn [try_reduce]. by rewrite protobuf_deserialize_ok.
  - intros _ first ops1 ops2 ops3 v Hne. rewrite chain_app. intros (y & Ey & ->)%merge_reduced_some.
    rewrite try_reduce_app in Ey. destruct (try_reduce f None (chain first ops1)) as [acc| | |] eqn:E1; cbn [mbind outcome_bind] in Ey; [|done..].
    rewrite try_reduce_app in Ey. destruct ops2 as [|op ops2]; [done|]. cbn [try_reduce] in Ey.
    destruct (protobuf_deserialize op) as [u| | |] eqn:Eu; cbn [mbind outcome_bind] in Ey; [|done..].
    assert (∃ p, try_reduce f None (op :: ops2) = Ok (Some p) ∧
      try_reduce f (Some match acc with Some x => f x p | None => p end) ops3 = Ok (Some y)) as (p & Ep & E3).
    { cbn [try_reduce]. rewrite Eu. cbn [mbind outcome_bind]. destruct (try_reduce f (Some _) ops2) as [z| | |] eqn:E2; cbn [mbind outcome_bind] in Ey; [|done..].
      destruct (try_reduce_is_some _ _ _ E2) as [z' ->]. destruct acc as [x|]; [|eauto].
      apply try_reduce_part in E2 as (p & ? & <-). eauto. }
    exists (ld p). split; [apply merge_reduced_some; eauto|]. apply merge_reduced_some. exists y. split; [|done].
    rewrite chain_app, try_reduce_app, E1. cbn [mbind outcome_bind try_reduce]. rewrite protobuf_deserialize_ok. exact E3.
Qed.
End reducer.

(** ** Aggregators *)
Section aggregator.
Context {Inp A R : Type} `{Value Inp, Value A} (ag : Aggregator Inp A R).

Lemma merge_slices_app x ops1 ops2 :
  merge_slices ag x (ops1 ++ ops2) =
    (merged ← merge_slices ag x ops1; match merged with Some y => merge_slices ag y ops2 | None => Ok None end).
Proof using Type.
  revert x. induction ops1 as [|[|marker op] ops1 IH]; intros x; [done..|]. cbn [app merge_slices].
  repeat case_match; try done.
  - destruct (protobuf_deserialize op); cbn [or_none]; [|done..]. destruct (merge_accumulators _ _ _); cbn [mbind outcome_bind]; [apply IH|done..].
  - destruct (protobuf_deserialize op); cbn [or_none]; [apply IH|done..].
Qed.
Lemma merge_aggregated_some ops v :
  merge_aggregated ag ops = Ok (Some v) ↔ ∃ x y, first_accumulator ag (head ops) = Ok (Some x) ∧
    merge_slices ag x (tail ops) = Ok (Some y) ∧ v = acc_enc y.
Proof using Type.
  unfold merge_aggregated. destruct (first_accumulator ag (head ops)) as [[x|]| | |]; cbn [mbind outcome_bind]; [|naive_solver..].
  destruct (merge_slices ag x (tail ops)) as [[y|]| | |] eqn:E; cbn [mbind outcome_bind].
  2-5: split; [done|by intros (? & ? & [= <-] & E' & _); rewrite E in E'].
  rewrite protobuf_serialize_into_ok. cbn. split; [intros [= <-]; by exists x, y|].
  intros (? & ? & [= <-] & E' & ->). rewrite E in E'. by injection E' as <-.
Qed.
Lemma head_app {X} (l1 l2 : list X) : l1 ≠ [] → head (l1 ++ l2) = head l1 ∧ tail (l1 ++ l2) = tail l1 ++ l2.
Proof using Type. by destruct l1. Qed.
Lemma acc_enc_first y : first_accumulator ag (Some (acc_enc y)) = Ok (Some y).
Proof using Type. unfold first_accumulator, acc_enc. by rewrite Z.eqb_refl, protobuf_deserialize_ok. Qed.

Context (Hag : merges_partially ag).

(** Starting from the operand [y], rather than from the merged [z]. *)
Lemma merge_slices_part x y z ops w :
  merge_accumulators ag x y = Ok z → merge_slices ag z ops = Ok (Some w) →
  ∃ p, merge_slices ag y ops = Ok (Some p) ∧ merge_accumulators ag x p = Ok w.
Proof using Hag.
  destruct Hag as (_ & Hadd & Hassoc). revert y z. induction ops as [|[|marker op] ops IH]; intros y z Hz; cbn [merge_slices].
  - intros [= <-]. eauto.
  - done.
  - repeat case_match; try done.
    + destruct (protobuf_deserialize op) as [d| | |]; cbn [or_none]; [|done..].
      destruct (merge_accumulators ag z d) as [z'| | |] eqn:Ez; cbn [mbind outcome_bind]; [|done..].
      destruct (Hassoc _ _ _ _ _ Hz Ez) as (y' & -> & Hy'). cbn [mbind outcome_bind]. by apply IH.
    + destruct (protobuf_deserialize op) as [v| | |]; cbn [or_none]; [|done..]. by apply IH, Hadd.
Qed.
Lemma merge_slices_head x ops w :
  ops ≠ [] → merge_slices ag x ops = Ok (Some w) →
  ∃ u p, first_accumulator ag (head ops) = Ok (Some u) ∧ merge_slices ag u (tail ops) = Ok (Some p) ∧
    merge_accumulators ag x p = Ok w.
Proof using Hag.
  destruct ops as [|[|marker op] ops]; intros Hne; cbn [merge_slices head tail first_accumulator]; [done..|].
  repeat case_match; try done.
  - destruct (protobuf_deserialize op) as [d| | |]; cbn [or_none]; [|done..].
    destruct (merge_accumulators ag x d) as [z| | |] eqn:Ez; cbn [mbind outcome_bind]; [|done..].
    intros (p & ? & ?)%(merge_slices_part _ _ _ _ _ Ez). eauto.
  - destruct (protobuf_deserialize op) as [v| | |]; cbn [or_none]; [|done..].
    intros (p & ? & ?)%(merge_slices_part _ _ _ _ _ (proj1 Hag x v)). eauto.
Qed.

Lemma aggregator_merge_groups : groups (Rocks.make_aggregator_merge ag).
Proof using Hag.
  split; unfold Rocks.make_aggregator_merge.
  - intros _ first ops1 ops2 v Hne1 _ (x & y & Ex & Ey & ->)%merge_aggregated_some. rewrite chain_app.
    assert (chain first ops1 ≠ []) as Hc by by destruct first, ops1.
    unfold merge_aggregated. destruct (head_app (chain first ops1) ops2 Hc) as [-> ->]. rewrite Ex.
    change (chain (Some _) ops2) with (acc_enc y :: ops2). cbn [head tail]. rewrite acc_enc_first. cbn [mbind outcome_bind].
    by rewrite merge_slices_app, Ey.
  - intros _ first ops1 ops2 ops3 v Hne. rewrite chain_app. intros (x & z & Ex & Ez & ->)%merge_aggregated_some.
    destruct (decide (chain first ops1 = [])) as [Hnil|Hc].
    + rewrite Hnil in Ex, Ez. cbn [app] in Ex, Ez. destruct (head_app ops2 ops3 Hne) as [Hh Ht]. rewrite Hh in Ex. rewrite Ht, merge_slices_app in Ez.
      destruct (merge_slices ag x (tail ops2)) as [[p|]| | |] eqn:Ep; cbn [mbind outcome_bind] in Ez; try done.
      exists (acc_enc p). split; [apply merge_aggregated_some; by exists x, p|].
      rewrite chain_app, Hnil. apply merge_aggregated_some. exists p, z. split; [apply acc_enc_first|done].
    + destruct (head_app _ (ops2 ++ ops3) Hc) as [Hh Ht]. rewrite Hh in Ex. rewrite Ht, merge_slices_app in Ez.
      destruct (merge_slices ag x _) as [[y|]| | |] eqn:Ey; cbn [mbind outcome_bind] in Ez; try done.
      rewrite merge_slices_app in Ez. destruct (merge_slices ag y ops2) as [[w|]| | |] eqn:Ew; cbn [mbind outcome_bind] in Ez; try done.
      destruct (merge_slices_head _ _ _ Hne Ew) as (u & p & Eu & Ep & Em).
      exists (acc_enc p). split; [apply merge_aggregated_some; by exists u, p|].
      rewrite chain_app. apply merge_aggregated_some. exists x, z.
      destruct (head_app _ (acc_enc p :: ops3) Hc) as [-> ->]. split; [done|]. split; [|done].
      rewrite merge_slices_app, Ey. cbn [mbind outcome_bind merge_slices acc_enc]. rewrite Z.eqb_refl, protobuf_deserialize_ok.
      cbn [or_none]. by rewrite Em.
Qed.
End aggregator.
