(* ===== verification/RocksOps.v ===== *)
(** The operations of the RocksDB backend meet the contract of the backend interface. *)

From S2P Require Import Prelude Error Serialization Files StateBackend Tables ByteStore Restore Rocks RocksSpec.

Section rocks.
Context `{BuildProfile} {Db : Type} `{RocksLaws Db}.
Implicit Types (b : Rocks Db) (d : Db).
Abbreviation RocksRegion := (KvRegion (Options * option Options)).

(** A write to the entries, in a region whose configuration the representation accepts. *)
Lemma rocks_configured_writes {A X : Type} (P : Options * option Options → Prop)
    (Rep : gmap bytes bytes → bytes → X → Prop) (m : StateM (Rocks Db) A) b id (r : RocksRegion) t' mk a x x' :
  configured P Rep r mk x → alters m b id (MkKv t' (kv_config r)) a →
  Rep t' mk x' → frames Rep (kv_entries r) t' mk →
  writes (configured P Rep : Region → _) m b id r mk a x'.
Proof using Type.
  intros [HP _] Hm Hr Hf. eapply alters_writes; [exact Hm|by split|].
  destruct r as [t c]. by apply frames_configured.
Qed.

Lemma decode_old_ok {A} `{Value A} (x : option A) found :
  found = ld <$> x → Rocks.decode_old found = Ok x.
Proof using Type. intros ->. destruct x as [v|]; cbn; [|done]. by rewrite protobuf_deserialize_ok. Qed.

Ltac rocks_step := first
  [ apply reads_lift_bind with (1 := serialize_metakeys_ok _)
  | apply reads_lift_bind with (1 := serialize_metakeys_and_key_ok _ _)
  | apply alters_lift_bind with (1 := serialize_metakeys_ok _)
  | apply alters_lift_bind with (1 := serialize_metakeys_and_key_ok _ _)
  | apply alters_lift_bind with (1 := protobuf_serialize_ok _)
  | apply alters_lift_bind with (1 := encode_vec_ok _) ].
(** The entry of the metakeys is read, written, or merged into. *)
Ltac rocks_get Hr := repeat rocks_step; eapply reads_bind; [by eapply rocks_get_reads|]; intros ? _; cbv beta.
Ltac rocks_decode :=
  lazymatch goal with
  | |- reads (match _ <$> ?x with _ => _ end) _ _ => destruct x; cbn
  end; [eapply reads_lift_bind; [apply protobuf_deserialize_ok|]; apply reads_ret|apply reads_ret].
(** The old value is read and decoded before the new one is written. *)
Ltac rocks_old Hr old :=
  eapply alters_bind; [by eapply rocks_get_reads|]; intros ? ?; cbv beta;
  eapply (alters_lift_bind _ _ _ _ _ old); [apply decode_old_ok|].
Ltac rocks_put Hr Hx :=
  eapply rocks_configured_writes; [exact Hx| |eauto with arcon|eauto with arcon];
  repeat rocks_step; try (eapply alters_then; [|intros ?; apply reads_ret]);
  first [by eapply rocks_put_alters | by eapply rocks_remove_alters].
Tactic Notation "rocks_merge" constr(Hr) constr(Hx) constr(Henc) "into" uconstr(v') :=
  eapply (rocks_configured_writes _ _ _ _ _ _ (<[_ := v']> _)); [exact Hx| |eauto with arcon|eauto with arcon];
  apply alters_initialized_lift with (1 := serialize_metakeys_ok _);
  eapply alters_initialized_lift; [exact Henc|].

Section values.
Context {T IK N : Type} `{Value T, Metakey IK, Metakey N}.

Section value.
Context (h : Handle (ValueState T) IK N) b (r : RocksRegion) (x : option T).
Context (Hr : region b (h_id h) = Some r) (Hx : ValRep r (metakeys h) x).

Lemma rocks_value_get : reads (value_get h) b x.
Proof using All. cbn. unfold Rocks.value_get. rocks_get Hr. rewrite (proj2 Hx). rocks_decode. Qed.
Lemma rocks_value_set v : writes ValRep (value_set h v) b (h_id h) r (metakeys h) x (Some v).
Proof using All.
  eapply rocks_configured_writes; [exact Hx| |eauto with arcon|eauto with arcon]. cbn. unfold Rocks.value_set.
  rocks_step. rocks_old Hr x; [apply (proj2 Hx)|]. rocks_step.
  eapply alters_then; [|intros ?; apply reads_ret]. eapply rocks_put_alters. by rewrite <- Hr.
Qed.
Lemma rocks_value_fast_set v : writes ValRep (value_fast_set h v) b (h_id h) r (metakeys h) tt (Some v).
Proof using All. cbn. unfold Rocks.value_fast_set. rocks_put Hr Hx. Qed.
Lemma rocks_value_clear : writes ValRep (value_clear h) b (h_id h) r (metakeys h) tt (None : option T).
Proof using All. cbn. unfold Rocks.value_clear. rocks_put Hr Hx. Qed.
End value.

Section vec.
Context (h : Handle (VecState T) IK N) b (r : RocksRegion) (x : list T).
Context (Hr : region b (h_id h) = Some r) (Hx : VecRep r (metakeys h) x).
Lemma rocks_vec_get : reads (vec_get h) b x.
Proof using All.
  cbn. unfold Rocks.vec_get. rocks_get Hr. eapply (reads_vec decode_vec _ id); [exact (proj2 Hx)|done|]. apply decode_vec_ok.
Qed.
Lemma rocks_vec_iter : reads (vec_iter h) b (Ok <$> x).
Proof using All.
  cbn. unfold Rocks.vec_iter. rocks_get Hr. eapply (reads_vec decode_iter _ (fmap Ok)); [exact (proj2 Hx)|done|]. apply decode_iter_ok.
Qed.
Lemma checked_len_ok (l : list T) : vec_fits l → Rocks.checked_len (vec_enc l) = Ok (len l).
Proof using Type.
  intros Hl. unfold Rocks.checked_len. rewrite bool_decide_eq_false_2; [by apply decode_len_ok|].
  pose proof (vec_enc_length l). lia.
Qed.
Lemma rocks_vec_len : reads (vec_len h) b (len x).
Proof using All.
  cbn. unfold Rocks.vec_len. rocks_get Hr. eapply (reads_vec Rocks.checked_len _ (λ l, len l)); [exact (proj2 Hx)|done|]. apply checked_len_ok.
Qed.
Lemma rocks_vec_is_empty : reads (vec_is_empty h) b (bool_decide (x = [])).
Proof using All.
  cbn. unfold Rocks.vec_is_empty. eapply reads_bind; [apply rocks_vec_len|]. intros b' _.
  replace (bool_decide (x = [])) with (bool_decide (len x = 0)); [apply reads_ret|].
  apply bool_decide_ext. destruct x; cbn; split; (done || lia).
Qed.
Lemma rocks_vec_append v :
  vec_fits (x ++ [v]) → writes VecRep (vec_append h v) b (h_id h) r (metakeys h) tt (x ++ [v]).
Proof using All.
  intros Hfit. cbn. unfold Rocks.vec_append. rocks_merge Hr Hx (encode_one_ok v) into (vec_enc (x ++ [v])).
  eapply rocks_merge_alters; [exact Hr|exact (proj1 Hx)|]. by apply (vec_bytes_merge _ _ _ (proj2 Hx)).
Qed.
Lemma rocks_vec_add_all l :
  vec_fits (x ++ l) → writes VecRep (vec_add_all h l) b (h_id h) r (metakeys h) tt (x ++ l).
Proof using All.
  intros Hfit. cbn. unfold Rocks.vec_add_all.
  assert (vec_fits l) as Hl by (unfold vec_fits in *; rewrite length_app in Hfit; lia).
  rocks_merge Hr Hx (encode_counted_ok l Hl) into (vec_enc (x ++ l)).
  eapply initialized_ret, rocks_merge_alters; [exact Hr|exact (proj1 Hx)|].
  by apply (vec_bytes_merge _ _ _ (proj2 Hx)).
Qed.
Lemma rocks_vec_set l : vec_fits l → writes VecRep (vec_set h l) b (h_id h) r (metakeys h) tt l.
Proof using All. intros Hl. cbn. unfold Rocks.vec_set. rocks_put Hr Hx. Qed.
Lemma rocks_vec_clear : writes VecRep (vec_clear h) b (h_id h) r (metakeys h) tt ([] : list T).
Proof using All. cbn. unfold Rocks.vec_clear. rocks_put Hr Hx. Qed.
End vec.

Section reducer.
Context (h : Handle (ReducerState T) IK N) b (r : RocksRegion) (x : option T).
Context (Hr : region b (h_id h) = Some r) (Hx : RedRep (extra_data h) r (metakeys h) x).

Lemma rocks_reducer_get : reads (reducer_get h) b x.
Proof using All. cbn. unfold Rocks.reducer_get. rocks_get Hr. rewrite (proj2 Hx). rocks_decode. Qed.
Lemma rocks_reducer_reduce (v : T) :
  writes (RedRep (extra_data h)) (reducer_reduce h v) b (h_id h) r (metakeys h) tt
    (Some (match x with Some old => extra_data h old v | None => v end)).
Proof using All.
  cbn. unfold Rocks.reducer_reduce.
  rocks_merge Hr Hx (protobuf_serialize_ok v) into (ld (match x with Some old => extra_data h old v | None => v end)).
  eapply rocks_merge_alters; [exact Hr|exact (proj1 Hx)|]. rewrite (proj2 Hx). apply merge_reduced_ok.
Qed.
Lemma rocks_reducer_clear :
  writes (RedRep (extra_data h)) (reducer_clear h) b (h_id h) r (metakeys h) tt (None : option T).
Proof using All. cbn. unfold Rocks.reducer_clear. rocks_put Hr Hx. Qed.
End reducer.

Section aggregator.
Context {Inp R : Type} `{Value Inp}.
Context (h : Handle (AggregatorState Inp T R) IK N) b (r : RocksRegion) (x : option T).
Context (Hr : region b (h_id h) = Some r) (Hx : AggRep (extra_data h) r (metakeys h) x).

Lemma rocks_aggregator_get :
  ∃ b', aggregator_get h b =
    (accumulator_into_result (extra_data h) (default (create_accumulator (extra_data h)) x), b')
    ∧ same_data b b'.
Proof using All.
  cbn. unfold Rocks.aggregator_get. unfold mbind at 1, M_bind at 1, lift at 1. rewrite serialize_metakeys_ok.
  destruct (rocks_get_reads b (h_id h) r Hr (metakeys h)) as (b' & E & Hs). step_ok E. exists b'. split; [|done].
  rewrite (proj2 Hx). destruct x as [a|]; cbn [fmap option_fmap option_map default]; [|done].
  unfold mbind, M_bind, lift. by rewrite decode_accumulator_ok.
Qed.
Lemma rocks_aggregator_aggregate (v : Inp) :
  writes (AggRep (extra_data h)) (aggregator_aggregate h v) b (h_id h) r (metakeys h) tt
    (Some (agg_add (extra_data h) (default (create_accumulator (extra_data h)) x) v)).
Proof using All.
  cbn. unfold Rocks.aggregator_aggregate.
  rocks_merge Hr Hx (encode_value_ok v) into
    (acc_enc (agg_add (extra_data h) (default (create_accumulator (extra_data h)) x) v)).
  eapply rocks_merge_alters; [exact Hr|exact (proj1 Hx)|]. rewrite (proj2 Hx). apply merge_aggregated_ok.
Qed.
Lemma rocks_aggregator_clear :
  writes (AggRep (extra_data h)) (aggregator_clear h) b (h_id h) r (metakeys h) tt (None : option T).
Proof using All. cbn. unfold Rocks.aggregator_clear. rocks_put Hr Hx. Qed.
End aggregator.
End values.

(** ** Map states *)

Section maps.
Context {K V IK N : Type} `{Key K, !MessageLaws K, EqDecision K, !Countable K, Value V, Metakey IK, Metakey N}.
Implicit Type m : gmap K V.

Lemma map_writes {A} (op : StateM (Rocks Db) A) b id (r : RocksRegion) t' mk a m m' :
  map_rep r mk m → alters op b id (MkKv t' (kv_config r)) a →
  entries_rep (K:=K) (ld (T:=V)) t' mk m' → frames (entries_rep (K:=K) (ld (T:=V))) (kv_entries r) t' mk →
  writes MapRep op b id r mk a m'.
Proof using Type.
  intros [Hcfg _] Hop Hm Hf. eapply alters_writes; [exact Hop|by split|].
  intros mk' x Hl Hne [(o & Hc & Hp) Hx]. split; [by exists o|]. by apply Hf.
Qed.

Ltac rocks_map Hr Hm :=
  eapply map_writes; [exact Hm| |eauto with arcon|eauto with arcon];
  repeat rocks_step; try (eapply alters_then; [|intros ?; apply reads_ret]);
  first [by eapply rocks_put_alters | by eapply rocks_remove_alters].

Section map.
Context (h : Handle (MapState K V) IK N) b (r : RocksRegion) (m : gmap K V).
Context (Hr : region b (h_id h) = Some r) (Hm : map_rep r (metakeys h) m).
Let Hentries : entries_rep (K:=K) (ld (T:=V)) (kv_entries r) (metakeys h) m := proj2 Hm.

Lemma rocks_map_get k : reads (map_get h k) b (m !! k).
Proof using All. cbn. unfold Rocks.map_get. rocks_get Hr. rewrite (proj1 Hentries). rocks_decode. Qed.
Lemma rocks_map_contains k : reads (map_contains h k) b (bool_decide (is_Some (m !! k))).
Proof using All.
  cbn. unfold Rocks.map_contains. rocks_step.
  replace (bool_decide (is_Some (m !! k))) with (bool_decide (is_Some (kv_entries r !! (metakeys h ++ ld k)))).
  - by apply rocks_contains_reads.
  - apply bool_decide_ext. by rewrite (proj1 Hentries), fmap_is_Some.
Qed.
Lemma rocks_map_fast_insert k v :
  writes MapRep (map_fast_insert h k v) b (h_id h) r (metakeys h) tt (<[k:=v]> m).
Proof using All. cbn. unfold Rocks.map_fast_insert. rocks_map Hr Hm. Qed.
Lemma rocks_map_fast_remove k :
  writes MapRep (map_fast_remove h k) b (h_id h) r (metakeys h) tt (delete k m).
Proof using All. cbn. unfold Rocks.map_fast_remove. rocks_map Hr Hm. Qed.
Lemma rocks_map_insert k v :
  writes MapRep (map_insert h k v) b (h_id h) r (metakeys h) (m !! k) (<[k:=v]> m).
Proof using All.
  eapply map_writes; [exact Hm| |eauto with arcon|eauto with arcon]. cbn. unfold Rocks.map_insert. rocks_step.
  rocks_old Hr (m !! k); [apply (proj1 Hentries)|]. rocks_step.
  eapply alters_then; [|intros ?; apply reads_ret]. eapply rocks_put_alters. by rewrite <- Hr.
Qed.
Lemma rocks_map_remove k :
  writes MapRep (map_remove h k) b (h_id h) r (metakeys h) (m !! k) (delete k m).
Proof using All.
  eapply map_writes; [exact Hm| |eauto with arcon|eauto with arcon]. cbn. unfold Rocks.map_remove. rocks_step.
  rocks_old Hr (m !! k); [apply (proj1 Hentries)|].
  eapply alters_then; [|intros ?; apply reads_ret]. eapply rocks_remove_alters. by rewrite <- Hr.
Qed.

(** What iteration by prefix yields: the encoded entries of the map, in the order of the database. *)
Lemma prefix_entries_map : ∃ l, l ≡ₚ (λ kv, (metakeys h ++ ld kv.1, ld kv.2)) <$> map_to_list m ∧
  reads (Rocks.prefix_entries h) b l.
Proof using All.
  pose proof (proj1 Hm) as (o & Hc & Hp). assert ((kv_config r).1 = o) as Ho by by rewrite Hc.
  destruct (prefix_reads b (h_id h) r Hr (metakeys h) o Ho Hp) as (l & Hl & Hreads); [by eapply entries_rep_long|].
  exists l. split; [rewrite Hl; by apply entries_rep_list|].
  apply reads_initialized_lift with (1 := serialize_metakeys_ok _). exact Hreads.
Qed.
Lemma rocks_map_len : reads (map_len h) b (Z.of_nat (size m)).
Proof using All.
  destruct prefix_entries_map as (l & Hl & Hs). eapply reads_bind; [exact Hs|]. intros b' _.
  rewrite Hl, length_fmap, length_map_to_list. apply reads_ret.
Qed.
Lemma rocks_map_is_empty : reads (map_is_empty h) b (bool_decide (m = ∅)).
Proof using All.
  destruct prefix_entries_map as (l & Hl & Hs). eapply reads_bind; [exact Hs|]. intros b' _.
  replace (bool_decide (m = ∅)) with (bool_decide (l = [])); [apply reads_ret|].
  apply bool_decide_ext. rewrite <- map_to_list_empty_iff. split; intros E.
  - rewrite E in Hl. symmetry in Hl. by eapply fmap_nil_inv, Permutation_nil_r.
  - rewrite E in Hl. by apply Permutation_nil_r in Hl.
Qed.
Lemma rocks_scan {A : Type} (f : bytes * bytes → StateResult A) (g : K * V → A) :
  (∀ k v, f (metakeys h ++ ld k, ld v) = Ok (g (k, v))) →
  ∃ l, reads (entries ← Rocks.prefix_entries h; mret (f <$> entries)) b (Ok <$> l) ∧ l ≡ₚ g <$> map_to_list m.
Proof using All.
  intros Hf. destruct prefix_entries_map as (l & Hl & Hs).
  assert (f <$> l ≡ₚ Ok <$> (g <$> map_to_list m)) as (l' & El & Hp)%Permutation_map_inv.
  { rewrite Hl, <- !list_fmap_compose. erewrite list_fmap_ext; [done|]. intros i [k v] _. cbn. apply Hf. }
  exists l'. split; [|done]. eapply reads_bind; [exact Hs|]. intros b' _.
  replace (Ok <$> l') with (f <$> l). apply reads_ret.
Qed.
Lemma rocks_decode_key k :
  handle_wf h → Rocks.decode_key (IK:=IK) (N:=N) (metakeys h ++ ld k) = Ok (k : K).
Proof using Type.
  intros [Hik Hns]. unfold Rocks.decode_key, metakeys, deserialize_from.
  rewrite <- !(assoc_L (++)), mk_from_slice by done. cbn.
  rewrite mk_from_slice by done. cbn. by rewrite <- (app_nil_r (ld k)), protobuf_deserialize_from_ok.
Qed.
Lemma rocks_map_iter : handle_wf h → ∃ l, reads (map_iter h) b (Ok <$> l) ∧ l ≡ₚ map_to_list m.
Proof using All.
  intros Hwf. edestruct (rocks_scan (λ entry, key ← Rocks.decode_key (IK:=IK) (N:=N) entry.1;
    value ← protobuf_deserialize entry.2; Ok (key, value)) id) as (l & Hl & Hp).
  { intros k v. cbn. rewrite rocks_decode_key by done. cbn. by rewrite protobuf_deserialize_ok. }
  exists l. by rewrite list_fmap_id in Hp.
Qed.
Lemma rocks_map_keys : handle_wf h → ∃ l, reads (map_keys h) b (Ok <$> l) ∧ l ≡ₚ (map_to_list m).*1.
Proof using All.
  intros Hwf. apply (rocks_scan (λ entry, Rocks.decode_key (IK:=IK) (N:=N) entry.1) fst).
  intros k v. cbn. by rewrite rocks_decode_key.
Qed.
Lemma rocks_map_values : ∃ l, reads (map_values h) b (Ok <$> l) ∧ l ≡ₚ (map_to_list m).*2.
Proof using All.
  apply (rocks_scan (λ entry, protobuf_deserialize entry.2) snd). intros k v. apply protobuf_deserialize_ok.
Qed.

(** Clearing works unless the metakeys end in a byte that has no successor. *)
Lemma rocks_map_clear :
  (∀ q x, metakeys h = q ++ [x] → in_u 8 (x + 1)) →
  writes (MapRep (K:=K) (V:=V)) (map_clear h) b (h_id h) r (metakeys h) tt ∅.
Proof using All.
  intros Hlast. pose proof (proj1 Hm) as (o & Hc & _).
  assert (∃ t : gmap bytes bytes, (∀ key, t !! key = if decide (take (length (metakeys h)) key = metakeys h) then None else kv_entries r !! key) ∧
    alters (Rocks.remove_prefix (h_id h) (metakeys h)) b (h_id h) (MkKv t (kv_config r)) tt) as (t & Ht & Halt).
  { destruct (metakeys h) as [|y l] eqn:E using rev_ind; [|by eapply remove_prefix_alters; [exact Hr|done|eauto]].
    exists ∅. split; [|by eapply remove_all_alters]. intros key. by rewrite lookup_empty, decide_True. }
  eapply map_writes; [exact Hm| |by eapply entries_rep_clear|by apply entries_frames_clear].
  cbn. unfold Rocks.map_clear. rocks_step. exact Halt.
Qed.
End map.

Lemma batch_putting_ok (h : Handle (MapState K V) IK N) (cf : ColumnFamily) kvs wb :
  ∃ wb', Rocks.batch_putting h cf kvs wb = Ok wb' ∧ ∀ n t, wb_effect wb' n t =
    if decide (n = cf_name cf) then foldl (λ t kv, <[metakeys h ++ ld kv.1 := ld kv.2]> t) (wb_effect wb n t) kvs
    else wb_effect wb n t.
Proof using All.
  revert wb. induction kvs as [|[k v] kvs IH]; intros wb.
  { exists wb. split; [done|]. intros n t. by case_decide. }
  destruct (wb_put_law Db cf (metakeys h ++ ld k) (ld v) wb) as (wb1 & E1 & Hwb1).
  destruct (IH wb1) as (wb2 & E2 & Hwb2). exists wb2. cbn [Rocks.batch_putting].
  rewrite serialize_metakeys_and_key_ok. cbn [mbind outcome_bind]. rewrite protobuf_serialize_ok. cbn [mbind outcome_bind].
  rewrite E1. split; [exact E2|]. intros n t. rewrite Hwb2, Hwb1. by case_decide.
Qed.
Lemma rocks_map_insert_all (h : Handle (MapState K V) IK N) b r m kvs :
  region b (h_id h) = Some r → map_rep r (metakeys h) m →
  writes MapRep (map_insert_all h kvs) b (h_id h) r (metakeys h) tt (foldl (λ m kv, <[kv.1:=kv.2]> m) m kvs).
Proof using All.
  intros Hr Hm. eapply (map_writes _ _ _ _ (foldl (λ t kv, <[metakeys h ++ ld kv.1 := ld kv.2]> t) (kv_entries r) kvs));
    [exact Hm| |apply entries_rep_insert_all, (proj2 Hm)|apply entries_frames_insert_all].
  cbn. unfold Rocks.map_insert_all. eapply with_cf_alters; [exact Hr|]. intros cf Hcf.
  destruct (batch_putting_ok h cf kvs WriteBatch_default) as (wb & Ewb & Heff).
  eapply alters_initialized_lift; [exact Ewb|]. apply write_alters; [exact Hr| |].
  - intros n t Hne. rewrite Heff, decide_False by congruence. apply (WriteBatch_default_law Db).
  - by rewrite Heff, decide_True, (WriteBatch_default_law Db).
Qed.
End maps.

(** ** Registration and checkpoints *)

Lemma rocks_register_ok {S IK N X} `{FixedBytes IK, FixedBytes N} (h : Handle S IK N) (o : Options)
    (Rep : RocksRegion → bytes → X → Prop) (x0 : X) b :
  backend_ok b →
  (∀ mk, length mk = metakey_size h → Rep (MkKv ∅ (o, Some o)) mk x0) →
  registers (IK:=IK) (N:=N) (Rep : Region → _) Rep x0 (Rocks.register h o) b h.
Proof using All.
  intros Hb Hnew. unfold backend_ok, Rocks_BackendRep, rocks_ok in Hb. destruct (inner b) as [i|] eqn:Hi; [|done].
  pose proof (cf_handle_law Db (rdb i) (h_id h) Hb) as Hcf.
  assert (∀ b' , Rocks.create_column_family (h_id h) o b = (Ok tt, b') →
    Rocks.register h o b = (Ok (set_registered h), b')) as Hrun.
  { intros b' E. unfold Rocks.register. erewrite bind_ok; [done|]. unfold on_outcome. by rewrite E. }
  assert (∀ o' i', Rocks.create_column_family_if_doesnt_exist (h_id h) o i = (o', i') →
    Rocks.create_column_family (h_id h) o b = (o', initialize_with b i')) as Hcreate.
  { intros o' i' E. unfold Rocks.create_column_family, gets. unfold mbind, M_bind. rewrite Hi. by eapply initialized_run. }
  unfold Rocks.create_column_family_if_doesnt_exist in Hcreate.
  destruct (cf_handle (h_id h) (rdb i)) as [cf|] eqn:Ecf.
  - destruct Hcf as [_ [r' Hr']]. exists (initialize_with b i), (MkKv (kv_entries r') (kv_config r', remembered i (h_id h))).
    assert (region b (h_id h) = Some (MkKv (kv_entries r') (kv_config r', remembered i (h_id h)))) as Hr.
    { rewrite (region_initialized b i) by done. unfold region_of. by rewrite Hr'. }
    split; [apply Hrun, Hcreate; unfold gets; erewrite bind_ok by done; by rewrite Ecf|]. split; [done|]. split.
    + split; [|intros n _]; erewrite region_initialized by done; [etransitivity; [symmetry; by apply (region_initialized b i)|exact Hr]|].
      by rewrite (region_initialized b i).
    + rewrite Hr. by intros mk x _ Hx.
  - destruct (create_cf_law Db (rdb i) (h_id h) o Hb Hcf) as (d' & E & Hh' & Hc' & Hk').
    assert (h_id h ≠ "default") as Hnd.
    { intros E'. rewrite E' in Hcf. destruct (default_cf Db (rdb i) Hb) as [? Hd]. by rewrite Hcf in Hd. }
    exists (initialize_with b (MkInitialized d' (<[h_id h := o]> (options i)))), (MkKv ∅ (o, Some o)).
    split; [|split; [done|split]].
    + apply Hrun, Hcreate. unfold gets. erewrite bind_ok by done. rewrite Ecf.
      unfold mbind, M_bind, Rocks.on_rdb, zoom, rocks_try, on_outcome. by rewrite E.
    + split; [|intros n Hne]; erewrite region_initialized by done; unfold region_of; cbn [rdb options].
      * unfold remembered. cbn [options]. by rewrite Hc', decide_False, lookup_insert_eq by done.
      * unfold remembered. cbn [options]. rewrite (region_initialized b i), Hk', lookup_insert_ne by done. done.
    + rewrite (region_initialized b i) by done. unfold region_of. rewrite Hcf. cbn. exact Hnew.
Qed.
Lemma rocks_checkpoint_ok cp b : backend_ok b → ∃ o b', checkpoint cp b = (o, b') ∧
  backend_ok b' ∧ same_data b b' ∧ (o = Ok tt ∨ ∃ e, o = Err e).
Proof using All.
  intros Hb. unfold backend_ok, Rocks_BackendRep, rocks_ok in Hb. destruct (inner b) as [i|] eqn:Hi; [|done].
  destruct (flush_law Db (rdb i) Hb) as (d1 & E1 & Hk1). destruct (Checkpoint_law Db d1 (proj1 Hk1)) as (c & Ec).
  set (b1 := initialize_with b (MkInitialized d1 (options i))).
  assert (∀ fs, same_data b (MkRocks (inner b1) (rpath b1) (rrestored b1) fs)) as Hsame.
  { intros fs n. rewrite (region_initialized b i) by done. erewrite region_initialized by (done || apply Hk1).
    unfold region_of. cbn [rdb options b1]. by rewrite (proj2 Hk1). }
  assert (∀ fs, backend_ok (MkRocks (inner b1) (rpath b1) (rrestored b1) fs)) as Hok by by intros fs; apply Hk1.
  cbn [checkpoint Rocks_Backend]. unfold Rocks.checkpoint.
  erewrite bind_ok by by apply on_rdb_run. fold b1.
  erewrite bind_ok by (eapply (initialized_run _ b1); [done|]; cbn [rdb]; by rewrite Ec).
  change (initialize_with b1 _) with b1. unfold gets. erewrite bind_ok by done.
  assert (∃ o fs, (if path_exists (path_from cp) (rdisk b1) then Rocks.on_rdisk (remove_dir_all (path_from cp)) else mret tt) b1
    = (o, MkRocks (inner b1) (rpath b1) (rrestored b1) fs) ∧ (o = Ok tt ∨ o = Err IO)) as (o & fs & E & Ho).
  { case_match; [|by exists (Ok tt), (rdisk b1); eauto]. unfold Rocks.on_rdisk, zoom, remove_dir_all.
    destruct (rdisk b1 !! path_from cp) as [[|?]|]; eauto 6. }
  destruct Ho as [-> | ->]; [|rewrite (bind_err _ _ _ _ _ E); eauto 8].
  erewrite bind_ok by exact E. unfold Rocks.on_rdisk, zoom, rocks_try, on_outcome. cbn [rdisk].
  destruct (create_checkpoint_outcome Db c (path_from cp) fs) as (o' & fs' & E' & Ho'). rewrite E'.
  eexists _, _. split; [reflexivity|]. split; [apply Hok|]. split; [apply Hsame|].
  destruct Ho' as [-> | [e ->]]; cbn; eauto.
Qed.
End rocks.
