(* ===== verification/RocksBackend.v ===== *)
(** The RocksDB backend as an implementation of the backend interface. *)

From S2P Require Import Prelude Error Serialization Files StateBackend Tables ByteStore Restore Rocks RocksSpec RocksGroups RocksOps.

(** The metakeys whose last byte has a successor, which clearing a map needs.  (The encodings of the
    other types may end in the byte 255.) *)
Class ClearableMetakeys (IK N : Type) `{Metakey IK, Metakey N} : Prop :=
  metakeys_clearable (ik : IK) (ns : N) q x : mk_enc ik ++ mk_enc ns = q ++ [x] → in_u 8 (x + 1).
#[export] Instance unit_clearable : ClearableMetakeys unit unit.
Proof. by intros ? ? [] x. Qed.
#[export] Instance bool_clearable IK `{Metakey IK} : ClearableMetakeys IK bool.
Proof. intros ik [] q x; cbn; intros [_ [= <-]]%app_inj_tail; done. Qed.

Section rocks.
Context `{BuildProfile} {Db : Type} `{RocksLaws Db}.

#[export] Instance Rocks_MapSpec K V IK N `{Key K, !MessageLaws K, EqDecision K, !Countable K,
  Value V, Metakey IK, Metakey N, !ClearableMetakeys IK N} : MapSpec (Rocks Db) K V IK N.
Proof using All.
  split.
  - intros. by eapply rocks_map_get.
  - intros. by eapply rocks_map_contains.
  - intros. by eapply rocks_map_len.
  - intros. by eapply rocks_map_is_empty.
  - intros. by eapply rocks_map_insert.
  - intros. by eapply rocks_map_fast_insert.
  - intros. by eapply rocks_map_insert_all.
  - intros. by eapply rocks_map_remove.
  - intros. by eapply rocks_map_fast_remove.
  - intros h b r m Hr Hm. eapply rocks_map_clear; [exact Hr|exact Hm|]. apply metakeys_clearable.
  - intros. by eapply rocks_map_iter.
  - intros. by eapply rocks_map_keys.
  - intros. by eapply rocks_map_values.
Qed.

Lemma merging_options {S IK N} `{FixedBytes IK, FixedBytes N} (h : Handle S IK N) name (f : MergeFn) :
  groups f → merges_with (Db:=Db) f (set_merge_operator_associative name f (Rocks.common_options h),
    Some (set_merge_operator_associative name f (Rocks.common_options h))).
Proof using All. split; [apply (operator_set Db)|done]. Qed.

#[export] Instance Rocks_BackendSpec : BackendSpec (Rocks Db).
Proof using All.
  split.
  - done.
  - done.
  - done.
  - done.
  - intros b id r (i & r' & Hi & Hh & _)%rocks_region_some. cbn. unfold rocks_ok. by rewrite Hi.
  - intros. by apply rocks_checkpoint_ok.
  - done.
  - done.
  - done.
  - intros. by apply rocks_register_ok.
  - intros K V IK N ? ? ? ? ? ? ? b h Hb. apply rocks_register_ok; [done|]. intros mk Hmk. split.
    + eexists. split; [done|]. cbn. unfold Rocks.common_options. by rewrite prefix_set, Hmk.
    + split; [intros k|intros key d]; by rewrite ?lookup_empty.
  - intros. apply rocks_register_ok; [done|]. intros mk Hmk. split; [apply merging_options, vec_merge_groups|by right].
  - intros. apply rocks_register_ok; [done|]. intros mk Hmk. split; [by apply merging_options, reducer_merge_groups|done].
  - intros. apply rocks_register_ok; [done|]. intros mk Hmk. split; [by apply merging_options, aggregator_merge_groups|done].
  - intros. by eapply rocks_value_get.
  - intros. by eapply rocks_value_set.
  - intros. by eapply rocks_value_fast_set.
  - intros. by eapply rocks_value_clear.
  - intros. by eapply rocks_vec_get.
  - intros. by eapply rocks_vec_iter.
  - intros. by eapply rocks_vec_len.
  - intros. by eapply rocks_vec_is_empty.
  - intros. by eapply rocks_vec_append.
  - intros. by eapply rocks_vec_set.
  - intros. by eapply rocks_vec_add_all.
  - intros. by eapply rocks_vec_clear.
  - intros. by eapply rocks_reducer_get.
  - intros. by eapply rocks_reducer_reduce.
  - intros. by eapply rocks_reducer_clear.
  - intros. by eapply rocks_aggregator_get.
  - intros. by eapply rocks_aggregator_aggregate.
  - intros. by eapply rocks_aggregator_clear.
Qed.
End rocks.
