(* ===== verification/RocksRestore.v ===== *)
(** Checkpoints of the RocksDB backend, and the backend that is restored from one. *)

From S2P Require Import Prelude Error Serialization Files StateBackend Tables ByteStore Restore Rocks RocksSpec RocksOps.

(** ** Documented behaviour of the files of a database

    A directory of files may hold a database: column families with their entries. *)
Definition file_at (p : path) (fs : Fs) (n : string) : option bytes :=
  match fs !! (p ++ [n]) with Some (File c) => Some c | _ => None end.
(** A directory that has files only. *)
Definition flat_dir (p : path) (fs : Fs) : Prop :=
  fs !! p = Some Dir ∧ ∀ q node, fs !! q = Some node → take (length p) q = p →
    q = p ∨ ∃ n c, q = p ++ [n] ∧ node = File c.
Definition nothing_under (p : path) (fs : Fs) : Prop := ∀ q, take (length p) q = p → fs !! q = None.

Section laws.
Context (Db : Type) `{RocksView Db}.

Class RocksFiles : Type := holds : Fs → path → option (gmap string (gmap bytes bytes)).
Context `{RocksFiles}.

Class RocksFilesLaws : Prop := {
  holds_copy fs p fs' p' : fs !! p = Some Dir → fs' !! p' = Some Dir →
    (∀ n, file_at p' fs' n = file_at p fs n) → holds fs' p' = holds fs p;
  create_checkpoint_law d c p fs : healthy d = true → Checkpoint_new d = Ok c →
    nothing_under p fs → parent_is_dir p fs = true →
    ∃ fs' im, create_checkpoint c p fs = (Ok tt, fs') ∧ flat_dir p fs' ∧
      (∀ q, take (length p) q ≠ p → fs' !! q = fs !! q) ∧
      holds fs' p = Some im ∧ ∀ n, im !! n = kv_entries <$> column_family d n;
  list_cf_law o p fs im : fs !! p = Some Dir → holds fs p = Some im →
    ∃ l, list_cf o p fs = (Ok l, fs) ∧ ∀ n, n ∈ l ↔ is_Some (im !! n);
  (** A database is opened with all its column families, and with no others: they are not created. *)
  open_law o p fs im cfds : fs !! p = Some Dir → holds fs p = Some im →
    NoDup cfds.*1 → (∀ n, n ∈ cfds.*1 ↔ is_Some (im !! n)) → is_Some (im !! "default") →
    ∃ d fs', open_cf_descriptors o p cfds fs = (Ok d, fs') ∧ healthy d = true ∧
      ∀ n o', (n, o') ∈ cfds → column_family d n = (λ e, MkKv e o') <$> im !! n;
  open_missing_law o p fs im cfds n : fs !! p = Some Dir → holds fs p = Some im →
    n ∈ cfds.*1 → im !! n = None → ∃ e fs', open_cf_descriptors o p cfds fs = (Err e, fs');
}.
End laws.

(** ** Lemmas on files *)

Lemma ancestors_prefix parent p q :
  q ∈ ancestors parent p → take (length q) (parent ++ p) = q ∧ (length parent < length q)%nat.
Proof.
  revert parent. induction p as [|c p IH]; intros parent; cbn; [set_solver|].
  intros [->|Hq]%elem_of_cons.
  - split; [|rewrite length_app; cbn; lia]. change (c :: p) with ([c] ++ p). by rewrite (assoc_L (++)), take_app_length.
  - apply IH in Hq as [Hq Hl]. rewrite <- (assoc_L (++)) in Hq. split; [done|]. rewrite length_app in Hl. lia.
Qed.
Lemma prefix_app_take {A} (p q : list A) n : take (length (p ++ n)) q = p ++ n → take (length p) q = p.
Proof.
  intros E. rewrite <- (take_app_length p n) at 2. rewrite <- E, take_take, length_app. f_equal. lia.
Qed.

Lemma take_prefix {A} (p l : list A) : take (length p) l = p ↔ p `prefix_of` l.
Proof.
  split; [|intros [k ->]; by rewrite take_app_length]. intros <-. exists (drop (length p) l). by rewrite take_drop.
Qed.

(** Copying the files of a directory. *)
Lemma copy_entry_ok live p n c fs :
  live ≠ [] → fs !! live = Some Dir → fs !! (p ++ [n]) = Some (File c) → fs !! (live ++ [n]) ≠ Some Dir →
  Rocks.copy_entry live p (n, File c) fs = (Ok tt, <[live ++ [n] := File c]> fs).
Proof.
  intros Hne Hlive Hsrc Hdst. unfold Rocks.copy_entry, copy_file. cbn [fst snd].
  erewrite bind_ok by (unfold open_file; by rewrite Hsrc).
  assert (parent_is_dir (live ++ [n]) fs = true) as Hp.
  { unfold parent_is_dir. rewrite removelast_last. destruct live; [done|]. by rewrite bool_decide_eq_true_2. }
  erewrite bind_ok; [|unfold create_file; rewrite Hp; by destruct (fs !! (live ++ [n])) as [[|]|]].
  unfold write_file. by rewrite insert_insert_eq.
Qed.
Lemma copy_entries_ok live p l fs :
  live ≠ [] → live ≠ p → fs !! live = Some Dir →
  (∀ n node, (n, node) ∈ l → ∃ c, node = File c ∧ fs !! (p ++ [n]) = Some node) →
  (∀ n, fs !! (live ++ [n]) ≠ Some Dir) →
  ∃ fs', for_each (Rocks.copy_entry live p) l fs = (Ok tt, fs') ∧
    (∀ n, fs' !! (live ++ [n]) = if decide (n ∈ l.*1) then fs !! (p ++ [n]) else fs !! (live ++ [n])) ∧
    (∀ q, (∀ n, q ≠ live ++ [n]) → fs' !! q = fs !! q).
Proof.
  intros Hne Hlp. revert fs. induction l as [|[n node] l IH]; intros fs Hlive Hl Hdst.
  { exists fs. split; [done|]. split; [|done]. intros n. by rewrite decide_False by (cbn; set_solver). }
  destruct (Hl n node) as (c & -> & Hn); [set_solver|].
  assert (∀ n', live ++ [n] ≠ p ++ [n']) as Hdiff by by intros n' [? _]%app_inj_tail.
  destruct (IH (<[live ++ [n] := File c]> fs)) as (fs' & E & Hin & Hout).
  - rewrite lookup_insert_ne; [done|]. intros E%(f_equal length). rewrite length_app in E. cbn in E. lia.
  - intros n' node' Hin. rewrite lookup_insert_ne by done. apply Hl. by right.
  - intros n'. destruct (decide (n' = n)) as [->|Hn']; [by rewrite lookup_insert_eq|].
    rewrite lookup_insert_ne; [done|]. by intros [_ [= ->]]%app_inj_tail.
  - exists fs'. cbn [for_each]. erewrite bind_ok by by apply copy_entry_ok. split; [done|]. split.
    + intros n'. rewrite Hin, !(lookup_insert_ne _ (live ++ [n]) (p ++ [n'])) by done. cbn.
      pose proof (elem_of_cons l.*1 n' n). destruct (decide (n' = n)) as [->|Hn'].
      * rewrite lookup_insert_eq, Hn. repeat case_decide; naive_solver.
      * rewrite lookup_insert_ne by by intros [_ [= ->]]%app_inj_tail. repeat case_decide; naive_solver.
    + intros q Hq. rewrite Hout by done. apply lookup_insert_ne. naive_solver.
Qed.

Section rocks.
Context `{BuildProfile} {Db : Type} `{RocksLaws Db} `{RocksFiles, !RocksFilesLaws Db}.
Implicit Types (b : Rocks Db) (d : Db) (fs : Fs).
Abbreviation Image := (gmap string (gmap bytes bytes)).

(** What a checkpoint leaves at a path where nothing was. *)
Lemma checkpoint_files cp b i :
  let p := path_from cp in
  inner b = Initialized i → healthy (rdb i) = true → nothing_under p (rdisk b) → parent_is_dir p (rdisk b) = true →
  ∃ b' im, checkpoint cp b = (Ok tt, b') ∧ same_data b b' ∧ flat_dir p (rdisk b') ∧
    (∀ q, take (length p) q ≠ p → rdisk b' !! q = rdisk b !! q) ∧
    holds (rdisk b') p = Some im ∧ ∀ n, im !! n = kv_entries <$> column_family (rdb i) n.
Proof using All.
  intros p Hi Hh Hnone Hparent. destruct (flush_law Db (rdb i) Hh) as (d1 & E1 & Hh1 & Hk1).
  destruct (Checkpoint_law Db d1 Hh1) as (c & Ec).
  set (b1 := initialize_with b (MkInitialized d1 (options i))).
  destruct (create_checkpoint_law Db d1 c p (rdisk b1) Hh1 Ec Hnone Hparent) as (fs' & im & E & Hflat & Hout & Him & Hcf).
  exists (MkRocks (inner b1) (rpath b1) (rrestored b1) fs'), im. split; [|split].
  - cbn [checkpoint Rocks_Backend]. unfold Rocks.checkpoint. fold p.
    erewrite bind_ok by by apply on_rdb_run. fold b1.
    erewrite bind_ok by (eapply (initialized_run _ b1); [done|]; cbn [rdb]; by rewrite Ec).
    change (initialize_with b1 _) with b1. unfold gets. erewrite bind_ok by done.
    assert (path_exists p (rdisk b1) = false) as -> by by apply path_exists_false, Hnone, firstn_all.
    erewrite bind_ok by done. unfold Rocks.on_rdisk, zoom, rocks_try, on_outcome. by rewrite E.
  - intros n. rewrite (region_initialized b i) by done. erewrite region_initialized by (done || exact Hh1).
    unfold region_of. cbn [rdb options b1]. by rewrite Hk1.
  - split; [exact Hflat|]. split; [exact Hout|]. split; [exact Him|]. intros n. by rewrite Hcf, Hk1.
Qed.

(** The column families that are not known after opening the database at a path. *)
Definition named (im : Image) (U : gset string) : Prop := ∀ n, n ∈ U ↔ n ≠ "default" ∧ is_Some (im !! n).

Lemma create_ok fs live im :
  fs !! live = Some Dir → holds fs live = Some im → is_Some (im !! "default") →
  ∃ (b : Rocks Db) fs' U, Rocks.create live fs = (Ok b, fs') ∧ named im U ∧ rpath b = live ∧ rdisk b = fs' ∧
    if decide (U = ∅) then
      ∃ i, inner b = Initialized i ∧ healthy (rdb i) = true ∧ ∀ n, n = "default" →
        column_family (rdb i) n = (λ e, MkKv e Options_default) <$> im !! n
    else fs' = fs ∧ inner b = Uninitialized U {["default" := Options_default]}.
Proof using All.
  intros Hdir Him Hdef. destruct (list_cf_law Db (create_if_missing true Options_default) live fs im Hdir Him) as (l & El & Hl).
  set (U := list_to_set (filter (λ n, n ≠ "default") l) : gset string).
  assert (named im U) as HU. { intros n. unfold U. rewrite elem_of_list_to_set, list_elem_of_filter, Hl. done. }
  assert (∀ A (k : path → gset string → M Fs ArconStateError A),
    (exists_ ← gets (path_exists live);
     (if (exists_ : bool) then mret tt else create_dir_all live) ;;
     path_ ← on_outcome (map_err (λ _, InvalidPath (path_display live))) (canonicalize live);
     cfs ← on_outcome Rocks.existing_column_families (list_cf (create_if_missing true Options_default) path_);
     k path_ cfs) fs = k live U fs) as Hrun.
  { intros A k. assert (path_exists live fs = true) as He by by apply bool_decide_eq_true_2; rewrite Hdir.
    unfold gets. erewrite bind_ok by done. rewrite He. erewrite bind_ok by done.
    unfold canonicalize, on_outcome. erewrite bind_ok by by rewrite He. erewrite bind_ok; [done|]. by rewrite El. }
  unfold Rocks.create. rewrite Hrun. destruct (decide (U = ∅)) as [HU0|HU0].
  - destruct (open_law Db (create_if_missing true Options_default) live fs im [("default", Options_default)] Hdir Him)
      as (d & fs' & Eo & Hd & Hcf); [apply NoDup_singleton| |done|].
    { intros n. cbn. rewrite list_elem_of_singleton. specialize (HU n). split; [by intros ->|].
      intros Hn. destruct (decide (n = "default")); [done|]. set_solver. }
    eexists _, fs', U. split; [|rewrite decide_True by done].
    + rewrite decide_False by naive_solver. unfold mbind at 2, M_bind at 2, rocks_try, on_outcome.
      unfold mbind, M_bind. rewrite Eo. done.
    + repeat (split; [done|]). eexists. split; [done|]. split; [done|]. intros n ->. apply Hcf. set_solver.
  - eexists _, fs, U. split; [|rewrite decide_False by done].
    + rewrite decide_True by done. done.
    + by repeat (split; [done|]).
Qed.

(** The state of a restored backend: the column families of the checkpoint are to be registered first,
    if there are any. *)
Definition awaits (im : Image) b : Prop :=
  ∃ U, named im U ∧
    if decide (U = ∅) then
      ∃ i, inner b = Initialized i ∧ healthy (rdb i) = true ∧ ∀ n, n = "default" →
        column_family (rdb i) n = (λ e, MkKv e Options_default) <$> im !! n
    else rdisk b !! rpath b = Some Dir ∧ holds (rdisk b) (rpath b) = Some im ∧
      inner b = Uninitialized U {["default" := Options_default]}.

Lemma restore_ok fs live p im :
  flat_dir p fs → holds fs p = Some im → is_Some (im !! "default") →
  live ≠ [] → nothing_under live fs → (∀ q c, q ∈ ancestors [] live → fs !! q ≠ Some (File c)) →
  take (length p) live ≠ p →
  ∃ b fs', Rocks.restore live p fs = (Ok b, fs') ∧ rrestored b = true ∧ awaits im b.
Proof using All.
  intros [Hdir Hfiles] Him Hdef Hne Hnone Hanc Hlp.
  destruct (make_dirs_ok (ancestors [] live) fs) as (fs1 & E1 & H1fs); [naive_solver|].
  assert (Hlive : fs1 !! live = Some Dir).
  { rewrite H1fs, decide_True; [done|]. by apply (ancestors_self []). }
  assert (Hplive : live ≠ p) by (intros ->; by rewrite firstn_all in Hlp).
  assert (Hsub : ∀ n, p ++ [n] ∉ ancestors [] live).
  { intros n [Hq _]%ancestors_prefix. cbn in Hq. by apply prefix_app_take in Hq. }
  assert (Hpn : ∀ n, fs1 !! (p ++ [n]) = fs !! (p ++ [n])) by by intros n; rewrite H1fs, decide_False by apply Hsub.
  assert (Hpdir : fs1 !! p = Some Dir) by (rewrite H1fs; by case_decide).
  assert (Hln : ∀ n, fs1 !! (live ++ [n]) = None).
  { intros n. rewrite H1fs, decide_False; [by apply Hnone; rewrite take_app_length|].
    intros Hin%ancestors_length. rewrite length_app in Hin. cbn in Hin. lia. }
  destruct (read_dir_ok live fs1 Hlive) as (entries0 & Er0 & Hent0).
  assert (entries0 = []) as ->.
  { destruct entries0 as [|[n node] l]; [done|]. assert (fs1 !! (live ++ [n]) = Some node) as Hc by (apply Hent0; left).
    by rewrite Hln in Hc. }
  destruct (read_dir_ok p fs1 Hpdir) as (entries & Er & Hent).
  destruct (copy_entries_ok live p entries fs1 Hne Hplive Hlive) as (fs2 & E2 & Hin & Hout).
  { intros n node Hn%Hent. rewrite Hpn in Hn. destruct (Hfiles _ _ Hn) as [Hq|(n' & c & Hq & ->)].
    - by rewrite take_app_length.
    - apply (f_equal length) in Hq. rewrite length_app in Hq. cbn in Hq. lia.
    - exists c. split; [done|]. by rewrite Hpn. }
  { intros n. by rewrite Hln. }
  assert (Hfile : ∀ n, file_at live fs2 n = file_at p fs n).
  { intros n. unfold file_at. rewrite Hin, Hpn, Hln. case_decide as Hd; [done|].
    destruct (fs !! (p ++ [n])) as [node|] eqn:En; [|done]. destruct Hd. apply list_elem_of_fmap. exists (n, node).
    split; [done|]. apply Hent. by rewrite Hpn. }
  assert (Hlive2 : fs2 !! live = Some Dir).
  { rewrite Hout; [done|]. intros n E%(f_equal length). rewrite length_app in E. cbn in E. lia. }
  destruct (create_ok fs2 live im) as (b & fs3 & U & Ec & HU & Hpath & Hdisk & Hinner); [done| |done|].
  { by rewrite (holds_copy Db fs p fs2 live). }
  exists (MkRocks (inner b) (rpath b) true (rdisk b)), fs3. split; [|split; [done|]].
  - unfold Rocks.restore. erewrite bind_ok by exact E1. erewrite bind_ok by exact Er0. cbv beta iota.
    erewrite bind_ok by exact Er. erewrite bind_ok by exact E2. by erewrite bind_ok by exact Ec.
  - exists U. split; [done|]. cbn. case_decide; [done|]. destruct Hinner as [<- Hi]. rewrite Hpath, Hdisk.
    split; [done|]. split; [|done]. by rewrite (holds_copy Db fs p fs3 live).
Qed.

(** ** Registering the states of a restored backend *)

Definition create_all (l : list (string * Options)) : StateM (Rocks Db) unit :=
  for_each (λ x, Rocks.create_column_family x.1 x.2) l.
Definition known_with (K : gmap string Options) (l : list (string * Options)) : gmap string Options :=
  foldl (λ K x, <[x.1 := x.2]> K) K l.

Lemma known_with_lookup K l n :
  n ∉ l.*1 → known_with K l !! n = K !! n.
Proof using All.
  revert K. induction l as [|x l IH]; intros K Hn; [done|]. cbn in Hn |- *. rewrite IH by set_solver.
  apply lookup_insert_ne. set_solver.
Qed.
Lemma known_with_elem K l n o : NoDup l.*1 → (n, o) ∈ l → known_with K l !! n = Some o.
Proof using All.
  revert K. induction l as [|x l IH]; intros K Hnd Hin; [by apply not_elem_of_nil in Hin|].
  cbn in Hnd |- *. apply NoDup_cons in Hnd as [Hx Hnd]. apply elem_of_cons in Hin as [<-|Hin]; [|by apply IH].
  change (known_with (<[n:=o]> K) l !! n = Some o). rewrite known_with_lookup by done. apply lookup_insert_eq.
Qed.

(** As long as a column family is unknown, a registration only moves one to the known ones. *)
Lemma create_known b U K l :
  inner b = Uninitialized U K → NoDup l.*1 → (∀ n, n ∈ l.*1 → K !! n = None) → (∃ n, n ∈ U ∧ n ∉ l.*1) →
  create_all l b =
    (Ok tt, MkRocks (Uninitialized (U ∖ list_to_set l.*1) (known_with K l)) (rpath b) (rrestored b) (rdisk b)).
Proof using All.
  revert b U K. induction l as [|[n o] l IH]; intros [i p r fs] U K Hi Hnd HK [m [HmU Hml]]; cbn in Hi |- *; subst i.
  { by rewrite difference_empty_L. }
  cbn in Hnd, Hml. apply NoDup_cons in Hnd as [Hn Hnd].
  set (b' := MkRocks (Uninitialized (U ∖ {[n]}) (<[n := o]> K)) p r fs).
  assert (Rocks.create_column_family n o (MkRocks (Uninitialized U K) p r fs) = (Ok tt, b')) as E.
  { unfold Rocks.create_column_family, gets, mbind, M_bind. cbn [inner].
    rewrite decide_False by (rewrite HK by set_solver; by intros [? ?]). cbn.
    rewrite decide_False by set_solver. done. }
  erewrite bind_ok by exact E. unfold create_all in IH. rewrite (IH b' (U ∖ {[n]}) (<[n := o]> K)); [|done|done| |].
  - cbn. do 3 f_equal. set_solver.
  - intros n' Hn'. rewrite lookup_insert_ne by set_solver. apply HK. set_solver.
  - exists m. set_solver.
Qed.

(** The registration of the last one opens the database. *)
Lemma create_last b n K o :
  inner b = Uninitialized {[n]} K → K !! n = None →
  Rocks.create_column_family n o b =
    (let '(db, fs) := open_cf_descriptors (create_if_missing true Options_default) (rpath b)
      (map_to_list (<[n := o]> K)) (rdisk b) in
     match db with
     | Ok db => (Ok tt, MkRocks (Initialized (MkInitialized db (<[n := o]> K))) (rpath b) (rrestored b) fs)
     | Err _ => (Err RocksError, MkRocks (Uninitialized ∅ ∅) (rpath b) (rrestored b) fs)
     | Panic msg => (Panic msg, MkRocks (Uninitialized ∅ ∅) (rpath b) (rrestored b) fs)
     | Diverge => (Diverge, MkRocks (Uninitialized ∅ ∅) (rpath b) (rrestored b) fs)
     end).
Proof using All.
  intros Hi HK. destruct b as [i p r fs]. cbn in Hi. subst i.
  unfold Rocks.create_column_family, gets, mbind, M_bind. cbn [inner].
  rewrite decide_False by (rewrite HK; by intros [? ?]). cbn [Rocks.set_inner modify].
  unfold Rocks.set_inner, modify. rewrite difference_diag_L, decide_True by done.
  unfold Rocks.initialize, gets, mbind, M_bind. cbn [inner rpath]. rewrite decide_True by done.
  unfold Rocks.set_inner, modify, mret, M_ret, Rocks.on_rdisk, zoom, rocks_try, on_outcome. cbn [rpath rrestored rdisk inner].
  destruct (open_cf_descriptors _ _ _ _) as [[db| | |] fs']; cbn [map_err]; [|done..].
  by rewrite list_to_map_to_list.
Qed.

Section awaiting.
Context (im : Image) b (Hb : awaits im b) (Hdef : is_Some (im !! "default")).

(** Before the last registration every operation reports the column families that are missing. *)
Lemma uninitialized_until l1 x l2 :
  NoDup (l1 ++ x :: l2).*1 → (∀ n, n ∈ (l1 ++ x :: l2).*1 ↔ n ≠ "default" ∧ is_Some (im !! n)) →
  ∃ b1 names, create_all l1 b = (Ok tt, b1) ∧ (∀ n, n ∈ names ↔ n ∈ (x :: l2).*1) ∧
    ∀ A (op : M (InitializedRocksDb Db) ArconStateError A), Rocks.initialized op b1 = (Err (RocksUninitialized names), b1).
Proof using All.
  intros Hnd Hl. destruct Hb as (U & HU & Hi); unfold named in HU. rewrite fmap_app in Hnd, Hl. cbn in Hnd, Hl.
  assert (x.1 ∈ U) as HxU by (apply HU, Hl; set_solver). rewrite decide_False in Hi by set_solver. destruct Hi as (_ & _ & Hi).
  apply NoDup_app in Hnd as (Hnd1 & Hdisj & Hnd2).
  eexists _, (elements (U ∖ list_to_set l1.*1)). split.
  { apply (create_known b U {["default" := Options_default]}); [done|done| |].
    - intros n Hn. apply lookup_singleton_ne. intros <-. destruct (proj1 (Hl "default") ltac:(set_solver)). done.
    - exists x.1. split; [done|]. intros Hin. apply (Hdisj _ Hin). set_solver. }
  split; [|done]. intros n. rewrite elem_of_elements, elem_of_difference, elem_of_list_to_set, HU, <- Hl. cbn.
  specialize (Hdisj n). set_solver.
Qed.

Lemma known_with_app K l x : known_with K (l ++ [x]) = <[x.1 := x.2]> (known_with K l).
Proof using Type. unfold known_with. by rewrite foldl_app. Qed.
(** The state before the last registration. *)
Lemma before_last l n o :
  NoDup (l ++ [(n, o)]).*1 → "default" ∉ (l ++ [(n, o)]).*1 →
  (∀ m, m ≠ "default" → is_Some (im !! m) → m ∈ (l ++ [(n, o)]).*1) → is_Some (im !! n) →
  ∃ b1, create_all l b = (Ok tt, b1) ∧ inner b1 = Uninitialized {[n]} (known_with {["default" := Options_default]} l) ∧
    known_with {["default" := Options_default]} l !! n = None ∧
    rdisk b1 !! rpath b1 = Some Dir ∧ holds (rdisk b1) (rpath b1) = Some im.
Proof using All.
  intros Hnd Hnodef Hall Hn. destruct Hb as (U & HU & Hi); unfold named in HU. rewrite fmap_app in Hnd, Hnodef, Hall. cbn in Hnd, Hnodef, Hall.
  assert (n ∈ U) as HnU by (apply HU; set_solver). rewrite decide_False in Hi by set_solver. destruct Hi as (Hd & Him & Hi).
  apply NoDup_app in Hnd as (Hnd1 & Hdisj & _).
  assert (n ∉ l.*1) as Hnl by by intros Hin; apply (Hdisj _ Hin); set_solver.
  assert (U ∖ list_to_set l.*1 = {[n]}) as HU1.
  { apply set_eq. intros m. rewrite elem_of_difference, elem_of_list_to_set, elem_of_singleton, HU.
    split; [intros [[Hm Hs] Hml]; specialize (Hall m Hm Hs); set_solver|]. intros ->. split; [by apply HU|done]. }
  eexists. split.
  { apply (create_known b U {["default" := Options_default]}); [done|done| |by exists n].
    intros m Hm. apply lookup_singleton_ne. intros <-. set_solver. }
  cbn. rewrite HU1. split; [done|]. split; [|done]. rewrite known_with_lookup by done.
  apply lookup_singleton_ne. intros <-. set_solver.
Qed.

(** After the last one the entries of the checkpoint are there. *)
Lemma registered_all l :
  NoDup l.*1 → (∀ n, n ∈ l.*1 ↔ n ≠ "default" ∧ is_Some (im !! n)) →
  ∃ b3, create_all l b = (Ok tt, b3) ∧ backend_ok b3 ∧
    ∀ n o e, (n, o) ∈ l → im !! n = Some e → region b3 n = Some (MkKv e (o, Some o)).
Proof using All.
  intros Hnd Hl. destruct l as [|[n o] l _] using rev_ind.
  { destruct Hb as (U & HU & Hi); unfold named in HU. rewrite decide_True in Hi.
    - destruct Hi as (i & Hi & Hh & _). exists b. split; [done|]. split; [|intros n o e []%not_elem_of_nil].
      unfold backend_ok. cbn. unfold rocks_ok. by rewrite Hi.
    - apply set_eq. intros n. rewrite HU, <- Hl. cbn. set_solver. }
  destruct (before_last l n o Hnd) as (b1 & E1 & Hi1 & HK & Hd1 & Him1).
  { intros Hin%Hl. by destruct Hin. }
  { intros m Hm Hs. by apply Hl. }
  { apply Hl. rewrite fmap_app. set_solver. }
  set (K := known_with {["default" := Options_default]} l) in *.
  assert (HKl : ∀ m, is_Some (<[n := o]> K !! m) ↔ is_Some (im !! m)).
  { intros m. unfold K. change (<[n := o]> ?X) with (<[(n, o).1 := (n, o).2]> X). rewrite <- known_with_app.
    destruct (decide (m ∈ (l ++ [(n, o)]).*1)) as [Hm|Hm].
    - pose proof Hm as ([m' o'] & -> & Hin)%list_elem_of_fmap. erewrite known_with_elem by done. apply Hl in Hm as [_ ?].
      cbn. split; eauto.
    - rewrite known_with_lookup by done. rewrite Hl in Hm. destruct (decide (m = "default")) as [->|Hne].
      + rewrite lookup_singleton_eq. split; eauto.
      + rewrite lookup_singleton_ne by done. split; [by intros [? ?]|]. naive_solver. }
  destruct (open_law Db (create_if_missing true Options_default) (rpath b1) (rdisk b1) im (map_to_list (<[n := o]> K)) Hd1 Him1)
    as (d & fs & Eo & Hd & Hcf); [apply NoDup_fst_map_to_list| |done|].
  { intros m. rewrite <- HKl. rewrite list_elem_of_fmap. split.
    - intros ([m' o'] & -> & Hin%elem_of_map_to_list). eauto.
    - intros [o' Ho']. exists (m, o'). by rewrite elem_of_map_to_list. }
  exists (MkRocks (Initialized (MkInitialized d (<[n := o]> K))) (rpath b1) (rrestored b1) fs). split; [|split; [exact Hd|]].
  - unfold create_all. rewrite for_each_app. erewrite bind_ok by exact E1. cbn [for_each].
    erewrite bind_ok; [done|]. cbn [fst snd]. rewrite (create_last b1 n K o) by done. by rewrite Eo.
  - intros m o' e Hin He. erewrite region_initialized by done. unfold region_of. cbn [rdb options].
    assert (<[n := o]> K !! m = Some o') as HKm.
    { unfold K. change (<[n := o]> ?X) with (<[(n, o).1 := (n, o).2]> X). rewrite <- known_with_app. by apply known_with_elem. }
    assert (m ≠ "default") as Hmd by (apply Hl, list_elem_of_fmap; by exists (m, o')).
    unfold remembered. cbn [options]. rewrite (Hcf m o'), He, decide_False, HKm by (done || by apply elem_of_map_to_list). done.
Qed.

(** A state that the checkpoint does not have, registered before the last one of those it has, makes
    that last registration panic: its column family is not there, and is not created either. *)
Lemma new_state_first {S IK N} `{FixedBytes IK, FixedBytes N} (h : Handle S IK N) l new o :
  NoDup (l ++ [(h_id h, o)]).*1 → "default" ∉ (l ++ [(h_id h, o)]).*1 →
  (∀ m, m ≠ "default" → is_Some (im !! m) → m ∈ (l ++ [(h_id h, o)]).*1) → is_Some (im !! h_id h) →
  new ∈ l.*1 → im !! new = None →
  ∃ b1 b2, create_all l b = (Ok tt, b1) ∧
    Rocks.register h o b1 = (Panic "Could not create column family", b2).
Proof using All.
  intros Hnd Hnodef Hall Hn Hnew Him. destruct (before_last l _ o Hnd Hnodef Hall Hn) as (b1 & E1 & Hi1 & HK & Hd1 & Him1).
  set (K := known_with {["default" := Options_default]} l) in *.
  assert (new ∈ (map_to_list (<[h_id h := o]> K)).*1) as Hin.
  { apply list_elem_of_fmap in Hnew as ([new' o'] & -> & Hin). cbn in Him |- *. apply list_elem_of_fmap. exists (new', o').
    split; [done|]. apply elem_of_map_to_list. rewrite lookup_insert_ne by (intros <-; rewrite Him in Hn; by destruct Hn).
    unfold K. apply known_with_elem; [|done]. rewrite fmap_app in Hnd. by apply NoDup_app in Hnd as [? _]. }
  destruct (open_missing_law Db (create_if_missing true Options_default) (rpath b1) (rdisk b1) im _ new Hd1 Him1 Hin Him) as (e & fs & Eo).
  eexists b1, _. split; [done|]. unfold Rocks.register. apply bind_panic. unfold on_outcome.
  rewrite (create_last b1 (h_id h) K o) by done. by rewrite Eo.
Qed.
End awaiting.
End rocks.
