(* ===== verification/RocksProperties.v ===== *)
(** What the RocksDB backend promises, with a concrete database that behaves as RocksDB documents. *)

From S2P Require Import Prelude Error Serialization Files StateBackend Tables ByteStore BackendLaws Restore Rocks RocksSpec RocksOps RocksBackend RocksRestore.

Section properties.
Context `{BuildProfile} {Db : Type} `{RocksLaws Db}.
Implicit Types (b : Rocks Db).

(** C14: Over a database that behaves as RocksDB documents, every operation of the RocksDB backend meets the
    contract that the in-memory backend meets, for the reducers and aggregators whose merges may be
    grouped, and for the maps whose metakeys can be cleared. *)
Theorem rocks_implements_backend :
  BackendSpec (Rocks Db) ∧
  ∀ K V IK N `{Key K, !MessageLaws K, EqDecision K, !Countable K, Value V, Metakey IK, Metakey N, !ClearableMetakeys IK N},
    MapSpec (Rocks Db) K V IK N.
Proof using All. split; [apply _|]. intros. apply _. Qed.

(** Clearing a map whose metakeys end in the byte 255 panics in a debug build.  In a release build the
    incremented byte wraps, and the range of keys that is deleted is empty. *)
Theorem rocks_map_clear_overflows {K V IK N} `{Key K, Value V, Metakey IK, Metakey N} (h : Handle (MapState K V) IK N) b r q :
  registered h = true → region b (h_id h) = Some r → metakeys h = q ++ [255] →
  (overflow_checks = true → ActiveMap.clear h b = (Panic "attempt to add with overflow", b)) ∧
  (overflow_checks = false → ∃ end_, Rocks.increment_last (metakeys h) = Ok end_ ∧ ∀ key, in_range (metakeys h) end_ key = false).
Proof using All.
  intros Hreg Hr Hmk. assert (∀ l, Rocks.increment_last (l ++ [255]) =
    (x ← u_add 8 255 1; Ok (l ++ [x]) : StateResult bytes)) as Hinc.
  { induction l as [|y l IH]; [done|]. cbn [Rocks.increment_last app].
    destruct (l ++ [255]) eqn:E; [by destruct l|]. rewrite IH. by destruct (u_add 8 255 1). }
  split; intros Hoc.
  - unfold ActiveMap.clear, activate. rewrite Hreg. unfold mbind at 1, M_bind at 1. cbn. unfold Rocks.map_clear.
    unfold mbind at 1, M_bind at 1, lift at 1. rewrite serialize_metakeys_ok, Hmk. unfold Rocks.remove_prefix, Rocks.i_remove_prefix.
    destruct (q ++ [255]) eqn:E; [by destruct q|]. rewrite <- E.
    destruct (initialized_cf b (h_id h) r Hr) as (i & cf & r' & Hi & _ & _ & _ & _ & Hk). rewrite Hk.
    unfold Rocks.initialized. rewrite Hi, Hinc. unfold u_add, wrapping_or_panic. rewrite Hoc. cbn.
    destruct b as [inn ? ? ?]. cbn in Hi. by subst inn.
  - rewrite Hmk, Hinc. unfold u_add, wrapping_or_panic. rewrite Hoc. exists (q ++ [0]). split; [done|].
    intros key. clear -key. revert key. unfold in_range. induction q as [|y q IH]; intros [|z key]; cbn; try done.
    + destruct (Z.ltb_spec z 0); [by rewrite (proj2 (Z.ltb_lt z 255)) by lia|].
      destruct (Z.eqb_spec z 0); cbn; [by rewrite (proj2 (Z.ltb_lt z 255)) by lia|]. by rewrite andb_false_r.
    + destruct (z <? y), (z =? y); cbn; [done..|apply IH|done].
Qed.

Section restoring.
Context `{RocksFiles, !RocksFilesLaws Db}.

(** C15: A backend that is restored from a checkpoint waits until the states that the checkpoint holds are
    registered: before that every operation fails and names those that are missing, and with the
    last registration every state holds what it held when the checkpoint was made. *)
Theorem rocks_restores_checkpoint cp live b :
  let p := path_from cp in
  backend_ok b → nothing_under p (rdisk b) → parent_is_dir p (rdisk b) = true →
  live ≠ [] → nothing_under live (rdisk b) → (∀ q c, q ∈ ancestors [] live → rdisk b !! q ≠ Some (File c)) →
  take (length p) live ≠ p → take (length live) p ≠ live →
  ∃ b' b'' fs, checkpoint cp b = (Ok tt, b') ∧ same_data b b' ∧
    Rocks.restore live p (rdisk b') = (Ok b'', fs) ∧ was_restored b'' = true ∧
    ∀ l : list (string * Options), NoDup l.*1 → (∀ n, n ∈ l.*1 ↔ n ≠ "default" ∧ is_Some (region b n)) →
      (∀ l1 x l2, l = l1 ++ x :: l2 → ∃ b1 names, create_all l1 b'' = (Ok tt, b1) ∧ (∀ n, n ∈ names ↔ n ∈ (x :: l2).*1) ∧
        ∀ A (op : M (InitializedRocksDb Db) ArconStateError A),
          Rocks.initialized op b1 = (Err (RocksUninitialized names), b1)) ∧
      ∃ b3, create_all l b'' = (Ok tt, b3) ∧ backend_ok b3 ∧
        ∀ n o r, (n, o) ∈ l → region b n = Some r → region b3 n = Some (MkKv (kv_entries r) (o, Some o)).
Proof using All.
  intros p Hb Hp Hparent Hne Hlive Hanc Hpl Hlp.
  unfold backend_ok in Hb. cbn in Hb. unfold rocks_ok in Hb. destruct (inner b) as [i|] eqn:Hi; [|done].
  destruct (checkpoint_files cp b i Hi Hb Hp Hparent) as (b' & im & E & Hsame & Hflat & Hout & Him & Hcf).
  assert (∀ n, im !! n = kv_entries <$> rocks_region b n) as Hreg.
  { intros n. pose proof (region_initialized b i n Hi Hb) as Hr. cbn in Hr. rewrite Hr. unfold region_of. rewrite Hcf. by destruct (column_family (rdb i) n). }
  assert (is_Some (im !! "default")) as Hdef by (rewrite Hcf; by apply fmap_is_Some, default_cf).
  destruct (restore_ok (rdisk b') live p im) as (b'' & fs & Er & Hrest & Haw); [done..| | |done|].
  { intros q Hq. rewrite Hout; [by apply Hlive|]. intros Hqp. rewrite take_prefix in *.
    by destruct (prefix_weak_total _ _ _ Hq Hqp). }
  { intros q c Hq. rewrite Hout; [by apply Hanc|]. intros Hqp. apply ancestors_prefix in Hq as [Hq _]. cbn in Hq.
    rewrite take_prefix in *. apply Hpl. by etransitivity. }
  exists b', b'', fs. do 3 (split; [done|]). split; [exact Hrest|]. intros l Hnd Hl.
  assert (∀ n, n ∈ l.*1 ↔ n ≠ "default" ∧ is_Some (im !! n)) as Hl'.
  { intros n. by rewrite Hl, Hreg, fmap_is_Some. }
  split.
  - intros l1 x l2 ->. by apply (uninitialized_until im b'' Haw Hdef).
  - destruct (registered_all im b'' Haw Hdef l Hnd Hl') as (b3 & E3 & Hok & Hr3). exists b3. do 2 (split; [done|]).
    intros n o r Hin Hr. apply Hr3; [done|]. rewrite Hreg. cbn in Hr. by rewrite Hr.
Qed.

(** A restored backend cannot take up a state that the checkpoint does not have before those it has: the
    registration of the last one of those panics, because the new column family is not there. *)
Theorem rocks_new_state_panics {S : StateType} {IK N : Type} `{FixedBytes IK, FixedBytes N} (fs : Fs) (live p : path)
    (im : gmap string (gmap bytes bytes)) (h : Handle S IK N) (l : list (string * Options)) (new : string) (o : Options) :
  flat_dir p fs → holds fs p = Some im → is_Some (im !! "default") →
  live ≠ [] → nothing_under live fs → (∀ q c, q ∈ ancestors [] live → fs !! q ≠ Some (File c)) → take (length p) live ≠ p →
  NoDup (l ++ [(h_id h, o)]).*1 → "default" ∉ (l ++ [(h_id h, o)]).*1 →
  (∀ m, m ≠ "default" → is_Some (im !! m) → m ∈ (l ++ [(h_id h, o)]).*1) → is_Some (im !! h_id h) →
  new ∈ l.*1 → im !! new = None →
  ∃ (b b1 b2 : Rocks Db) fs', Rocks.restore live p fs = (Ok b, fs') ∧ create_all l b = (Ok tt, b1) ∧
    Rocks.register h o b1 = (Panic "Could not create column family", b2).
Proof using All.
  intros Hflat Him Hdef Hne Hlive Hanc Hpl Hnd Hnodef Hall Hh Hnew Hnone.
  destruct (restore_ok fs live p im) as (b & fs' & Er & _ & Haw); [done..|].
  destruct (new_state_first im b Haw Hdef h l new o Hnd Hnodef Hall Hh Hnew Hnone) as (b1 & b2 & E1 & E2).
  by exists b, b1, b2, fs'.
Qed.
End restoring.
End properties.

(** ** A database in memory *)

Record MemOptions : Type := MkMemOptions { mem_prefix : option nat; mem_merge : option MergeFn }.
Record MemRocks : Type := MkMemRocks { families : gmap string (KvRegion MemOptions) }.
Inductive BatchOp : Type :=
| Put (cf : string) (k v : bytes)
| DeleteRange (cf : string) (start end_ : bytes).

Definition mem_alter {A} (cf : string) (f : KvRegion MemOptions → outcome string A * KvRegion MemOptions) : M MemRocks string A := λ d,
  match families d !! cf with
  | Some r => let '(o, r') := f r in (o, MkMemRocks (<[cf := r']> (families d)))
  | None => (Err "no such column family", d)
  end.
Definition mem_update (cf : string) (f : gmap bytes bytes → gmap bytes bytes) : M MemRocks string unit :=
  mem_alter cf (λ r, (Ok tt, MkKv (f (kv_entries r)) (kv_config r))).
Definition mem_merge_op (cf : string) (k v : bytes) : M MemRocks string unit :=
  mem_alter cf (λ r,
    match mem_merge (kv_config r) with
    | Some f =>
        match f k (kv_entries r !! k) [v] with
        | Ok (Some x) => (Ok tt, MkKv (<[k := x]> (kv_entries r)) (kv_config r))
        | _ => (Err "merge failed", r)
        end
    | None => (Err "no merge operator", r)
    end).
Definition op_effect (n : string) (op : BatchOp) (t : gmap bytes bytes) : gmap bytes bytes :=
  match op with
  | Put cf k v => if decide (n = cf) then <[k := v]> t else t
  | DeleteRange cf start end_ => if decide (n = cf) then filter (λ kv, in_range start end_ kv.1 = false) t else t
  end.
Definition mem_batch_effect (wb : list BatchOp) (n : string) (t : gmap bytes bytes) : gmap bytes bytes :=
  foldr (op_effect n) t wb.
Definition mem_write (wb : list BatchOp) : M MemRocks string unit := λ d,
  (Ok tt, MkMemRocks (map_imap (λ n r, Some (MkKv (mem_batch_effect wb n (kv_entries r)) (kv_config r))) (families d))).

(** The files of a database are one file with everything in it. *)
Definition DB_FILE : string := "CURRENT".
Abbreviation Image := (gmap string (gmap bytes bytes)).
Definition mem_holds : RocksFiles := λ fs p,
  match file_at p fs DB_FILE with Some [Zpos image] => decode image | _ => None end.
Definition mem_create_checkpoint (image : Image) (p : path) : M Fs string unit := λ fs,
  if parent_is_dir p fs then (Ok tt, <[p ++ [DB_FILE] := File [Zpos (encode image)]]> (<[p := Dir]> fs))
  else (Err "no such directory", fs).
Definition mem_list_cf (p : path) : M Fs string (list string) := λ fs,
  match mem_holds fs p with
  | Some im => (Ok (map_to_list im).*1, fs)
  | None => (Err "No such file or directory", fs)
  end.
Definition mem_open (p : path) (cfds : list (string * MemOptions)) : M Fs string MemRocks := λ fs,
  let im := default {["default" := ∅]} (mem_holds fs p) in
  if decide (Forall (λ cfd, is_Some (im !! cfd.1)) cfds) then
    (Ok (MkMemRocks (list_to_map ((λ cfd, (cfd.1, MkKv (default ∅ (im !! cfd.1)) cfd.2)) <$> cfds))), fs)
  else (Err "Column family not found", fs).

#[local] Instance MemRocks_api : RocksApi MemRocks := {
  Options := MemOptions;
  Options_default := MkMemOptions None None;
  create_if_missing _ o := o;
  set_prefix_extractor n o := MkMemOptions (Some n) (mem_merge o);
  set_merge_operator_associative _ f o := MkMemOptions (mem_prefix o) (Some f);
  WriteOptions := unit;
  WriteOptions_default := tt;
  disable_wal _ _ := tt;
  ColumnFamily := string;
  cf_handle n d := (λ _, n) <$> families d !! n;
  get_pinned_cf cf k := mem_alter cf (λ r, (Ok (kv_entries r !! k), r));
  put_cf_opt cf k v _ := mem_update cf (insert k v);
  delete_cf_opt cf k _ := mem_update cf (delete k);
  merge_cf_opt cf k v _ := mem_merge_op cf k v;
  prefix_iterator_cf cf prefix := mem_alter cf (λ r, (Ok (filter (is_under prefix) (map_to_list (kv_entries r))), r));
  drop_cf n d := (Ok tt, MkMemRocks (delete n (families d)));
  create_cf n o d := (Ok tt, MkMemRocks (<[n := MkKv ∅ o]> (families d)));
  WriteBatch := list BatchOp;
  WriteBatch_default := [];
  wb_put_cf cf k v wb := Ok (Put cf k v :: wb);
  wb_delete_range_cf cf start end_ wb := Ok (DeleteRange cf start end_ :: wb);
  write_opt wb _ := mem_write wb;
  flush := mret tt;
  Checkpoint := Image;
  Checkpoint_new d := Ok (kv_entries <$> families d);
  create_checkpoint := mem_create_checkpoint;
  list_cf _ := mem_list_cf;
  open_cf_descriptors _ := mem_open;
}.
#[local] Instance MemRocks_view : RocksView MemRocks := {|
  healthy d := bool_decide (is_Some (families d !! "default"));
  cf_name cf := cf;
  column_family d n := families d !! n;
  prefix_of := mem_prefix;
  operator_of := mem_merge;
  wb_effect := mem_batch_effect;
|}.
#[local] Existing Instance mem_holds.

Lemma mem_alter_becomes {A} (d : MemRocks) cf r (f : KvRegion MemOptions → outcome string A * KvRegion MemOptions) o r' :
  healthy d = true → families d !! cf = Some r → f r = (o, r') →
  ∃ d', mem_alter cf f d = (o, d') ∧ becomes d d' cf (Some r').
Proof.
  cbn. rewrite bool_decide_eq_true. intros Hd Hr Hf. unfold mem_alter. rewrite Hr, Hf. eexists. split; [done|].
  split; [|split; [apply lookup_insert_eq|intros n Hne; by apply lookup_insert_ne]].
  cbn. apply bool_decide_eq_true. destruct (decide (cf = "default")) as [->|Hne].
  - rewrite lookup_insert_eq. eauto.
  - by rewrite lookup_insert_ne.
Qed.
Lemma becomes_same (d d' : MemRocks) n r :
  families d !! n = Some r → becomes d d' n (Some r) → keeps d d'.
Proof.
  intros Hr (Hh & Hn & Ho). split; [done|]. intros m. destruct (decide (m = n)) as [->|Hne]; [|by apply Ho].
  by etransitivity; [exact Hn|].
Qed.
#[local] Instance MemRocks_laws : RocksLaws MemRocks.
Proof.
  split; try done.
  - intros d n _. cbn. destruct (families d !! n) eqn:E; cbn; [|done]. split; [done|eauto].
  - intros d cf r k Hd Hr. destruct (mem_alter_becomes d cf r (λ r, (Ok (kv_entries r !! k), r)) _ _ Hd Hr eq_refl)
      as (d' & E & Hb). exists d'. split; [exact E|]. exact (becomes_same d d' cf r Hr Hb).
  - intros d cf r k v o Hd Hr.
    exact (mem_alter_becomes d cf r (λ r, (Ok tt, MkKv (<[k := v]> (kv_entries r)) (kv_config r))) _ _ Hd Hr eq_refl).
  - intros d cf r k o Hd Hr.
    exact (mem_alter_becomes d cf r (λ r, (Ok tt, MkKv (delete k (kv_entries r)) (kv_config r))) _ _ Hd Hr eq_refl).
  - intros d cf r k v o f x Hd Hr Hf _ Hx. eapply (mem_alter_becomes d cf r _ _ _ Hd Hr).
    cbn in Hf, Hx |- *. by rewrite Hf, Hx.
  - intros d cf r prefix Hd Hr _ _.
    destruct (mem_alter_becomes d cf r (λ r, (Ok (filter (is_under prefix) (map_to_list (kv_entries r))), r)) _ _ Hd Hr eq_refl)
      as (d' & E & Hb). eexists _, d'. split; [exact E|]. split; [exact (becomes_same d d' cf r Hr Hb)|done].
  - intros d. cbn. by rewrite bool_decide_eq_true.
  - intros d n. cbn. rewrite bool_decide_eq_true. intros Hd Hne _. eexists. split; [done|]. split; [|split].
    + cbn. by rewrite lookup_delete_ne, bool_decide_eq_true_2.
    + apply lookup_delete_eq.
    + intros n' Hn'. by apply lookup_delete_ne.
  - intros d n o. cbn. rewrite bool_decide_eq_true. intros Hd Hn. eexists. split; [done|]. split; [|split].
    + cbn. rewrite lookup_insert_ne by (intros ->; rewrite Hn in Hd; by destruct Hd). by apply bool_decide_eq_true_2.
    + apply lookup_insert_eq.
    + intros n' Hn'. by apply lookup_insert_ne.
  - intros cf k v wb. eexists. split; [done|]. intros n t. done.
  - intros cf start end_ wb _. eexists. split; [done|]. split.
    + intros n t Hne. cbn. by rewrite decide_False.
    + intros t k. cbn. rewrite decide_True, map_lookup_filter by done. fold (mem_batch_effect wb cf t).
      destruct (mem_batch_effect wb cf t !! k), (in_range start end_ k) eqn:E; cbn; try case_guard; cbn; congruence.
  - intros d wb o. cbn. rewrite bool_decide_eq_true. intros Hd _. eexists. split; [done|]. split.
    + apply bool_decide_eq_true. cbn. rewrite map_lookup_imap. destruct Hd as [r ->]. cbn. eauto.
    + intros n. cbn. rewrite map_lookup_imap. by destruct (families d !! n).
  - intros d Hd. by exists d.
  - intros d Hd. eauto.
  - intros c p fs. cbn. unfold mem_create_checkpoint. case_match; eauto 6.
Qed.
#[local] Instance MemRocks_files : RocksFilesLaws MemRocks.
Proof.
  split.
  - intros fs p fs' p' _ _ Hf. unfold holds, mem_holds. by rewrite Hf.
  - intros d c p fs Hd [= <-] Hp Hparent. eexists _, (kv_entries <$> families d). split.
    { cbn. unfold mem_create_checkpoint. by rewrite Hparent. }
    assert (p ≠ p ++ [DB_FILE]) as Hne by (intros E%(f_equal length); rewrite length_app in E; cbn in E; lia).
    split; [|split; [|split]].
    + split; [by rewrite lookup_insert_ne, lookup_insert_eq|].
      intros q node [[<- <-]|[_ [[<- _]|[_ Hq]]%lookup_insert_Some]]%lookup_insert_Some; [eauto..|].
      intros Hu. by rewrite Hp in Hq.
    + intros q Hq. rewrite !lookup_insert_ne; [done| |]; intros <-; [by rewrite firstn_all in Hq|by rewrite take_app_length in Hq].
    + unfold holds, mem_holds, file_at. rewrite lookup_insert_eq. by rewrite decode_encode.
    + intros n. cbn. by rewrite lookup_fmap.
  - intros o p fs im _ Him. eexists. cbn. unfold mem_list_cf. unfold holds in Him. rewrite Him. split; [done|].
    intros n. rewrite list_elem_of_fmap. split.
    + intros ([m e] & -> & Hin%elem_of_map_to_list). eauto.
    + intros [e He]. exists (n, e). by rewrite elem_of_map_to_list.
  - intros o p fs im cfds _ Him Hnd Hdom Hdef. unfold holds in Him. eexists _, fs. cbn. unfold mem_open. rewrite Him. cbn [default].
    rewrite decide_True; [split; [done|]|].
    + assert (∀ n o', (n, o') ∈ cfds →
        (list_to_map ((λ cfd, (cfd.1, MkKv (default ∅ (im !! cfd.1)) cfd.2)) <$> cfds) : gmap string (KvRegion MemOptions)) !! n
        = (λ e, MkKv e o') <$> im !! n) as Hcf.
      { intros n o' Hin. assert (is_Some (im !! n)) as [e He] by (apply Hdom, list_elem_of_fmap; by exists (n, o')).
        rewrite He. apply elem_of_list_to_map_1; [by rewrite <- list_fmap_compose|].
        apply list_elem_of_fmap. exists (n, o'). cbn. by rewrite He. }
      cbn. split; [|exact Hcf]. apply bool_decide_eq_true. pose proof (proj2 (Hdom "default") Hdef) as ([n o'] & E & Hin)%list_elem_of_fmap.
      cbn in E. subst n. destruct Hdef as [e He]. exists (MkKv e o'). etransitivity; [exact (Hcf _ _ Hin)|]. by rewrite He.
    + apply Forall_forall. intros [n o'] Hin. apply Hdom, list_elem_of_fmap. by exists (n, o').
  - intros o p fs im cfds n _ Him Hn Hnone. unfold holds in Him. cbn. unfold mem_open. rewrite Him. cbn [default].
    rewrite decide_False; [eauto|]. rewrite Forall_forall. intros Hall.
    apply list_elem_of_fmap in Hn as ([n' o'] & -> & Hin). apply Hall in Hin. cbn in Hin, Hnone. rewrite Hnone in Hin. by destruct Hin.
Qed.

(** ** Concrete inputs *)

#[local] Instance debug_profile : BuildProfile := true.
#[local] Instance rocks_u64 : Value u64 := countable_Value 1.

Example rocks_implements_backend_witness :
  BackendSpec (Rocks MemRocks) ∧
  ∀ K V IK N `{Key K, !MessageLaws K, EqDecision K, !Countable K, Value V, Metakey IK, Metakey N, !ClearableMetakeys IK N},
    MapSpec (Rocks MemRocks) K V IK N.
Proof. exact (rocks_implements_backend (Db:=MemRocks)). Defined.

(** A map with the namespace -1, whose encoding is four bytes 255. *)
Definition negative_namespace : Handle (MapState u64 u64) unit (sint 4) :=
  set_registered (with_namespace (map_handle u64 u64 "state") (SInt (-1))).
Definition state_options : MemOptions := MkMemOptions (Some 4%nat) None.
Definition example_rocks : Rocks MemRocks :=
  MkRocks (Initialized (MkInitialized (MkMemRocks
    (<["state" := MkKv {[ [255; 255; 255; 255; 1] := [2] ]} state_options]> {["default" := MkKv ∅ (MkMemOptions None None)]}))
    {["state" := state_options]})) ["live"] false ∅.
Example rocks_map_clear_overflows_witness :
  ActiveMap.clear negative_namespace example_rocks = (Panic "attempt to add with overflow", example_rocks).
Proof.
  refine (proj1 (rocks_map_clear_overflows negative_namespace example_rocks
    (MkKv {[ [255; 255; 255; 255; 1] := [2] ]} (state_options, Some state_options)) [255; 255; 255] _ _ _) _); done.
Defined.

Example rocks_restores_checkpoint_witness :
  ∃ b' b'' fs, checkpoint "cp" example_rocks = (Ok tt, b') ∧
    Rocks.restore ["live"] ["cp"] (rdisk b') = (Ok b'', fs) ∧ was_restored b'' = true ∧
    (∃ names, Rocks.get "state" [] b'' = (Err (RocksUninitialized names), b'') ∧ ∀ n, n ∈ names ↔ n ∈ ["state"]) ∧
    ∃ b3, create_all [("state", state_options)] b'' = (Ok tt, b3) ∧
      region b3 "state" = Some (MkKv {[ [255; 255; 255; 255; 1] := [2] ]} (state_options, Some state_options)).
Proof.
  destruct (rocks_restores_checkpoint "cp" ["live"] example_rocks)
    as (b' & b'' & fs & E1 & _ & E2 & Hrestored & Hstates); [done|by intros q _|done|done|by intros q _|by intros q c _|done|done|].
  exists b', b'', fs. do 3 (split; [assumption|]).
  destruct (Hstates [("state", state_options)]) as [Huntil (b3 & E3 & _ & Hdata)].
  - apply NoDup_singleton.
  - intros n. cbn. rewrite list_elem_of_singleton. split; [intros ->; split; [done|eauto]|]. intros [Hn [r Hr]].
    unfold rocks_region in Hr. cbn in Hr. apply fmap_Some in Hr as (r' & Hr' & _).
    apply lookup_insert_Some in Hr' as [[<- _]|[_ [<- _]%lookup_singleton_Some]]; done.
  - split.
    + destruct (Huntil [] ("state", state_options) []) as (b1 & names & E & Hnames & Hop); [done|].
      injection E as <-. exists names. split; [apply Hop|exact Hnames].
    + exists b3. split; [exact E3|]. eapply (Hdata _ _ (MkKv _ (state_options, Some state_options))); [by left|done].
Defined.

(** A checkpoint with the state [old], restored by a program that has a state [new] too. *)
Definition checkpointed : Image := <["old" := ∅]> {["default" := ∅]}.
Definition checkpointed_fs : Fs :=
  <[["cp"; DB_FILE] := File [Zpos (encode checkpointed)]]> {[["cp"] := Dir]}.
Definition old_state : Handle (ValueState u64) unit unit := value_handle u64 "old".
Example rocks_new_state_panics_witness :
  ∃ (b b1 b2 : Rocks MemRocks) fs', Rocks.restore ["live"] ["cp"] checkpointed_fs = (Ok b, fs') ∧
    create_all [("new", Rocks.common_options old_state)] b = (Ok tt, b1) ∧
    Rocks.register old_state (Rocks.common_options old_state) b1 = (Panic "Could not create column family", b2).
Proof.
  assert (∀ q node, checkpointed_fs !! q = Some node →
    (q = ["cp"; DB_FILE] ∧ node = File [Zpos (encode checkpointed)]) ∨ (q = ["cp"] ∧ node = Dir)) as Hfs.
  { unfold checkpointed_fs. intros q node [[<- <-]|[_ [<- <-]%lookup_singleton_Some]]%lookup_insert_Some; auto. }
  apply (rocks_new_state_panics checkpointed_fs ["live"] ["cp"] checkpointed old_state
    [("new", Rocks.common_options old_state)] "new" (Rocks.common_options old_state)).
  - split; [done|]. intros q node [[-> ->]|[-> ->]]%Hfs _; [right; by eexists _, _|by left].
  - unfold holds, mem_holds, file_at, checkpointed_fs. rewrite lookup_insert_eq. apply decode_encode.
  - unfold checkpointed. by rewrite lookup_insert_ne, lookup_singleton_eq.
  - done.
  - intros q Hq. apply eq_None_not_Some. by intros [node [[-> _]|[-> _]]%Hfs].
  - intros q c Hq [[-> _]|[_ ?]]%Hfs; [|done]. cbn in Hq. by apply list_elem_of_singleton in Hq.
  - done.
  - apply (bool_decide_unpack _). by vm_compute.
  - apply (bool_decide_unpack _). by vm_compute.
  - unfold checkpointed. intros m Hm [e [[<- _]|[_ [<- _]%lookup_singleton_Some]]%lookup_insert_Some]; [cbn; set_solver|done].
  - unfold checkpointed. by rewrite lookup_insert_eq.
  - by left.
  - unfold checkpointed. by rewrite lookup_insert_ne, lookup_singleton_ne.
Defined.
