(* ===== verification/Faster.v ===== *)
(** [arcon_state/src/faster]: the backend over the key-value store FASTER. *)

From S2P Require Import Prelude Error Serialization Files StateBackend ByteStore Restore.

(** ** What is stored

    A value of the store is a byte string, the elements of a vector or an aggregate.  The two latter
    are also the modifications of a read-modify-write: one that finds nothing is stored itself. *)
Inductive FasterVecOps : Type :=
| VecValue (v : list bytes)
| Push (single : bytes)
| PushIfAbsent (single : bytes)
| Remove (elem : bytes)
| RemoveIdx (idx : Z).

(** The code stores the bytes of the pointer to the function; the model stores the function. *)
Definition AggregatorFn : Type := bytes → bytes → StateResult bytes.
Inductive FasterAgg : Type :=
| AggValue (v : bytes)
| Modify (new : bytes) (fun_fat_ptr : AggregatorFn)
| AggError (message : string).

Inductive Stored : Type :=
| Plain (v : bytes)
| Ops (v : FasterVecOps)
| Agg (v : FasterAgg).

(** The crate serialises the values with their types. *)
Class FasterValue (V : Type) := {
  to_stored : V → Stored;
  of_stored : Stored → option V;
}.
#[export] Instance FasterValue_bytes : FasterValue bytes := {
  to_stored := Plain;
  of_stored s := match s with Plain v => Some v | _ => None end;
}.
#[export] Instance FasterValue_vec : FasterValue FasterVecOps := {
  to_stored := Ops;
  of_stored s := match s with Ops v => Some v | _ => None end;
}.
#[export] Instance FasterValue_agg : FasterValue FasterAgg := {
  to_stored := Agg;
  of_stored s := match s with Agg v => Some v | _ => None end;
}.

(** [impl FasterRmw]: how a stored value is modified. *)
Definition vec_items (v : FasterVecOps) : StateResult (list bytes) :=
  match v with
  | VecValue v => Ok v
  | Push single | PushIfAbsent single => Ok [single]
  | _ => Panic "invalid faster vec ops value"
  end.
Definition vec_rmw (self modification : FasterVecOps) : StateResult FasterVecOps :=
  res ← vec_items self;
  match modification with
  | VecValue elems => Ok (VecValue (res ++ elems))
  | Push elem => Ok (VecValue (res ++ [elem]))
  | PushIfAbsent elem => Ok (VecValue (if bool_decide (elem ∈ res) then res else res ++ [elem]))
  | Remove elem =>
      match list_find (λ i, i = elem) res with
      | Some (idx, _) => Ok (VecValue (delete idx res))
      | None => Ok (VecValue res)
      end
  | RemoveIdx idx =>
      if idx <? len res then Ok (VecValue (delete (Z.to_nat idx) res))
      else Panic "removal index should be < len"
  end.
(** The [Display] of an error, which is generated. *)
Class ErrorDisplay : Type := error_to_string : ArconStateError → string.
Definition agg_rmw `{ErrorDisplay}  (self modification : FasterAgg) : StateResult FasterAgg :=
  match self with
  | AggError message => Ok (AggError message)
  | AggValue old | Modify old _ =>
      match modification with
      | Modify new f =>
          match f old new with
          | Ok bytes => Ok (AggValue bytes)
          | Err e => Ok (AggError (error_to_string e))
          | Panic msg => Panic msg
          | Diverge => Diverge
          end
      | _ => Panic "modification argument must be Agg::Modify"
      end
  end.
Class FasterRmw (V : Type) `{FasterValue V} : Type := rmw_with : V → V → StateResult V.
#[export] Instance FasterRmw_vec : FasterRmw FasterVecOps := vec_rmw.
#[export] Instance FasterRmw_agg `{ErrorDisplay} : FasterRmw FasterAgg := agg_rmw.

(** ** The crate faster-rs

    The status codes, and what the code uses of [FasterKv].  A read returns a channel, on which the value
    arrives in time ([Some]) or not ([None]). *)
Definition status_OK : Z := 0.
Definition status_PENDING : Z := 1.
Definition status_NOT_FOUND : Z := 2.
Record CheckPoint : Type := MkCheckPoint { checked : bool; token : string }.

Class FasterApi (Db : Type) : Type := {
  kv_build : path → M Fs unit Db;
  kv_read {V} `{FasterValue V} : bytes → Z → M Db ArconStateError (Z * option V);
  kv_upsert {V} `{FasterValue V} : bytes → V → Z → M Db ArconStateError Z;
  kv_delete : bytes → Z → M Db ArconStateError Z;
  kv_rmw {V} `{FasterRmw V} : bytes → V → Z → M Db ArconStateError Z;
  kv_complete_pending : Db → Db;
  kv_checkpoint : M (Db * Fs) unit CheckPoint;
  kv_recover : string → string → M (Db * Fs) unit Z;
  kv_start_session : Db → Db;
  kv_stop_session : Db → Db;
}.

(** The feature [slower_faster] of the build. *)
Class SlowerFaster : Type := slower_faster : bool.

(** ** The backend ([mod.rs])

    [fdisk] is the file system that the store and the checkpoints are on. *)
Record Faster (Db : Type) : Type := MkFaster {
  fdb : Db;
  monotonic_serial_number : Z;
  aggregate_fns : gmap string AggregatorFn;
  dir : path;
  frestored : bool;
  fdisk : Fs;
}.
Arguments MkFaster {Db}.
Arguments fdb {Db}.
Arguments monotonic_serial_number {Db}.
Arguments aggregate_fns {Db}.
Arguments dir {Db}.
Arguments frestored {Db}.
Arguments fdisk {Db}.

Module Faster.
Section backend.
Context `{BuildProfile, ErrorDisplay} {Db : Type} `{FasterApi Db}.
Abbreviation FasterM := (StateM (Faster Db)).

Definition on_fdb {A : Type} (m : M Db ArconStateError A) : FasterM A :=
  zoom fdb (λ d b, MkFaster d (monotonic_serial_number b) (aggregate_fns b) (dir b) (frestored b) (fdisk b)) m.
Definition next_serial_number : FasterM Z :=
  res ← gets monotonic_serial_number;
  n ← lift (u_add 64 res 1);
  modify (λ b, MkFaster (fdb b) n (aggregate_fns b) (dir b) (frestored b) (fdisk b)) ;;
  mret res.

(** The cases of a read: nothing, the received value, or a failure. *)
Definition received {V A} (r : Z * option V) (k : V → StateResult A) : StateResult (option A) :=
  if r.1 =? status_NOT_FOUND then Ok None
  else if (r.1 =? status_OK) || (r.1 =? status_PENDING) then
    v ← ok_or FasterReceiveTimeout r.2; a ← k v; Ok (Some a)
  else Err (FasterUnexpectedStatus r.1).
Definition read {V} `{FasterValue V} (key : bytes) : FasterM (Z * option V) :=
  n ← next_serial_number; on_fdb (kv_read key n).
Definition get (key : bytes) : FasterM (option bytes) :=
  r ← read key; lift (received r Ok).
Definition get_vec (key : bytes) : FasterM (option (list bytes)) :=
  r ← read key; lift (received r vec_items).
Definition get_agg (key : bytes) : FasterM (option bytes) :=
  r ← read key;
  lift (received r (λ agg_ops,
    match agg_ops with
    | AggValue v => Ok v
    | Modify v _ => Ok v
    | AggError message => Err (FasterErrorInRmw message)
    end)).

(** The status of a write. *)
Definition written (status : Z) : StateResult unit :=
  if (status =? status_OK) || (status =? status_PENDING) then Ok tt else Err (FasterUnexpectedStatus status).
Definition upsert {V} `{FasterValue V} (key : bytes) (value : V) : FasterM unit :=
  n ← next_serial_number; status ← on_fdb (kv_upsert key value n); lift (written status).
Definition rmw {V} `{FasterRmw V} (key : bytes) (modification : V) : FasterM unit :=
  n ← next_serial_number; status ← on_fdb (kv_rmw key modification n); lift (written status).

Definition put (key value : bytes) : FasterM unit := upsert key value.
Definition removed (status : Z) : StateResult unit :=
  if (status =? status_OK) || (status =? status_PENDING) || (status =? status_NOT_FOUND) then Ok tt
  else Err (FasterUnexpectedStatus status).
Definition remove (key : bytes) : FasterM unit :=
  n ← next_serial_number; status ← on_fdb (kv_delete key n); lift (removed status).
Definition vec_remove_elem (key to_remove : bytes) : FasterM unit := rmw key (Remove to_remove).
Definition vec_push (key to_push : bytes) : FasterM unit := rmw key (Push to_push).
Definition vec_push_all (key : bytes) (to_push : list bytes) : FasterM unit := rmw key (VecValue to_push).
Definition vec_push_if_absent (key to_push : bytes) : FasterM unit := rmw key (PushIfAbsent to_push).
Definition vec_set_all (key : bytes) (value : list bytes) : FasterM unit := upsert key (VecValue value).
Definition aggregate (key new : bytes) (aggregate_id : string) : FasterM unit :=
  fn ← gets (λ b, aggregate_fns b !! aggregate_id);
  fn ← lift (expect "aggregate fn missing; handle not registered?" fn);
  rmw key (Modify new fn).
End backend.

(** ** Value operations ([value_ops.rs]) *)
Section value_ops.
Context `{BuildProfile} {Db T IK N : Type} `{FasterApi Db, Value T, FixedBytes IK, FixedBytes N}.
Implicit Type h : Handle (ValueState T) IK N.

Definition value_clear h : StateM (Faster Db) unit :=
  key ← lift (serialize_id_and_metakeys h);
  remove key ;; mret tt.
Definition value_get h : StateM (Faster Db) (option T) :=
  key ← lift (serialize_id_and_metakeys h);
  found ← get key;
  match found with
  | Some serialized => value ← lift (protobuf_deserialize serialized); mret (Some value)
  | None => mret None
  end.
(** [if let Some(old) = self.get(..)? { Some(protobuf::deserialize(&old)?) } else { None }] *)
Definition decode_old {A} `{Message A} (found : option bytes) : StateResult (option A) :=
  match found with
  | Some serialized => value ← protobuf_deserialize serialized; Ok (Some value)
  | None => Ok None
  end.
Definition value_set h (value : T) : StateM (Faster Db) (option T) :=
  key ← lift (serialize_id_and_metakeys h);
  found ← get key;
  old ← lift (decode_old found);
  serialized ← lift (protobuf_serialize value);
  put key serialized ;; mret old.
Definition value_fast_set h (value : T) : StateM (Faster Db) unit :=
  key ← lift (serialize_id_and_metakeys h);
  serialized ← lift (protobuf_serialize value);
  put key serialized ;; mret tt.
End value_ops.

(** ** Map operations ([map_ops.rs])

    With the feature [slower_faster] the keys of a map are kept in a vector under the metakeys; without it
    the operations that need them panic. *)
Section map_ops.
Context `{BuildProfile, SlowerFaster} {Db K V IK N : Type} `{FasterApi Db, Key K, Value V, FixedBytes IK, FixedBytes N}.
Implicit Type h : Handle (MapState K V) IK N.
Abbreviation FasterM := (StateM (Faster Db)).

Definition index_add h (key : bytes) : FasterM unit :=
  if slower_faster then prefix ← lift (serialize_id_and_metakeys h); vec_push_if_absent prefix key
  else mret tt.
Definition index_remove h (key : bytes) : FasterM unit :=
  if slower_faster then prefix ← lift (serialize_id_and_metakeys h); vec_remove_elem prefix key
  else mret tt.

Definition map_clear h : FasterM unit :=
  if slower_faster then
    prefix ← lift (serialize_id_and_metakeys h);
    keys ← get_vec prefix;
    match keys with
    | Some keys => remove prefix ;; for_each remove keys
    | None => mret tt
    end
  else panic "Faster doesn't support map state clearing".
Definition map_get h (key : K) : FasterM (option V) :=
  key ← lift (serialize_id_metakeys_and_key h key);
  found ← get key;
  match found with
  | Some serialized => value ← lift (protobuf_deserialize serialized); mret (Some value)
  | None => mret None
  end.
Definition map_fast_insert h (key : K) (value : V) : FasterM unit :=
  key ← lift (serialize_id_metakeys_and_key h key);
  serialized ← lift (protobuf_serialize value);
  put key serialized ;;
  index_add h key.
Definition map_insert h (key : K) (value : V) : FasterM (option V) :=
  key ← lift (serialize_id_metakeys_and_key h key);
  found ← get key;
  old ← lift (decode_old found);
  serialized ← lift (protobuf_serialize value);
  put key serialized ;;
  index_add h key ;; mret old.
Definition map_insert_all h (key_value_pairs : list (K * V)) : FasterM unit :=
  for_each (λ kv : K * V, map_fast_insert h kv.1 kv.2) key_value_pairs.
Definition map_remove h (key : K) : FasterM (option V) :=
  key ← lift (serialize_id_metakeys_and_key h key);
  found ← get key;
  old ← lift (decode_old found);
  remove key ;;
  index_remove h key ;; mret old.
Definition map_fast_remove h (key : K) : FasterM unit :=
  key ← lift (serialize_id_metakeys_and_key h key);
  remove key ;;
  index_remove h key.
Definition map_contains h (key : K) : FasterM bool :=
  key ← lift (serialize_id_metakeys_and_key h key);
  found ← get key; mret (bool_decide (is_Some found)).

(** The keys of the map, and what an iterator over them yields when it is run to its end. *)
Definition map_index h : FasterM (option (list bytes)) :=
  prefix ← lift (serialize_id_and_metakeys h); get_vec prefix.
Fixpoint yielded {A} (f : bytes → FasterM A) (keys : list bytes) : FasterM (list (StateResult A)) :=
  match keys with
  | [] => mret []
  | key :: keys' => λ b,
      let '(item, b) := f key b in
      let '(items, b) := yielded f keys' b in
      ((λ items, item :: items) <$> items, b)
  end.
Definition map_items {A} h (f : bytes → FasterM A) : FasterM (list (StateResult A)) :=
  if slower_faster then keys ← map_index h; yielded f (default [] keys)
  else panic "Faster doesn't support map state iteration".
Definition decode_key (serialized_key : bytes) : StateResult K :=
  id ← deserialize_bytes_from serialized_key;
  ik ← (deserialize_from id.2 : StateResult (IK * bytes));
  ns ← (deserialize_from ik.2 : StateResult (N * bytes));
  fst <$> protobuf_deserialize_from ns.2.
Definition get_value (serialized_key : bytes) : FasterM bytes :=
  found ← get serialized_key; lift (expect "Value not found. Modified during iteration!?" found).
Definition map_iter h : FasterM (list (StateResult (K * V))) :=
  map_items h (λ serialized_key,
    serialized_value ← get_value serialized_key;
    key ← lift (decode_key serialized_key);
    value ← lift (protobuf_deserialize serialized_value);
    mret (key, value)).
Definition map_keys h : FasterM (list (StateResult K)) :=
  map_items h (λ serialized_key, lift (decode_key serialized_key)).
Definition map_values h : FasterM (list (StateResult V)) :=
  map_items h (λ serialized_key,
    serialized_value ← get_value serialized_key; lift (protobuf_deserialize serialized_value)).
Definition map_len h : FasterM Z :=
  if slower_faster then keys ← map_index h; mret (match keys with Some keys => len keys | None => 0 end)
  else panic "Faster doesn't support map state length check".
Definition map_is_empty h : FasterM bool :=
  if slower_faster then keys ← map_index h; mret (match keys with Some keys => bool_decide (keys = []) | None => true end)
  else panic "Faster doesn't support map state emptiness check".
End map_ops.

(** ** Vector operations ([vec_ops.rs]) *)
Section vec_ops.
Context `{BuildProfile} {Db T IK N : Type} `{FasterApi Db, Value T, FixedBytes IK, FixedBytes N}.
Implicit Type h : Handle (VecState T) IK N.

Definition vec_clear h : StateM (Faster Db) unit :=
  key ← lift (serialize_id_and_metakeys h);
  remove key ;; mret tt.
Definition vec_append h (value : T) : StateM (Faster Db) unit :=
  key ← lift (serialize_id_and_metakeys h);
  serialized ← lift (protobuf_serialize value);
  vec_push key serialized.
Definition vec_get h : StateM (Faster Db) (list T) :=
  key ← lift (serialize_id_and_metakeys h);
  found ← get_vec key;
  match found with
  | Some serialized => lift (sequence (protobuf_deserialize <$> serialized))
  | None => mret []
  end.
Definition vec_iter h : StateM (Faster Db) (list (StateResult T)) :=
  key ← lift (serialize_id_and_metakeys h);
  found ← get_vec key;
  match found with
  | Some serialized => mret (protobuf_deserialize <$> serialized)
  | None => mret []
  end.
Definition vec_set h (value : list T) : StateM (Faster Db) unit :=
  key ← lift (serialize_id_and_metakeys h);
  storage ← lift (sequence (protobuf_serialize <$> value));
  vec_set_all key storage.
Definition vec_add_all h (values : list T) : StateM (Faster Db) unit :=
  key ← lift (serialize_id_and_metakeys h);
  storage ← lift (sequence (protobuf_serialize <$> values));
  vec_push_all key storage.
Definition vec_len h : StateM (Faster Db) Z :=
  key ← lift (serialize_id_and_metakeys h);
  found ← get_vec key; mret (match found with Some v => len v | None => 0 end).
Definition vec_is_empty h : StateM (Faster Db) bool :=
  key ← lift (serialize_id_and_metakeys h);
  found ← get_vec key; mret (match found with Some v => bool_decide (v = []) | None => true end).
End vec_ops.

(** ** Reducers and aggregators ([reducer_ops.rs], [aggregator_ops.rs]) *)
Section reducer_ops.
Context `{BuildProfile, ErrorDisplay} {Db T IK N : Type} `{FasterApi Db, Value T, FixedBytes IK, FixedBytes N}.
Implicit Type h : Handle (ReducerState T) IK N.

Definition make_reduce_fn (reducer : Reducer T) : AggregatorFn := λ old new,
  old ← protobuf_deserialize old;
  new ← protobuf_deserialize new;
  protobuf_serialize (reducer old new).

Definition reducer_clear h : StateM (Faster Db) unit :=
  key ← lift (serialize_id_and_metakeys h);
  remove key ;; mret tt.
Definition reducer_get h : StateM (Faster Db) (option T) :=
  key ← lift (serialize_id_and_metakeys h);
  found ← get_agg key;
  match found with
  | Some storage => value ← lift (protobuf_deserialize storage); mret (Some value)
  | None => mret None
  end.
Definition reducer_reduce h (value : T) : StateM (Faster Db) unit :=
  key ← lift (serialize_id_and_metakeys h);
  serialized ← lift (protobuf_serialize value);
  aggregate key serialized (h_id h).
End reducer_ops.

Section aggregator_ops.
Context `{BuildProfile, ErrorDisplay} {Db Inp A R IK N : Type} `{FasterApi Db, Value Inp, Value A, FixedBytes IK, FixedBytes N}.
Implicit Type h : Handle (AggregatorState Inp A R) IK N.

Definition unknown_operand {B} : StateResult B := Panic "unknown operand in aggregate merge operator".
Definition make_aggregate_fn (aggregator : Aggregator Inp A R) : AggregatorFn := λ old new,
  accumulator ←
    match old with
    | marker :: operand =>
        if marker =? ACCUMULATOR_MARKER then protobuf_deserialize operand
        else if marker =? VALUE_MARKER then
          value ← (protobuf_deserialize operand : StateResult Inp);
          Ok (agg_add aggregator (create_accumulator aggregator) value)
        else unknown_operand
    | [] => unknown_operand
    end;
  accumulator ←
    match new with
    | marker :: operand =>
        if marker =? ACCUMULATOR_MARKER then
          second_acc ← protobuf_deserialize operand; merge_accumulators aggregator accumulator second_acc
        else if marker =? VALUE_MARKER then
          value ← (protobuf_deserialize operand : StateResult Inp); Ok (agg_add aggregator accumulator value)
        else unknown_operand
    | [] => unknown_operand
    end;
  protobuf_serialize_into [ACCUMULATOR_MARKER] accumulator.

Definition aggregator_clear h : StateM (Faster Db) unit :=
  key ← lift (serialize_id_and_metakeys h);
  remove key ;; mret tt.
Definition aggregator_get h : StateM (Faster Db) R :=
  key ← lift (serialize_id_and_metakeys h);
  found ← get_agg key;
  match found with
  | Some serialized =>
      current_accumulator ← lift (decode_accumulator serialized);
      lift (accumulator_into_result (extra_data h) current_accumulator)
  | None => lift (accumulator_into_result (extra_data h) (create_accumulator (extra_data h)))
  end.
Definition aggregator_aggregate h (value : Inp) : StateM (Faster Db) unit :=
  key ← lift (serialize_id_and_metakeys h);
  serialized ← lift (encode_value value);
  aggregate key serialized (h_id h).
End aggregator_ops.

(** ** Checkpoints ([mod.rs]) *)

Definition copy_entry (source_dir dest_dir : path) (silently_ignore_dirs : bool) (file : string * FsNode)
  : M Fs ArconStateError unit :=
  if silently_ignore_dirs && bool_decide (file.2 = Dir) then mret tt
  else copy_file (source_dir ++ [file.1]) (dest_dir ++ [file.1]).
Definition copy_files (source_dir dest_dir : path) (silently_ignore_dirs : bool) : M Fs ArconStateError unit :=
  files ← read_dir source_dir; for_each (copy_entry source_dir dest_dir silently_ignore_dirs) files.
Definition copy_checkpoint (token : string) (db_directory checkpoint_path : path) : M Fs ArconStateError unit :=
  let checkpoint_cpr := checkpoint_path ++ ["cpr-checkpoints"; token] in
  create_dir_all checkpoint_cpr ;;
  let checkpoint_index := checkpoint_path ++ ["index-checkpoints"; token] in
  create_dir_all checkpoint_index ;;
  copy_files db_directory checkpoint_path true ;;
  copy_files (db_directory ++ ["cpr-checkpoints"; token]) checkpoint_cpr false ;;
  copy_files (db_directory ++ ["index-checkpoints"; token]) checkpoint_index false.

Section checkpoint.
Context `{BuildProfile} {Db : Type} `{FasterApi Db}.

Definition ARCON_CHECKPOINT_INFO : string := "ARCON_CHECKPOINT_INFO".
Definition faster_try {S A : Type} (m : M S unit A) : M S ArconStateError A :=
  on_outcome (map_err (λ _, FasterOtherError)) m.
Definition on_store {A : Type} (m : M (Db * Fs) ArconStateError A) : StateM (Faster Db) A :=
  zoom (λ b, (fdb b, fdisk b))
    (λ s b, MkFaster s.1 (monotonic_serial_number b) (aggregate_fns b) (dir b) (frestored b) s.2) m.
Definition on_fdisk {A : Type} (m : M Fs ArconStateError A) : StateM (Faster Db) A :=
  zoom fdisk (λ fs b, MkFaster (fdb b) (monotonic_serial_number b) (aggregate_fns b) (dir b) (frestored b) fs) m.
Definition update_db (f : Db → Db) : StateM (Faster Db) unit :=
  modify (λ b, MkFaster (f (fdb b)) (monotonic_serial_number b) (aggregate_fns b) (dir b) (frestored b) (fdisk b)).

Definition create (live_path : path) : M Fs ArconStateError (Faster Db) :=
  db ← faster_try (kv_build live_path);
  fs ← get_st;
  mret (MkFaster db 0 ∅ live_path false fs).
Definition recover (token : string) : StateM (Faster Db) unit :=
  status ← on_store (faster_try (kv_recover token token));
  (if status =? status_OK then mret tt
   else if status =? status_PENDING then update_db kv_complete_pending
   else lift (Err (FasterUnexpectedStatus status))) ;;
  modify (λ b, MkFaster (fdb b) (monotonic_serial_number b) (aggregate_fns b) (dir b) true (fdisk b)).
Definition restore (live_path checkpoint_path : path) : M Fs ArconStateError (Faster Db) :=
  token ← read_to_string (checkpoint_path ++ [ARCON_CHECKPOINT_INFO]);
  (if bool_decide (len (as_bytes token) = 36) then mret tt else panic "assertion failed: `(left == right)`") ;;
  copy_checkpoint token checkpoint_path live_path ;;
  res ← create live_path;
  let '(o, res) := recover token res in
  put_st (fdisk res) ;;
  lift o ;; mret res.
Definition checkpoint (checkpoint_path : string) : StateM (Faster Db) unit :=
  let p := path_from checkpoint_path in
  update_db kv_complete_pending ;;
  chkp ← on_store (faster_try kv_checkpoint);
  if checked chkp then
    update_db kv_complete_pending ;;
    d ← gets dir;
    on_fdisk (copy_checkpoint (token chkp) d p) ;;
    on_fdisk (create_file (p ++ [ARCON_CHECKPOINT_INFO])) ;;
    on_fdisk (write_file (p ++ [ARCON_CHECKPOINT_INFO]) (as_bytes (token chkp)))
  else lift (Err FasterCheckpointFailed).

(** ** Registration ([mod.rs]) *)
Definition register {S IK N} (h : Handle S IK N) : StateM (Faster Db) (Handle S IK N) := mret (set_registered h).
Definition register_fn {S IK N} (f : AggregatorFn) (h : Handle S IK N) : StateM (Faster Db) (Handle S IK N) :=
  modify (λ b, MkFaster (fdb b) (monotonic_serial_number b) (<[h_id h := f]> (aggregate_fns b)) (dir b) (frestored b) (fdisk b)) ;;
  mret (set_registered h).
Definition start_session (b : Faster Db) : Faster Db :=
  MkFaster (kv_start_session (fdb b)) (monotonic_serial_number b) (aggregate_fns b) (dir b) (frestored b) (fdisk b).
Definition stop_session (b : Faster Db) : Faster Db :=
  MkFaster (kv_stop_session (fdb b)) (monotonic_serial_number b) (aggregate_fns b) (dir b) (frestored b) (fdisk b).
End checkpoint.
End Faster.

Section instances.
Context `{BuildProfile, SlowerFaster, ErrorDisplay} {Db : Type} `{FasterApi Db}.

#[export] Instance Faster_ValueOps : ValueOps (Faster Db) := {
  value_clear _ _ _ _ _ _ := Faster.value_clear;
  value_get _ _ _ _ _ _ := Faster.value_get;
  value_set _ _ _ _ _ _ := Faster.value_set;
  value_fast_set _ _ _ _ _ _ := Faster.value_fast_set;
}.
#[export] Instance Faster_MapOps : MapOps (Faster Db) := {
  map_clear _ _ _ _ _ _ _ _ := Faster.map_clear;
  map_get _ _ _ _ _ _ _ _ := Faster.map_get;
  map_fast_insert _ _ _ _ _ _ _ _ := Faster.map_fast_insert;
  map_insert _ _ _ _ _ _ _ _ := Faster.map_insert;
  map_insert_all _ _ _ _ _ _ _ _ := Faster.map_insert_all;
  map_remove _ _ _ _ _ _ _ _ := Faster.map_remove;
  map_fast_remove _ _ _ _ _ _ _ _ := Faster.map_fast_remove;
  map_contains _ _ _ _ _ _ _ _ := Faster.map_contains;
  map_iter _ _ _ _ _ _ _ _ := Faster.map_iter;
  map_keys _ _ _ _ _ _ _ _ := Faster.map_keys;
  map_values _ _ _ _ _ _ _ _ := Faster.map_values;
  map_len _ _ _ _ _ _ _ _ := Faster.map_len;
  map_is_empty _ _ _ _ _ _ _ _ := Faster.map_is_empty;
}.
#[export] Instance Faster_VecOps : VecOps (Faster Db) := {
  vec_clear _ _ _ _ _ _ := Faster.vec_clear;
  vec_append _ _ _ _ _ _ := Faster.vec_append;
  vec_get _ _ _ _ _ _ := Faster.vec_get;
  vec_iter _ _ _ _ _ _ := Faster.vec_iter;
  vec_set _ _ _ _ _ _ := Faster.vec_set;
  vec_add_all _ _ _ _ _ _ := Faster.vec_add_all;
  vec_len _ _ _ _ _ _ := Faster.vec_len;
  vec_is_empty _ _ _ _ _ _ := Faster.vec_is_empty;
}.
#[export] Instance Faster_ReducerOps : ReducerOps (Faster Db) := {
  reducer_clear _ _ _ _ _ _ := Faster.reducer_clear;
  reducer_get _ _ _ _ _ _ := Faster.reducer_get;
  reducer_reduce _ _ _ _ _ _ := Faster.reducer_reduce;
}.
#[export] Instance Faster_AggregatorOps : AggregatorOps (Faster Db) := {
  aggregator_clear _ _ _ _ _ _ _ _ _ := Faster.aggregator_clear;
  aggregator_get _ _ _ _ _ _ _ _ _ := Faster.aggregator_get;
  aggregator_aggregate _ _ _ _ _ _ _ _ _ := Faster.aggregator_aggregate;
}.
#[export] Instance Faster_Backend : Backend (Faster Db) := {
  was_restored := frestored;
  checkpoint := Faster.checkpoint;
  start_session := Faster.start_session;
  session_drop_hook := Some Faster.stop_session;
  register_value_handle _ _ _ _ _ _ := Faster.register;
  register_map_handle _ _ _ _ _ _ _ _ := Faster.register;
  register_vec_handle _ _ _ _ _ _ := Faster.register;
  register_reducer_handle _ _ _ _ _ _ h := Faster.register_fn (Faster.make_reduce_fn (extra_data h)) h;
  register_aggregator_handle _ _ _ _ _ _ _ _ _ h := Faster.register_fn (Faster.make_aggregate_fn (extra_data h)) h;
}.
#[export] Instance Faster_ctor : BackendCtor (Faster Db) := {
  create := Faster.create;
  restore := Faster.restore;
}.
End instances.
