(* ===== verification/FasterSpec.v ===== *)
(** What the code relies on of FASTER, how a store represents the contents of the states, and what a read
    or a write of the backend does to it. *)

From S2P Require Import Prelude Error Serialization Files StateBackend Tables ByteStore Restore Faster.

(** The overflow checks are off in this profile, so that the serial number wraps around. *)
Class Release `{BuildProfile} : Prop := release : overflow_checks = false.

(** ** Documented behaviour of FASTER

    A store that reports no error ([faster_healthy]) is a map from byte strings to values.  An operation
    is done at once, or is pending and done by the time its effect is asked for. *)
Class FasterView (Db : Type) : Type := {
  faster_healthy : Db → bool;
  faster_entries : Db → gmap bytes Stored;
}.
Definition faster_becomes {Db} `{FasterView Db} (d' : Db) (t : gmap bytes Stored) : Prop :=
  faster_healthy d' = true ∧ faster_entries d' = t.
Abbreviation done_or_pending status := (status = status_OK ∨ status = status_PENDING).
(** What a read-modify-write stores: the modification itself when there is nothing to modify. *)
Definition rmw_stores {V} `{FasterRmw V} (found : option Stored) (modification new : V) : Prop :=
  match found with
  | None => new = modification
  | Some s => ∃ old, of_stored s = Some old ∧ rmw_with old modification = Ok new
  end.

Class FasterLaws (Db : Type) `{FasterApi Db, FasterView Db} : Prop := {
  kv_read_law {V} `{FasterValue V} (d : Db) key n : faster_healthy d = true →
    ∃ (status : Z) (received : option V) d', kv_read key n d = (Ok (status, received), d') ∧
      faster_becomes d' (faster_entries d) ∧
      match faster_entries d !! key with
      | None => status = status_NOT_FOUND
      | Some s => done_or_pending status ∧ ∀ v : V, of_stored s = Some v → received = Some v
      end;
  kv_upsert_law {V} `{FasterValue V} (d : Db) key (v : V) n : faster_healthy d = true →
    ∃ status d', kv_upsert key v n d = (Ok status, d') ∧ done_or_pending status ∧
      faster_becomes d' (<[key := to_stored v]> (faster_entries d));
  kv_delete_law (d : Db) key n : faster_healthy d = true →
    ∃ status d', kv_delete key n d = (Ok status, d') ∧
      (done_or_pending status ∨ status = status_NOT_FOUND) ∧ faster_becomes d' (delete key (faster_entries d));
  kv_rmw_law {V} `{FasterRmw V} (d : Db) key (modification new : V) n : faster_healthy d = true →
    rmw_stores (faster_entries d !! key) modification new →
    ∃ status d', kv_rmw key modification n d = (Ok status, d') ∧ done_or_pending status ∧
      faster_becomes d' (<[key := to_stored new]> (faster_entries d));
  kv_complete_pending_law (d : Db) : faster_healthy d = true →
    faster_becomes (kv_complete_pending d) (faster_entries d);
  kv_start_session_law (d : Db) : faster_healthy (kv_start_session d) = faster_healthy d ∧
    faster_entries (kv_start_session d) = faster_entries d;
  kv_stop_session_law (d : Db) : faster_healthy (kv_stop_session d) = faster_healthy d ∧
    faster_entries (kv_stop_session d) = faster_entries d;
  kv_checkpoint_law (d : Db) fs : faster_healthy d = true → ∃ o d' fs', kv_checkpoint (d, fs) = (o, (d', fs')) ∧
    faster_becomes d' (faster_entries d) ∧ (o = Err tt ∨ ∃ chkp, o = Ok chkp);
}.

(** ** The keys of a state id *)

Definition id_bytes (id : string) : bytes := to_le_bytes 8 (len (as_bytes id)) ++ as_bytes id.
(** The model's bound on the length of an id, far below what the address space allows. *)
Definition id_fits (id : string) : bool := len (as_bytes id) <=? 2 ^ 32.

Lemma as_bytes_inj s s' : as_bytes s = as_bytes s' → s = s'.
Proof. intros E%(f_equal from_bytes). by rewrite !from_as_bytes in E. Qed.
(** The length in front of an id keeps the keys of two ids apart. *)
Lemma id_bytes_disjoint id id' k k' :
  id_fits id = true → id_fits id' = true → id_bytes id ++ k = id_bytes id' ++ k' → id = id' ∧ k = k'.
Proof.
  unfold id_fits, id_bytes. intros Hl%Z.leb_le Hl'%Z.leb_le. rewrite <- !(assoc_L (++)).
  intros [E1 E2]%app_inj_1; [|by rewrite !length_to_le_bytes].
  apply (f_equal from_le_bytes) in E1. rewrite !from_to_le_bytes, !Z.mod_small in E1 by lia.
  apply app_inj_1 in E2 as [E2 ->]; [|lia]. by apply as_bytes_inj in E2.
Qed.

Lemma deserialize_id id (rest : bytes) :
  id_fits id = true → deserialize_bytes_from (id_bytes id ++ rest) = (Ok (as_bytes id, rest) : StateResult _).
Proof.
  unfold id_fits, id_bytes. intros Hl%Z.leb_le. unfold deserialize_bytes_from.
  rewrite <- (assoc_L (++)), usize_from_slice by lia. cbn [mbind outcome_bind fst snd uint_val remaining copy_to_slice Buf_slice].
  rewrite length_app, (proj2 (Z.leb_le _ _)) by lia. by rewrite Nat2Z.id, take_app_length, drop_app_length.
Qed.

Section serialized.
Context {S : StateType} {IK N : Type} `{Metakey IK, Metakey N} (h : Handle S IK N) (Hid : id_fits (h_id h) = true).

Lemma serialize_id_into_ok : serialize_id_and_metakeys_into h ([] : bytes) = Ok (id_bytes (h_id h) ++ metakeys h).
Proof using All.
  unfold id_fits in Hid. apply Z.leb_le in Hid. unfold serialize_id_and_metakeys_into, serialize_bytes_into.
  cbn [remaining_mut BufMut_Vec length]. rewrite (proj2 (Z.leb_le _ _)) by (unfold usize_max; lia).
  rewrite usize_into_vec by (simpl; lia). cbn [mbind outcome_bind put_slice BufMut_Vec app].
  rewrite serialize_metakeys_into_ok; [done|]. rewrite length_app, length_to_le_bytes. lia.
Qed.
Lemma serialize_id_and_metakeys_ok : serialize_id_and_metakeys h = Ok (id_bytes (h_id h) ++ metakeys h).
Proof using All. apply serialize_id_into_ok. Qed.
Lemma serialize_id_metakeys_and_key_ok {K} `{Key K, !MessageLaws K} (k : K) :
  serialize_id_metakeys_and_key h k = Ok (id_bytes (h_id h) ++ metakeys h ++ ld k).
Proof using All.
  unfold serialize_id_metakeys_and_key, serialize_id_metakeys_and_key_into. rewrite serialize_id_into_ok.
  cbn [mbind outcome_bind]. rewrite protobuf_serialize_into_ok. by rewrite (assoc_L (++)).
Qed.
End serialized.

(** The entries under a prefix, by the rest of their keys. *)
Definition sub_entry (p : bytes) (kv : bytes * Stored) : option (bytes * Stored) :=
  if decide (take (length p) kv.1 = p) then Some (drop (length p) kv.1, kv.2) else None.
Definition sub_table (p : bytes) (t : gmap bytes Stored) : gmap bytes Stored :=
  list_to_map (omap (sub_entry p) (map_to_list t)).

Lemma sub_entry_some p k' s' k s : sub_entry p (k', s') = Some (k, s) ↔ k' = p ++ k ∧ s' = s.
Proof.
  unfold sub_entry. cbn. case_decide as Hp.
  - split; [intros [= <- <-]|intros [-> ->]].
    + split; [|done]. rewrite <- Hp at 1. by rewrite take_drop.
    + by rewrite drop_app_length.
  - split; [done|]. intros [-> _]. by rewrite take_app_length in Hp.
Qed.
Lemma sub_entry_elem p t k s : (k, s) ∈ omap (sub_entry p) (map_to_list t) ↔ t !! (p ++ k) = Some s.
Proof.
  rewrite list_elem_of_omap. split.
  - intros ([k' s'] & Hin & [-> ->]%sub_entry_some). by apply elem_of_map_to_list.
  - intros Ht. exists (p ++ k, s). by rewrite elem_of_map_to_list, sub_entry_some.
Qed.
Lemma sub_table_functional p t k s s' :
  (k, s) ∈ omap (sub_entry p) (map_to_list t) → (k, s') ∈ omap (sub_entry p) (map_to_list t) → s = s'.
Proof. rewrite !sub_entry_elem. congruence. Qed.
Lemma lookup_sub_table p t k : sub_table p t !! k = t !! (p ++ k).
Proof.
  apply option_eq. intros s. rewrite <- sub_entry_elem. unfold sub_table. split.
  - apply elem_of_list_to_map_2.
  - intros Hin. apply elem_of_list_to_map_1'; [|done]. intros s'. by apply sub_table_functional.
Qed.
Lemma sub_table_insert p t k s : sub_table p (<[p ++ k := s]> t) = <[k := s]> (sub_table p t).
Proof.
  apply map_eq. intros k'. rewrite lookup_sub_table. destruct (decide (k' = k)) as [->|Hne]; [by rewrite !lookup_insert_eq|].
  rewrite !lookup_insert_ne, lookup_sub_table; [done..|]. by intros ?%(inj (p ++.)).
Qed.
Lemma sub_table_delete p t k : sub_table p (delete (p ++ k) t) = delete k (sub_table p t).
Proof.
  apply map_eq. intros k'. rewrite lookup_sub_table. destruct (decide (k' = k)) as [->|Hne]; [by rewrite !lookup_delete_eq|].
  rewrite !lookup_delete_ne, lookup_sub_table; [done..|]. by intros ?%(inj (p ++.)).
Qed.
Lemma sub_table_other p p' t t' k :
  (∀ k', p' ++ k' ≠ p ++ k) → (∀ key, key ≠ p ++ k → t' !! key = t !! key) → sub_table p' t' = sub_table p' t.
Proof. intros Hp Ht. apply map_eq. intros k'. by rewrite !lookup_sub_table, Ht. Qed.

(** ** The representation

    The region of an id has the prefix of its keys, the entries under it, the function that modifies its
    aggregates, and whether the id is short enough for the keys to be written. *)
Record FasterRegion : Type := MkFasterRegion {
  f_prefix : bytes;
  f_entries : gmap bytes Stored;
  f_fn : option AggregatorFn;
  f_fits : bool;
}.
Definition with_entries (t : gmap bytes Stored) (r : FasterRegion) : FasterRegion :=
  MkFasterRegion (f_prefix r) t (f_fn r) (f_fits r).

(** A value, the elements of a vector, a reduced value, and the entries of a map with their index. *)
Definition plain_value {T} `{Value T} (v : T) : Stored := Plain (ld v).
Definition stored_items (found : option Stored) (items : list bytes) : Prop :=
  match found with
  | None => items = []
  | Some s => ∃ v, s = Ops v ∧ vec_items v = Ok items
  end.
Lemma stored_items_inj found items items' : stored_items found items → stored_items found items' → items = items'.
Proof. destruct found as [s|]; cbn; [naive_solver congruence|congruence]. Qed.
Definition vec_entry {T} `{Value T} (found : option Stored) (l : list T) : Prop := stored_items found (ld <$> l).
Definition aggregated (a : FasterAgg) (v : bytes) : Prop := a = AggValue v ∨ ∃ f, a = Modify v f.
Definition red_entry {T} `{Value T} (found : option Stored) (x : option T) : Prop :=
  match found, x with
  | None, None => True
  | Some s, Some v => ∃ a, s = Agg a ∧ aggregated a (ld v)
  | _, _ => False
  end.
Definition map_keys_under {K V} `{Key K, !MessageLaws K, EqDecision K, !Countable K} (mk : bytes) (m : gmap K V) : list bytes :=
  (λ kv : K * V, mk ++ ld kv.1) <$> map_to_list m.
Definition map_entries {K V} `{SlowerFaster, Key K, !MessageLaws K, EqDecision K, !Countable K, Value V}
    (prefix : bytes) (t : gmap bytes Stored) (mk : bytes) (m : gmap K V) : Prop :=
  (∀ k, t !! (mk ++ ld k) = plain_value <$> m !! k) ∧
  (slower_faster = true → ∃ keys, stored_items (t !! mk) keys ∧ keys ≡ₚ map_keys_under (prefix ++ mk) m).
(** The id fits, the function of its aggregates is as it should be, and the entries represent [x]. *)
Definition fitting {X} (fn : option AggregatorFn → Prop) (Rep : bytes → gmap bytes Stored → bytes → X → Prop)
    (r : FasterRegion) (mk : bytes) (x : X) : Prop :=
  f_fits r = true ∧ fn (f_fn r) ∧ Rep (f_prefix r) (f_entries r) mk x.
Definition any_fn (fn : option AggregatorFn) : Prop := True.

(** What depends on the entry of the metakeys only is not touched by a write to another key. *)
Lemma frames_lookup {X} (P : option Stored → X → Prop) (t t' : gmap bytes Stored) mk :
  (∀ k, k ≠ mk → t' !! k = t !! k) → frames (λ t mk, P (t !! mk)) t t' mk.
Proof. intros Ht mk' x _ Hne. by rewrite Ht. Qed.

Section faster.
Context `{BuildProfile, !Release, SlowerFaster, ErrorDisplay} {Db : Type} `{FasterLaws Db}.
Implicit Types (b : Faster Db) (d : Db) (r : FasterRegion).

Definition entries_under (id : string) (t : gmap bytes Stored) : gmap bytes Stored :=
  if id_fits id then sub_table (id_bytes id) t else ∅.
Definition faster_region b (id : string) : option FasterRegion :=
  if faster_healthy (fdb b) then
    Some (MkFasterRegion (id_bytes id) (entries_under id (faster_entries (fdb b))) (aggregate_fns b !! id) (id_fits id))
  else None.

(** Aggregators do not work on this backend ([faster_aggregates] below), so that none is promised. *)
#[export] Instance Faster_BackendRep : BackendRep (Faster Db) := {|
  backend_ok b := faster_healthy (fdb b) = true;
  Region := FasterRegion;
  region := faster_region;
  ValRep T _ := fitting any_fn (λ _, entry_rep plain_value);
  MapRep K V _ _ _ _ _ := fitting any_fn map_entries;
  VecRep T _ := fitting any_fn (λ _ t mk, vec_entry (t !! mk));
  RedRep T _ f := fitting (λ fn, fn = Some (Faster.make_reduce_fn f)) (λ _ t mk, red_entry (t !! mk));
  AggRep Inp A R _ _ _ _ _ _ := False;
  VecStored T _ := fitting any_fn (λ _ t mk, vec_entry (t !! mk));
  RedStored T _ _ := fitting any_fn (λ _ t mk, red_entry (t !! mk));
  AggStored Inp A R _ _ _ _ _ _ := False;
  red_ok _ _ := True;
  agg_ok _ _ _ _ := False;
|}.

(** ** The calls of the store *)

Lemma faster_region_some b id r : region b id = Some r →
  faster_healthy (fdb b) = true ∧
  r = MkFasterRegion (id_bytes id) (entries_under id (faster_entries (fdb b))) (aggregate_fns b !! id) (id_fits id).
Proof using Type. cbn. unfold faster_region. destruct (faster_healthy (fdb b)); naive_solver. Qed.
Lemma faster_region_ok b id : faster_healthy (fdb b) = true →
  region b id = Some (MkFasterRegion (id_bytes id) (entries_under id (faster_entries (fdb b))) (aggregate_fns b !! id) (id_fits id)).
Proof using Type. intros Hb. cbn. unfold faster_region. by rewrite Hb. Qed.

(** A step that keeps the functions and the entries, or alters the entry of one key. *)
Lemma faster_becomes_same b b' :
  faster_becomes (fdb b') (faster_entries (fdb b)) → faster_healthy (fdb b) = true →
  aggregate_fns b' = aggregate_fns b → same_data b b'.
Proof using Type. intros [Hh He] Hb Hf id. rewrite !faster_region_ok by done. by rewrite He, Hf. Qed.
Lemma becomes_updates_key b b' id r key t :
  region b id = Some r → f_fits r = true → aggregate_fns b' = aggregate_fns b →
  faster_becomes (fdb b') t → (∀ k, k ≠ id_bytes id ++ key → t !! k = faster_entries (fdb b) !! k) →
  updates b b' id (with_entries (sub_table (id_bytes id) t) r).
Proof using Type.
  intros [Hb ->]%faster_region_some Hfits Hfns [Hh He] Ht. cbn in Hfits. split.
  - rewrite faster_region_ok by done. unfold with_entries, entries_under. cbn. by rewrite He, Hfits, Hfns.
  - intros id' Hne. rewrite !faster_region_ok by done. rewrite He, Hfns. do 2 f_equal. unfold entries_under.
    destruct (id_fits id') eqn:Hfits'; [|done]. eapply sub_table_other; [|exact Ht].
    intros k' E%id_bytes_disjoint; [|done..]. by destruct E.
Qed.

(** The serial number is taken before a call and wraps around. *)
Lemma next_serial_ok b : ∃ n m,
  Faster.next_serial_number b = (Ok n, MkFaster (fdb b) m (aggregate_fns b) (dir b) (frestored b) (fdisk b)).
Proof using All.
  unfold Faster.next_serial_number, gets, lift, modify, mbind, M_bind. cbn. unfold u_add.
  destruct (wrapping_release (E:=ArconStateError) 64 "attempt to add with overflow"
    (monotonic_serial_number b + 1) release ltac:(done)) as (m & -> & _). by eexists _, m.
Qed.
Lemma call_ok {A A'} (call : Z → M Db ArconStateError A) (k : A → StateResult A') b :
  ∃ n m, ∀ o d', call n (fdb b) = (Ok o, d') →
    (n ← Faster.next_serial_number; a ← Faster.on_fdb (call n); lift (k a)) b
    = (k o, MkFaster d' m (aggregate_fns b) (dir b) (frestored b) (fdisk b)).
Proof using All.
  destruct (next_serial_ok b) as (n & m & E). exists n, m. intros o d' Ec. step_ok E.
  unfold Faster.on_fdb, zoom, mbind, M_bind. cbn. by rewrite Ec.
Qed.
Lemma status_written status : done_or_pending status → Faster.written status = Ok tt.
Proof using Type. by intros [-> | ->]. Qed.
Lemma status_removed status :
  done_or_pending status ∨ status = status_NOT_FOUND → Faster.removed status = Ok tt.
Proof using Type. by intros [[-> | ->]| ->]. Qed.

Section calls.
Context b (id : string) r (Hr : region b id = Some r) (Hfits : f_fits r = true).

Lemma lookup_region key : f_entries r !! key = faster_entries (fdb b) !! (id_bytes id ++ key).
Proof using Hr Hfits.
  apply faster_region_some in Hr as [_ ->]. cbn in Hfits. cbn. unfold entries_under. rewrite Hfits. apply lookup_sub_table.
Qed.
Lemma sub_table_region : f_entries r = sub_table (id_bytes id) (faster_entries (fdb b)).
Proof using Hr Hfits. apply map_eq. intros k. by rewrite lookup_region, lookup_sub_table. Qed.

(** A read gives what [k] makes of the entry of the key. *)
Lemma received_outcome {V A} `{FasterValue V} (k : V → StateResult A) key :
  ∃ b', same_data b b' ∧
    match f_entries r !! key with
    | None => (found ← Faster.read (id_bytes id ++ key); lift (Faster.received found k)) b = (Ok None, b')
    | Some s => ∀ v, of_stored s = Some v →
        (found ← Faster.read (id_bytes id ++ key); lift (Faster.received found k)) b = (Some <$> k v, b')
    end.
Proof using All.
  rewrite lookup_region. pose proof (proj1 (faster_region_some _ _ _ Hr)) as Hb.
  destruct (call_ok (kv_read (id_bytes id ++ key)) (λ found : Z * option V, Faster.received found k) b) as (n & m & Hcall).
  destruct (kv_read_law (V:=V) (fdb b) (id_bytes id ++ key) n Hb) as (status & rcv & d' & E & Hd & Hrcv).
  exists (MkFaster d' m (aggregate_fns b) (dir b) (frestored b) (fdisk b)). split; [by apply faster_becomes_same|].
  assert (∀ o, Faster.received (status, rcv) k = o →
    (found ← Faster.read (id_bytes id ++ key); lift (Faster.received found k)) b
    = (o, MkFaster d' m (aggregate_fns b) (dir b) (frestored b) (fdisk b))) as Hrun.
  { intros o <-. unfold Faster.read. by rewrite bind_assoc, (Hcall _ _ E). }
  destruct (faster_entries (fdb b) !! _) as [s|]; [|by subst; apply Hrun].
  destruct Hrcv as [Hst Hrcv]. intros v Hv. apply Hrun. rewrite (Hrcv v Hv). by destruct Hst as [-> | ->]; cbn; destruct (k v).
Qed.
Lemma received_reads {V A} `{FasterValue V} (k : V → StateResult A) key o :
  match f_entries r !! key with
  | None => o = None
  | Some s => ∃ v a, of_stored s = Some v ∧ k v = Ok a ∧ o = Some a
  end → reads (found ← Faster.read (id_bytes id ++ key); lift (Faster.received found k)) b o.
Proof using All.
  destruct (received_outcome k key) as (b' & Hs & Ho). destruct (f_entries r !! key) as [s|].
  - intros (v & a & Hv & Hk & ->). exists b'. by rewrite (Ho v Hv), Hk.
  - intros ->. by exists b'.
Qed.
Lemma upsert_alters {V} `{FasterValue V} key (v : V) :
  alters (Faster.upsert (id_bytes id ++ key) v) b id (with_entries (<[key := to_stored v]> (f_entries r)) r) tt.
Proof using All.
  pose proof (faster_region_some _ _ _ Hr) as [Hb Er].
  destruct (call_ok (kv_upsert (id_bytes id ++ key) v) Faster.written b) as (n & m & Hcall).
  destruct (kv_upsert_law (fdb b) (id_bytes id ++ key) v n Hb) as (status & d' & E & Hst & Hd).
  eexists. split; [unfold Faster.upsert; rewrite (Hcall _ _ E); by rewrite status_written|].
  rewrite sub_table_region, <- sub_table_insert. eapply becomes_updates_key; [done..|exact Hd|].
  intros k Hne. by rewrite lookup_insert_ne.
Qed.
Lemma faster_remove_alters key :
  alters (Faster.remove (id_bytes id ++ key)) b id (with_entries (delete key (f_entries r)) r) tt.
Proof using All.
  pose proof (faster_region_some _ _ _ Hr) as [Hb Er].
  destruct (call_ok (kv_delete (id_bytes id ++ key)) Faster.removed b) as (n & m & Hcall).
  destruct (kv_delete_law (fdb b) (id_bytes id ++ key) n Hb) as (status & d' & E & Hst & Hd).
  eexists. split; [unfold Faster.remove; rewrite (Hcall _ _ E); by rewrite status_removed|].
  rewrite sub_table_region, <- sub_table_delete. eapply becomes_updates_key; [done..|exact Hd|].
    intros k Hne. by rewrite lookup_delete_ne.
Qed.
Lemma rmw_alters {V} `{FasterRmw V} key (modification new : V) :
  rmw_stores (f_entries r !! key) modification new →
  alters (Faster.rmw (id_bytes id ++ key) modification) b id (with_entries (<[key := to_stored new]> (f_entries r)) r) tt.
Proof using All.
  rewrite lookup_region. intros Hnew. pose proof (faster_region_some _ _ _ Hr) as [Hb Er].
  destruct (call_ok (kv_rmw (id_bytes id ++ key) modification) Faster.written b) as (n & m & Hcall).
  destruct (kv_rmw_law (fdb b) (id_bytes id ++ key) modification new n Hb Hnew) as (status & d' & E & Hst & Hd).
  eexists. split; [unfold Faster.rmw; rewrite (Hcall _ _ E); by rewrite status_written|].
  rewrite sub_table_region, <- sub_table_insert. eapply becomes_updates_key; [done..|exact Hd|].
  intros k Hne. by rewrite lookup_insert_ne.
Qed.
End calls.

(** A write to the entries, for a representation that accepts the region. *)
Lemma fitting_writes {A X : Type} (fn : option AggregatorFn → Prop) (Rep : bytes → gmap bytes Stored → bytes → X → Prop) (m : StateM (Faster Db) A)
    b (id : string) r (t' : gmap bytes Stored) (mk : bytes) (a : A) (x x' : X) :
  fitting fn Rep r mk x → alters m b id (with_entries t' r) a →
  Rep (f_prefix r) t' mk x' → frames (Rep (f_prefix r)) (f_entries r) t' mk →
  writes (fitting fn Rep : Region → _) m b id r mk a x'.
Proof using Type.
  intros (Hfits & Hfn & _) Hm Hx' Hf. eapply alters_writes; [exact Hm|done|].
  intros mk' y Hl Hne (_ & _ & Hy). split; [done|]. split; [done|]. by apply Hf.
Qed.
Lemma region_fits b id r : region b id = Some r → f_fits r = true → id_fits id = true.
Proof using Type. by intros [_ ->]%faster_region_some. Qed.
Lemma region_prefix b id r : region b id = Some r → f_prefix r = id_bytes id.
Proof using Type. by intros [_ ->]%faster_region_some. Qed.
End faster.
#[export] Hint Resolve frames_lookup : arcon.
