(* ===== verification/FasterOps.v ===== *)
(** The operations of the Faster backend on values, vectors and reducers meet the contract of the backend
    interface. *)

From S2P Require Import Prelude Error Serialization Files StateBackend Tables ByteStore Restore Faster FasterSpec.

(** The keys and the encodings are computed first. *)
Ltac faster_key Hid := first
  [ apply reads_lift_bind with (1 := serialize_id_and_metakeys_ok _ Hid)
  | apply reads_lift_bind with (1 := serialize_id_metakeys_and_key_ok _ Hid _)
  | apply alters_lift_bind with (1 := serialize_id_and_metakeys_ok _ Hid)
  | apply alters_lift_bind with (1 := serialize_id_metakeys_and_key_ok _ Hid _)
  | apply alters_lift_bind with (1 := protobuf_serialize_ok _) ].

Section faster.
Context `{BuildProfile, !Release, SlowerFaster, ErrorDisplay} {Db : Type} `{FasterLaws Db}.
Implicit Types (b : Faster Db) (d : Db) (r : FasterRegion).

(** ** The entry of a key *)

(** What a modification does to the elements of a vector, which a removal by index does not need. *)
Definition modified (modification : FasterVecOps) (items : list bytes) : list bytes :=
  match modification with
  | VecValue elems => items ++ elems
  | Push elem => items ++ [elem]
  | PushIfAbsent elem => if bool_decide (elem ∈ items) then items else items ++ [elem]
  | Remove elem => match list_find (λ i, i = elem) items with Some (idx, _) => delete idx items | None => items end
  | RemoveIdx _ => items
  end.
Definition modifies (modification : FasterVecOps) (found : option Stored) : Prop :=
  match modification with
  | VecValue _ | Push _ | PushIfAbsent _ => True
  | Remove _ => is_Some found
  | RemoveIdx _ => False
  end.
Lemma vec_rmw_ok v modification items found :
  vec_items v = Ok items → modifies modification found →
  vec_rmw v modification = Ok (VecValue (modified modification items)).
Proof using Type.
  intros Hv Hm. unfold vec_rmw. rewrite Hv. destruct modification; [done..| |done]. cbn. by destruct (list_find _ items) as [[i x]|].
Qed.

Section entry.
Context b (id : string) r (Hr : region b id = Some r) (Hfits : f_fits r = true).

Lemma faster_get_reads key (o : option bytes) :
  f_entries r !! key = Plain <$> o → reads (Faster.get (id_bytes id ++ key)) b o.
Proof using All.
  intros He. apply (received_reads b id r Hr Hfits Ok). rewrite He. destruct o as [v|]; cbn; eauto.
Qed.
Lemma get_vec_reads key items :
  stored_items (f_entries r !! key) items →
  ∃ o, reads (Faster.get_vec (id_bytes id ++ key)) b o ∧ default [] o = items ∧
    (is_Some (f_entries r !! key) ↔ is_Some o).
Proof using All.
  intros Hi. exists ((λ _, items) <$> f_entries r !! key). split; [|by destruct (f_entries r !! key); cbn in *; [split; [|split]|subst; split; [|split; intros []%is_Some_None]]].
  apply (received_reads b id r Hr Hfits vec_items).
  destruct (f_entries r !! key) as [s|]; [destruct Hi as (v & -> & Hv); by exists v, items|done].
Qed.
Lemma get_agg_reads {T} `{Value T} key (x : option T) :
  red_entry (f_entries r !! key) x → reads (Faster.get_agg (id_bytes id ++ key)) b (ld <$> x).
Proof using All.
  intros Hx. apply (received_reads b id r Hr Hfits).
  destruct (f_entries r !! key) as [s|], x as [v|]; cbn in Hx; [|done..].
  destruct Hx as (a & -> & [-> |[f ->]]); by eexists _, _.
Qed.
(** A modification of a vector that has an entry, or one that is a vector by itself. *)
Lemma vec_rmw_alters key modification items :
  stored_items (f_entries r !! key) items → modifies modification (f_entries r !! key) →
  ∃ s, alters (Faster.rmw (id_bytes id ++ key) modification) b id (with_entries (<[key := s]> (f_entries r)) r) tt ∧
    stored_items (Some s) (modified modification items).
Proof using All.
  intros Hi Hm. destruct (f_entries r !! key) as [s|] eqn:E.
  - destruct Hi as (v & -> & Hv). exists (Ops (VecValue (modified modification items))). split; [|by exists (VecValue (modified modification items))].
    refine (rmw_alters b id r Hr Hfits key modification (VecValue (modified modification items)) _). rewrite E. exists v. split; [done|].
    by eapply vec_rmw_ok.
  - cbn in Hi. subst items. exists (Ops modification). split; [|exists modification; split; [done|by destruct modification; try destruct Hm]].
    refine (rmw_alters b id r Hr Hfits key modification modification _). by rewrite E.
Qed.
End entry.

(** The reduction of an entry. *)
Lemma reduce_stores {T} `{Value T} (f : Reducer T) (found : option Stored) (x : option T) v :
  red_entry found x → ∃ new, rmw_stores found (Modify (ld v) (Faster.make_reduce_fn f)) new ∧
    red_entry (Some (Agg new)) (Some (match x with Some old => f old v | None => v end)).
Proof using Type.
  destruct found as [s|], x as [old|]; cbn; [|done..|].
  - intros (a & -> & Ha). exists (AggValue (ld (f old v))). split; [|by eexists; split; [|left]].
    exists a. split; [done|]. unfold rmw_with, FasterRmw_agg, agg_rmw.
    destruct Ha as [-> |[g ->]]; unfold Faster.make_reduce_fn; cbn;
      do 2 (rewrite protobuf_deserialize_ok; cbn); by rewrite protobuf_serialize_ok.
  - intros _. eexists. split; [done|]. eexists. split; [done|]. right. by eexists.
Qed.

Lemma faster_decode_old_ok {A} `{Value A} (x : option A) : Faster.decode_old (ld <$> x) = Ok x.
Proof using Type. destruct x as [v|]; cbn; [|done]. by rewrite protobuf_deserialize_ok. Qed.
Lemma plain_entry {A} `{Value A} (o : option A) : plain_value <$> o = Plain <$> (ld <$> o).
Proof using Type. by destruct o. Qed.
Lemma sequence_ok {E A B} (f : A → outcome E B) (g : A → B) l :
  (∀ x, f x = Ok (g x)) → sequence (f <$> l) = Ok (g <$> l).
Proof using Type. intros Hf. induction l as [|x l IH]; cbn; [done|]. by rewrite Hf, IH. Qed.
Lemma decode_items {T} `{Message T, !MessageLaws T} (l : list T) : protobuf_deserialize <$> (ld <$> l) = (Ok <$> l : list (StateResult T)).
Proof using Type. rewrite <- list_fmap_compose. apply list_fmap_ext. intros. apply protobuf_deserialize_ok. Qed.

Section values.
Context {T IK N : Type} `{Value T, Metakey IK, Metakey N}.

Section value.
Context (h : Handle (ValueState T) IK N) b r (x : option T).
Context (Hr : region b (h_id h) = Some r) (Hx : ValRep r (metakeys h) x).
Let Hid : id_fits (h_id h) = true := region_fits b (h_id h) r Hr (proj1 Hx).
Let He : f_entries r !! metakeys h = Plain <$> (ld <$> x) := eq_trans (proj2 (proj2 Hx)) (plain_entry x).

Lemma faster_value_get : reads (value_get h) b x.
Proof using All.
  cbn. unfold Faster.value_get. faster_key Hid. eapply reads_bind; [exact (faster_get_reads b _ r Hr (proj1 Hx) _ _ He)|].
  intros b' _. destruct x as [v|]; cbn; [|apply reads_ret].
  eapply reads_lift_bind; [apply protobuf_deserialize_ok|]. apply reads_ret.
Qed.
Lemma faster_value_set v : writes ValRep (value_set h v) b (h_id h) r (metakeys h) x (Some v).
Proof using All.
  eapply (fitting_writes any_fn (λ _, entry_rep plain_value) _ _ _ _ (<[metakeys h := plain_value v]> (f_entries r)));
    [exact Hx| |eauto with arcon..].
  - cbn. unfold Faster.value_set. faster_key Hid. eapply alters_bind; [exact (faster_get_reads b _ r Hr (proj1 Hx) _ _ He)|].
    intros b' Hs. eapply alters_lift_bind; [apply faster_decode_old_ok|]. faster_key Hid.
    eapply alters_then; [|intros ?; apply reads_ret]. apply upsert_alters; [by rewrite Hs|exact (proj1 Hx)].
Qed.
Lemma faster_value_fast_set v : writes ValRep (value_fast_set h v) b (h_id h) r (metakeys h) tt (Some v).
Proof using All.
  eapply (fitting_writes any_fn (λ _, entry_rep plain_value) _ _ _ _ (<[metakeys h := plain_value v]> (f_entries r)));
    [exact Hx| |eauto with arcon..].
  cbn. unfold Faster.value_fast_set. do 2 faster_key Hid.
  eapply alters_then; [|intros ?; apply reads_ret]. by apply upsert_alters; [|exact (proj1 Hx)].
Qed.
Lemma faster_value_clear : writes ValRep (value_clear h) b (h_id h) r (metakeys h) tt (None : option T).
Proof using All.
  eapply (fitting_writes any_fn (λ _, entry_rep plain_value) _ _ _ _ (delete (metakeys h) (f_entries r)));
    [exact Hx| |eauto with arcon..].
  cbn. unfold Faster.value_clear. faster_key Hid. 
  eapply alters_then; [|intros ?; apply reads_ret]. by apply faster_remove_alters; [|exact (proj1 Hx)].
Qed.
End value.

Section vec.
Context (h : Handle (VecState T) IK N) b r (x : list T).
Context (Hr : region b (h_id h) = Some r) (Hx : VecRep r (metakeys h) x).
Let Hid : id_fits (h_id h) = true := region_fits b (h_id h) r Hr (proj1 Hx).
Let Hitems : stored_items (f_entries r !! metakeys h) (ld <$> x) := proj2 (proj2 Hx).
Abbreviation vec_writes entries := (fitting_writes any_fn (λ _ t mk, vec_entry (t !! mk)) _ _ _ _ entries).

(** The elements are read, and an absent entry has none. *)
Lemma vec_reads {A} (k : option (list bytes) → StateM (Faster Db) A) a :
  (∀ o b', default [] o = ld <$> x → reads (k o) b' a) →
  reads (key ← lift (serialize_id_and_metakeys h); found ← Faster.get_vec key; k found) b a.
Proof using All.
  intros Hk. faster_key Hid. destruct (get_vec_reads b _ r Hr (proj1 Hx) _ _ Hitems) as (o & Ho & Hd & _).
  eapply reads_bind; [exact Ho|]. eauto.
Qed.
Lemma faster_vec_get : reads (vec_get h) b x.
Proof using All.
  apply vec_reads. intros [items|] b'; cbn; [intros ->|intros ->%eq_sym%fmap_nil_inv; apply reads_ret].
  rewrite decode_items. apply reads_lift. rewrite (sequence_ok _ id) by done. by rewrite list_fmap_id.
Qed.
Lemma faster_vec_iter : reads (vec_iter h) b (Ok <$> x).
Proof using All.
  apply vec_reads. intros [items|] b'; cbn; [intros ->|intros ->%eq_sym%fmap_nil_inv; apply reads_ret].
  rewrite decode_items. apply reads_ret.
Qed.
Lemma faster_vec_len : reads (vec_len h) b (len x).
Proof using All.
  apply vec_reads. intros [items|] b'; cbn; [intros ->|intros ->%eq_sym%fmap_nil_inv; apply reads_ret].
  rewrite length_fmap. apply reads_ret.
Qed.
Lemma faster_vec_is_empty : reads (vec_is_empty h) b (bool_decide (x = [])).
Proof using All.
  apply vec_reads. intros [items|] b'; cbn; [intros ->|intros ->%eq_sym%fmap_nil_inv; apply reads_ret].
  replace (bool_decide (x = [])) with (bool_decide (ld <$> x = [])); [apply reads_ret|].
  apply bool_decide_ext. by destruct x.
Qed.

Lemma faster_vec_set l : writes VecRep (vec_set h l) b (h_id h) r (metakeys h) tt l.
Proof using All.
  eapply (vec_writes (<[metakeys h := Ops (VecValue (ld <$> l))]> (f_entries r))); [exact Hx| |..].
  - cbn. unfold Faster.vec_set. faster_key Hid.
    eapply alters_lift_bind; [apply (sequence_ok _ ld), protobuf_serialize_ok|]. by apply upsert_alters; [|exact (proj1 Hx)].
  - rewrite lookup_insert_eq. by eexists.
  - eauto with arcon.
Qed.
Lemma vec_rmw_writes (m : StateM (Faster Db) unit) modification l :
  (∀ s, alters (Faster.rmw (id_bytes (h_id h) ++ metakeys h) modification) b (h_id h) s tt → alters m b (h_id h) s tt) →
  modifies modification (f_entries r !! metakeys h) → modified modification (ld <$> x) = ld <$> l →
  writes VecRep m b (h_id h) r (metakeys h) tt l.
Proof using All.
  intros Hm Hmod Hl. destruct (vec_rmw_alters b _ r Hr (proj1 Hx) _ modification _ Hitems Hmod) as (s & Ha & Hs).
  eapply (vec_writes (<[metakeys h := s]> (f_entries r))); [exact Hx|by apply Hm| |eauto with arcon].
  rewrite lookup_insert_eq. by rewrite Hl in Hs.
Qed.
Lemma faster_vec_append v : writes VecRep (vec_append h v) b (h_id h) r (metakeys h) tt (x ++ [v]).
Proof using All.
  apply (vec_rmw_writes _ (Push (ld v))); [|done|by rewrite fmap_app].
  intros s Ha. cbn. unfold Faster.vec_append. by do 2 faster_key Hid.
Qed.
Lemma faster_vec_add_all l : writes VecRep (vec_add_all h l) b (h_id h) r (metakeys h) tt (x ++ l).
Proof using All.
  apply (vec_rmw_writes _ (VecValue (ld <$> l))); [|done|by rewrite fmap_app].
  intros s Ha. cbn. unfold Faster.vec_add_all. faster_key Hid.
  eapply alters_lift_bind; [apply (sequence_ok _ ld), protobuf_serialize_ok|]. done.
Qed.
Lemma faster_vec_clear : writes VecRep (vec_clear h) b (h_id h) r (metakeys h) tt ([] : list T).
Proof using All.
  eapply (vec_writes (delete (metakeys h) (f_entries r))); [exact Hx| | |eauto with arcon].
  - cbn. unfold Faster.vec_clear. faster_key Hid.
    eapply alters_then; [|intros ?; apply reads_ret]. by apply faster_remove_alters; [|exact (proj1 Hx)].
  - by rewrite lookup_delete_eq.
Qed.
End vec.

Section reducer.
Context (h : Handle (ReducerState T) IK N) b r (x : option T).
Context (Hr : region b (h_id h) = Some r) (Hx : RedRep (extra_data h) r (metakeys h) x).
Let Hid : id_fits (h_id h) = true := region_fits b (h_id h) r Hr (proj1 Hx).
Abbreviation red_writes entries :=
  (fitting_writes (λ fn, fn = Some (Faster.make_reduce_fn (extra_data h))) (λ _ t mk, red_entry (t !! mk)) _ _ _ _ entries).

Lemma faster_reducer_get : reads (reducer_get h) b x.
Proof using All.
  cbn. unfold Faster.reducer_get. faster_key Hid.
  eapply reads_bind; [exact (get_agg_reads b _ r Hr (proj1 Hx) _ _ (proj2 (proj2 Hx)))|].
  intros b' _. destruct x as [v|]; cbn; [|apply reads_ret].
  eapply reads_lift_bind; [apply protobuf_deserialize_ok|]. apply reads_ret.
Qed.
Lemma faster_reducer_reduce (v : T) :
  writes (RedRep (extra_data h)) (reducer_reduce h v) b (h_id h) r (metakeys h) tt
    (Some (match x with Some old => extra_data h old v | None => v end)).
Proof using All.
  destruct (reduce_stores (extra_data h) _ x v (proj2 (proj2 Hx))) as (new & Hnew & Hx').
  eapply (red_writes (<[metakeys h := Agg new]> (f_entries r))); [exact Hx| | |eauto with arcon].
  - cbn. unfold Faster.reducer_reduce. do 2 faster_key Hid. unfold Faster.aggregate.
    destruct (rmw_alters b _ r Hr (proj1 Hx) _ _ _ Hnew) as (b' & E & Hu). exists b'. split; [|exact Hu].
    unfold mbind, M_bind, gets, lift. cbn. pose proof (proj1 (proj2 Hx)) as Hfn.
    pose proof (faster_region_some _ _ _ Hr) as [_ Er]. rewrite Er in Hfn. cbn in Hfn. rewrite Hfn. exact E.
  - by rewrite lookup_insert_eq.
Qed.
Lemma faster_reducer_clear :
  writes (RedRep (extra_data h)) (reducer_clear h) b (h_id h) r (metakeys h) tt (None : option T).
Proof using All.
  eapply (red_writes (delete (metakeys h) (f_entries r))); [exact Hx| | |eauto with arcon].
  - cbn. unfold Faster.reducer_clear. faster_key Hid.
    eapply alters_then; [|intros ?; apply reads_ret]. by apply faster_remove_alters; [|exact (proj1 Hx)].
  - by rewrite lookup_delete_eq.
Qed.
End reducer.
End values.
End faster.
