(* ===== verification/FasterMaps.v ===== *)
(** The map operations of the Faster backend, and the index of keys that the feature [slower_faster]
    keeps for them. *)

From S2P Require Import Prelude Error Serialization Files StateBackend Tables ByteStore Restore Faster FasterSpec FasterOps.

(** ** The keys of a map *)

Section keys.
Context {K V : Type} `{Key K, !MessageLaws K, EqDecision K, !Countable K}.
Implicit Types (m : gmap K V) (q : bytes) (keys : list bytes).

Lemma elem_of_map_keys q m k : q ++ ld k ∈ map_keys_under q m ↔ is_Some (m !! k).
Proof.
  unfold map_keys_under. rewrite list_elem_of_fmap. split.
  - intros ([k' v] & E%(inj (q ++.))%ld_inj & Hin%elem_of_map_to_list). cbn in E. subst. by eexists.
  - intros [v Hv]. exists (k, v). by rewrite elem_of_map_to_list.
Qed.
Lemma map_keys_delete q m k v : m !! k = Some v → map_keys_under q m ≡ₚ (q ++ ld k) :: map_keys_under q (delete k m).
Proof. intros Hm. unfold map_keys_under. by rewrite <- (map_to_list_delete m k v). Qed.
Lemma map_keys_size q m keys : keys ≡ₚ map_keys_under q m → length keys = size m.
Proof. intros ->. unfold map_keys_under. by rewrite length_fmap, length_map_to_list. Qed.
Lemma map_keys_nil q m keys : keys ≡ₚ map_keys_under q m → (keys = [] ↔ m = ∅).
Proof.
  intros Hk%map_keys_size. rewrite <- map_size_empty_iff, <- Hk. split; [by intros ->|by intros ?%nil_length_inv].
Qed.
(** The index follows an insertion and a removal. *)
Lemma index_insert q m keys k v :
  keys ≡ₚ map_keys_under q m → modified (PushIfAbsent (q ++ ld k)) keys ≡ₚ map_keys_under q (<[k := v]> m).
Proof.
  intros Hk. rewrite (map_keys_delete q (<[k := v]> m) k v) by by rewrite lookup_insert_eq. rewrite delete_insert_eq.
  cbn. case_bool_decide as Hin.
  - rewrite Hk, elem_of_map_keys in Hin. destruct Hin as [old Hold]. by rewrite Hk, (map_keys_delete q m k old).
  - rewrite Hk, elem_of_map_keys, <- eq_None_not_Some in Hin. rewrite delete_id by done. by rewrite Hk, Permutation_app_comm.
Qed.
Lemma index_delete q m keys k :
  keys ≡ₚ map_keys_under q m → modified (Remove (q ++ ld k)) keys ≡ₚ map_keys_under q (delete k m).
Proof.
  intros Hk. cbn. destruct (list_find _ keys) as [[i x]|] eqn:E.
  - apply list_find_Some in E as (Hi & -> & _).
    assert (is_Some (m !! k)) as [v Hv] by (rewrite <- (elem_of_map_keys q), <- Hk; by eapply list_elem_of_lookup_2).
    apply delete_Permutation in Hi. apply (Permutation_cons_inv (a:=q ++ ld k)).
    etransitivity; [symmetry; exact Hi|]. etransitivity; [exact Hk|]. by apply map_keys_delete with v.
  - apply list_find_None in E. rewrite delete_id; [done|]. apply eq_None_not_Some. rewrite <- (elem_of_map_keys q), <- Hk.
    intros Hin. rewrite Forall_forall in E. by apply (E _ Hin).
Qed.
End keys.

(** Tables that differ at the metakeys at most, and those that differ under them. *)
Definition differ_at (mk : bytes) (t t' : gmap bytes Stored) : Prop := ∀ key, key ≠ mk → t' !! key = t !! key.
Definition differ_under (mk : bytes) (t t' : gmap bytes Stored) : Prop :=
  ∀ key, take (length mk) key ≠ mk → t' !! key = t !! key.
Lemma differ_at_under mk t0 t t' : differ_under mk t0 t → differ_at mk t t' → differ_under mk t0 t'.
Proof.
  intros Hu Ha key Hk. rewrite Ha; [by apply Hu|]. intros ->. by rewrite firstn_all in Hk.
Qed.
Lemma differ_under_insert mk t key s : differ_under mk t (<[mk ++ key := s]> t).
Proof. intros k Hk. rewrite lookup_insert_ne; [done|]. intros <-. by rewrite take_app_length in Hk. Qed.
Lemma differ_under_delete mk t key : differ_under mk t (delete (mk ++ key) t).
Proof. intros k Hk. rewrite lookup_delete_ne; [done|]. intros <-. by rewrite take_app_length in Hk. Qed.
Lemma entry_not_metakeys {K} `{Key K, !MessageLaws K} (mk : bytes) (k : K) : mk ++ ld k ≠ mk.
Proof. rewrite <- (app_nil_r mk) at 2. intros ?%(inj (mk ++.)). by eapply ld_nonempty. Qed.

(** Writing only under the metakeys frames. *)
Lemma frames_map_entries {K V} `{SlowerFaster, Key K, !MessageLaws K, EqDecision K, !Countable K, Value V} p t t' mk :
  differ_under mk t t' → frames (map_entries (K:=K) (V:=V) p) t t' mk.
Proof.
  intros Ht mk' m Hl Hne [He Hi]. split.
  - intros k. rewrite Ht; [apply He|]. by rewrite <- Hl, take_app_length.
  - intros Hsf. destruct (Hi Hsf) as (keys & Hk & Hp). exists keys. split; [|done].
    rewrite Ht; [done|]. by rewrite <- Hl, firstn_all.
Qed.

Section faster.
Context `{BuildProfile, !Release, SlowerFaster, ErrorDisplay} {Db : Type} `{FasterLaws Db}.
Implicit Types (b : Faster Db) (d : Db) (r : FasterRegion).

Lemma with_entries_same r : with_entries (f_entries r) r = r.
Proof using Type. by destruct r. Qed.
Section maps.
Context {K V IK N : Type} `{Key K, !MessageLaws K, EqDecision K, !Countable K, Value V, Metakey IK, Metakey N}.
Section map.
Context (h : Handle (MapState K V) IK N) b r (m : gmap K V).
Context (Hr : region b (h_id h) = Some r) (Hm : MapRep r (metakeys h) m).
Let Hid : id_fits (h_id h) = true := region_fits b (h_id h) r Hr (proj1 Hm).
Let Hentries : map_entries (f_prefix r) (f_entries r) (metakeys h) m := proj2 (proj2 Hm).
Abbreviation full k := (id_bytes (h_id h) ++ metakeys h ++ ld k).

Lemma map_entry k : f_entries r !! (metakeys h ++ ld k) = Plain <$> (ld <$> m !! k).
Proof using Hm. rewrite (proj1 (proj2 (proj2 Hm))). apply plain_entry. Qed.
Lemma faster_map_get k : reads (map_get h k) b (m !! k).
Proof using All.
  cbn. unfold Faster.map_get. faster_key Hid. eapply reads_bind; [exact (faster_get_reads b _ r Hr (proj1 Hm) _ _ (map_entry k))|].
  intros b' _. destruct (m !! k) as [v|]; cbn; [|apply reads_ret].
  eapply reads_lift_bind; [apply protobuf_deserialize_ok|]. apply reads_ret.
Qed.
Lemma faster_map_contains k : reads (map_contains h k) b (bool_decide (is_Some (m !! k))).
Proof using All.
  cbn. unfold Faster.map_contains. faster_key Hid. eapply reads_bind; [exact (faster_get_reads b _ r Hr (proj1 Hm) _ _ (map_entry k))|].
  intros b' _. rewrite (bool_decide_ext _ (is_Some (m !! k))) by by rewrite fmap_is_Some. apply reads_ret.
Qed.
(** A map that is not empty has an index. *)
Lemma index_present : (slower_faster = true → m ≠ ∅) → slower_faster = true → is_Some (f_entries r !! metakeys h).
Proof using Hm.
  intros Hne Hsf. destruct (proj2 (proj2 (proj2 Hm)) Hsf) as (keys & Hk & Hp).
  destruct (f_entries r !! metakeys h); [by eexists|]. cbn in Hk. subst. apply map_keys_nil in Hp as [Hp _]. by destruct (Hne Hsf (Hp eq_refl)).
Qed.
(** After the entry of a key is written, the index is brought up to date. *)
Lemma index_alters (update : bytes → bytes → StateM (Faster Db) unit) modification t k b1 :
  region b1 (h_id h) = Some (with_entries t r) → t !! metakeys h = f_entries r !! metakeys h →
  (∀ key, update key = Faster.rmw key ∘ modification) →
  (slower_faster = true → modifies (modification (full k)) (f_entries r !! metakeys h)) →
  ∃ t', alters (if slower_faster then prefix ← lift (serialize_id_and_metakeys h); update prefix (full k) else mret tt)
      b1 (h_id h) (with_entries t' r) tt ∧ differ_at (metakeys h) t t' ∧
    (slower_faster = true → ∀ keys, stored_items (f_entries r !! metakeys h) keys →
      stored_items (t' !! metakeys h) (modified (modification (full k)) keys)).
Proof using All.
  intros Hr1 Ht Hu Hmod. destruct slower_faster eqn:Hsf.
  - specialize (Hmod eq_refl). destruct (proj2 Hentries Hsf) as (keys & Hkeys & _). rewrite <- Ht in Hkeys, Hmod.
    destruct (vec_rmw_alters b1 _ _ Hr1 (proj1 Hm) _ (modification (full k)) keys Hkeys Hmod) as (s & Ha & Hs).
    exists (<[metakeys h := s]> t). split; [|split].
    + faster_key Hid. rewrite Hu. exact Ha.
    + intros key Hne. by rewrite lookup_insert_ne.
    + intros _ keys' Hk'. rewrite lookup_insert_eq. rewrite <- Ht in Hk'. by assert (keys' = keys) as -> by by eapply stored_items_inj.
  - exists t. split; [|done]. eexists. split; [reflexivity|]. by apply updates_refl.
Qed.

(** An insertion and a removal write the entry of the key and its index. *)
Lemma insert_writes k (v : V) :
  writes MapRep (Faster.put (full k) (ld v) ;; Faster.index_add h (full k)) b (h_id h) r (metakeys h) tt (<[k := v]> m).
Proof using All.
  set (t := <[metakeys h ++ ld k := plain_value v]> (f_entries r)).
  assert (Ht : t !! metakeys h = f_entries r !! metakeys h).
  { unfold t. rewrite lookup_insert_ne; [done|]. apply entry_not_metakeys. }
  destruct (upsert_alters b _ r Hr (proj1 Hm) (metakeys h ++ ld k) (ld v)) as (b1 & E1 & Hu1).
  destruct (index_alters Faster.vec_push_if_absent PushIfAbsent t k b1 (proj1 Hu1) Ht) as (t' & (b2 & E2 & Hu2) & Hat & Hi); [done..|].
  eapply (fitting_writes any_fn map_entries _ _ _ _ t'); [exact Hm| | |].
  - exists b2. split; [by step_ok E1|by eapply updates_trans].
  - split.
    + intros k'. rewrite Hat by apply entry_not_metakeys. unfold t. destruct (decide (k' = k)) as [->|Hne]; [by simplify_map_eq|].
      rewrite !lookup_insert_ne; [apply Hentries|done|]. by intros E%(inj (metakeys h ++.))%ld_inj.
    + intros Hsf. destruct (proj2 Hentries Hsf) as (keys & Hkeys & Hp). eexists. split; [by apply Hi|].
      rewrite (region_prefix b _ r Hr) in Hp |- *. rewrite (assoc_L (++)). by apply index_insert.
  - apply frames_map_entries. eapply differ_at_under; [apply differ_under_insert|exact Hat].
Qed.
Lemma remove_writes k :
  (slower_faster = true → m ≠ ∅) →
  writes MapRep (Faster.remove (full k) ;; Faster.index_remove h (full k)) b (h_id h) r (metakeys h) tt (delete k m).
Proof using All.
  intros Hne. set (t := delete (metakeys h ++ ld k) (f_entries r)).
  assert (Ht : t !! metakeys h = f_entries r !! metakeys h).
  { unfold t. rewrite lookup_delete_ne; [done|]. apply entry_not_metakeys. }
  destruct (faster_remove_alters b _ r Hr (proj1 Hm) (metakeys h ++ ld k)) as (b1 & E1 & Hu1).
  destruct (index_alters Faster.vec_remove_elem Remove t k b1 (proj1 Hu1) Ht) as (t' & (b2 & E2 & Hu2) & Hat & Hi); [done|by apply index_present|].
  eapply (fitting_writes any_fn map_entries _ _ _ _ t'); [exact Hm| | |].
  - exists b2. split; [by step_ok E1|by eapply updates_trans].
  - split.
    + intros k'. rewrite Hat by apply entry_not_metakeys. unfold t. destruct (decide (k' = k)) as [->|Hk]; [by simplify_map_eq|].
      rewrite !lookup_delete_ne; [apply Hentries|done|]. by intros E%(inj (metakeys h ++.))%ld_inj.
    + intros Hsf. destruct (proj2 Hentries Hsf) as (keys & Hkeys & Hp). eexists. split; [by apply Hi|].
      rewrite (region_prefix b _ r Hr) in Hp |- *. rewrite (assoc_L (++)). by apply index_delete.
  - apply frames_map_entries. eapply differ_at_under; [apply differ_under_delete|exact Hat].
Qed.
End map.

Section writes.
Context (h : Handle (MapState K V) IK N) b r (m : gmap K V).
Context (Hr : region b (h_id h) = Some r) (Hm : MapRep r (metakeys h) m).
Let Hid : id_fits (h_id h) = true := region_fits b (h_id h) r Hr (proj1 Hm).

Lemma faster_map_fast_insert k v : writes MapRep (map_fast_insert h k v) b (h_id h) r (metakeys h) tt (<[k:=v]> m).
Proof using All.
  cbn. unfold Faster.map_fast_insert. eapply writes_lift_bind; [by apply serialize_id_metakeys_and_key_ok|].
  eapply writes_lift_bind; [apply protobuf_serialize_ok|]. by apply insert_writes.
Qed.
(** The old value is read before. *)
Lemma after_old {A X : Type} k (next : bytes → option V → StateM (Faster Db) A) (Rep : Region → bytes → X → Prop) (a : A) x' :
  (∀ b', region b' (h_id h) = Some r → writes Rep (next (id_bytes (h_id h) ++ metakeys h ++ ld k) (m !! k)) b' (h_id h) r (metakeys h) a x') →
  writes Rep (key ← lift (serialize_id_metakeys_and_key h k); found ← Faster.get key;
    old ← lift (Faster.decode_old found); next key old) b (h_id h) r (metakeys h) a x'.
Proof using All.
  intros Hnext. eapply writes_lift_bind; [by apply serialize_id_metakeys_and_key_ok|].
  eapply writes_bind; [exact (faster_get_reads b _ r Hr (proj1 Hm) _ _ (map_entry h r m Hm k))|]. intros b' Hs.
  eapply writes_lift_bind; [apply faster_decode_old_ok|]. apply Hnext. by rewrite Hs.
Qed.
Lemma faster_map_insert k v : writes MapRep (map_insert h k v) b (h_id h) r (metakeys h) (m !! k) (<[k:=v]> m).
Proof using All.
  cbn. unfold Faster.map_insert. apply (after_old k (λ key old, serialized ← lift (protobuf_serialize v);
    Faster.put key serialized ;; Faster.index_add h key ;; mret old)).
  intros b' Hb'. eapply writes_lift_bind; [apply protobuf_serialize_ok|].
  apply writes_result. by apply insert_writes.
Qed.
Lemma faster_map_remove k : (slower_faster = true → m ≠ ∅) →
  writes MapRep (map_remove h k) b (h_id h) r (metakeys h) (m !! k) (delete k m).
Proof using All.
  intros Hne. cbn. unfold Faster.map_remove.
  apply (after_old k (λ key old, Faster.remove key ;; Faster.index_remove h key ;; mret old)). intros b' Hb'. apply writes_result. by apply remove_writes.
Qed.
Lemma faster_map_fast_remove k : (slower_faster = true → m ≠ ∅) →
  writes MapRep (map_fast_remove h k) b (h_id h) r (metakeys h) tt (delete k m).
Proof using All.
  intros Hne. cbn. unfold Faster.map_fast_remove. eapply writes_lift_bind; [by apply serialize_id_metakeys_and_key_ok|].
  by apply remove_writes.
Qed.
End writes.

Lemma faster_map_insert_all (h : Handle (MapState K V) IK N) b r (m : gmap K V) kvs :
  region b (h_id h) = Some r → MapRep r (metakeys h) m →
  writes MapRep (map_insert_all h kvs) b (h_id h) r (metakeys h) tt (foldl (λ m kv, <[kv.1:=kv.2]> m) m kvs).
Proof using All.
  cbn. unfold Faster.map_insert_all. revert b r m. induction kvs as [|[k v] kvs IH]; intros b r m Hr Hm; cbn [for_each foldl].
  { exists b, r. split; [done|]. split; [by apply updates_refl|]. split; [exact Hm|apply frames_refl]. }
  eapply writes_seq; [exact (faster_map_fast_insert h b r m Hr Hm k v)|]. intros b1 r1 Hr1 Hm1. by apply IH.
Qed.

(** ** The operations on the whole map, with the index *)

Section whole.
Context (h : Handle (MapState K V) IK N) b r (m : gmap K V) (Hsf : slower_faster = true).
Context (Hr : region b (h_id h) = Some r) (Hm : MapRep r (metakeys h) m).
Let Hid : id_fits (h_id h) = true := region_fits b (h_id h) r Hr (proj1 Hm).
Abbreviation full k := (id_bytes (h_id h) ++ metakeys h ++ ld k).

(** The index names the keys of the map in some order. *)
Lemma index_reads : ∃ l o, l ≡ₚ map_to_list m ∧ default [] o = (λ kv : K * V, full kv.1) <$> l ∧
  reads (Faster.map_index h) b o ∧ (is_Some (f_entries r !! metakeys h) ↔ is_Some o).
Proof using All.
  destruct (proj2 (proj2 (proj2 Hm)) Hsf) as (keys & Hk & Hp). unfold map_keys_under in Hp.
  apply Permutation_map_inv in Hp as (l & -> & Hl).
  destruct (get_vec_reads b _ r Hr (proj1 Hm) _ _ Hk) as (o & Ho & Hd & Hsome). exists l, o.
  split; [by symmetry|]. split; [|split; [|done]].
  - rewrite Hd. apply list_fmap_ext. intros _ kv _. by rewrite (region_prefix b _ r Hr), (assoc_L (++)).
  - unfold Faster.map_index. by faster_key Hid.
Qed.
Lemma faster_map_len : reads (map_len h) b (Z.of_nat (size m)).
Proof using All.
  cbn. unfold Faster.map_len. rewrite Hsf. destruct index_reads as (l & o & Hl & Hd & Ho & _).
  eapply reads_bind; [exact Ho|]. intros b' _. rewrite <- (length_map_to_list m), <- Hl.
  destruct o as [keys|]; cbn in Hd; [rewrite Hd, length_fmap; apply reads_ret|].
  apply eq_sym, fmap_nil_inv in Hd as ->. apply reads_ret.
Qed.
Lemma faster_map_is_empty : reads (map_is_empty h) b (bool_decide (m = ∅)).
Proof using All.
  cbn. unfold Faster.map_is_empty. rewrite Hsf. destruct index_reads as (l & o & Hl & Hd & Ho & _).
  eapply reads_bind; [exact Ho|]. intros b' _. rewrite (bool_decide_ext (m = ∅) (l = [])).
  - destruct o as [keys|]; cbn in Hd; [|apply eq_sym, fmap_nil_inv in Hd as ->; apply reads_ret].
    subst keys. rewrite (bool_decide_ext _ (l = [])) by by destruct l. apply reads_ret.
  - rewrite <- map_to_list_empty_iff. split; intros E; rewrite E in Hl; [by apply Permutation_nil_r|].
    symmetry in Hl. by apply Permutation_nil_r.
Qed.

(** An iterator that is run to its end reads one entry after the other. *)
Lemma yielded_ok {A : Type} (f : bytes → StateM (Faster Db) A) (g : K * V → A) l b1 :
  (∀ kv b', same_data b b' → kv ∈ l → reads (f (full kv.1)) b' (g kv)) → same_data b b1 →
  reads (Faster.yielded f ((λ kv : K * V, full kv.1) <$> l)) b1 (Ok <$> (g <$> l)).
Proof using All.
  revert b1. induction l as [|kv l IH]; intros b1 Hf Hs1; [apply reads_ret|].
  destruct (Hf kv b1 Hs1 ltac:(left)) as (b2 & E2 & Hs2).
  destruct (IH b2) as (b3 & E3 & Hs3); [|by eapply same_data_trans|].
  { intros kv' b' Hs' Hin. apply Hf; [done|by right]. }
  exists b3. split; [|by eapply same_data_trans]. cbn [fmap list_fmap Faster.yielded]. rewrite E2.
  cbn [fmap list_fmap] in E3. by rewrite E3.
Qed.
Lemma map_items_ok {A : Type} (f : bytes → StateM (Faster Db) A) (g : K * V → A) :
  (∀ k v b', region b' (h_id h) = Some r → m !! k = Some v → reads (f (full k)) b' (g (k, v))) →
  ∃ l, reads (Faster.map_items h f) b (Ok <$> l) ∧ l ≡ₚ g <$> map_to_list m.
Proof using All.
  intros Hf. unfold Faster.map_items. rewrite Hsf. destruct index_reads as (l & o & Hl & Hd & Ho & _).
  exists (g <$> l). split; [|by rewrite Hl]. eapply reads_bind; [exact Ho|]. intros b1 Hs1. rewrite Hd.
  apply yielded_ok; [|done]. intros [k v] b' Hs Hin. apply Hf; [by rewrite Hs|].
  rewrite Hl in Hin. by apply elem_of_map_to_list.
Qed.
Lemma faster_decode_key k : handle_wf h → Faster.decode_key (IK:=IK) (N:=N) (full k) = Ok k.
Proof using Hid.
  intros [Hik Hns]. unfold Faster.decode_key, metakeys. rewrite deserialize_id by done. cbn [mbind outcome_bind snd].
  unfold deserialize_from. rewrite <- !(assoc_L (++)), mk_from_slice by done. cbn.
  rewrite mk_from_slice by done. cbn. by rewrite <- (app_nil_r (ld k)), protobuf_deserialize_from_ok.
Qed.
Lemma get_value_ok k v b' : region b' (h_id h) = Some r → m !! k = Some v → reads (Faster.get_value (full k)) b' (ld v).
Proof using All.
  intros Hb' Hk. unfold Faster.get_value. pose proof (map_entry h r m Hm k) as He. rewrite Hk in He.
  eapply reads_bind; [exact (faster_get_reads b' _ r Hb' (proj1 Hm) _ _ He)|]. intros b2 _. by apply reads_lift.
Qed.

Lemma faster_map_iter : handle_wf h → ∃ l, reads (map_iter h) b (Ok <$> l) ∧ l ≡ₚ map_to_list m.
Proof using All.
  intros Hwf. destruct (map_items_ok (λ key, v ← Faster.get_value key; k ← lift (Faster.decode_key (IK:=IK) (N:=N) key);
    value ← lift (protobuf_deserialize v); mret (k, value)) id) as (l & Hl & Hp); [|exists l; by rewrite list_fmap_id in Hp].
  intros k v b' Hb' Hk. eapply reads_bind; [by apply get_value_ok|]. intros b2 _.
  eapply reads_lift_bind; [by apply faster_decode_key|]. eapply reads_lift_bind; [apply protobuf_deserialize_ok|]. apply reads_ret.
Qed.
Lemma faster_map_keys : handle_wf h → ∃ l, reads (map_keys h) b (Ok <$> l) ∧ l ≡ₚ (map_to_list m).*1.
Proof using All.
  intros Hwf. apply (map_items_ok (λ key, lift (Faster.decode_key (IK:=IK) (N:=N) key)) fst).
  intros. apply reads_lift. by apply faster_decode_key.
Qed.
Lemma faster_map_values : ∃ l, reads (map_values h) b (Ok <$> l) ∧ l ≡ₚ (map_to_list m).*2.
Proof using All.
  apply (map_items_ok (λ key, v ← Faster.get_value key; lift (protobuf_deserialize v)) snd).
  intros k v b' Hb' Hk. eapply reads_bind; [by apply get_value_ok|]. intros b2 _. apply reads_lift, protobuf_deserialize_ok.
Qed.

(** Clearing removes the index and the entries of the keys it names. *)
Lemma removes_alter b1 t (l : list (K * V)) :
  region b1 (h_id h) = Some (with_entries t r) →
  ∃ t', alters (for_each Faster.remove ((λ kv : K * V, full kv.1) <$> l)) b1 (h_id h) (with_entries t' r) tt ∧
    (∀ kv, kv ∈ l → t' !! (metakeys h ++ ld kv.1) = None) ∧
    (∀ key, t' !! key = t !! key ∨ t' !! key = None) ∧ differ_under (metakeys h) t t' ∧
    t' !! metakeys h = t !! metakeys h.
Proof using All.
  revert b1 t. induction l as [|[k v] l IH]; intros b1 t Hr1.
  { exists t. split; [eexists; by split; [|apply updates_refl]|]. split; [by intros ? ?%not_elem_of_nil|]. by split; [left|]. }
  destruct (faster_remove_alters b1 _ _ Hr1 (proj1 Hm) (metakeys h ++ ld k)) as (b2 & E2 & Hu2).
  destruct (IH b2 _ (proj1 Hu2)) as (t' & (b3 & E3 & Hu3) & Hnone & Hkept & Hunder & Hmk). cbn [f_entries with_entries] in Hkept, Hunder, Hmk.
  exists t'. split; [exists b3; cbn [fmap list_fmap for_each]; split; [by step_ok E2|by eapply updates_trans]|].
  assert (Hall : ∀ key, t' !! key = t !! key ∨ t' !! key = None).
  { intros key. destruct (Hkept key) as [-> |]; [|by right]. destruct (decide (key = metakeys h ++ ld k)) as [->|Hne];
      [right; by rewrite lookup_delete_eq|left; by rewrite lookup_delete_ne]. }
  split; [|split; [done|split]].
  - intros kv [->|Hin]%elem_of_cons; [|by apply Hnone]. cbn [fst]. destruct (Hkept (metakeys h ++ ld k)) as [-> |]; [by rewrite lookup_delete_eq|done].
  - intros key Hkey. rewrite Hunder by done. by apply differ_under_delete.
  - rewrite Hmk, lookup_delete_ne; [done|]. apply entry_not_metakeys.
Qed.
Lemma faster_map_clear : writes (MapRep (K:=K) (V:=V)) (map_clear h) b (h_id h) r (metakeys h) tt ∅.
Proof using All.
  cbn. unfold Faster.map_clear. rewrite Hsf.
  destruct index_reads as (l & o & Hl & Hd & Ho & Hsome). unfold Faster.map_index in Ho.
  eapply writes_lift_bind; [by apply serialize_id_and_metakeys_ok|].
  assert (reads (Faster.get_vec (id_bytes (h_id h) ++ metakeys h)) b o) as Ho'.
  { destruct Ho as (b1 & E1 & Hs1). exists b1. split; [|done]. rewrite <- E1. unfold mbind, M_bind, lift.
    by rewrite serialize_id_and_metakeys_ok. }
  eapply writes_bind; [exact Ho'|]. intros b1 Hs1. assert (Hr1 : region b1 (h_id h) = Some r) by by rewrite Hs1.
  destruct o as [keys|]; cbn in Hd.
  - subst keys. destruct (faster_remove_alters b1 _ _ Hr1 (proj1 Hm) (metakeys h)) as (b2 & E2 & Hu2).
    destruct (removes_alter b2 _ l (proj1 Hu2)) as (t' & (b3 & E3 & Hu3) & Hnone & Hkept & Hunder & Hmk).
    eapply (fitting_writes any_fn map_entries _ _ _ _ t'); [exact Hm| | |].
    + exists b3. split; [by step_ok E2|by eapply updates_trans].
    + split.
      * intros k. rewrite lookup_empty. destruct (m !! k) as [v|] eqn:Hk.
        { apply (Hnone (k, v)). rewrite Hl. by apply elem_of_map_to_list. }
        destruct (Hkept (metakeys h ++ ld k)) as [-> |]; [|done]. rewrite lookup_delete_ne by apply not_eq_sym, entry_not_metakeys.
        by rewrite (map_entry h r m Hm), Hk.
      * intros _. exists []. rewrite Hmk, lookup_delete_eq. split; [done|]. unfold map_keys_under. by rewrite map_to_list_empty.
    + apply frames_map_entries. intros key Hkey. rewrite Hunder by done. rewrite <- (app_nil_r (metakeys h)) at 1. by apply differ_under_delete.
  - apply eq_sym, fmap_nil_inv in Hd as ->. apply Permutation_nil_l, eq_sym, map_to_list_empty_iff in Hl as ->.
    exists b1, r. split; [done|]. split; [by apply updates_refl|]. split; [exact Hm|apply frames_refl].
Qed.
End whole.
End maps.
End faster.
