(* ===== verification/FasterBackend.v ===== *)
(** What the Faster backend promises, with a concrete store that behaves as FASTER documents. *)

From S2P Require Import Prelude Error Serialization Files StateBackend Tables ByteStore BackendLaws Restore Faster FasterSpec FasterOps FasterMaps.

(** ** Checkpoints succeed or report an error *)

Definition succeeds_or_fails {E A : Type} (o : outcome E A) : Prop := (∃ a, o = Ok a) ∨ ∃ e, o = Err e.
Definition settles {A : Type} (m : M Fs ArconStateError A) : Prop := ∀ fs, ∃ o fs', m fs = (o, fs') ∧ succeeds_or_fails o.

Lemma settles_bind {A A' : Type} (m : M Fs ArconStateError A) (k : A → M Fs ArconStateError A') :
  settles m → (∀ a, settles (k a)) → settles (m ≫= k).
Proof.
  intros Hm Hk fs. destruct (Hm fs) as (o & fs1 & E & [[a ->]|[e ->]]).
  - destruct (Hk a fs1) as (o & fs2 & E2 & Ho). exists o, fs2. by rewrite (bind_ok _ _ _ _ _ E).
  - exists (Err e), fs1. split; [by rewrite (bind_err _ _ _ _ _ E)|]. right. by eexists.
Qed.
Lemma settles_for_each {A : Type} (f : A → M Fs ArconStateError unit) l : (∀ x, settles (f x)) → settles (for_each f l).
Proof.
  intros Hf. induction l as [|x l IH]; [|by apply settles_bind]. intros fs. exists (Ok tt), fs. split; [done|]. left. by eexists.
Qed.
Lemma settles_outcome (m : M Fs ArconStateError unit) :
  (∀ fs, ∃ o fs', m fs = (o, fs') ∧ (o = Ok tt ∨ o = Err IO)) → settles m.
Proof. intros Hm fs. destruct (Hm fs) as (o & fs' & E & [-> | ->]); eexists _, _; (split; [exact E|]); [left|right]; by eexists. Qed.
Lemma settles_write_file (p : path) c : settles (write_file p c).
Proof. apply settles_outcome. intros fs. eexists _, _. split; [done|by left]. Qed.
Lemma settles_copy_file (source target : path) : settles (copy_file source target).
Proof.
  apply settles_bind.
  - intros fs. unfold open_file. destruct (fs !! source) as [[|c]|]; eexists _, _; (split; [done|]); [right|left|right]; by eexists.
  - intros c. apply settles_bind; [apply settles_outcome, create_file_outcome|]. intros []. apply settles_write_file.
Qed.
Lemma settles_copy_files source target ignore : settles (Faster.copy_files source target ignore).
Proof.
  apply settles_bind.
  - intros fs. unfold read_dir. destruct (fs !! source) as [[|c]|]; eexists _, _; (split; [done|]); [left|right|right]; by eexists.
  - intros files. apply settles_for_each. intros file. unfold Faster.copy_entry. case_match; [|apply settles_copy_file].
    intros fs. eexists _, _. split; [done|]. left. by eexists.
Qed.
Lemma settles_copy_checkpoint token source target : settles (Faster.copy_checkpoint token source target).
Proof.
  unfold Faster.copy_checkpoint. repeat (apply settles_bind; [|intros _]);
    try apply settles_copy_files; apply settles_outcome, create_dir_all_outcome.
Qed.

Section faster.
Context `{BuildProfile, !Release, SlowerFaster, ErrorDisplay} {Db : Type} `{FasterLaws Db}.
Implicit Types (b : Faster Db) (d : Db) (r : FasterRegion).

(** A step that keeps the data and succeeds or fails. *)
Definition steady {A : Type} (m : StateM (Faster Db) A) : Prop := ∀ b, backend_ok b → ∃ o b', m b = (o, b') ∧
  backend_ok b' ∧ same_data b b' ∧ succeeds_or_fails o.
Lemma steady_bind {A A' : Type} (m : StateM (Faster Db) A) (k : A → StateM (Faster Db) A') :
  steady m → (∀ a, steady (k a)) → steady (m ≫= k).
Proof using Type.
  intros Hm Hk b Hb. destruct (Hm b Hb) as (o & b1 & E & Hb1 & Hs1 & [[a ->]|[e ->]]).
  - destruct (Hk a b1 Hb1) as (o & b2 & E2 & Hb2 & Hs2 & Ho). exists o, b2. rewrite (bind_ok _ _ _ _ _ E).
    split; [done|]. split; [done|]. split; [by eapply same_data_trans|done].
  - exists (Err e), b1. split; [by rewrite (bind_err _ _ _ _ _ E)|]. split; [done|]. split; [done|]. right. by eexists.
Qed.
Lemma steady_on_fdisk {A : Type} (m : M Fs ArconStateError A) : settles m → steady (Faster.on_fdisk m).
Proof using Type.
  intros Hm b Hb. destruct (Hm (fdisk b)) as (o & fs & E & Ho). eexists o, _. split; [unfold Faster.on_fdisk, zoom; by rewrite E|].
  split; [done|]. split; [|done]. by apply faster_becomes_same.
Qed.
Lemma steady_complete : steady (Faster.update_db kv_complete_pending).
Proof using All.
  intros b Hb. eexists _, _. split; [done|]. pose proof (kv_complete_pending_law (fdb b) Hb) as Hd.
  split; [apply Hd|]. split; [by apply faster_becomes_same|]. left. by eexists.
Qed.
Lemma steady_checkpoint : steady (Faster.on_store (Faster.faster_try kv_checkpoint)).
Proof using All.
  intros b Hb. destruct (kv_checkpoint_law (fdb b) (fdisk b) Hb) as (o & d' & fs' & E & Hd & Ho). eexists _, _.
  split; [unfold Faster.on_store, zoom, Faster.faster_try, on_outcome; by rewrite E|]. split; [apply Hd|].
  split; [by apply faster_becomes_same|]. destruct Ho as [-> |[c ->]]; [right|left]; by eexists.
Qed.
Lemma faster_checkpoint_steady cp : steady (checkpoint cp).
Proof using All.
  cbn. unfold Faster.checkpoint. apply steady_bind; [apply steady_complete|]. intros _.
  apply steady_bind; [apply steady_checkpoint|]. intros chkp. case_match.
  - apply steady_bind; [apply steady_complete|]. intros _. apply steady_bind.
    { intros b Hb. eexists _, b. split; [done|]. split; [done|]. split; [done|]. left. by eexists. }
    intros dir. repeat (apply steady_bind; [|intros _]); apply steady_on_fdisk;
      [apply settles_copy_checkpoint|apply settles_outcome, create_file_outcome|apply settles_write_file].
  - intros b Hb. eexists _, b. split; [done|]. split; [done|]. split; [done|]. right. by eexists.
Qed.

(** ** Registration *)

Lemma faster_register_ok {S : StateType} {IK N X : Type} `{FixedBytes IK, FixedBytes N} (h : Handle S IK N) b
    (Rep : Region (B:=Faster Db) → bytes → X → Prop) (x0 : X) :
  backend_ok b → registers (IK:=IK) (N:=N) Rep Rep x0 (Faster.register h) b h.
Proof using Type.
  intros Hb. eexists b, _. split; [done|]. split; [done|]. pose proof (faster_region_ok b (h_id h) Hb) as Hr.
  split; [by apply updates_refl|]. by rewrite Hr.
Qed.
Lemma faster_register_fn_ok {S : StateType} {IK N X : Type} `{FixedBytes IK, FixedBytes N} (h : Handle S IK N) b
    (f : AggregatorFn) (Rep : bytes → gmap bytes Stored → bytes → X → Prop) (x0 : X) :
  backend_ok b →
  registers (IK:=IK) (N:=N) (fitting any_fn Rep : Region (B:=Faster Db) → _) (fitting (λ fn, fn = Some f) Rep) x0 (Faster.register_fn f h) b h.
Proof using Type.
  intros Hb. eexists _, _. split; [done|]. split; [done|]. split; [split|].
  - apply faster_region_ok, Hb.
  - intros id' Hne. rewrite !faster_region_ok by done. cbn. by rewrite lookup_insert_ne by done.
  - rewrite faster_region_ok by done. cbn. intros mk x _ (Hfits & _ & Hx). cbn in *. split; [done|]. split; [|done].
    by rewrite lookup_insert_eq.
Qed.

#[export] Instance Faster_BackendSpec : BackendSpec (Faster Db).
Proof using All.
  split.
  - intros b id. cbn. unfold faster_region. cbn. by destruct (kv_start_session_law (fdb b)) as [-> ->].
  - intros b id. cbn. unfold faster_region. cbn. by destruct (kv_stop_session_law (fdb b)) as [-> ->].
  - intros b Hb. cbn. by rewrite (proj1 (kv_start_session_law (fdb b))).
  - intros b Hb. cbn. by rewrite (proj1 (kv_stop_session_law (fdb b))).
  - by intros b id r [? _]%faster_region_some.
  - intros cp b Hb. destruct (faster_checkpoint_steady cp b Hb) as (o & b' & E & Hb' & Hs & [[[] ->]|He]); eauto 9.
  - done.
  - by intros T ? f r mk x (? & _ & ?).
  - done.
  - intros. by apply (faster_register_ok (X:=option T)).
  - intros. by apply (faster_register_ok (X:=gmap K V)).
  - intros. by apply (faster_register_ok (X:=list T)).
  - intros. by apply faster_register_fn_ok.
  - by intros.
  - intros. by eapply faster_value_get.
  - intros. by eapply faster_value_set.
  - intros. by eapply faster_value_fast_set.
  - intros. by eapply faster_value_clear.
  - intros. by eapply faster_vec_get.
  - intros. by eapply faster_vec_iter.
  - intros. by eapply faster_vec_len.
  - intros. by eapply faster_vec_is_empty.
  - intros. by eapply faster_vec_append.
  - intros. by eapply faster_vec_set.
  - intros. by eapply faster_vec_add_all.
  - intros. by eapply faster_vec_clear.
  - intros. by eapply faster_reducer_get.
  - intros. by eapply faster_reducer_reduce.
  - intros. by eapply faster_reducer_clear.
  - by intros.
  - by intros.
  - by intros.
Qed.
End faster.
