(* ===== verification/FasterProperties.v ===== *)
(** The properties of the Faster backend: the part of the interface that it implements, the maps, and what
    does not work: aggregators, and the removal from a map that is empty. *)

From S2P Require Import Prelude Error Serialization Files StateBackend Tables ByteStore BackendLaws Restore Faster FasterSpec FasterOps FasterMaps FasterBackend.

(** ** What the aggregation of a sequence of values stores *)

Section aggregated.
Context `{ErrorDisplay} {Inp A R : Type} `{Value Inp, Value A} (ag : Aggregator Inp A R).
Implicit Types (vs : list Inp) (v : Inp).

(** The first value is stored as it is; only the second makes it an accumulator. *)
Definition accumulated vs : A := foldl (agg_add ag) (create_accumulator ag) vs.
Definition agg_entry vs (found : option Stored) : Prop :=
  match vs with
  | [] => found = None
  | [v] => ∃ f, found = Some (Agg (Modify (VALUE_MARKER :: ld v) f))
  | _ => found = Some (Agg (AggValue (acc_enc (accumulated vs))))
  end.
Lemma make_aggregate_value old v acc :
  (old = acc_enc acc ∨ ∃ v0, old = VALUE_MARKER :: ld v0 ∧ acc = agg_add ag (create_accumulator ag) v0) →
  Faster.make_aggregate_fn ag old (VALUE_MARKER :: ld v) = Ok (acc_enc (agg_add ag acc v)).
Proof.
  unfold Faster.make_aggregate_fn, acc_enc. intros [-> |(v0 & -> & ->)]; cbn;
    do 2 (rewrite protobuf_deserialize_ok; cbn); by rewrite protobuf_serialize_into_ok.
Qed.
Lemma aggregate_stores vs found v :
  agg_entry vs found → ∃ new, rmw_stores found (Modify (VALUE_MARKER :: ld v) (Faster.make_aggregate_fn ag)) new ∧
    agg_entry (vs ++ [v]) (Some (Agg new)).
Proof.
  destruct vs as [|v0 [|v1 vs]]; cbn [agg_entry app].
  - intros ->. eexists. split; [reflexivity|]. by eexists.
  - intros [f ->]. eexists. split; [|reflexivity]. eexists. split; [done|]. unfold rmw_with, FasterRmw_agg, agg_rmw.
    erewrite make_aggregate_value by by right; eexists. done.
  - intros ->. eexists. split; [|reflexivity]. eexists. split; [done|]. unfold rmw_with, FasterRmw_agg, agg_rmw.
    erewrite make_aggregate_value by by left. unfold accumulated. cbn [foldl]. by rewrite foldl_app.
Qed.
End aggregated.

Section properties.
Context `{BuildProfile, !Release, SlowerFaster, ErrorDisplay} {Db : Type} `{FasterLaws Db}.
Implicit Types (b : Faster Db) (r : FasterRegion).

(** C18: Over a store that behaves as FASTER documents, the Faster backend meets the contract of the backend
    interface for values, vectors and reducers, its registrations, sessions and checkpoints included. *)
Theorem faster_implements_backend : BackendSpec (Faster Db).
Proof using All. apply _. Qed.

(** What a map operation promises for the whole map: the contract with the index, a panic without it. *)
Definition whole_map_operations {K V IK N} `{Key K, !MessageLaws K, EqDecision K, !Countable K, Value V, Metakey IK, Metakey N}
    (h : Handle (MapState K V) IK N) b r (m : gmap K V) : Prop :=
  if slower_faster then
    reads (map_len h) b (Z.of_nat (size m)) ∧
    reads (map_is_empty h) b (bool_decide (m = ∅)) ∧
    (∃ l, reads (map_iter h) b (Ok <$> l) ∧ l ≡ₚ map_to_list m) ∧
    (∃ l, reads (map_keys h) b (Ok <$> l) ∧ l ≡ₚ (map_to_list m).*1) ∧
    (∃ l, reads (map_values h) b (Ok <$> l) ∧ l ≡ₚ (map_to_list m).*2) ∧
    writes (MapRep (K:=K) (V:=V)) (map_clear h) b (h_id h) r (metakeys h) tt ∅
  else
    map_len h b = (Panic "Faster doesn't support map state length check", b) ∧
    map_is_empty h b = (Panic "Faster doesn't support map state emptiness check", b) ∧
    map_iter h b = (Panic "Faster doesn't support map state iteration", b) ∧
    map_keys h b = (Panic "Faster doesn't support map state iteration", b) ∧
    map_values h b = (Panic "Faster doesn't support map state iteration", b) ∧
    map_clear h b = (Panic "Faster doesn't support map state clearing", b).
Lemma whole_map_operations_ok {K V IK N} `{Key K, !MessageLaws K, EqDecision K, !Countable K, Value V, Metakey IK, Metakey N}
    (h : Handle (MapState K V) IK N) b r (m : gmap K V) :
  handle_wf h → region b (h_id h) = Some r → MapRep r (metakeys h) m → whole_map_operations h b r m.
Proof using All.
  intros Hwf Hr Hm. unfold whole_map_operations. destruct slower_faster eqn:Hsf.
  - split; [by eapply faster_map_len|]. split; [by eapply faster_map_is_empty|]. split; [by eapply faster_map_iter|].
    split; [by eapply faster_map_keys|]. split; [by eapply faster_map_values|by eapply faster_map_clear].
  - cbn. unfold Faster.map_len, Faster.map_is_empty, Faster.map_iter, Faster.map_keys, Faster.map_values,
      Faster.map_items, Faster.map_clear. by rewrite Hsf.
Qed.

(** C19: Maps: reading, inserting and removing entries meets the contract; with the feature [slower_faster] a
    removal does if the map is not empty, and so do the operations on the whole map, which panic
    without it. *)
Theorem faster_maps {K V IK N} `{Key K, !MessageLaws K, EqDecision K, !Countable K, Value V, Metakey IK, Metakey N}
    (h : Handle (MapState K V) IK N) b r (m : gmap K V) :
  handle_wf h → region b (h_id h) = Some r → MapRep r (metakeys h) m →
  (∀ k, reads (map_get h k) b (m !! k)) ∧
  (∀ k, reads (map_contains h k) b (bool_decide (is_Some (m !! k)))) ∧
  (∀ k v, writes MapRep (map_insert h k v) b (h_id h) r (metakeys h) (m !! k) (<[k:=v]> m)) ∧
  (∀ k v, writes MapRep (map_fast_insert h k v) b (h_id h) r (metakeys h) tt (<[k:=v]> m)) ∧
  (∀ kvs, writes MapRep (map_insert_all h kvs) b (h_id h) r (metakeys h) tt (foldl (λ m kv, <[kv.1:=kv.2]> m) m kvs)) ∧
  ((slower_faster = true → m ≠ ∅) → ∀ k,
    writes MapRep (map_remove h k) b (h_id h) r (metakeys h) (m !! k) (delete k m) ∧
    writes MapRep (map_fast_remove h k) b (h_id h) r (metakeys h) tt (delete k m)) ∧
  whole_map_operations h b r m.
Proof using All.
  intros Hwf Hr Hm. split; [intros; by eapply faster_map_get|]. split; [intros; by eapply faster_map_contains|].
  split; [intros; by eapply faster_map_insert|]. split; [intros; by eapply faster_map_fast_insert|].
  split; [intros; by eapply faster_map_insert_all|].
  split; [split; [by eapply faster_map_remove|by eapply faster_map_fast_remove]|by apply whole_map_operations_ok].
Qed.

(** With the feature [slower_faster], a removal from a map that was never written succeeds and stores the
    removal itself as the map's index: from then on every operation on the whole map panics, clearing
    it included. *)
Theorem faster_remove_spoils_map {K V IK N} `{Key K, !MessageLaws K, EqDecision K, !Countable K, Value V, Metakey IK, Metakey N}
    (h : Handle (MapState K V) IK N) b r k :
  slower_faster = true → registered h = true → region b (h_id h) = Some r → MapRep r (metakeys h) (∅ : gmap K V) →
  f_entries r !! metakeys h = None →
  ∃ b1 b2, ActiveMap.remove h k b = (Ok None, b1) ∧
    ActiveMap.len h b1 = (Panic "invalid faster vec ops value", b2) ∧
    ActiveMap.iter h b1 = (Panic "invalid faster vec ops value", b2) ∧
    ActiveMap.clear h b1 = (Panic "invalid faster vec ops value", b2) ∧ same_data b1 b2.
Proof using All.
  intros Hsf Hreg Hr Hm Hnone. pose proof (region_fits b (h_id h) r Hr (proj1 Hm)) as Hid.
  set (key := metakeys h ++ ld k).
  destruct (faster_get_reads b _ r Hr (proj1 Hm) key None) as (b1 & E1 & Hs1); [unfold key; by rewrite (map_entry h r ∅ Hm k), lookup_empty|].
  assert (Hr1 : region b1 (h_id h) = Some r) by by rewrite Hs1.
  destruct (faster_remove_alters b1 _ r Hr1 (proj1 Hm) key) as (b2 & E2 & Hr2 & _).
  destruct (rmw_alters b2 _ _ Hr2 (proj1 Hm) (metakeys h) (Remove (id_bytes (h_id h) ++ key)) (Remove (id_bytes (h_id h) ++ key)))
    as (b3 & E3 & Hr3 & _).
  { cbn. rewrite lookup_delete_ne by apply entry_not_metakeys. by rewrite Hnone. }
  destruct (received_outcome b3 _ _ Hr3 (proj1 Hm) vec_items (metakeys h)) as (b4 & Hs4 & E4).
  cbn [f_entries with_entries] in E4. rewrite lookup_insert_eq in E4. specialize (E4 _ eq_refl).
  exists b3, b4. unfold ActiveMap.remove, ActiveMap.len, ActiveMap.iter, ActiveMap.clear, activate. rewrite Hreg, !ret_bind. split; [|split; [|split; [|split; [|done]]]].
  - cbn. unfold Faster.map_remove, Faster.index_remove. rewrite Hsf.
    erewrite bind_ok by (unfold lift; by rewrite (serialize_id_metakeys_and_key_ok h Hid k)).
    step_ok E1. cbn [Faster.decode_old]. erewrite bind_ok by reflexivity. step_ok E2.
    rewrite bind_assoc. erewrite bind_ok by (unfold lift; by rewrite (serialize_id_and_metakeys_ok h Hid)). by step_ok E3.
  - cbn. unfold Faster.map_len, Faster.map_index. rewrite Hsf, bind_assoc.
    erewrite bind_ok by (unfold lift; by rewrite (serialize_id_and_metakeys_ok h Hid)).
    erewrite bind_panic by exact E4. done.
  - cbn. unfold Faster.map_iter, Faster.map_items, Faster.map_index. rewrite Hsf, bind_assoc.
    erewrite bind_ok by (unfold lift; by rewrite (serialize_id_and_metakeys_ok h Hid)).
    erewrite bind_panic by exact E4. done.
  - cbn. unfold Faster.map_clear. rewrite Hsf.
    erewrite bind_ok by (unfold lift; by rewrite (serialize_id_and_metakeys_ok h Hid)).
    erewrite bind_panic by exact E4. done.
Qed.

Section aggregator.
Context {Inp A R IK N : Type} `{Value Inp, Value A, Metakey IK, Metakey N}.
Implicit Types (h : Handle (AggregatorState Inp A R) IK N) (vs : list Inp).

Lemma aggregate_step h b r vs v :
  region b (h_id h) = Some r → f_fits r = true → f_fn r = Some (Faster.make_aggregate_fn (extra_data h)) →
  agg_entry (extra_data h) vs (f_entries r !! metakeys h) →
  ∃ t', alters (aggregator_aggregate h v) b (h_id h) (with_entries t' r) tt ∧
    agg_entry (extra_data h) (vs ++ [v]) (t' !! metakeys h).
Proof using All.
  intros Hr Hfits Hfn He. pose proof (region_fits b (h_id h) r Hr Hfits) as Hid.
  destruct (aggregate_stores _ vs _ v He) as (new & Hnew & He'). exists (<[metakeys h := Agg new]> (f_entries r)).
  rewrite lookup_insert_eq. split; [|done]. cbn. unfold Faster.aggregator_aggregate.
  faster_key Hid. eapply alters_lift_bind; [apply encode_value_ok|]. unfold Faster.aggregate.
  destruct (rmw_alters b _ r Hr Hfits _ _ _ Hnew) as (b' & E & Hu). exists b'. split; [|exact Hu].
  unfold mbind, M_bind, gets, lift. cbn. pose proof (faster_region_some _ _ _ Hr) as [_ Er].
  rewrite Er in Hfn. cbn in Hfn. rewrite Hfn. exact E.
Qed.
Lemma aggregate_all h b r done_vs vs :
  region b (h_id h) = Some r → f_fits r = true → f_fn r = Some (Faster.make_aggregate_fn (extra_data h)) →
  agg_entry (extra_data h) done_vs (f_entries r !! metakeys h) →
  ∃ t', alters (for_each (aggregator_aggregate h) vs) b (h_id h) (with_entries t' r) tt ∧
    agg_entry (extra_data h) (done_vs ++ vs) (t' !! metakeys h).
Proof using All.
  revert b r done_vs. induction vs as [|v vs IH]; intros b r done_vs Hr Hfits Hfn He.
  - exists (f_entries r). rewrite app_nil_r, with_entries_same. split; [|done]. eexists. split; [reflexivity|]. by apply updates_refl.
  - destruct (aggregate_step h b r done_vs v Hr Hfits Hfn He) as (t1 & (b1 & E1 & Hu1) & He1).
    destruct (IH b1 _ (done_vs ++ [v]) (proj1 Hu1) Hfits Hfn He1) as (t2 & (b2 & E2 & Hu2) & He2).
    exists t2. rewrite <- (assoc_L (++)) in He2. split; [|done]. exists b2. cbn [for_each]. split; [by step_ok E1|by eapply updates_trans].
Qed.
Lemma aggregated_reads h b r vs :
  region b (h_id h) = Some r → f_fits r = true → agg_entry (extra_data h) vs (f_entries r !! metakeys h) →
  ∃ b', same_data b b' ∧ aggregator_get h b =
    (match vs with
     | [_] => Panic "assertion failed: `(left == right)`"
     | _ => accumulator_into_result (extra_data h) (accumulated (extra_data h) vs)
     end, b').
Proof using All.
  intros Hr Hfits He. pose proof (region_fits b (h_id h) r Hr Hfits) as Hid.
  destruct (received_outcome b _ r Hr Hfits (λ agg_ops, match agg_ops with AggValue v => Ok v | Modify v _ => Ok v
    | AggError message => Err (FasterErrorInRmw message) end) (metakeys h)) as (b' & Hs & E).
  exists b'. split; [done|]. cbn. unfold Faster.aggregator_get.
  erewrite bind_ok by (unfold lift; by rewrite (serialize_id_and_metakeys_ok h Hid)).
  destruct vs as [|v0 [|v1 vs]]; cbn [agg_entry] in He.
  - rewrite He in E. step_ok E. done.
  - destruct He as [f He]. rewrite He in E. specialize (E _ eq_refl). step_ok E. done.
  - rewrite He in E. specialize (E _ eq_refl). step_ok E. unfold mbind, M_bind, lift. by rewrite decode_accumulator_ok.
Qed.

(** An aggregator on this backend: after no value and after two or more, its result is what it should
    be; after exactly one it cannot be read, because what is stored is the value and not an
    accumulator. *)
Theorem faster_aggregates h b r vs :
  registered h = true → region b (h_id h) = Some r → f_fits r = true →
  f_fn r = Some (Faster.make_aggregate_fn (extra_data h)) → f_entries r !! metakeys h = None →
  ∃ b1 b2, for_each (ActiveAggregator.aggregate h) vs b = (Ok tt, b1) ∧
    ActiveAggregator.get h b1 =
      (match vs with
       | [_] => Panic "assertion failed: `(left == right)`"
       | _ => accumulator_into_result (extra_data h) (foldl (agg_add (extra_data h)) (create_accumulator (extra_data h)) vs)
       end, b2) ∧ same_data b1 b2.
Proof using All.
  intros Hreg Hr Hfits Hfn Hnone. destruct (aggregate_all h b r [] vs Hr Hfits Hfn Hnone) as (t & (b1 & E1 & Hu1) & He).
  destruct (aggregated_reads h b1 _ vs (proj1 Hu1) Hfits He) as (b2 & Hs & E2). exists b1, b2.
  split; [|split; [|done]].
  - rewrite <- E1. apply for_each_ext. intros v s. unfold ActiveAggregator.aggregate, activate. by rewrite Hreg.
  - unfold ActiveAggregator.get, activate. rewrite Hreg. exact E2.
Qed.
End aggregator.
End properties.

(** ** A store in memory *)

Record MemStore : Type := MkMemStore { stored : gmap bytes Stored }.
Definition mem_write (key : bytes) (s : Stored) (d : MemStore) : MemStore := MkMemStore (<[key := s]> (stored d)).
Definition mem_read {V} `{FasterValue V} (key : bytes) : M MemStore ArconStateError (Z * option V) := gets (λ d,
  match stored d !! key with
  | Some s => (status_OK, of_stored s)
  | None => (status_NOT_FOUND, None)
  end).
Definition mem_rmw {V} `{FasterRmw V} (key : bytes) (modification : V) : M MemStore ArconStateError Z := λ d,
  match stored d !! key ≫= of_stored with
  | Some old =>
      match rmw_with old modification with
      | Ok new => (Ok status_OK, mem_write key (to_stored new) d)
      | Panic msg => (Panic msg, d)
      | _ => (Ok 3, d)
      end
  | None => (Ok status_OK, mem_write key (to_stored modification) d)
  end.
#[local] Instance MemStore_api : FasterApi MemStore := {
  kv_build p := mret (MkMemStore ∅);
  kv_read _ _ key _ := mem_read key;
  kv_upsert _ _ key v _ d := (Ok status_OK, mem_write key (to_stored v) d);
  kv_delete key _ d := (Ok status_OK, MkMemStore (delete key (stored d)));
  kv_rmw _ _ _ key modification _ := mem_rmw key modification;
  kv_complete_pending d := d;
  kv_checkpoint := mret (MkCheckPoint true "00000000-0000-0000-0000-000000000000");
  kv_recover _ _ := mret status_OK;
  kv_start_session d := d;
  kv_stop_session d := d;
}.
#[local] Instance MemStore_view : FasterView MemStore := {| faster_healthy _ := true; faster_entries := stored |}.
#[local] Instance MemStore_laws : FasterLaws MemStore.
Proof.
  split.
  - intros V ? d key n _. cbn. unfold mem_read, gets. destruct (stored d !! key) as [s|]; eexists _, _, _;
      (split; [reflexivity|]); (split; [done|]); [split; [by left|done]|done].
  - intros V ? d key v n _. eexists _, _. split; [reflexivity|]. split; [by left|done].
  - intros d key n _. eexists _, _. split; [reflexivity|]. split; [left; by left|done].
  - intros V ? ? d key modification new n _ Hnew. cbn in *. unfold mem_rmw. destruct (stored d !! key) as [s|]; cbn in *.
    + destruct Hnew as (old & -> & ->). eexists _, _. split; [reflexivity|]. split; [by left|done].
    + subst new. eexists _, _. split; [reflexivity|]. split; [by left|done].
  - done.
  - done.
  - done.
  - intros d fs _. eexists _, _, _. split; [reflexivity|]. split; [done|]. right. by eexists.
Qed.

(** ** Concrete inputs *)

#[local] Instance release_profile : BuildProfile := false.
#[local] Instance release_wraps : Release := eq_refl.
#[local] Instance no_messages : ErrorDisplay := λ _, EmptyString.
#[local] Instance faster_u64 : Value u64 := countable_Value 1.
Definition faster_map : Handle (MapState u64 u64) unit unit := set_registered (map_handle u64 u64 "map").
Definition empty_faster : Faster MemStore := MkFaster (MkMemStore ∅) 0 ∅ [] false ∅.
Definition empty_region (id : string) (fn : option AggregatorFn) : FasterRegion :=
  MkFasterRegion (id_bytes id) ∅ fn true.

Example faster_implements_backend_witness :
  let slow : SlowerFaster := true in BackendSpec (Faster MemStore).
Proof. intros slow. exact (faster_implements_backend (Db:=MemStore)). Defined.

Lemma empty_map_rep `{SlowerFaster} (fn : option AggregatorFn) :
  fitting any_fn map_entries (empty_region "map" fn) [] (∅ : gmap u64 u64).
Proof.
  split; [done|]. split; [done|]. split; [intros k; by rewrite !lookup_empty|]. intros _. by exists [].
Qed.
Example faster_maps_witness :
  let slow : SlowerFaster := true in
  writes MapRep (map_insert faster_map (UInt 5 : u64) (UInt 6 : u64)) empty_faster "map" (empty_region "map" None) []
    (None : option u64) (<[UInt 5 := UInt 6]> ∅ : gmap u64 u64) ∧
  reads (map_len faster_map) empty_faster 0.
Proof.
  intros slow. destruct (faster_maps faster_map empty_faster (empty_region "map" None) ∅) as (_ & _ & Hi & _ & _ & _ & Hw);
    [done|reflexivity|apply empty_map_rep|]. split; [apply Hi|apply Hw].
Defined.
Example faster_remove_spoils_map_witness :
  let slow : SlowerFaster := true in
  ∃ b1 b2, ActiveMap.remove faster_map (UInt 5 : u64) empty_faster = (Ok None, b1) ∧
    ActiveMap.len faster_map b1 = (Panic "invalid faster vec ops value", b2) ∧
    ActiveMap.iter faster_map b1 = (Panic "invalid faster vec ops value", b2) ∧
    ActiveMap.clear faster_map b1 = (Panic "invalid faster vec ops value", b2) ∧ same_data b1 b2.
Proof.
  intros slow. apply (faster_remove_spoils_map faster_map empty_faster (empty_region "map" None)); [done|done|done|apply empty_map_rep|done].
Defined.

Definition counting : Aggregator u64 u64 u64 := {|
  create_accumulator := UInt 0;
  agg_add acc v := UInt (uint_val acc + uint_val v);
  merge_accumulators acc acc' := Ok (UInt (uint_val acc + uint_val acc'));
  accumulator_into_result acc := Ok acc;
|}.
Definition counting_handle : Handle (AggregatorState u64 u64 u64) unit unit := set_registered (aggregator_handle "sum" counting).
Definition counting_faster : Faster MemStore :=
  MkFaster (MkMemStore ∅) 0 {["sum"%string := Faster.make_aggregate_fn counting]} [] false ∅.
Example faster_aggregates_witness :
  let slow : SlowerFaster := false in
  ∃ b1 b2, for_each (ActiveAggregator.aggregate counting_handle) [UInt 5] counting_faster = (Ok tt, b1) ∧
    ActiveAggregator.get counting_handle b1 = (Panic "assertion failed: `(left == right)`", b2) ∧ same_data b1 b2.
Proof.
  intros slow. by apply (faster_aggregates counting_handle counting_faster
    (empty_region "sum" (Some (Faster.make_aggregate_fn counting))) [UInt 5]).
Defined.
