(* ===== verification/Allocator.v ===== *)
(** [arcon/src/allocator]: the memory allocator that budgets the buffers of the execution plane. *)

From S2P Require Import Prelude.

(** An allocation is named by the epoch ([u32]) and the counter ([u64]) it was made at; a pointer is
    its address, the null pointer being 0. *)
Abbreviation AllocId := (Z * Z)%type (only parsing).
Abbreviation AllocPtr := Z (only parsing).
Record Layout : Type := MkLayout { layout_size : Z; layout_align : Z }.
#[export] Instance Layout_eq_dec : EqDecision Layout.
Proof. solve_decision. Defined.

Inductive AllocResult : Type :=
| Alloc (id : AllocId) (ptr : AllocPtr)
| ArconOOM (available : Z)
| SystemOOM
| CapacityErr (msg : string).

Record ArconAllocator : Type := MkArconAllocator {
  allocations : gmap AllocId (AllocPtr * Layout);
  limit : Z;
  alloc_epoch : Z;
  alloc_counter : Z;
  curr_alloc : Z;
}.

(** What the allocator asks of [std::alloc::System], in order. *)
Inductive SysCall : Type :=
| SysAlloc (layout : Layout) (result : AllocPtr)
| SysDealloc (ptr : AllocPtr) (layout : Layout).
(** The system allocator's answer, given the calls made so far. *)
Class SystemAlloc := system_alloc : list SysCall → Layout → AllocPtr.

Record Memory : Type := MkMemory { allocator : ArconAllocator; sys_calls : list SysCall }.

Definition ArconAllocator_new (limit : Z) : ArconAllocator := MkArconAllocator ∅ limit 1 0 0.
Definition Memory_new (limit : Z) : Memory := MkMemory (ArconAllocator_new limit) [].

Section allocator.
Context `{BuildProfile, SystemAlloc} {E : Type}.

Definition bytes_remaining (a : ArconAllocator) : outcome E Z := u_sub 64 (limit a) (curr_alloc a).
Definition allocated_bytes (a : ArconAllocator) : Z := curr_alloc a.

(** [System.alloc] and [System.dealloc] *)
Definition sys_alloc (layout : Layout) : M Memory E AllocPtr := λ m,
  let ptr := system_alloc (sys_calls m) layout in
  (Ok ptr, MkMemory (allocator m) (sys_calls m ++ [SysAlloc layout ptr])).
Definition sys_dealloc (ptr : AllocPtr) (layout : Layout) : M Memory E unit := λ m,
  (Ok tt, MkMemory (allocator m) (sys_calls m ++ [SysDealloc ptr layout])).
Definition set_allocator (a : ArconAllocator) : M Memory E unit := λ m,
  (Ok tt, MkMemory a (sys_calls m)).

(** [alloc::<T>], for a type of the given size and alignment. *)
Definition alloc (size align : Z) (capacity : Z) : M Memory E AllocResult :=
  if capacity =? 0 then mret (CapacityErr "Cannot alloc for 0 sized pointer")
  else
    let required_bytes := capacity * size in
    if usize_max <? required_bytes then mret (CapacityErr "Capacity overflow")
    else
      a ← gets allocator;
      total ← lift (u_add 64 (curr_alloc a) required_bytes);
      if limit a <? total then
        available ← lift (bytes_remaining a);
        mret (ArconOOM available)
      else
        let layout := MkLayout required_bytes align in
        mem ← sys_alloc layout;
        if mem =? 0 then mret SystemOOM
        else
          curr ← lift (u_add 64 (curr_alloc a) (layout_size layout));
          set_allocator (MkArconAllocator (allocations a) (limit a) (alloc_epoch a)
            (alloc_counter a) curr) ;;
          ec ← (if alloc_counter a =? u64_max
                then epoch ← lift (u_add 32 (alloc_epoch a) 1); mret (epoch, 0)
                else mret (alloc_epoch a, alloc_counter a));
          let '(epoch, id) := ec in
          counter ← lift (u_add 64 id 1);
          set_allocator (MkArconAllocator (<[(epoch, id) := (mem, layout)]> (allocations a))
            (limit a) epoch counter curr) ;;
          mret (Alloc (epoch, id) mem).

Definition dealloc (id : AllocId) : M Memory E unit :=
  a ← gets allocator;
  match allocations a !! id with
  | Some (ptr, layout) =>
      set_allocator (MkArconAllocator (delete id (allocations a)) (limit a) (alloc_epoch a)
        (alloc_counter a) (curr_alloc a)) ;;
      sys_dealloc ptr layout ;;
      curr ← lift (u_sub 64 (curr_alloc a) (layout_size layout));
      set_allocator (MkArconAllocator (delete id (allocations a)) (limit a) (alloc_epoch a)
        (alloc_counter a) curr)
  | None => mret tt
  end.

(** The multiplication is on [u64], before the conversion to [u128]. *)
Definition total_allocations (a : ArconAllocator) : outcome E Z :=
  if alloc_epoch a =? 1 then Ok (alloc_counter a)
  else
    e ← u_sub 32 (alloc_epoch a) 1;
    epoch_sum ← u_mul 64 e u64_max;
    Ok (epoch_sum + alloc_counter a).

(** [Drop] *)
Definition allocator_drop : M Memory E unit :=
  a ← gets allocator;
  for_each dealloc (map_to_list (allocations a)).*1.
End allocator.

(** ** The accounting invariant *)

Definition allocated_sum (m : gmap AllocId (AllocPtr * Layout)) : Z :=
  map_fold (λ _ pl acc, layout_size pl.2 + acc) 0 m.

(** Allocation ids are ordered by epoch and then by counter. *)
Definition id_lt (i j : AllocId) : Prop := i.1 < j.1 ∨ i.1 = j.1 ∧ i.2 < j.2.

Record alloc_inv (a : ArconAllocator) : Prop := {
  inv_sum : curr_alloc a = allocated_sum (allocations a);
  inv_limit : curr_alloc a ≤ limit a ≤ usize_max;
  inv_epoch : 1 ≤ alloc_epoch a ≤ u32_max;
  inv_counter : in_u 64 (alloc_counter a);
  inv_ids : ∀ id pl, allocations a !! id = Some pl →
    id_lt id (alloc_epoch a, alloc_counter a) ∧ 0 ≤ layout_size pl.2;
}.

(** Allocations made so far: a full epoch has [u64::MAX] of them. *)
Definition alloc_total (a : ArconAllocator) : Z :=
  (alloc_epoch a - 1) * u64_max + alloc_counter a.

Lemma allocated_sum_insert m id pl :
  m !! id = None → allocated_sum (<[id := pl]> m) = layout_size pl.2 + allocated_sum m.
Proof. intros. unfold allocated_sum. rewrite map_fold_insert_L; [done|lia|done]. Qed.
Lemma allocated_sum_delete m id pl :
  m !! id = Some pl → allocated_sum m = layout_size pl.2 + allocated_sum (delete id m).
Proof.
  intros Hid. rewrite <- (insert_delete_id m id pl) at 1 by done.
  apply allocated_sum_insert. by simplify_map_eq.
Qed.
Lemma allocated_sum_nonneg m :
  (∀ id pl, m !! id = Some pl → 0 ≤ layout_size pl.2) → 0 ≤ allocated_sum m.
Proof.
  induction m as [|id pl m Hid IH] using map_ind; intros Hm; [done|].
  rewrite allocated_sum_insert by done.
  assert (0 ≤ layout_size pl.2) by (apply (Hm id); by simplify_map_eq).
  assert (0 ≤ allocated_sum m); [|lia].
  apply IH. intros id' pl' Hl. apply (Hm id'). rewrite lookup_insert_ne; [done|congruence].
Qed.
Lemma alloc_inv_curr a : alloc_inv a → 0 ≤ curr_alloc a.
Proof. intros []. rewrite inv_sum0. apply allocated_sum_nonneg. intros. by eapply inv_ids0. Qed.

Section accounting.
Context `{profile : BuildProfile, SystemAlloc} {E : Type}.

Lemma alloc_inv_new lim : 0 ≤ lim ≤ usize_max → alloc_inv (ArconAllocator_new lim).
Proof. split; cbn; try done; unfold u32_max; lia. Qed.

(** What [alloc] does on each branch: it either leaves the allocator alone, or records a fresh
    allocation within the limit. *)
Lemma alloc_ok size align capacity m :
  alloc_inv (allocator m) → alloc_epoch (allocator m) < u32_max →
  0 ≤ capacity ≤ usize_max → 0 ≤ size →
  usize_max < capacity * size ∨ curr_alloc (allocator m) + capacity * size ≤ usize_max →
  ∃ r m', @alloc _ _ E size align capacity m = (Ok r, m') ∧ alloc_inv (allocator m') ∧
    match r with
    | Alloc id ptr =>
        allocations (allocator m) !! id = None ∧ ptr ≠ 0 ∧ 0 < capacity ∧
        curr_alloc (allocator m) + capacity * size ≤ limit (allocator m) ∧
        allocations (allocator m') =
          <[id := (ptr, MkLayout (capacity * size) align)]> (allocations (allocator m)) ∧
        id_lt id (alloc_epoch (allocator m'), alloc_counter (allocator m')) ∧
        ¬ id_lt id (alloc_epoch (allocator m), alloc_counter (allocator m)) ∧
        (∀ j, id_lt j (alloc_epoch (allocator m), alloc_counter (allocator m)) →
          id_lt j (alloc_epoch (allocator m'), alloc_counter (allocator m'))) ∧
        alloc_total (allocator m') = alloc_total (allocator m) + 1 ∧
        sys_calls m' = sys_calls m ++ [SysAlloc (MkLayout (capacity * size) align) ptr]
    | ArconOOM available =>
        m' = m ∧ 0 < capacity ∧ capacity * size ≤ usize_max ∧
        available = limit (allocator m) - curr_alloc (allocator m) ∧ available < capacity * size
    | SystemOOM => allocator m' = allocator m ∧ 0 < capacity ∧ capacity * size ≤ usize_max
    | CapacityErr _ => m' = m ∧ (capacity = 0 ∨ usize_max < capacity * size)
    end ∧ limit (allocator m') = limit (allocator m).
Proof.
  intros Hinv Hep Hcap Hsize Htot. pose proof (alloc_inv_curr _ Hinv) as Hcurr.
  pose proof Hinv as [Hsum Hlim Hepoch Hcnt Hids].
  unfold alloc. destruct (Z.eqb_spec capacity 0) as [->|Hne]; [eexists _, m; eauto 10|].
  destruct (Z.ltb_spec usize_max (capacity * size)) as [Hof|Hof]; [eexists _, m; eauto 10|].
  assert (0 ≤ capacity * size) by nia.
  unfold mbind, M_bind, gets, lift.
  rewrite u_add_ok by (unfold in_u, usize_max in *; lia).
  destruct (Z.ltb_spec (limit (allocator m)) (curr_alloc (allocator m) + capacity * size)) as [Hoom|Hfit].
  { unfold bytes_remaining. rewrite u_sub_ok by (unfold in_u, usize_max in *; lia).
    eexists _, m. do 2 (split; [done|]). split; [|done]. split; [done|]. lia. }
  unfold sys_alloc. set (ptr := system_alloc _ _).
  destruct (Z.eqb_spec ptr 0) as [E0|Hptr]; [eexists _, _; do 2 (split; [done|]); split; [split; [done|lia]|done]|].
  unfold set_allocator. cbn [layout_size]. rewrite u_add_ok by (unfold in_u, usize_max in *; lia).
  assert (Hfresh : ∀ ep c, (ep, c) = (alloc_epoch (allocator m), alloc_counter (allocator m)) ∨
    ep = alloc_epoch (allocator m) + 1 → 0 ≤ c → allocations (allocator m) !! (ep, c) = None).
  { intros ep c Hec Hc. destruct (allocations (allocator m) !! (ep, c)) as [pl|] eqn:E0; [|done].
    apply Hids in E0 as [[Hlt|[Heq Hlt]] _]; cbn in *; destruct Hec; simplify_eq; lia. }
  unfold in_u, u64_max, u32_max in *.
  destruct (Z.eqb_spec (alloc_counter (allocator m)) (2 ^ 64 - 1)) as [Hmax|Hmax].
  - rewrite u_add_ok by (unfold in_u; lia). unfold mret, M_ret.
    rewrite u_add_ok by (unfold in_u; lia). eexists _, _. split; [done|].
    split.
    { split; cbn; [rewrite allocated_sum_insert by (apply Hfresh; [by right|lia]); cbn; lia|unfold in_u, u32_max; lia..|].
      intros id pl [[<- <-]|[_ Hl]]%lookup_insert_Some; cbn.
      - unfold id_lt. cbn. lia.
      - apply Hids in Hl as [Hl ?]. unfold id_lt in *. cbn in *. lia. }
    cbn. split; [|done]. split; [apply Hfresh; [by right|lia]|].
    unfold id_lt, alloc_total, u64_max. cbn.
    repeat split; try done; try lia; intros; cbn in *; lia.
  - unfold mret, M_ret. rewrite u_add_ok by (unfold in_u; lia). eexists _, _. split; [done|].
    split.
    { split; cbn; [rewrite allocated_sum_insert by (apply Hfresh; [by left|lia]); cbn; lia|unfold in_u, u32_max; lia..|].
      intros id pl [[<- <-]|[_ Hl]]%lookup_insert_Some; cbn.
      - unfold id_lt. cbn. lia.
      - apply Hids in Hl as [Hl ?]. unfold id_lt in *. cbn in *. lia. }
    cbn. split; [|done]. split; [apply Hfresh; [by left|lia]|].
    unfold id_lt, alloc_total, u64_max. cbn.
    repeat split; try done; try lia; intros; cbn in *; lia.
Qed.

Lemma dealloc_ok id m :
  alloc_inv (allocator m) →
  ∃ m', @dealloc _ E id m = (Ok tt, m') ∧ alloc_inv (allocator m') ∧
    allocations (allocator m') = delete id (allocations (allocator m)) ∧
    limit (allocator m') = limit (allocator m) ∧
    alloc_epoch (allocator m') = alloc_epoch (allocator m) ∧
    alloc_counter (allocator m') = alloc_counter (allocator m) ∧
    sys_calls m' = sys_calls m ++
      match allocations (allocator m) !! id with Some (p, l) => [SysDealloc p l] | None => [] end.
Proof.
  intros Hinv. pose proof (alloc_inv_curr _ Hinv) as Hcurr.
  pose proof Hinv as [Hsum Hlim Hepoch Hcnt Hids]. unfold dealloc, mbind, M_bind, gets.
  destruct (allocations (allocator m) !! id) as [[p l]|] eqn:E0.
  - unfold set_allocator, sys_dealloc, lift.
    pose proof (allocated_sum_delete _ _ _ E0) as Hdel. cbn in Hdel.
    destruct (Hids _ _ E0) as [_ Hl]. cbn in Hl.
    assert (0 ≤ allocated_sum (delete id (allocations (allocator m)))).
    { apply allocated_sum_nonneg. intros id' pl [_ Hl']%lookup_delete_Some. by eapply Hids. }
    rewrite u_sub_ok by (unfold in_u, usize_max in *; lia). eexists. split; [done|].
    cbn. split; [|done]. split; cbn; [lia|lia|done|done|].
    intros id' pl [_ Hl']%lookup_delete_Some. by apply Hids.
  - eexists. split; [done|]. rewrite app_nil_r, delete_id by done. done.
Qed.
(** Deallocating a list of live allocations. *)
Lemma dealloc_all (l : list (AllocId * (AllocPtr * Layout))) m0 :
  alloc_inv (allocator m0) → NoDup l.*1 →
  (∀ k v, (k, v) ∈ l → allocations (allocator m0) !! k = Some v) →
  ∃ m', for_each (@dealloc _ E) l.*1 m0 = (Ok tt, m') ∧ alloc_inv (allocator m') ∧
    (∀ k, allocations (allocator m') !! k =
      if decide (k ∈ l.*1) then None else allocations (allocator m0) !! k) ∧
    sys_calls m' = sys_calls m0 ++ ((λ kv, SysDealloc kv.2.1 kv.2.2) <$> l).
Proof.
  revert m0. induction l as [|[k [p lay]] l IH]; intros m0 Hinv Hnd Hall; cbn [for_each fmap list_fmap].
  - exists m0. split; [done|]. split; [done|]. split; [|by rewrite app_nil_r].
    intros k. rewrite decide_False; [done|]. set_solver.
  - apply NoDup_cons in Hnd as [Hk Hnd].
    destruct (dealloc_ok k m0 Hinv) as (m1 & H1 & Hinv1 & Ha1 & _ & _ & _ & Hs1).
    rewrite (Hall k (p, lay)) in Hs1 by set_solver.
    destruct (IH m1 Hinv1 Hnd) as (m2 & H2 & Hinv2 & Ha2 & Hs2).
    { intros k' v' Hin. rewrite Ha1, lookup_delete_ne; [apply Hall; set_solver|].
      intros ->. apply Hk, list_elem_of_fmap. by exists (k', v'). }
    exists m2. cbn in *. step_ok H1. split; [exact H2|]. split; [done|]. split.
    + intros k'. rewrite Ha2, Ha1. destruct (decide (k' = k)) as [->|Hne].
      * rewrite decide_False, decide_True, lookup_delete_eq by (done || set_solver). done.
      * rewrite lookup_delete_ne by done. repeat case_decide; set_solver.
    + by rewrite Hs2, Hs1, <- (assoc_L (++)).
Qed.
End accounting.

(** ** Sequences of requests *)


Inductive Request : Type :=
| ReqAlloc (size align capacity : Z)
| ReqDealloc (id : AllocId).

Section requests.
Context `{profile : BuildProfile, SystemAlloc} {E : Type}.

Definition serve (req : Request) : M Memory E (option AllocResult) :=
  match req with
  | ReqAlloc size align capacity => r ← alloc size align capacity; mret (Some r)
  | ReqDealloc id => dealloc id ;; mret None
  end.
Fixpoint serve_all (reqs : list Request) : M Memory E (list (option AllocResult)) :=
  match reqs with
  | [] => mret []
  | req :: reqs' => r ← serve req; rs ← serve_all reqs'; mret (r :: rs)
  end.

Definition allocated_id (r : option AllocResult) : option AllocId :=
  match r with Some (Alloc id _) => Some id | _ => None end.
(** A request for a type that takes room, for which the sum of the budget check does not overflow: it is
    small enough, or so large that it is refused before. *)
Definition req_fits (lim : Z) (req : Request) : Prop :=
  match req with
  | ReqAlloc size _ capacity => 0 < size ∧ 0 ≤ capacity ≤ usize_max ∧
      (usize_max < capacity * size ∨ lim + capacity * size ≤ usize_max)
  | ReqDealloc _ => True
  end.
(** A capacity error answers exactly the requests of no size and those of an unrepresentable one. *)
Definition answered (req : Request) (r : option AllocResult) : Prop :=
  match req, r with
  | ReqAlloc size _ capacity, Some (CapacityErr _) => capacity = 0 ∨ usize_max < capacity * size
  | ReqAlloc size _ capacity, Some _ => 0 < capacity ∧ capacity * size ≤ usize_max
  | ReqDealloc _, None => True
  | _, _ => False
  end.

(** One request keeps the invariant and, when it allocates, yields an id never used before. *)
Lemma serve_ok lim req m :
  alloc_inv (allocator m) → limit (allocator m) = lim → alloc_epoch (allocator m) < u32_max →
  req_fits lim req →
  ∃ r m', serve req m = (Ok r, m') ∧ alloc_inv (allocator m') ∧ limit (allocator m') = lim ∧
    answered req r ∧
    let next a := (alloc_epoch a, alloc_counter a) in
    match allocated_id r with
    | Some id => ¬ id_lt id (next (allocator m)) ∧ id_lt id (next (allocator m')) ∧
        (∀ j, id_lt j (next (allocator m)) → id_lt j (next (allocator m'))) ∧
        alloc_total (allocator m') = alloc_total (allocator m) + 1
    | None => next (allocator m') = next (allocator m)
    end.
Proof.
  intros Hinv Hlim Hep Hfit. destruct req as [size align capacity|id]; cbn [serve].
  - destruct Hfit as (? & ? & ?).
    destruct (alloc_ok (E:=E) size align capacity m) as (r & m' & Hr & Hinv' & Hspec & Hl);
      [done|done|lia|lia|destruct Hinv; lia|].
    exists (Some r), m'. step_ok Hr. split; [done|]. split; [done|]. split; [congruence|].
    pose proof (alloc_inv_curr _ Hinv). split; [destruct Hinv; destruct r; cbn in *; destruct_and?; (done || lia)|].
    destruct r; cbn in *; destruct_and?; [done|congruence..].
  - destruct (dealloc_ok (E:=E) id m Hinv) as (m' & Hr & Hinv' & _ & Hl & He & Hc & _).
    exists None, m'. step_ok Hr. split; [done|]. split; [done|]. split; [congruence|]. split; [done|].
    cbn. congruence.
Qed.

Lemma serve_all_ok lim reqs m :
  alloc_inv (allocator m) → limit (allocator m) = lim → Forall (req_fits lim) reqs →
  alloc_total (allocator m) + len reqs < u64_max →
  ∃ rs m', serve_all reqs m = (Ok rs, m') ∧ alloc_inv (allocator m') ∧
    limit (allocator m') = lim ∧ Forall2 answered reqs rs ∧
    alloc_total (allocator m') = alloc_total (allocator m) + len (omap allocated_id rs) ∧
    NoDup (omap allocated_id rs) ∧
    (∀ id, id ∈ omap allocated_id rs →
      ¬ id_lt id (alloc_epoch (allocator m), alloc_counter (allocator m))).
Proof.
  intros Hinv Hlim Hfit. revert m Hinv Hlim.
  induction Hfit as [|req reqs Hreq _ IH]; intros m Hinv Hlim Htot; cbn [serve_all].
  { exists [], m. split; [done|]. do 3 (split; [done|]). split; [cbn; lia|].
    split; [constructor|set_solver]. }
  assert (Hep : alloc_epoch (allocator m) < u32_max).
  { destruct Hinv. unfold alloc_total, in_u, u64_max, u32_max in *. cbn in Htot. nia. }
  destruct (serve_ok lim req m Hinv Hlim Hep Hreq) as (r & m1 & H1 & Hinv1 & Hlim1 & Hans & Hr).
  step_ok H1. cbn [length] in Htot. cbv zeta beta in Hr.
  assert (Hm1 : alloc_total (allocator m1) ≤ alloc_total (allocator m) + 1).
  { destruct (allocated_id r); [lia|]. unfold alloc_total. injection Hr as -> ->. lia. }
  destruct (IH m1 Hinv1 Hlim1) as (rs & m2 & H2 & Hinv2 & Hlim2 & Hans2 & Htot2 & Hnd & Hids); [lia|].
  step_ok H2. exists (r :: rs), m2. split; [done|]. do 2 (split; [done|]). split; [by constructor|].
  change (omap allocated_id (r :: rs)) with
    (match allocated_id r with Some y => y :: omap allocated_id rs | None => omap allocated_id rs end).
  destruct (allocated_id r) as [id|].
  - destruct Hr as (Hnew & Hold & Hmono & Hone).
    split; [cbn [length]; lia|]. split.
    + constructor; [|done]. intros Hin%Hids. done.
    + intros j [->|Hj]%elem_of_cons; [done|]. intros Hlt%Hmono. by apply (Hids j).
  - unfold alloc_total in *. injection Hr as He Hc. rewrite He, Hc in *. done.
Qed.

End requests.

(** ** Properties *)

Section properties.
Context `{profile : BuildProfile, SystemAlloc} {E : Type}.


(** Dropping the allocator returns every outstanding block to the system, each exactly once and
    with the layout it was allocated with. *)
Theorem allocator_drop_frees m :
  alloc_inv (allocator m) →
  ∃ m' frees, allocator_drop (E:=E) m = (Ok tt, m') ∧
    allocations (allocator m') = ∅ ∧ curr_alloc (allocator m') = 0 ∧
    sys_calls m' = sys_calls m ++ frees ∧
    frees ≡ₚ (λ kv, SysDealloc kv.2.1 kv.2.2) <$> map_to_list (allocations (allocator m)).
Proof.
  intros Hinv.
  destruct (dealloc_all (E:=E) (map_to_list (allocations (allocator m))) m Hinv) as (m' & Hd & Hinv' & Ha & Hs);
    [apply NoDup_fst_map_to_list|by intros k v Hkv%elem_of_map_to_list|].
  assert (allocations (allocator m') = ∅) as Hempty.
  { apply map_empty. intros k. rewrite Ha. case_decide as Hk; [done|].
    destruct (allocations (allocator m) !! k) as [v|] eqn:E1; [|done]. exfalso. apply Hk.
    apply list_elem_of_fmap. exists (k, v). by rewrite elem_of_map_to_list. }
  eexists m', _. unfold allocator_drop, mbind, M_bind, gets. split; [exact Hd|].
  split; [done|]. split; [by destruct Hinv' as [-> _ _ _ _]; rewrite Hempty|]. by split; [exact Hs|].
Qed.

(** From the third epoch on the [u64] product in [total_allocations] overflows: a debug build
    panics, a release build reports a number smaller than the allocations made. *)
Theorem total_allocations_overflow a :
  alloc_inv a →
  if decide (alloc_epoch a ≤ 2) then total_allocations (E:=E) a = Ok (alloc_total a)
  else if overflow_checks then ∃ msg, total_allocations (E:=E) a = Panic msg
  else ∃ n, total_allocations (E:=E) a = Ok n ∧ n < alloc_total a.
Proof.
  intros [_ _ Hep Hcnt _]. unfold total_allocations, alloc_total, u64_max, u32_max, in_u in *.
  destruct (Z.eqb_spec (alloc_epoch a) 1) as [E1|Hne].
  { rewrite E1, decide_True by lia. by f_equal. }
  rewrite u_sub_ok by (unfold in_u; lia). cbn [mbind outcome_bind].
  case_decide as Hle.
  { rewrite u_mul_ok by (unfold in_u; lia). cbn [mbind outcome_bind]. done. }
  unfold u_mul, wrapping_or_panic. rewrite bool_decide_eq_false_2 by (unfold in_u; nia).
  destruct overflow_checks; cbn [mbind outcome_bind]; [by eexists|].
  eexists. split; [done|].
  pose proof (Z.mod_pos_bound ((alloc_epoch a - 1) * (2 ^ 64 - 1)) (2 ^ 64)). nia.
Qed.
End properties.

(** A system allocator that always succeeds, for concrete inputs. *)
#[local] Instance bump_alloc : SystemAlloc := λ calls _, 4096 + len calls.
#[local] Instance debug_profile : BuildProfile := true.
Definition example_requests : list Request :=
  [ReqAlloc 8 8 100; ReqAlloc 8 8 u64_max; ReqAlloc 4 4 50; ReqAlloc 4 4 500; ReqDealloc (1, 0)].


Definition example_memory : Memory := (serve_all (E:=unit) (take 3 example_requests) (Memory_new 1024)).2.
Example allocator_drop_frees_witness :
  ∃ m' frees, allocator_drop (E:=unit) example_memory = (Ok tt, m') ∧
    allocations (allocator m') = ∅ ∧ curr_alloc (allocator m') = 0 ∧
    sys_calls m' = sys_calls example_memory ++ frees ∧
    frees ≡ₚ (λ kv, SysDealloc kv.2.1 kv.2.2) <$> map_to_list (allocations (allocator example_memory)).
Proof.
  apply (allocator_drop_frees example_memory).
  destruct (serve_all_ok (E:=unit) 1024 (take 3 example_requests) (Memory_new 1024))
    as (rs & m & Hr & Hinv & _); [by apply alloc_inv_new|done| |done|].
  - repeat constructor; by vm_compute.
  - unfold example_memory. by rewrite Hr.
Defined.

Example total_allocations_overflow_witness :
  ∃ msg, total_allocations (E:=unit) (MkArconAllocator ∅ 1024 3 0 0) = Panic msg.
Proof.
  refine (total_allocations_overflow (E:=unit) (MkArconAllocator ∅ 1024 3 0 0) _).
  by split; vm_compute.
Defined.
