(* ===== verification/EventBuffer.v ===== *)
(** [arcon/src/buffer]: event buffers, their writers and readers, the pool that recycles them, and
    the network buffer. *)

From S2P Require Import Prelude Error Allocator.

(** ** Event buffers

    An [Arc<EventBuffer<T>>] is an index into the heap of buffers.  The memory block behind a
    buffer is the list of its cells, [None] where nothing was written yet. *)
Record EventBuffer (T : Type) : Type := MkEventBuffer {
  eb_cells : list (option T);
  eb_id : AllocId;
  eb_capacity : Z;
  eb_free : bool;
}.
Arguments MkEventBuffer {T}.
Arguments eb_cells {T}.
Arguments eb_id {T}.
Arguments eb_capacity {T}.
Arguments eb_free {T}.

Record Heap (T : Type) : Type := MkHeap { memory : Memory; buffers : list (EventBuffer T) }.
Arguments MkHeap {T}.
Arguments memory {T}.
Arguments buffers {T}.

Record BufferWriter : Type := MkBufferWriter { w_buffer : nat; w_len : Z; w_capacity : Z }.
Record BufferReader : Type := MkBufferReader { r_buffer : nat; r_len : Z }.

(** [BufferPool]; the [Vec] of buffers is created with the requested capacity and filled to it, so
    [bp_capacity] is what its [capacity()] returns. *)
Record BufferPool : Type := MkBufferPool {
  bp_buffer_size : Z;
  bp_buffers : list nat;
  bp_capacity : Z;
  curr_buffer : Z;
}.

Section event_buffer.
Context `{BuildProfile, SystemAlloc} {T : Type} (size_of align_of : Z).

Definition in_memory {A} (m : M Memory Error A) : M (Heap T) Error A :=
  zoom memory (λ mem h, MkHeap mem (buffers h)) m.
Definition deref (b : nat) : M (Heap T) Error (EventBuffer T) := λ h,
  (expect "dangling buffer" (buffers h !! b), h).
Definition update (b : nat) (eb : EventBuffer T) : M (Heap T) Error unit := λ h,
  (Ok tt, MkHeap (memory h) (<[b := eb]> (buffers h))).

Definition new_arc (eb : EventBuffer T) : M (Heap T) Error nat := λ h,
  (Ok (length (buffers h)), MkHeap (memory h) (buffers h ++ [eb])).

(** [EventBuffer::new] *)
Definition EventBuffer_new (capacity : Z) : M (Heap T) Error nat :=
  r ← in_memory (alloc size_of align_of capacity);
  match r with
  | Alloc id _ =>
      new_arc (MkEventBuffer (replicate (Z.to_nat capacity) None) id capacity true)
  | _ => fail (new_arcon "EventBuffer Alloc err")
  end.

(** [EventBuffer::push]: the value comes back when there is no room. *)
Definition eb_push (b : nat) (value : T) (len : Z) : M (Heap T) Error (option T) :=
  eb ← deref b;
  if eb_capacity eb <=? len then mret (Some value)
  else
    update b (MkEventBuffer (<[Z.to_nat len := Some value]> (eb_cells eb)) (eb_id eb)
      (eb_capacity eb) (eb_free eb)) ;;
    mret None.

Definition set_free (b : nat) (free : bool) : M (Heap T) Error unit :=
  eb ← deref b;
  update b (MkEventBuffer (eb_cells eb) (eb_id eb) (eb_capacity eb) free).
Definition release (b : nat) : M (Heap T) Error unit := set_free b true.
(** [compare_and_swap(true, false)] returns the value before. *)
Definition try_reserve (b : nat) : M (Heap T) Error bool :=
  eb ← deref b;
  (if eb_free eb then set_free b false else mret tt) ;;
  mret (eb_free eb).

(** [Drop for EventBuffer] *)
Definition EventBuffer_drop (b : nat) : M (Heap T) Error unit :=
  eb ← deref b;
  in_memory (dealloc (eb_id eb)).

(** ** Writers *)

Definition writer_push (w : BufferWriter) (value : T)
  : M (Heap T) Error (option T * BufferWriter) :=
  r ← eb_push (w_buffer w) value (w_len w);
  match r with
  | Some v => mret (Some v, w)
  | None =>
      n ← lift (u_add 64 (w_len w) 1);
      mret (None, MkBufferWriter (w_buffer w) n (w_capacity w))
  end.
Definition reader (w : BufferWriter) : BufferReader := MkBufferReader (w_buffer w) (w_len w).

(** [ptr::copy] of the other writer's events, bit by bit; copying more than the block holds is
    undefined.  An event that owns memory then has two owners: whoever receives a buffer moves the
    events out of it ([IntoIter] and [into_vec]) and drops them, and the second one frees the same
    memory again.  The model calls such a copy undefined where it is made. *)
Definition copy_from_writer `{NeedsDrop T} (w other : BufferWriter) : M (Heap T) Error BufferWriter :=
  src ← deref (w_buffer other);
  dst ← deref (w_buffer w);
  let n := Z.to_nat (w_len other) in
  if bool_decide (n ≤ length (eb_cells src) ∧ n ≤ length (eb_cells dst))%nat then
    if existsb (from_option needs_drop false) (take n (eb_cells src))
    then panic "undefined behaviour: two owners of the memory of an event"
    else
      update (w_buffer w) (MkEventBuffer (take n (eb_cells src) ++ drop n (eb_cells dst))
        (eb_id dst) (eb_capacity dst) (eb_free dst)) ;;
      mret (MkBufferWriter (w_buffer w) (w_len other) (w_capacity w))
  else panic "undefined behaviour: copy out of bounds".

(** ** Readers *)

(** [as_slice] and [into_vec]: the first [len] cells; reading one that was not written is
    undefined. *)
Definition cell_value (c : option T) : outcome Error T :=
  expect "undefined behaviour: uninitialised memory" c.
Definition as_slice (r : BufferReader) : M (Heap T) Error (list T) :=
  eb ← deref (r_buffer r);
  if r_len r <=? len (eb_cells eb)
  then lift (sequence (cell_value <$> take (Z.to_nat (r_len r)) (eb_cells eb)))
  else panic "undefined behaviour: read out of bounds".
Definition into_vec (r : BufferReader) : M (Heap T) Error (list T) := as_slice r.

(** [Drop for BufferReader] *)
Definition reader_drop (r : BufferReader) : M (Heap T) Error unit := release (r_buffer r).

(** [IntoIter] *)
Record IntoIter : Type := MkIntoIter { it_reader : BufferReader; it_current : Z; it_end : Z }.
Definition into_iter (r : BufferReader) : IntoIter := MkIntoIter r 0 (r_len r).
Definition IntoIter_next (it : IntoIter) : M (Heap T) Error (option T * IntoIter) :=
  if it_current it =? it_end it then mret (None, it)
  else
    eb ← deref (r_buffer (it_reader it));
    n ← lift (u_add 64 (it_current it) 1);
    v ← lift (cell_value (default None (eb_cells eb !! Z.to_nat (it_current it))));
    mret (Some v, MkIntoIter (it_reader it) n (it_end it)).
Definition IntoIter_size_hint (it : IntoIter) : outcome Error (Z * option Z) :=
  size ← u_sub 64 (it_end it) (it_current it);
  Ok (size, Some size).
(** Driving the iterator to its end; it yields at most [fuel] items. *)
Fixpoint collect (fuel : nat) (it : IntoIter) : M (Heap T) Error (list T) :=
  match fuel with
  | O => λ h, (Diverge, h)
  | S fuel' =>
      p ← IntoIter_next it;
      match p with
      | (None, _) => mret []
      | (Some v, it') => vs ← collect fuel' it'; mret (v :: vs)
      end
  end.

(** ** The pool *)

Fixpoint pool_fill (n : nat) (buffer_size : Z) : M (Heap T) Error (list nat) :=
  match n with
  | O => mret []
  | S n' =>
      b ← EventBuffer_new buffer_size;
      bs ← pool_fill n' buffer_size;
      mret (b :: bs)
  end.
Definition BufferPool_new (capacity buffer_size : Z) : M (Heap T) Error BufferPool :=
  bs ← pool_fill (Z.to_nat capacity) buffer_size;
  mret (MkBufferPool buffer_size bs capacity 0).

Definition index_incr (p : BufferPool) : outcome Error BufferPool :=
  i ← u_add 64 (curr_buffer p) 1;
  Ok (MkBufferPool (bp_buffer_size p) (bp_buffers p) (bp_capacity p)
    (if i =? bp_capacity p then 0 else i)).

Definition try_get (p : BufferPool) : M (Heap T) Error (option BufferWriter * BufferPool) :=
  buf ← lift (expect "index out of bounds" (bp_buffers p !! Z.to_nat (curr_buffer p)));
  ok ← try_reserve buf;
  eb ← deref buf;
  let opt := if (ok : bool) then Some (MkBufferWriter buf 0 (eb_capacity eb)) else None in
  p' ← lift (index_incr p);
  mret (opt, p').
End event_buffer.

(** [NetworkBuffer] is an allocation and its capacity. *)
Record NetworkBuffer : Type := MkNetworkBuffer {
  nb_ptr : AllocPtr; nb_id : AllocId; nb_capacity : Z
}.
Section network_buffer.
Context `{BuildProfile, SystemAlloc}.
Definition NetworkBuffer_new (capacity : Z) : M Memory Error NetworkBuffer :=
  r ← alloc 1 1 capacity;
  match r with
  | Alloc id ptr => mret (MkNetworkBuffer ptr id capacity)
  | _ => fail (new_arcon "NetworkBuffer Alloc err")
  end.
Definition NetworkBuffer_drop (b : NetworkBuffer) : M Memory Error unit := dealloc (nb_id b).
End network_buffer.
