(* ===== verification/Pool.v ===== *)
(** The ownership discipline of the buffer pool, and what it guarantees: a live reader's events never
    change, and busy waiting for a buffer ends once one is free. *)

From S2P Require Import Prelude Error Allocator EventBuffer.

(** ** Owners

    A buffer that is not free has one owner: the writer that reserved it or the reader made from
    that writer.  [own] lists the owned buffers with the events written so far. *)
Section ownership.
Context `{profile : BuildProfile} {T : Type}.
Implicit Types (p : BufferPool) (own : list (nat * list T)) (h : Heap T).

(** The state of one buffer of the pool. *)
Definition buffer_ok p own (b : nat) (eb : EventBuffer T) : Prop :=
  eb_capacity eb = bp_buffer_size p ∧ len (eb_cells eb) = bp_buffer_size p ∧
  (eb_free eb = false ↔ b ∈ own.*1) ∧
  ∀ c, (b, c) ∈ own → len c ≤ bp_buffer_size p ∧ take (length c) (eb_cells eb) = (Some <$> c).

Record pool_inv p own h : Prop := {
  pi_size : 0 < bp_buffer_size p < usize_max;
  pi_capacity : len (bp_buffers p) = bp_capacity p ∧ bp_capacity p < usize_max;
  pi_curr : 0 ≤ curr_buffer p < bp_capacity p;
  pi_distinct : NoDup (bp_buffers p);
  pi_nodup : NoDup own.*1;
  pi_own : own.*1 ⊆ bp_buffers p;
  pi_buffers : ∀ b, b ∈ bp_buffers p → ∃ eb, buffers h !! b = Some eb ∧ buffer_ok p own b eb;
}.

#[export] Instance pool_inv_proper p : Proper ((≡ₚ) ==> (=) ==> iff) (pool_inv p).
Proof.
  assert (∀ own1 own2 h, own1 ≡ₚ own2 → pool_inv p own1 h → pool_inv p own2 h) as Hp.
  { intros own1 own2 h Ho []. split; try done; try (by rewrite <- Ho).
    intros b Hb. destruct (pi_buffers0 b Hb) as (eb & Hl & Hc & Hs & Hf & Hco).
    exists eb. split; [done|]. split; [done|]. split; [done|].
    split; [by rewrite <- Ho|]. intros c. rewrite <- Ho. apply Hco. }
  intros own1 own2 Ho h1 h2 ->. split; apply Hp; [done|by symmetry].
Qed.

Lemma pool_inv_lookup p b c own h :
  pool_inv p ((b, c) :: own) h →
  ∃ eb, buffers h !! b = Some eb ∧ buffer_ok p ((b, c) :: own) b eb ∧ b ∉ own.*1 ∧
    b ∈ bp_buffers p ∧ len c ≤ bp_buffer_size p ∧ take (length c) (eb_cells eb) = (Some <$> c).
Proof.
  intros []. cbn in *. apply NoDup_cons in pi_nodup0 as [Hb Hnd].
  assert (Hin : b ∈ bp_buffers p) by set_solver.
  destruct (pi_buffers0 b Hin) as (eb & Hl & Hok). exists eb. split; [done|]. split; [done|].
  split; [done|]. split; [done|]. destruct Hok as (_ & _ & _ & Hc). apply Hc. set_solver.
Qed.

(** Changing one buffer, and what is recorded about it, keeps the invariant. *)
Lemma pool_inv_update p own own' h b eb' :
  pool_inv p own h → b ∈ bp_buffers p → NoDup own'.*1 → own'.*1 ⊆ bp_buffers p →
  (∀ b' c, b' ≠ b → (b', c) ∈ own' ↔ (b', c) ∈ own) →
  buffer_ok p own' b eb' →
  pool_inv p own' (MkHeap (memory h) (<[b := eb']> (buffers h))).
Proof.
  intros [] Hb Hnd Hsub Hsame Hok. split; try done. intros b' Hb'. cbn [buffers].
  destruct (pi_buffers0 b' Hb') as (eb & Hl & Hc & Hs & Hf & Hco).
  destruct (decide (b' = b)) as [->|Hne].
  - exists eb'. rewrite list_lookup_insert_eq by (by eapply lookup_lt_Some). done.
  - exists eb. rewrite list_lookup_insert_ne by done. split; [done|].
    split; [done|]. split; [done|]. split.
    + rewrite Hf, !list_elem_of_fmap. split; intros ([b0 c0] & -> & Hin); exists (b0, c0);
        cbn in *; (split; [done|]); by apply Hsame.
    + intros c Hin. apply Hco. by apply Hsame.
Qed.

Lemma eb_push_ok p b c own h (v : T) :
  pool_inv p ((b, c) :: own) h → len c < bp_buffer_size p →
  ∃ h', eb_push b v (len c) h = (Ok None, h') ∧ pool_inv p ((b, c ++ [v]) :: own) h'.
Proof.
  intros Hinv Hlt. destruct (pool_inv_lookup _ _ _ _ _ Hinv) as (eb & Hl & Hok & Hb & Hin & _ & Hc).
  destruct Hok as (Hcap & Hcells & Hf & _).
  unfold eb_push, mbind, M_bind, deref, update. rewrite Hl. cbn [expect].
  rewrite Hcap, (proj2 (Z.leb_gt _ _)) by done. eexists. split; [done|].
  apply (pool_inv_update p ((b, c) :: own)); try done; try apply Hinv.
  - intros b' c' Hne. set_solver.
  - split; [done|]. cbn. split; [by rewrite length_insert|]. split; [done|].
    intros c' [?|Hin']%elem_of_cons; simplify_eq.
    + rewrite length_app. split; [cbn; lia|]. cbn [length].
      replace (length c + 1)%nat with (S (length c)) by lia.
      rewrite Nat2Z.id, fmap_app, <- Hc, (take_S_r _ _ (Some v)), take_insert_ge by
        (done || apply list_lookup_insert_eq; lia). done.
    + exfalso. apply Hb, list_elem_of_fmap. by exists (b, c').
Qed.

Lemma eb_push_full p b c own h (v : T) :
  pool_inv p ((b, c) :: own) h → len c = bp_buffer_size p →
  eb_push b v (len c) h = (Ok (Some v), h).
Proof.
  intros Hinv Heq. destruct (pool_inv_lookup _ _ _ _ _ Hinv) as (eb & Hl & Hok & _).
  destruct Hok as (Hcap & _). unfold eb_push, mbind, M_bind, deref. rewrite Hl. cbn [expect].
  by rewrite Hcap, (proj2 (Z.leb_le _ _)) by lia.
Qed.

(** Pushing through a writer: the event is appended while there is room, and comes back with
    nothing changed when there is none. *)
Lemma writer_push_ok p b c own h (v : T) sz :
  pool_inv p ((b, c) :: own) h →
  ∃ r c' h', writer_push (MkBufferWriter b (len c) sz) v h =
      (Ok (r, MkBufferWriter b (len c') sz), h') ∧
    pool_inv p ((b, c') :: own) h' ∧
    if decide (len c < bp_buffer_size p) then r = None ∧ c' = c ++ [v]
    else r = Some v ∧ c' = c ∧ h' = h ∧ len c = bp_buffer_size p.
Proof.
  intros Hinv. destruct (pool_inv_lookup _ _ _ _ _ Hinv) as (eb & _ & _ & _ & _ & Hcl & _).
  unfold writer_push. cbn [w_buffer w_len w_capacity]. case_decide as Hlt.
  - destruct (eb_push_ok p b c own h v Hinv Hlt) as (h1 & H1 & Hinv1).
    exists None, (c ++ [v]), h1. step_ok H1. unfold mbind, M_bind, lift.
    pose proof (pi_size _ _ _ Hinv).
    rewrite u_add_ok by (unfold in_u, usize_max in *; lia). rewrite length_app. cbn [length].
    split; [|done]. unfold mret, M_ret. do 4 f_equal. lia.
  - assert (Heq : len c = bp_buffer_size p) by lia.
    exists (Some v), c, h. pose proof (eb_push_full p b c own h v Hinv Heq) as Hp.
    by step_ok Hp.
Qed.

Lemma as_slice_ok p b c own h :
  pool_inv p ((b, c) :: own) h → as_slice (MkBufferReader b (len c)) h = (Ok c, h).
Proof.
  intros Hinv. destruct (pool_inv_lookup _ _ _ _ _ Hinv) as (eb & Hl & Hok & _ & _ & Hlen & Hc).
  destruct Hok as (_ & Hcells & _). unfold as_slice, mbind, M_bind, deref. cbn [r_buffer r_len].
  rewrite Hl. cbn [expect]. rewrite (proj2 (Z.leb_le _ _)) by lia.
  rewrite Nat2Z.id, Hc. unfold lift. f_equal. clear. induction c as [|x c IH]; [done|].
  cbn. cbn in IH. by rewrite IH.
Qed.

Lemma release_ok p b c own h :
  pool_inv p ((b, c) :: own) h → ∃ h', release b h = (Ok tt, h') ∧ pool_inv p own h'.
Proof.
  intros Hinv. destruct (pool_inv_lookup _ _ _ _ _ Hinv) as (eb & Hl & Hok & Hb & Hin & _).
  destruct Hok as (Hcap & Hcells & Hf & Hco). pose proof Hinv as [_ _ _ _ Hnd Hsub _].
  cbn in Hnd, Hsub. apply NoDup_cons in Hnd as [_ Hnd].
  unfold release, set_free, mbind, M_bind, deref, update. rewrite Hl. cbn [expect].
  eexists. split; [done|]. apply (pool_inv_update p ((b, c) :: own)); try done; [set_solver..|].
  split; [done|]. split; [done|]. cbn. split; [done|].
  intros c' Hin'. exfalso. apply Hb, list_elem_of_fmap. by exists (b, c').
Qed.

(** The pool after [index_incr]. *)
Definition bumped p : BufferPool :=
  MkBufferPool (bp_buffer_size p) (bp_buffers p) (bp_capacity p)
    ((curr_buffer p + 1) mod bp_capacity p).

Lemma index_incr_ok p own h : pool_inv p own h → index_incr p = Ok (bumped p).
Proof.
  intros [_ [_ Hcap] Hcurr _ _ _ _]. unfold index_incr, bumped.
  rewrite u_add_ok by (unfold in_u, usize_max in *; lia). cbn [mbind outcome_bind].
  destruct (Z.eqb_spec (curr_buffer p + 1) (bp_capacity p)) as [->|Hne].
  - by rewrite Z_mod_same_full.
  - by rewrite Z.mod_small by lia.
Qed.
Lemma bumped_inv p own h : pool_inv p own h → pool_inv (bumped p) own h.
Proof.
  intros []. split; try done. cbn. apply Z.mod_pos_bound. lia.
Qed.

(** The buffer at the pool's index. *)
Definition current (p : BufferPool) : nat := default 0%nat (bp_buffers p !! Z.to_nat (curr_buffer p)).
Lemma current_lookup p own h :
  pool_inv p own h → bp_buffers p !! Z.to_nat (curr_buffer p) = Some (current p).
Proof.
  intros [_ [Hlen _] Hcurr _ _ _ _]. unfold current.
  destruct (bp_buffers p !! Z.to_nat (curr_buffer p)) eqn:E; [done|].
  apply lookup_ge_None in E. lia.
Qed.

(** [try_get] hands out the current buffer exactly when nobody owns it. *)
Lemma try_get_ok p own h :
  pool_inv p own h →
  if decide (current p ∈ own.*1) then try_get p h = (Ok (None, bumped p), h)
  else ∃ h', try_get p h =
      (Ok (Some (MkBufferWriter (current p) 0 (bp_buffer_size p)), bumped p), h') ∧
    pool_inv (bumped p) ((current p, []) :: own) h'.
Proof.
  intros Hinv. pose proof (current_lookup _ _ _ Hinv) as Hcur.
  pose proof Hinv as [Hsz _ _ _ Hnd Hsub Hbuf].
  assert (Hin : current p ∈ bp_buffers p) by (by eapply list_elem_of_lookup_2).
  destruct (Hbuf _ Hin) as (eb & Hl & Hcap & Hcells & Hf & Hco).
  unfold try_get, try_reserve, set_free, mbind, M_bind, deref, update, lift.
  rewrite Hcur. cbn [expect]. rewrite Hl. cbn [expect].
  rewrite (index_incr_ok _ _ _ Hinv).
  case_decide as Hd.
  - rewrite (proj2 Hf Hd). unfold mret, M_ret. rewrite Hl. done.
  - destruct (eb_free eb) eqn:Hfree; [|exfalso; by apply Hd, Hf].
    unfold mret, M_ret. rewrite Hl. cbn -[insert bumped lookup].
    rewrite list_lookup_insert_eq by (by eapply lookup_lt_Some). cbn -[insert bumped].
    rewrite Hcap. eexists. split; [done|].
    apply bumped_inv. apply (pool_inv_update p own); try done.
    + cbn. by apply NoDup_cons.
    + cbn. set_solver.
    + intros b' c' Hne. set_solver.
    + split; [done|]. split; [done|]. cbn. split; [set_solver|].
      intros c' [?|Hin']%elem_of_cons; simplify_eq.
      * cbn. rewrite take_0. split; [lia|done].
      * exfalso. apply Hd, list_elem_of_fmap. by exists (current p, c').
Qed.

Lemma existsb_cells `{NeedsDrop T} (c : list T) :
  existsb (from_option needs_drop false) (Some <$> c) = existsb needs_drop c.
Proof. induction c as [|x c IH]; [done|]. cbn in *. by rewrite IH. Qed.

(** Copying events that own no memory; copying others is undefined. *)
Lemma copy_from_writer_ok `{NeedsDrop T} p own h b c0 bs c sz sz' :
  pool_inv p ((b, c0) :: (bs, c) :: own) h →
  let r := copy_from_writer (MkBufferWriter b (len c0) sz) (MkBufferWriter bs (len c) sz') h in
  if existsb needs_drop c
  then r = (Panic "undefined behaviour: two owners of the memory of an event", h)
  else ∃ h', r = (Ok (MkBufferWriter b (len c) sz), h') ∧ pool_inv p ((b, c) :: (bs, c) :: own) h'.
Proof.
  intros Hinv. destruct (pool_inv_lookup _ _ _ _ _ Hinv) as (eb & Hl & Hok & Hb & Hin & _ & _).
  assert (Hinv' : pool_inv p ((bs, c) :: (b, c0) :: own) h).
  { eapply pool_inv_proper; [apply Permutation_swap|done|done]. }
  destruct (pool_inv_lookup _ _ _ _ _ Hinv') as (ebs & Hls & Hoks & Hbs & Hins & Hlen & Hc).
  destruct Hok as (Hcap & Hcells & Hf & _). destruct Hoks as (_ & Hcells' & _). cbv zeta.
  unfold copy_from_writer, mbind, M_bind, deref, update. cbn [w_buffer w_len w_capacity].
  rewrite Hls, Hl. cbn [expect]. rewrite bool_decide_eq_true_2 by lia.
  rewrite Nat2Z.id, Hc, existsb_cells. destruct (existsb needs_drop c); [done|].
  eexists. split; [done|]. pose proof Hinv as [_ _ _ _ Hnd Hsub _].
  apply (pool_inv_update p ((b, c0) :: (bs, c) :: own)); try done.
  - intros b' c' Hne. set_solver.
  - split; [done|]. cbn [eb_cells].
    split; [rewrite length_app, length_fmap, length_drop; lia|]. split; [done|].
    intros c' [?|Hin']%elem_of_cons; simplify_eq.
    + split; [done|]. by rewrite take_app_length' by (by rewrite length_fmap).
    + exfalso. apply Hb, list_elem_of_fmap. by exists (b, c').
Qed.
End ownership.

(** ** Receivers and busy waiting *)

(** The readers that were handed to other components, with the events they were made over (which
    the model records to state what they will read), and the number of times the receivers had an
    occasion to run. *)
Record World (T : Type) : Type := MkWorld {
  heap : Heap T;
  in_flight : list (BufferReader * list T);
  now : nat;
}.
Arguments MkWorld {T}.
Arguments heap {T}.
Arguments in_flight {T}.
Arguments now {T}.

(** The receivers' schedule: whether the [k]-th reader in flight is dropped at a given occasion. *)
Class Receivers := drops : nat → nat → bool.

Section world.
Context `{profile : BuildProfile, Receivers} {T : Type}.

Definition in_heap {A} (m : M (Heap T) Error A) : M (World T) Error A :=
  zoom heap (λ h w, MkWorld h (in_flight w) (now w)) m.

(** Receivers consume messages: dropping a reader releases its buffer. *)
Fixpoint split_drops (t k : nat) (l : list (BufferReader * list T))
  : list (BufferReader * list T) * list (BufferReader * list T) :=
  match l with
  | [] => ([], [])
  | x :: l' =>
      let '(dropped, kept) := split_drops t (S k) l' in
      if drops t k then (x :: dropped, kept) else (dropped, x :: kept)
  end.
Definition receivers_run : M (World T) Error unit := λ w,
  let '(dropped, kept) := split_drops (now w) 0 (in_flight w) in
  in_heap (for_each (λ x, reader_drop x.1) dropped) (MkWorld (heap w) kept (S (now w))).

(** Handing a reader over; a message to a remote component is copied and its reader dropped. *)
Definition hand_over (r : BufferReader) (events : list T) : M (World T) Error unit :=
  modify (λ w, MkWorld (heap w) (in_flight w ++ [(r, events)]) (now w)).

(** [BufferPool::get]; the receivers run between two attempts. *)
Fixpoint get (fuel : nat) (p : BufferPool) : M (World T) Error (BufferWriter * BufferPool) :=
  match fuel with
  | O => λ w, (Diverge, w)
  | S fuel' =>
      r ← in_heap (try_get p);
      match r with
      | (Some v, p') => mret (v, p')
      | (None, p') => receivers_run ;; get fuel' p'
      end
  end.

Definition flying (l : list (BufferReader * list T)) : list (nat * list T) :=
  (λ x, (r_buffer x.1, x.2)) <$> l.
(** The buffers of the world are owned by the writers [held] and by the readers in flight. *)
Definition world_inv (p : BufferPool) (held : list (nat * list T)) (w : World T) : Prop :=
  pool_inv p (held ++ flying (in_flight w)) (heap w) ∧
  Forall (λ x, r_len x.1 = len x.2) (in_flight w).

Lemma split_drops_perm t k l :
  (split_drops t k l).1 ++ (split_drops t k l).2 ≡ₚ l.
Proof.
  revert k. induction l as [|x l IH]; intros k; cbn; [done|].
  specialize (IH (S k)). destruct (split_drops t (S k) l) as [d kept]. cbn in IH.
  destruct (drops t k); cbn; [by rewrite IH|]. rewrite <- IH. symmetry. apply Permutation_middle.
Qed.
Lemma split_drops_all t k l : (∀ k, drops t k = true) → (split_drops t k l).2 = [].
Proof.
  intros Ht. revert k. induction l as [|x l IH]; intros k; cbn; [done|].
  specialize (IH (S k)). destruct (split_drops t (S k) l). by rewrite Ht.
Qed.

Lemma drop_all_ok p held dropped h :
  pool_inv p (held ++ flying dropped) h →
  ∃ h', for_each (λ x, reader_drop x.1) dropped h = (Ok tt, h') ∧ pool_inv p held h'.
Proof.
  revert h. induction dropped as [|[r c] dropped IH]; intros h Hinv; cbn [for_each].
  - exists h. split; [done|]. by rewrite app_nil_r in Hinv.
  - cbn in Hinv. rewrite <- Permutation_middle in Hinv.
    destruct (release_ok _ _ _ _ _ Hinv) as (h1 & H1 & Hinv1).
    destruct (IH h1 Hinv1) as (h2 & H2 & Hinv2). exists h2. split; [|done].
    cbn. by step_ok H1.
Qed.

(** What the receivers do never breaks the discipline, and only removes readers. *)
Lemma receivers_run_ok p held w :
  world_inv p held w →
  ∃ w', receivers_run w = (Ok tt, w') ∧ world_inv p held w' ∧ now w' = S (now w) ∧
    in_flight w' ⊆ in_flight w ∧
    ((∀ k, drops (now w) k = true) → in_flight w' = []).
Proof.
  intros [Hinv Hlen]. unfold receivers_run, in_heap, zoom.
  pose proof (split_drops_perm (now w) 0 (in_flight w)) as Hp.
  pose proof (split_drops_all (now w) 0 (in_flight w)) as Hall.
  destruct (split_drops (now w) 0 (in_flight w)) as [dropped kept]. cbn in Hp, Hall.
  destruct (drop_all_ok p (held ++ flying kept) dropped (heap w)) as (h' & Hd & Hinv').
  { eapply pool_inv_proper; [|done|exact Hinv]. unfold flying. rewrite <- Hp, fmap_app.
    by rewrite <- (assoc_L (++)), (Permutation_app_comm (_ <$> kept)). }
  cbn. rewrite Hd. eexists. split; [done|]. split.
  - split; [done|]. cbn. rewrite <- Hp in Hlen. by apply Forall_app in Hlen as [_ ?].
  - cbn. split; [done|]. split; [|done]. intros x Hx. rewrite <- Hp. set_solver.
Qed.

(** [get] returns an empty writer over a buffer nobody owned, whatever the receivers do, once the
    pool's index meets a free buffer; the fuel bounds the attempts. *)
Definition get_post p held w (r : outcome Error (BufferWriter * BufferPool) * World T) : Prop :=
  ∃ b p' w', r = (Ok (MkBufferWriter b 0 (bp_buffer_size p), p'), w') ∧
    bp_buffer_size p' = bp_buffer_size p ∧ bp_buffers p' = bp_buffers p ∧
    world_inv p' ((b, []) :: held) w' ∧ in_flight w' ⊆ in_flight w ∧ (now w ≤ now w')%nat.

Lemma get_step p held w fuel :
  world_inv p held w →
  get_post p held w (get (S fuel) p w) ∨
  (current p ∈ (held ++ flying (in_flight w)).*1 ∧
   ∃ w', get (S fuel) p w = get fuel (bumped p) w' ∧ world_inv (bumped p) held w' ∧
    now w' = S (now w) ∧ in_flight w' ⊆ in_flight w ∧
    ((∀ k, drops (now w) k = true) → in_flight w' = [])).
Proof.
  intros [Hinv Hlen]. cbn [get]. pose proof (try_get_ok _ _ _ Hinv) as Ht.
  case_decide as Hcur.
  - right. split; [done|]. destruct (receivers_run_ok (bumped p) held w) as (w' & Hr & Hrest).
    { split; [|done]. by apply bumped_inv. }
    exists w'. split; [|done]. unfold mbind at 1, M_bind at 1, in_heap, zoom. rewrite Ht.
    destruct w as [hp fl t]. cbn in *. unfold mbind at 1, M_bind at 1. by rewrite Hr.
  - left. destruct Ht as (h' & Ht & Hinv'). unfold get_post.
    unfold mbind at 1, M_bind at 1, in_heap, zoom. rewrite Ht.
    eexists _, _, _. split; [done|]. split; [done|]. split; [done|]. split; [by split|]. done.
Qed.

Lemma get_post_weaken p q held w w1 r :
  get_post q held w1 r → bp_buffer_size q = bp_buffer_size p → bp_buffers q = bp_buffers p →
  in_flight w1 ⊆ in_flight w → (now w ≤ now w1)%nat → get_post p held w r.
Proof.
  intros (b & p' & w' & -> & Hs & Hb & Hw & Hf & Ht) Hs1 Hb1 Hf1 Ht1.
  exists b, p', w'. rewrite <- Hs1. split; [done|]. split; [congruence|]. split; [congruence|].
  split; [done|]. split; [set_solver|lia].
Qed.

(** A free buffer [d] positions ahead of the index is reached within [d + 1] attempts. *)
Lemma get_reaches p held w (d : nat) fuel b :
  world_inv p held w → (d < fuel)%nat →
  bp_buffers p !! Z.to_nat ((curr_buffer p + Z.of_nat d) mod bp_capacity p) = Some b →
  b ∉ (held ++ flying (in_flight w)).*1 →
  get_post p held w (get fuel p w).
Proof.
  revert p w fuel. induction d as [|d IH]; intros p w [|fuel] Hw Hfuel Hb Hfree; [lia| |lia|].
  - destruct (get_step p held w fuel Hw) as [|[Hcur _]]; [done|]. exfalso. apply Hfree.
    destruct Hw as [Hinv _]. pose proof (current_lookup _ _ _ Hinv) as Hl.
    rewrite Z.add_0_r, Z.mod_small in Hb by apply Hinv. congruence.
  - destruct (get_step p held w fuel Hw) as [|(_ & w' & -> & Hw' & Ht & Hsub & _)]; [done|].
    eapply get_post_weaken; [apply (IH (bumped p) w' fuel)|done|done|done|lia]; [done|lia| |].
    + cbn. rewrite Zplus_mod_idemp_l. rewrite <- Hb. f_equal. f_equal. f_equal. lia.
    + intros Hin. apply Hfree. rewrite fmap_app, elem_of_app in *. destruct Hin as [?|Hin]; [by left|].
      right. unfold flying in *. rewrite <- list_fmap_compose, list_elem_of_fmap in *.
      destruct Hin as (x & -> & Hx). exists x. split; [done|]. by apply Hsub.
Qed.

(** A pool with more buffers than writers has a free one when no reader is in flight. *)
Lemma free_buffer p (held : list (nat * list T)) w :
  world_inv p held w → in_flight w = [] → (length held < length (bp_buffers p))%nat →
  ∃ b d, (d < length (bp_buffers p))%nat ∧ b ∉ held.*1 ∧
    bp_buffers p !! Z.to_nat ((curr_buffer p + Z.of_nat d) mod bp_capacity p) = Some b.
Proof.
  intros [[_ [Hcap _] Hcurr Hdist _ _ _] _] Hfl Hlt.
  assert (∃ j b, bp_buffers p !! j = Some b ∧ b ∉ held.*1) as (j & b & Hj & Hb).
  { destruct (decide (Exists (λ b, b ∉ held.*1) (bp_buffers p))) as [(b & Hin & ?)%Exists_exists|Hno].
    - apply list_elem_of_lookup in Hin as [j Hj]. eauto.
    - exfalso. apply not_Exists_Forall in Hno; [|apply _]. rewrite Forall_forall in Hno.
      assert (bp_buffers p ⊆+ held.*1) as Hlen%submseteq_length; [|rewrite length_fmap in Hlen; lia].
      apply NoDup_submseteq; [done|]. intros b Hb. by apply dec_stable, Hno. }
  pose proof (lookup_lt_Some _ _ _ Hj) as Hjl.
  pose proof (Z.mod_pos_bound (Z.of_nat j - curr_buffer p) (bp_capacity p) ltac:(lia)).
  exists b, (Z.to_nat ((Z.of_nat j - curr_buffer p) mod bp_capacity p)).
  split; [lia|]. split; [done|]. rewrite Z2Nat.id by lia. rewrite Zplus_mod_idemp_r.
  replace (curr_buffer p + (Z.of_nat j - curr_buffer p)) with (Z.of_nat j) by lia.
  rewrite Z.mod_small by lia. by rewrite Nat2Z.id.
Qed.

(** Every reader in flight is dropped within [D] occasions. *)
Definition fair (D : nat) : Prop := ∀ t, ∃ t', (t ≤ t' < t + D)%nat ∧ ∀ k, drops t' k = true.

Lemma get_drained p held w fuel :
  world_inv p held w → in_flight w = [] → (length held < length (bp_buffers p))%nat →
  (length (bp_buffers p) ≤ fuel)%nat → get_post p held w (get fuel p w).
Proof.
  intros Hw Hfl Hlt Hfuel. destruct (free_buffer p held w Hw Hfl Hlt) as (b & d & Hd & Hb & Hl).
  apply (get_reaches p held w d fuel b); try done; [lia|]. by rewrite Hfl, app_nil_r.
Qed.
Lemma get_waits p held w t' n fuel :
  world_inv p held w → (length held < length (bp_buffers p))%nat →
  (∀ k, drops t' k = true) → t' = (now w + n)%nat →
  (S n + length (bp_buffers p) ≤ fuel)%nat → get_post p held w (get fuel p w).
Proof.
  revert p w fuel. induction n as [|n IH]; intros p w fuel Hw Hlt Hall Ht Hfuel;
    (destruct fuel as [|fuel]; [lia|]);
    destruct (get_step p held w fuel Hw) as [|(_ & w' & -> & Hw' & Ht' & Hsub & Hdr)]; try done;
    (eapply (get_post_weaken p (bumped p) held w w'); [|done|done|done|lia]).
  - apply get_drained; [done| |done|cbn; lia]. apply Hdr. intros k. rewrite <- (Hall k). f_equal. lia.
  - apply IH; [done|done|done|lia|cbn; lia].
Qed.
Lemma get_ok D p held w fuel :
  fair D → world_inv p held w → (length held < length (bp_buffers p))%nat →
  (D + length (bp_buffers p) ≤ fuel)%nat → get_post p held w (get fuel p w).
Proof.
  intros Hfair Hw Hlt Hfuel. destruct (Hfair (now w)) as (t' & Ht & Hall).
  apply (get_waits p held w t' (t' - now w)); [done|done|done|lia|lia].
Qed.
End world.

(** ** A fresh pool *)

Section fresh.
Context `{profile : BuildProfile, SystemAlloc} {T : Type} (size_of align_of : Z).

Lemma EventBuffer_new_inv capacity (h : Heap T) b h' :
  EventBuffer_new size_of align_of capacity h = (Ok b, h') →
  b = length (buffers h) ∧ ∃ id, buffers h' =
    buffers h ++ [MkEventBuffer (replicate (Z.to_nat capacity) None) id capacity true].
Proof using Type.
  unfold EventBuffer_new. intros Hn. inv_bind Hn. unfold in_memory, zoom in Hm.
  destruct (alloc size_of align_of capacity (memory h)) as [o mem]. simplify_eq.
  destruct a; try done. unfold new_arc in Hk. simplify_eq. cbn. split; [done|by eexists].
Qed.

Lemma pool_fill_inv n size (h : Heap T) bs h' :
  pool_fill size_of align_of n size h = (Ok bs, h') →
  bs = seq (length (buffers h)) n ∧
  ∃ ebs, buffers h' = buffers h ++ ebs ∧ length ebs = n ∧
    Forall (λ eb, eb_capacity eb = size ∧ eb_free eb = true ∧
      eb_cells eb = replicate (Z.to_nat size) None) ebs.
Proof using Type.
  revert h bs. induction n as [|n IH]; intros h bs Hf; cbn [pool_fill] in Hf.
  - unfold mret, M_ret in Hf. simplify_eq. split; [done|]. exists []. by rewrite app_nil_r.
  - inv_bind Hf. inv_bind Hk. unfold mret, M_ret in Hk0. simplify_eq.
    apply EventBuffer_new_inv in Hm as [-> [id Hb]].
    apply IH in Hm0 as [-> (ebs & Hb' & Hl & Hall)]. rewrite Hb, length_app in *.
    split; [cbn; do 2 f_equal; cbn; lia|]. eexists (_ :: ebs). rewrite Hb', <- (assoc_L (++)).
    split; [done|]. split; [cbn; lia|]. by constructor.
Qed.

Lemma BufferPool_new_inv capacity size (h : Heap T) p h' :
  0 < capacity < usize_max → 0 < size < usize_max →
  BufferPool_new size_of align_of capacity size h = (Ok p, h') →
  pool_inv p [] h' ∧ bp_buffer_size p = size ∧ bp_capacity p = capacity.
Proof using Type.
  intros Hc Hs Hn. unfold BufferPool_new in Hn. inv_bind Hn. unfold mret, M_ret in Hk. simplify_eq.
  apply pool_fill_inv in Hm as [-> (ebs & Hb & Hl & Hall)]. split; [|done]. split; cbn.
  - done.
  - rewrite length_seq. lia.
  - lia.
  - apply NoDup_seq.
  - constructor.
  - set_solver.
  - intros b Hin%elem_of_seq. rewrite Hb.
    destruct (lookup_lt_is_Some_2 ebs (b - length (buffers h))) as [eb He]; [lia|].
    exists eb. rewrite lookup_app_r by lia. split; [done|].
    eapply Forall_lookup in Hall as (Hcap & Hfree & Hcells); [|exact He].
    split; [done|]. split; [rewrite Hcells, length_replicate; cbn; lia|].
    split; [rewrite Hfree; cbn; set_solver|]. set_solver.
Qed.
End fresh.

(** ** Steps of a pool and its clients

    The writers and the live readers of one pool, used in any way the interface allows: a writer may
    make several readers and be used after that, a reader may be cloned.  A step is labelled with the
    buffer whose events it may destroy: a reader releases its buffer when it is dropped, whether or
    not other readers of it are left, and a copy overwrites the buffer it goes to. *)
Inductive effect : Type := Harmless | Overwrites (b : nat) | Releases (b : nat).

Section steps.
Context `{profile : BuildProfile} {T : Type} `{NeedsDrop T}.

Record Clients : Type := MkClients {
  c_pool : BufferPool;
  c_heap : Heap T;
  c_writers : list BufferWriter;
  c_readers : list BufferReader;
}.

Inductive client_step : Clients → effect → Clients → Prop :=
| step_try_get p h ws rs o p' h' :
    try_get p h = (Ok (o, p'), h') →
    client_step (MkClients p h ws rs) Harmless (MkClients p' h' (option_list o ++ ws) rs)
| step_push p h ws1 w ws2 rs v r w' h' :
    writer_push w v h = (Ok (r, w'), h') →
    client_step (MkClients p h (ws1 ++ w :: ws2) rs) Harmless (MkClients p h' (ws1 ++ w' :: ws2) rs)
| step_copy p h ws1 w ws2 rs other w' h' :
    other ∈ ws1 ++ ws2 → copy_from_writer w other h = (Ok w', h') →
    client_step (MkClients p h (ws1 ++ w :: ws2) rs) (Overwrites (w_buffer w))
      (MkClients p h' (ws1 ++ w' :: ws2) rs)
| step_reader p h ws rs w :
    w ∈ ws → client_step (MkClients p h ws rs) Harmless (MkClients p h ws (reader w :: rs))
| step_clone p h ws rs r :
    r ∈ rs → client_step (MkClients p h ws rs) Harmless (MkClients p h ws (r :: rs))
| step_drop_writer p h ws1 w ws2 rs :
    client_step (MkClients p h (ws1 ++ w :: ws2) rs) Harmless (MkClients p h (ws1 ++ ws2) rs)
| step_drop_reader p h ws rs1 r rs2 h' :
    reader_drop r h = (Ok tt, h') →
    client_step (MkClients p h ws (rs1 ++ r :: rs2)) (Releases (r_buffer r))
      (MkClients p h' ws (rs1 ++ rs2)).

(** Steps that neither release buffer [b] nor copy over it. *)
Inductive steps_keeping (b : nat) : Clients → Clients → Prop :=
| keep_refl s : steps_keeping b s s
| keep_step s e s' s'' :
    e ≠ Overwrites b → e ≠ Releases b → client_step s e s' → steps_keeping b s' s'' →
    steps_keeping b s s''.

(** A writer or a reader [x], over the buffer [f x], is over an owner whose events satisfy [P]. *)
Definition owned {X} (f : X → nat) (P : X → list T → Prop) (own : list (nat * list T)) (x : X) : Prop :=
  ∃ c, (f x, c) ∈ own ∧ P x c.

(** The discipline: a buffer in use has one owner, over which there is one writer at most and any
    number of readers. *)
Record clients_inv (own : list (nat * list T)) (s : Clients) : Prop := {
  ci_pool : pool_inv (c_pool s) own (c_heap s);
  ci_single : NoDup (w_buffer <$> c_writers s);
  ci_writers : Forall (owned w_buffer (λ w c, w_len w = len c) own) (c_writers s);
  ci_readers : Forall (owned r_buffer (λ r c, r_len r ≤ len c) own) (c_readers s);
}.

(** The buffer [b] is in use and holds [c], which every writer over it is beyond. *)
Definition guarded (b : nat) (c : list T) (s : Clients) : Prop :=
  (∃ eb, buffers (c_heap s) !! b = Some eb ∧ eb_free eb = false ∧ eb_capacity eb < usize_max ∧
    len c ≤ len (eb_cells eb) ∧ take (length c) (eb_cells eb) = Some <$> c) ∧
  Forall (λ w, w_buffer w = b → len c ≤ w_len w) (c_writers s).

Lemma try_get_inv p (h : Heap T) o p' h' :
  try_get p h = (Ok (o, p'), h') →
  (o = None ∧ h' = h) ∨
  ∃ b eb, buffers h !! b = Some eb ∧ eb_free eb = true ∧
    o = Some (MkBufferWriter b 0 (eb_capacity eb)) ∧
    h' = MkHeap (memory h) (<[b := MkEventBuffer (eb_cells eb) (eb_id eb) (eb_capacity eb) false]> (buffers h)).
Proof.
  unfold try_get, try_reserve, set_free, mbind, M_bind, deref, update, lift, mret, M_ret.
  destruct (bp_buffers p !! _) as [b|]; cbn [expect]; [|done].
  destruct (buffers h !! b) as [eb|] eqn:Hl; cbn [expect]; [|done].
  destruct (eb_free eb) eqn:Hf; rewrite ?Hl; cbn -[insert lookup].
  - rewrite list_lookup_insert_eq by (by eapply lookup_lt_Some). cbn -[insert].
    destruct (index_incr p); intros ?; simplify_eq. right. by exists b, eb.
  - destruct (index_incr p); intros ?; simplify_eq. by left.
Qed.

Lemma writer_push_inv w (v : T) h r w' h' :
  writer_push w v h = (Ok (r, w'), h') →
  (w' = w ∧ h' = h) ∨
  ∃ eb n, buffers h !! w_buffer w = Some eb ∧ w_len w < eb_capacity eb ∧
    u_add (E:=Error) 64 (w_len w) 1 = Ok n ∧ w' = MkBufferWriter (w_buffer w) n (w_capacity w) ∧
    h' = MkHeap (memory h) (<[w_buffer w := MkEventBuffer (<[Z.to_nat (w_len w) := Some v]> (eb_cells eb))
      (eb_id eb) (eb_capacity eb) (eb_free eb)]> (buffers h)).
Proof.
  unfold writer_push, eb_push, mbind, M_bind, deref, update, lift, mret, M_ret.
  destruct (buffers h !! w_buffer w) as [eb|] eqn:Hl; cbn [expect]; [|done].
  destruct (Z.leb_spec (eb_capacity eb) (w_len w)); [intros ?; simplify_eq; by left|].
  destruct (u_add 64 (w_len w) 1) as [n| | |] eqn:Hn; intros ?; simplify_eq.
  right. by exists eb, n.
Qed.

Lemma copy_from_writer_inv w other (h : Heap T) w' h' :
  copy_from_writer w other h = (Ok w', h') →
  w_buffer w' = w_buffer w ∧ ∃ eb, h' = MkHeap (memory h) (<[w_buffer w := eb]> (buffers h)).
Proof.
  unfold copy_from_writer, mbind, M_bind, deref, update, mret, M_ret.
  destruct (buffers h !! w_buffer other); cbn [expect]; [|done].
  destruct (buffers h !! w_buffer w); cbn [expect]; [|done].
  case_bool_decide; [|done]. destruct (existsb _ _); [done|]. intros ?; simplify_eq.
  split; [done|]. by eexists.
Qed.

Lemma release_inv b (h : Heap T) h' :
  release b h = (Ok tt, h') → ∃ eb, h' = MkHeap (memory h) (<[b := eb]> (buffers h)).
Proof.
  unfold release, set_free, mbind, M_bind, deref, update.
  destruct (buffers h !! b); cbn [expect]; intros ?; simplify_eq. by eexists.
Qed.

(** Changing another buffer leaves a guarded one alone. *)
Lemma guarded_other b c b' eb p p' (h : Heap T) ws ws' rs rs' :
  b' ≠ b → guarded b c (MkClients p h ws rs) →
  Forall (λ w, w_buffer w = b → len c ≤ w_len w) ws' →
  guarded b c (MkClients p' (MkHeap (memory h) (<[b' := eb]> (buffers h))) ws' rs').
Proof. intros Hne [Hb _] Hw. split; [|done]. cbn. by rewrite list_lookup_insert_ne. Qed.

Lemma client_step_guarded b c s e s' :
  e ≠ Overwrites b → e ≠ Releases b → client_step s e s' → guarded b c s → guarded b c s'.
Proof.
  intros Ho Hr Hstep Hg. pose proof Hg as [(eb & Hl & Hf & Hcap & Hlen & Hc) Hw].
  destruct Hstep; cbn in *; rewrite ?Forall_app, ?Forall_cons in *.
  - destruct (try_get_inv _ _ _ _ _ H0) as [[-> ->]|(b' & eb' & Hl' & Hf' & -> & ->)]; [done|].
    assert (b' ≠ b) by congruence. eapply guarded_other; [done|exact Hg|]. by constructor.
  - destruct (writer_push_inv _ _ _ _ _ _ H0) as [[-> ->]|(eb' & n & Hl' & Hlt & Hn & -> & ->)];
      [split; [eauto 10|cbn; by rewrite Forall_app, Forall_cons]|].
    destruct Hw as (Hw1 & Hw & Hw2). destruct (decide (w_buffer w = b)) as [<-|Hne].
    + simplify_eq. specialize (Hw eq_refl). rewrite u_add_ok in Hn by (unfold in_u, usize_max in *; lia).
      simplify_eq. split; cbn.
      * rewrite list_lookup_insert_eq by (by eapply lookup_lt_Some). eexists. split; [done|]. cbn.
        rewrite length_insert. split; [done|]. split; [done|]. split; [done|].
        rewrite take_insert_ge by lia. done.
      * rewrite Forall_app, Forall_cons. cbn. split; [done|]. split; [lia|done].
    + eapply guarded_other; [done|exact Hg|]. by rewrite Forall_app, Forall_cons.
  - destruct (copy_from_writer_inv _ _ _ _ _ H1) as (Hb' & eb' & ->).
    assert (w_buffer w ≠ b) by congruence. eapply guarded_other; [done|exact Hg|].
    rewrite Forall_app, Forall_cons. split; [apply Hw|]. split; [congruence|apply Hw].
  - done.
  - done.
  - split; [eauto 10|]. cbn. rewrite Forall_app. split; apply Hw.
  - destruct (release_inv _ _ _ H0) as (eb' & ->). assert (r_buffer r ≠ b) by congruence.
    eapply guarded_other; [done|exact Hg|done].
Qed.

Lemma client_step_reader b s e s' r :
  e ≠ Releases b → client_step s e s' → r_buffer r = b → r ∈ c_readers s → r ∈ c_readers s'.
Proof.
  intros He Hstep Hb Hr. destruct Hstep; cbn in *; try done; try (by constructor).
  rewrite elem_of_app, elem_of_cons in *. destruct Hr as [?|[->|?]]; [by left|congruence|by right].
Qed.
Lemma steps_guarded b c s s' r :
  steps_keeping b s s' → r_buffer r = b → guarded b c s → r ∈ c_readers s →
  guarded b c s' ∧ r ∈ c_readers s'.
Proof.
  induction 1 as [s|s e s1 s' Ho He Hstep Hsteps IH]; intros Hb Hg Hr; [done|].
  apply IH; [done|by eapply client_step_guarded|by eapply client_step_reader].
Qed.

(** What a guarded buffer reads. *)
Lemma guarded_slice b c s : guarded b c s → as_slice (MkBufferReader b (len c)) (c_heap s) = (Ok c, c_heap s).
Proof.
  intros [(eb & Hl & _ & _ & Hlen & Hc) _]. unfold as_slice, mbind, M_bind, deref. cbn [r_buffer r_len].
  rewrite Hl. cbn [expect]. rewrite (proj2 (Z.leb_le _ _)) by done. rewrite Nat2Z.id, Hc. unfold lift.
  f_equal. clear. induction c as [|x c IH]; [done|]. cbn in *. by rewrite IH.
Qed.
Lemma own_unique {X} (own : list (nat * X)) b c c' :
  NoDup own.*1 → (b, c) ∈ own → (b, c') ∈ own → c = c'.
Proof.
  clear. intros Hnd (o1 & o2 & ->)%list_elem_of_split Hc'. rewrite fmap_app, fmap_cons in Hnd. cbn in Hnd.
  rewrite <- Permutation_middle in Hnd. apply NoDup_cons in Hnd as [Hb _].
  rewrite elem_of_app, elem_of_cons in Hc'. rewrite <- fmap_app in Hb.
  destruct Hc' as [?|[?|?]]; [|congruence|]; exfalso; apply Hb, list_elem_of_fmap; exists (b, c');
    rewrite elem_of_app; tauto.
Qed.
Lemma elem_of_split_perm {X} (x : X) l : x ∈ l → ∃ l', l ≡ₚ x :: l'.
Proof. clear. intros (l1 & l2 & ->)%list_elem_of_split. exists (l1 ++ l2). by rewrite <- Permutation_middle. Qed.
Lemma clients_guarded own s w c :
  clients_inv own s → w ∈ c_writers s → (w_buffer w, c) ∈ own →
  w_len w = len c ∧ guarded (w_buffer w) c s.
Proof.
  intros [Hp Hs Hw _] Hin Hown. pose proof Hp as [Hsz _ _ _ Hnd _ _].
  rewrite Forall_forall in Hw. destruct (Hw w Hin) as (c' & Hc' & Hlen).
  rewrite (own_unique _ _ _ _ Hnd Hc' Hown) in Hlen. split; [done|]. split.
  - apply elem_of_split_perm in Hown as Ho. destruct Ho as [own' Ho]. rewrite Ho in Hp.
    destruct (pool_inv_lookup _ _ _ _ _ Hp) as (eb & Hl & (Hcap & Hcells & Hf & _) & _ & _ & Hle & Ht).
    exists eb. split; [done|]. split; [apply Hf; set_solver|]. split; [lia|]. split; [lia|done].
  - rewrite Forall_forall. intros w2 Hin2 Hb. destruct (Hw w2 Hin2) as (c2 & Hc2 & Hlen2).
    rewrite Hb in Hc2. rewrite (own_unique _ _ _ _ Hnd Hc2 Hown) in Hlen2. lia.
Qed.

(** A reader is dropped when nothing else is left of its buffer, and no buffer that is read is
    overwritten: then the discipline is kept. *)
Definition careful (s : Clients) (e : effect) (s' : Clients) : Prop :=
  match e with
  | Harmless => True
  | Overwrites b => b ∉ r_buffer <$> c_readers s
  | Releases b => b ∉ r_buffer <$> c_readers s' ∧ b ∉ w_buffer <$> c_writers s'
  end.

Lemma owned_else {X} (f : X → nat) (P : X → list T → Prop) own (b : nat) (c c' : list T) (l : list X) :
  b ∉ f <$> l → Forall (owned f P ((b, c) :: own)) l → Forall (owned f P ((b, c') :: own)) l.
Proof.
  intros Hb. rewrite !Forall_forall. intros Hl x Hx. destruct (Hl x Hx) as (c1 & Hc1 & HP).
  exists c1. split; [|done]. apply elem_of_cons in Hc1 as [?|?]; [|by apply elem_of_cons; right].
  exfalso. apply Hb, list_elem_of_fmap. exists x. split; [congruence|done].
Qed.
Lemma owned_gone {X} (f : X → nat) (P : X → list T → Prop) own (b : nat) (c : list T) (l : list X) :
  b ∉ f <$> l → Forall (owned f P ((b, c) :: own)) l → Forall (owned f P own) l.
Proof.
  intros Hb. rewrite !Forall_forall. intros Hl x Hx. destruct (Hl x Hx) as (c1 & Hc1 & HP).
  exists c1. split; [|done]. apply elem_of_cons in Hc1 as [?|?]; [|done].
  exfalso. apply Hb, list_elem_of_fmap. exists x. split; [congruence|done].
Qed.
Lemma owned_grow {X} (f : X → nat) (P : X → list T → Prop) own (b : nat) (c c' : list T) (l : list X) :
  (∀ x, P x c → P x c') → Forall (owned f P ((b, c) :: own)) l → Forall (owned f P ((b, c') :: own)) l.
Proof.
  intros Hc Hl. eapply Forall_impl; [exact Hl|]. intros x (c1 & Hc1 & HP). apply elem_of_cons in Hc1 as [?|?]; simplify_eq.
  - exists c'. split; [by left|by apply Hc].
  - exists c1. split; [by right|done].
Qed.
Lemma owned_sub {X} (f : X → nat) (P : X → list T → Prop) own own' (l : list X) :
  own ⊆ own' → Forall (owned f P own) l → Forall (owned f P own') l.
Proof. intros Ho Hl. eapply Forall_impl; [exact Hl|]. intros x (c & Hc & ?). exists c. split; [by apply Ho|done]. Qed.
(** The owner of the buffer of one writer, apart from those of the others. *)
Lemma clients_split own p h ws1 w ws2 rs :
  clients_inv own (MkClients p h (ws1 ++ w :: ws2) rs) →
  ∃ c own1, own ≡ₚ (w_buffer w, c) :: own1 ∧ w_len w = len c ∧ w_buffer w ∉ w_buffer <$> ws1 ++ ws2 ∧
    clients_inv ((w_buffer w, c) :: own1) (MkClients p h (ws1 ++ w :: ws2) rs).
Proof.
  intros Hinv. pose proof Hinv as [Hp Hs Hw Hr]. cbn in *.
  pose proof Hw as [_ Hw2]%Forall_app. apply Forall_cons in Hw2 as [(c & Hc & Hlen) _].
  apply elem_of_split_perm in Hc as Ho. destruct Ho as [own1 Ho]. exists c, own1.
  split; [done|]. split; [done|]. split.
  - rewrite fmap_app, fmap_cons, <- Permutation_middle in Hs. apply NoDup_cons in Hs as [? _].
    by rewrite fmap_app.
  - split; cbn; [by rewrite <- Ho|done|eapply owned_sub; [|exact Hw]; intros ?; by rewrite Ho|eapply owned_sub; [|exact Hr]; intros ?; by rewrite Ho].
Qed.

Ltac forall_split := repeat match goal with
  | H : Forall _ (_ ++ _) |- _ => apply Forall_app in H as [? ?]
  | H : Forall _ (_ :: _) |- _ => apply Forall_cons in H as [? ?]
  | |- Forall _ (_ ++ _) => apply Forall_app; split
  | |- Forall _ (_ :: _) => apply Forall_cons; split
  end.

Lemma step_push_inv own p h ws1 w ws2 rs v r w' h' :
  clients_inv own (MkClients p h (ws1 ++ w :: ws2) rs) → writer_push w v h = (Ok (r, w'), h') →
  ∃ own', clients_inv own' (MkClients p h' (ws1 ++ w' :: ws2) rs).
Proof.
  intros Hinv Hpush. destruct (clients_split _ _ _ _ _ _ _ Hinv) as (c & own1 & _ & Hlen & Hb & [Hp Hs Hw Hr]).
  cbn in *. destruct w as [wb wl wc]. cbn in *. subst wl.
  destruct (writer_push_ok p wb c own1 h v wc Hp) as (r1 & c' & h1 & H1 & Hp1 & Hc').
  rewrite H1 in Hpush. simplify_eq. exists ((wb, c') :: own1).
  assert (len c ≤ len c') by (case_decide; destruct_and?; simplify_eq; rewrite ?length_app; lia).
  rewrite fmap_app in Hb. split; cbn; [done|by rewrite fmap_app in *| |].
  - forall_split; [eapply owned_else; [set_solver|done]| |eapply owned_else; [set_solver|done]].
    exists c'. split; [by left|done].
  - eapply owned_grow; [|exact Hr]. cbn. lia.
Qed.

Lemma step_copy_inv own p h ws1 w ws2 rs other w' h' :
  clients_inv own (MkClients p h (ws1 ++ w :: ws2) rs) → other ∈ ws1 ++ ws2 →
  w_buffer w ∉ r_buffer <$> rs → copy_from_writer w other h = (Ok w', h') →
  ∃ own', clients_inv own' (MkClients p h' (ws1 ++ w' :: ws2) rs).
Proof.
  intros Hinv Hin Hread Hcopy.
  destruct (clients_split _ _ _ _ _ _ _ Hinv) as (c0 & own1 & _ & Hlen & Hb & [Hp Hs Hw Hr]). cbn in *.
  assert (Ho : owned w_buffer (λ w c, w_len w = len c) ((w_buffer w, c0) :: own1) other).
  { rewrite Forall_forall in Hw. apply Hw. rewrite elem_of_app, elem_of_cons in *. tauto. }
  destruct Ho as (c & [Hc|Hc]%elem_of_cons & Hlen').
  { exfalso. apply Hb, list_elem_of_fmap. exists other. split; [congruence|done]. }
  apply elem_of_split_perm in Hc as [own2 Ho]. destruct w as [wb wl wc], other as [ob ol oc]. cbn in *. subst wl ol.
  assert (Hp2 : pool_inv p ((wb, c0) :: (ob, c) :: own2) h) by (eapply pool_inv_proper; [|done|exact Hp]; by rewrite Ho).
  pose proof (copy_from_writer_ok p own2 h wb c0 ob c wc oc Hp2) as Hok. cbv zeta in Hok.
  destruct (existsb needs_drop c); [congruence|]. destruct Hok as (h1 & H1 & Hp1).
  rewrite H1 in Hcopy. simplify_eq. exists ((wb, c) :: own1). rewrite fmap_app in Hb.
  split; cbn; [by rewrite Ho|by rewrite fmap_app in *| |by eapply owned_else].
  forall_split; [eapply owned_else; [set_solver|done]| |eapply owned_else; [set_solver|done]].
  exists c. split; [by left|done].
Qed.

Lemma step_drop_inv own p h ws rs1 r rs2 h' :
  clients_inv own (MkClients p h ws (rs1 ++ r :: rs2)) → r_buffer r ∉ r_buffer <$> rs1 ++ rs2 →
  r_buffer r ∉ w_buffer <$> ws → reader_drop r h = (Ok tt, h') →
  ∃ own', clients_inv own' (MkClients p h' ws (rs1 ++ rs2)).
Proof.
  intros [Hp Hs Hw Hr] Hr' Hw' Hdrop. cbn in *. forall_split.
  match goal with H : owned _ _ _ r |- _ => destruct H as (c & Hc & _) end.
  apply elem_of_split_perm in Hc as [own1 Ho]. rewrite Ho in Hp.
  destruct (release_ok _ _ _ _ _ Hp) as (h1 & H1 & Hp1). unfold reader_drop in Hdrop.
  rewrite H1 in Hdrop. simplify_eq. exists own1. assert (own ⊆ (r_buffer r, c) :: own1) by (intros ?; by rewrite Ho).
  split; cbn; [done|done| |].
  - eapply owned_gone; [exact Hw'|by eapply owned_sub].
  - eapply owned_gone; [exact Hr'|]. forall_split; by eapply owned_sub.
Qed.

(** Every careful step keeps the discipline. *)
Lemma client_step_inv own s e s' :
  clients_inv own s → client_step s e s' → careful s e s' → ∃ own', clients_inv own' s'.
Proof.
  intros Hinv Hstep Hcare. destruct Hstep; cbn in Hcare.
  - destruct Hinv as [Hp Hs Hw Hr]. cbn in *. pose proof (try_get_ok _ _ _ Hp) as Ht. case_decide as Hc.
    + rewrite Ht in H0. simplify_eq. exists own. split; cbn; try done. by apply bumped_inv.
    + destruct Ht as (h1 & Ht & Hp'). rewrite Ht in H0. simplify_eq. exists ((current p, []) :: own).
      assert (own ⊆ (current p, []) :: own) by set_solver.
      split; cbn; [done| |forall_split; [exists []; split; [by left|done]|]; by eapply owned_sub|by eapply owned_sub].
      apply NoDup_cons. split; [|done]. intros (w & Hwb & Hin)%list_elem_of_fmap.
      rewrite Forall_forall in Hw. destruct (Hw w Hin) as (c & Hc' & _).
      apply Hc, list_elem_of_fmap. exists (w_buffer w, c). by rewrite Hwb.
  - by eapply step_push_inv.
  - by eapply step_copy_inv.
  - exists own. destruct Hinv as [Hp Hs Hw Hr]. split; cbn in *; try done. forall_split; [|done].
    rewrite Forall_forall in Hw. destruct (Hw w H0) as (c & Hc & Hl). exists c. split; [done|].
    unfold reader. cbn. lia.
  - exists own. destruct Hinv as [Hp Hs Hw Hr]. split; cbn in *; try done. forall_split; [|done].
    rewrite Forall_forall in Hr. by apply Hr.
  - exists own. destruct Hinv as [Hp Hs Hw Hr]. split; cbn in *; try done.
    + rewrite fmap_app in *. cbn in Hs. rewrite <- Permutation_middle in Hs. by apply NoDup_cons in Hs as [_ ?].
    + forall_split; done.
  - destruct Hcare. by eapply step_drop_inv.
Qed.
End steps.

(** ** Properties *)

Section properties.
Context `{profile : BuildProfile} {T : Type}.

(** Making a reader; the writer may be used further. *)
Definition with_reader (s : Clients (T:=T)) (w : BufferWriter) : Clients :=
  MkClients (c_pool s) (c_heap s) (c_writers s) (reader w :: c_readers s).

(** C21: Once a writer was turned into a reader, the reader gives exactly the events written so far,
    whatever is done with the pool, with this writer and others (pushing, copying, making further
    readers, dropping) and with the readers (cloning and dropping), as long as no reader of the same
    buffer is dropped, be it a clone, and no other writer is copied into the buffer.  Dropping any of
    them frees the buffer, although others may be left. *)
Theorem reader_events_stable `{NeedsDrop T} own (s s' : Clients (T:=T)) w c :
  clients_inv own s → w ∈ c_writers s → (w_buffer w, c) ∈ own →
  steps_keeping (w_buffer w) (with_reader s w) s' →
  as_slice (reader w) (c_heap s') = (Ok c, c_heap s') ∧ reader w ∈ c_readers s' ∧
  ∃ h' eb, reader_drop (reader w) (c_heap s') = (Ok tt, h') ∧
    buffers h' !! w_buffer w = Some eb ∧ eb_free eb = true.
Proof.
  intros Hinv Hw Hown Hsteps. destruct (clients_guarded _ _ _ _ Hinv Hw Hown) as [Hlen Hg].
  destruct (steps_guarded (w_buffer w) c (with_reader s w) s' (reader w)) as [Hg' Hr]; [done..|by left|].
  split; [unfold reader; rewrite Hlen; by apply guarded_slice|]. split; [done|].
  destruct Hg' as [(eb & Hl & _) _]. unfold reader_drop, release, set_free, mbind, M_bind, deref, update.
  cbn [reader r_buffer]. rewrite Hl. cbn [expect]. eexists _, _. split; [done|]. cbn.
  by rewrite list_lookup_insert_eq by (by eapply lookup_lt_Some).
Qed.

(** C22: Busy waiting ends: with more buffers than writers and receivers that drop every reader within
    [D] occasions, [get] returns an empty writer within [D] attempts plus one per buffer.  With as
    many writers as buffers it never returns. *)
Theorem pool_get_terminates `{Receivers} D p (held : list (nat * list T)) w :
  world_inv p held w →
  (fair D → (length held < length (bp_buffers p))%nat →
    ∃ b p' w', get (D + length (bp_buffers p)) p w =
        (Ok (MkBufferWriter b 0 (bp_buffer_size p), p'), w') ∧
      b ∉ held.*1 ∧ world_inv p' ((b, []) :: held) w') ∧
  (length held = length (bp_buffers p) → ∀ fuel, (get fuel p w).1 = Diverge).
Proof.
  intros Hw. split.
  - intros Hfair Hlt. destruct (get_ok D p held w (D + length (bp_buffers p)) Hfair Hw Hlt)
      as (b & p' & w' & Hg & _ & _ & Hw' & _); [lia|].
    exists b, p', w'. split; [done|]. split; [|done]. destruct Hw' as [[_ _ _ _ Hnd _ _] _].
    cbn in Hnd. rewrite fmap_app in Hnd. apply NoDup_cons in Hnd as [Hb _].
    intros Hin. apply Hb, elem_of_app. by left.
  - intros Heq fuel. revert p w Hw Heq. induction fuel as [|fuel IH]; intros p w Hw Heq; [done|].
    destruct (get_step p held w fuel Hw) as [(b & p' & w' & Hg & _ & Hbs & Hw' & _)|(_ & w' & -> & Hw' & _)];
      [|by apply IH].
    exfalso. destruct Hw' as [[_ _ _ _ Hnd Hsub _] _]. cbn in Hnd, Hsub. rewrite Hbs in Hsub.
    assert (Hl : (b :: (held ++ flying (in_flight w')).*1) ⊆+ bp_buffers p).
    { apply NoDup_submseteq; [done|]. intros x Hx. by apply Hsub. }
    apply submseteq_length in Hl. cbn in Hl. rewrite length_fmap, length_app in Hl. lia.
Qed.
End properties.

(** ** Concrete inputs *)

Definition example_heap (free1 : bool) : Heap Z :=
  MkHeap (Memory_new 1024)
    [MkEventBuffer [Some 7; None] (1, 0) 2 false; MkEventBuffer [None; None] (1, 1) 2 free1].
Definition example_pool (curr : Z) : BufferPool := MkBufferPool 2 [0; 1]%nat 2 curr.

Lemma example_pool_inv : pool_inv (example_pool 1) [(0%nat, [7])] (example_heap true).
Proof.
  split; cbn; try (vm_compute; done).
  - repeat constructor; set_solver.
  - repeat constructor; set_solver.
  - set_solver.
  - intros b Hb. set_unfold in Hb. destruct Hb as [->|[->|[]]]; eexists; (split; [done|]);
      (split; [done|]); (split; [done|]); cbn; (split; [set_solver|]); intros c Hin; set_unfold in Hin;
      destruct Hin as [Hin|[]]; simplify_eq; by vm_compute.
Qed.

#[local] Instance integers_own_nothing : NeedsDrop Z := λ _, false.
#[local] Instance debug_profile : BuildProfile := true.
#[local] Instance eager_receivers : Receivers := λ _ _, true.

Definition example_clients : Clients (T:=Z) :=
  MkClients (example_pool 1) (example_heap true) [MkBufferWriter 0 1 2] [].
(** The reader is cloned, a second writer fetched and copied into, and the first one used again. *)
Definition example_clients_after : Clients (T:=Z) :=
  MkClients (example_pool 0)
    (MkHeap (Memory_new 1024)
      [MkEventBuffer [Some 7; Some 9] (1, 0) 2 false; MkEventBuffer [Some 7; None] (1, 1) 2 false])
    [MkBufferWriter 1 1 2; MkBufferWriter 0 2 2] [MkBufferReader 0 1; MkBufferReader 0 1].

Example reader_events_stable_witness :
  as_slice (MkBufferReader 0 1) (c_heap example_clients_after) = (Ok [7], c_heap example_clients_after) ∧
  MkBufferReader 0 1 ∈ c_readers example_clients_after ∧
  ∃ h' eb, reader_drop (MkBufferReader 0 1) (c_heap example_clients_after) = (Ok tt, h') ∧
    buffers h' !! 0%nat = Some eb ∧ eb_free eb = true.
Proof.
  apply (reader_events_stable [(0%nat, [7])] example_clients example_clients_after (MkBufferWriter 0 1 2) [7]).
  - split; [exact example_pool_inv|repeat constructor; set_solver| |constructor].
    constructor; [|constructor]. exists [7]. split; [by left|done].
  - by left.
  - by left.
  - eapply keep_step; [| |apply step_clone; left|]; [done..|].
    eapply keep_step; [| |eapply (step_try_get _ _ _ _ (Some (MkBufferWriter 1 0 2))); by vm_compute|]; [done..|].
    eapply keep_step; [| |eapply (step_copy _ _ [] _ [_] _ (MkBufferWriter 0 1 2));
      [by left|by vm_compute]|]; [done..|].
    eapply keep_step; [| |eapply (step_push _ _ [_] _ [] _ 9); by vm_compute|]; [done..|]. apply keep_refl.
Defined.

(** Dropping a clone ends it: the pool hands the buffer out again, and the reader that is left gives
    the events of another writer. *)
Example clone_releases_buffer :
  let r := MkBufferReader 0 1 in
  (reader_drop r ;; p ← try_get (example_pool 0);
   match p.1 with Some w => writer_push w 8 ;; as_slice r | None => mret [] end)
    (example_heap true) = (Ok [8], MkHeap (Memory_new 1024)
      [MkEventBuffer [Some 8; None] (1, 0) 2 false; MkEventBuffer [None; None] (1, 1) 2 true]).
Proof. by vm_compute. Qed.

(** One buffer is held by a writer, and the reader of the other is dropped after the first attempt;
    with a writer over each buffer there is nothing to wait for. *)
Definition waiting_world : World Z :=
  MkWorld (example_heap false) [(MkBufferReader 1 0, [])] 0.

Lemma busy_pool_inv curr : 0 ≤ curr < 2 →
  pool_inv (example_pool curr) [(0%nat, [7]); (1%nat, [])] (example_heap false).
Proof.
  intros Hcurr. split; cbn; try done.
  - repeat constructor; set_solver.
  - repeat constructor; set_solver.
  - intros b Hb. set_unfold in Hb. destruct Hb as [->|[->|[]]]; eexists; (split; [done|]);
      (split; [done|]); (split; [done|]); cbn; (split; [set_solver|]); intros c Hin; set_unfold in Hin;
      destruct_or?; simplify_eq; by vm_compute.
Qed.

Example pool_get_terminates_witness :
  (∃ b p' w', get 3 (example_pool 0) waiting_world = (Ok (MkBufferWriter b 0 2, p'), w') ∧
    b ∉ [(0%nat, [7])].*1 ∧ world_inv p' ((b, []) :: [(0%nat, [7])]) w') ∧
  (∀ fuel, (get fuel (example_pool 0) (MkWorld (example_heap false) [] 0)).1 = Diverge).
Proof.
  split.
  - destruct (pool_get_terminates 1 (example_pool 0) [(0%nat, [7])] waiting_world) as [Hget _].
    { split; [apply busy_pool_inv; lia|]. by constructor. }
    apply Hget; [intros t; exists t; split; [lia|done]|cbn; lia].
  - destruct (pool_get_terminates 1 (example_pool 0) [(0%nat, [7]); (1%nat, [])]
      (MkWorld (example_heap false) [] 0)) as [_ Hget].
    { split; [apply busy_pool_inv; lia|constructor]. }
    by apply Hget.
Defined.
