(* ===== verification/Data.v ===== *)
(** [arcon/src/data/mod.rs]: events, watermarks, epochs and messages. *)

From S2P Require Import Prelude Error Serialization StateBackend.

(** [NodeID] wraps a [u32]; [Watermark] and [Epoch] wrap a [u64] and are ordered by it. *)
Record NodeID : Type := MkNodeID { node_id : Z }.
Record Watermark : Type := MkWatermark { wm_timestamp : Z }.
Record Epoch : Type := MkEpoch { epoch : Z }.

#[export] Instance NodeID_eq_dec : EqDecision NodeID.
Proof. solve_decision. Defined.
#[export] Instance Watermark_eq_dec : EqDecision Watermark.
Proof. solve_decision. Defined.
#[export] Instance Epoch_eq_dec : EqDecision Epoch.
Proof. solve_decision. Defined.
#[export] Program Instance NodeID_countable : Countable NodeID := inj_countable' node_id MkNodeID _.
Next Obligation. by intros []. Qed.
#[export] Program Instance Watermark_countable : Countable Watermark :=
  inj_countable' wm_timestamp MkWatermark _.
Next Obligation. by intros []. Qed.
#[export] Program Instance Epoch_countable : Countable Epoch := inj_countable' epoch MkEpoch _.
Next Obligation. by intros []. Qed.

Definition Watermark_lt (a b : Watermark) : bool := wm_timestamp a <? wm_timestamp b.
Definition Watermark_le (a b : Watermark) : bool := wm_timestamp a <=? wm_timestamp b.
Definition Epoch_lt (a b : Epoch) : bool := epoch a <? epoch b.

(** [trait ArconType]: a message type with a key and serialisation ids.  [arcon_drop] is what the
    compiler knows of any type. *)
Class ArconType (A : Type) := {
  arcon_value :: Value A;
  arcon_drop :: NeedsDrop A;
  UNSAFE_SER_ID : Z;
  RELIABLE_SER_ID : Z;
  VERSION_ID : Z;
  get_key : A → Z;
}.

(** The crate [serde_json], of whose results the code looks at the success alone. *)
Class FromJson (A : Type) := from_json : bytes → option A.
Class ToJson (A : Type) := to_json : A → option bytes.

(** The uninhabited type of events and timeouts that never occur. *)
Inductive ArconNever : Type := .

Record ArconElement (A : Type) : Type := MkArconElement { data : A; timestamp : option Z }.
Arguments MkArconElement {A}.
Arguments data {A}.
Arguments timestamp {A}.

Definition ArconElement_new {A} (data : A) : ArconElement A := MkArconElement data None.
Definition with_timestamp {A} (data : A) (ts : Z) : ArconElement A := MkArconElement data (Some ts).

Inductive ArconEvent (A : Type) : Type :=
| Element (e : ArconElement A)
| EvWatermark (w : Watermark)
| EvEpoch (e : Epoch)
| Death (msg : string).
Arguments Element {A}.
Arguments EvWatermark {A}.
Arguments EvEpoch {A}.
Arguments Death {A}.

Record ArconEventWrapper (A : Type) : Type := MkWrapper { wrapped : option (ArconEvent A) }.
Arguments MkWrapper {A}.
Arguments wrapped {A}.

Section wrapper.
Context {A E : Type}.
(** [unwrap], [unwrap_ref] and [unwrap_mut] fail the same way. *)
Definition unwrap (w : ArconEventWrapper A) : outcome E (ArconEvent A) :=
  expect "ArconEventWrapper.inner is None. Prost deserialization error?" (wrapped w).
(** [From<ArconEvent>] *)
Definition wrap (inner : ArconEvent A) : ArconEventWrapper A := MkWrapper (Some inner).
Lemma unwrap_wrap e : unwrap (wrap e) = Ok e.
Proof. done. Qed.
End wrapper.

(** The [String] of a death is memory that the event owns. *)
#[export] Instance event_drop {A} `{NeedsDrop A} : NeedsDrop (ArconEvent A) := λ e,
  match e with
  | Element e => needs_drop (data e)
  | EvWatermark _ | EvEpoch _ => false
  | Death _ => true
  end.
#[export] Instance wrapper_drop {A} `{NeedsDrop A} : NeedsDrop (ArconEventWrapper A) := λ w,
  from_option needs_drop false (wrapped w).

(** [RawArconMessage]: the events of a message as a vector. *)
Record RawArconMessage (A : Type) : Type := MkRawArconMessage {
  raw_events : list (ArconEventWrapper A);
  raw_sender : NodeID;
}.
Arguments MkRawArconMessage {A}.
Arguments raw_events {A}.
Arguments raw_sender {A}.

Definition is_element {A} (e : ArconEvent A) : bool :=
  match e with Element _ => true | _ => false end.

(** ** Codes, for storing events and messages in a backend *)

Section codes.
Context {A : Type} `{EqDecision A, !Countable A}.

#[export] Instance ArconElement_eq_dec : EqDecision (ArconElement A).
Proof using EqDecision0. solve_decision. Defined.
#[export] Instance ArconEvent_eq_dec : EqDecision (ArconEvent A).
Proof using EqDecision0. solve_decision. Defined.
#[export] Instance ArconEventWrapper_eq_dec : EqDecision (ArconEventWrapper A).
Proof using EqDecision0. solve_decision. Defined.
#[export] Instance RawArconMessage_eq_dec : EqDecision (RawArconMessage A).
Proof using EqDecision0. solve_decision. Defined.

#[export] Program Instance ArconElement_countable : Countable (ArconElement A) :=
  inj_countable' (λ e, (data e, timestamp e)) (λ p, MkArconElement p.1 p.2) _.
Next Obligation. by intros []. Qed.
#[export] Program Instance ArconEvent_countable : Countable (ArconEvent A) :=
  inj_countable' (λ e, match e with
    | Element e => inl (inl e)
    | EvWatermark w => inl (inr w)
    | EvEpoch e => inr (inl e)
    | Death m => inr (inr m)
    end) (λ s, match s with
    | inl (inl e) => Element e
    | inl (inr w) => EvWatermark w
    | inr (inl e) => EvEpoch e
    | inr (inr m) => Death m
    end) _.
Next Obligation. by intros []. Qed.
#[export] Program Instance ArconEventWrapper_countable : Countable (ArconEventWrapper A) :=
  inj_countable' wrapped MkWrapper _.
Next Obligation. by intros []. Qed.
#[export] Program Instance RawArconMessage_countable : Countable (RawArconMessage A) :=
  inj_countable' (λ m, (raw_events m, raw_sender m)) (λ p, MkRawArconMessage p.1 p.2) _.
Next Obligation. by intros []. Qed.
End codes.
