(* ===== verification/ArconTypes.v ===== *)
(** [arcon/src/data/mod.rs], [data/ser_id.rs]: the primitive types that can be sent through a stream, and
    their keys. *)

From S2P Require Import Prelude Error Serialization StateBackend Data.
From Stdlib Require Import Floats.SpecFloat.

(** ** Hashing

    [Hash] feeds bytes to a hasher.  The standard library leaves the algorithm of [DefaultHasher] open. *)
Class Hash (T : Type) := hash : T → bytes.
Class DefaultHasher := finish : bytes → Z.
Definition calc_hash {T} `{Hash T, DefaultHasher} (t : T) : Z := finish (hash t).

#[export] Instance Hash_uint n : Hash (uint n) := λ x, to_le_bytes n (uint_val x).
#[export] Instance Hash_sint n : Hash (sint n) := λ x, to_le_bytes n (sint_val x).
#[export] Instance Hash_bool : Hash bool := λ b, [if b then 1 else 0].
#[export] Instance Hash_String : Hash string := λ s, as_bytes s ++ [255].

(** ** Floats

    A float is a sign, a mantissa and an exponent.  A cast to [u64] drops the fraction and saturates. *)
Definition as_u64 (x : spec_float) : Z :=
  match x with
  | S754_zero _ | S754_nan => 0
  | S754_infinity s => if s then 0 else u64_max
  | S754_finite true _ _ => 0
  | S754_finite false m e => Z.min u64_max (if 0 <=? e then Zpos m * 2 ^ e else Zpos m / 2 ^ (- e))
  end.
(** [f32::trunc] and [f64::trunc], whose result is representable. *)
Definition trunc (x : spec_float) : spec_float :=
  match x with
  | S754_finite s m e =>
      if 0 <=? e then x
      else match Zpos m / 2 ^ (- e) with
           | Zpos m' => S754_finite s m' 0
           | _ => S754_zero s
           end
  | _ => x
  end.

Record ArconF32 : Type := MkArconF32 { f32_value : spec_float }.
Record ArconF64 : Type := MkArconF64 { f64_value : spec_float }.
Definition ArconF32_new (value : spec_float) : ArconF32 := MkArconF32 value.
Definition ArconF64_new (value : spec_float) : ArconF64 := MkArconF64 value.
(** [PartialEq] *)
Definition ArconF32_eq (a b : ArconF32) : bool := SFeqb (f32_value a) (f32_value b).
Definition ArconF64_eq (a b : ArconF64) : bool := SFeqb (f64_value a) (f64_value b).
Definition hash_float (x : spec_float) : bytes := hash (UInt (as_u64 (trunc x)) : u64).
#[export] Instance Hash_ArconF32 : Hash ArconF32 := λ x, hash_float (f32_value x).
#[export] Instance Hash_ArconF64 : Hash ArconF64 := λ x, hash_float (f64_value x).

Definition NEVER_ID : Z := 49.

(** ** The instances

    The codecs of the primitive types are prost's. *)
Section instances.
Context `{DefaultHasher}.

#[export] Instance u32_ArconType `{Value u32} : ArconType u32 :=
  {| arcon_drop _ := false; UNSAFE_SER_ID := 50; RELIABLE_SER_ID := 51; VERSION_ID := 1; get_key := calc_hash |}.
#[export] Instance u64_ArconType `{Value u64} : ArconType u64 :=
  {| arcon_drop _ := false; UNSAFE_SER_ID := 52; RELIABLE_SER_ID := 53; VERSION_ID := 1; get_key := calc_hash |}.
#[export] Instance i32_ArconType `{Value (sint 4)} : ArconType (sint 4) :=
  {| arcon_drop _ := false; UNSAFE_SER_ID := 54; RELIABLE_SER_ID := 55; VERSION_ID := 1; get_key := calc_hash |}.
#[export] Instance i64_ArconType `{Value (sint 8)} : ArconType (sint 8) :=
  {| arcon_drop _ := false; UNSAFE_SER_ID := 56; RELIABLE_SER_ID := 57; VERSION_ID := 1; get_key := calc_hash |}.
#[export] Instance f32_ArconType `{Value ArconF32} : ArconType ArconF32 :=
  {| arcon_drop _ := false; UNSAFE_SER_ID := 58; RELIABLE_SER_ID := 59; VERSION_ID := 1; get_key := calc_hash |}.
#[export] Instance f64_ArconType `{Value ArconF64} : ArconType ArconF64 :=
  {| arcon_drop _ := false; UNSAFE_SER_ID := 60; RELIABLE_SER_ID := 61; VERSION_ID := 1; get_key := calc_hash |}.
#[export] Instance String_ArconType `{Value string} : ArconType string :=
  {| arcon_drop _ := true; UNSAFE_SER_ID := 62; RELIABLE_SER_ID := 63; VERSION_ID := 1; get_key := calc_hash |}.
#[export] Instance bool_ArconType `{Value bool} : ArconType bool :=
  {| arcon_drop _ := false; UNSAFE_SER_ID := 64; RELIABLE_SER_ID := 65; VERSION_ID := 1; get_key := calc_hash |}.
#[export] Instance never_ArconType `{Value ArconNever} : ArconType ArconNever :=
  {| arcon_drop _ := false; UNSAFE_SER_ID := NEVER_ID; RELIABLE_SER_ID := NEVER_ID; VERSION_ID := 1; get_key _ := 0 |}.
End instances.

(** ** Keys of floats *)

Lemma as_u64_trunc x : as_u64 (trunc x) = as_u64 x.
Proof.
  destruct x as [s|s| |s m e]; cbn [trunc]; [done..|]. destruct (Z.leb_spec 0 e) as [He|He]; [done|].
  assert (0 ≤ Zpos m / 2 ^ (- e)) as Hd by (apply Z.div_pos; lia).
  destruct (Zpos m / 2 ^ (- e)) as [|m'|m'] eqn:E; cbn [as_u64]; [|destruct s; [done|]|lia].
  - destruct s; [done|]. by rewrite (proj2 (Z.leb_gt 0 e)), E by done.
  - rewrite (proj2 (Z.leb_gt 0 e)), E by done. change (0 <=? 0) with true. cbn iota. by rewrite Z.mul_1_r.
Qed.

Section keys.
Context `{DefaultHasher, Value ArconF64}.

(** Floats that are equal have the same key; the key of a float that is not negative is that of its integral
    part; and all the negative floats have the key of zero, since the cast to [u64] saturates. *)
Theorem float_keys :
  (∀ x y, ArconF64_eq x y = true → get_key x = get_key y) ∧
  (∀ m e, get_key (MkArconF64 (S754_finite false m e)) =
    calc_hash (UInt (Z.min u64_max (if 0 <=? e then Zpos m * 2 ^ e else Zpos m / 2 ^ (- e))) : u64)) ∧
  (∀ m e, get_key (MkArconF64 (S754_finite true m e)) = get_key (MkArconF64 (S754_zero false))).
Proof.
  assert (Hk : ∀ x, get_key x = calc_hash (UInt (as_u64 (f64_value x)) : u64)).
  { intros [x]. cbn. unfold calc_hash, hash, Hash_ArconF64, hash_float. cbn. by rewrite as_u64_trunc. }
  split; [|split]; [|intros; by rewrite Hk..]. intros [x] [y] Heq. rewrite !Hk. cbn. do 2 f_equal.
  unfold ArconF64_eq, SFeqb in Heq. cbn in Heq.
  destruct x as [sx|[]| |[] mx ex], y as [sy|[]| |[] my ey]; try done; cbn in Heq |- *;
    (destruct (ex ?= ey) eqn:He; [apply Z.compare_eq in He as ->|done..]).
  destruct (Pos.compare_cont Eq mx my) eqn:Hm; [|done..]. by apply Pos.compare_eq in Hm as ->.
Qed.
End keys.
