(* ===== verification/Channel.v ===== *)
(** [arcon/src/stream/channel]: the strategies that batch outgoing events and send them to the
    channels of downstream components. *)

From S2P Require Import Prelude Error Allocator EventBuffer Pool Serialization StateBackend Data.

(** A channel is the queue of a component: local, or remote through a serialiser. *)
Inductive FlightSerde : Type := Unsafe | Reliable.
Inductive Channel : Type :=
| Local (actor : nat)
| Remote (actor : nat) (serde : FlightSerde).
Definition actor_of (c : Channel) : nat :=
  match c with Local a => a | Remote a _ => a end.

(** The errors of kompact's [tell_serialised], of which the code tells one from the others. *)
Inductive SerError : Type := BufferError (err : string) | OtherSerError.

(** The messages that reached the queue of each actor, in order, with the events they carry. *)
Record Net (A : Type) : Type := MkNet {
  world : World (ArconEventWrapper A);
  sent : list (nat * RawArconMessage A);
}.
Arguments MkNet {A}.
Arguments world {A}.
Arguments sent {A}.

(** kompact: whether serialising a message for a remote actor fails. *)
Class Transport (A : Type) := tell_serialised :
  list (nat * RawArconMessage A) → nat → FlightSerde → RawArconMessage A → option SerError.

Definition PoolInfo : Type := Z * Z.
Definition pool_buffer_size (i : PoolInfo) : Z := i.1.
Definition pool_capacity (i : PoolInfo) : Z := i.2.

Section send.
Context `{BuildProfile, Receivers} {A : Type} `{Transport A}.
Abbreviation Wrapper := (ArconEventWrapper A).

Definition on_world {R} (m : M (World Wrapper) Error R) : M (Net A) Error R :=
  zoom world (λ w n, MkNet w (sent n)) m.
Definition on_heap {R} (m : M (Heap Wrapper) Error R) : M (Net A) Error R := on_world (in_heap m).
Definition deliver (actor : nat) (m : RawArconMessage A) : M (Net A) Error unit :=
  modify (λ n, MkNet (world n) (sent n ++ [(actor, m)])).

(** The events a reader gives access to, recorded when it is handed over. *)
Definition events_of (r : BufferReader) (h : Heap Wrapper) : list Wrapper :=
  match (as_slice r h).1 with Ok l => l | _ => [] end.

(** [send]; a local actor receives the reader itself, a remote one a copy of the events. *)
Definition send (channel : Channel) (events : BufferReader) (sender : NodeID)
  : M (Net A) Error (option SerError) :=
  match channel with
  | Local actor =>
      l ← gets (λ n, events_of events (heap (world n)));
      on_world (hand_over events l) ;;
      deliver actor (MkRawArconMessage l sender) ;;
      mret None
  | Remote actor serde =>
      l ← on_heap (into_vec events);
      on_heap (reader_drop events) ;;
      n ← get_st;
      match tell_serialised (sent n) actor serde (MkRawArconMessage l sender) with
      | Some err => mret (Some err)
      | None => deliver actor (MkRawArconMessage l sender) ;; mret None
      end
  end.
(** [if let Err(SerError::BufferError(err)) = send(..) { panic!(..) }] *)
Definition send_or_panic (channel : Channel) (events : BufferReader) (sender : NodeID)
  : M (Net A) Error unit :=
  r ← send channel events sender;
  match r with
  | Some (BufferError err) => panic ("Buffer Error " +:+ err)
  | _ => mret tt
  end.
End send.

(** The attempts a busy wait is followed for. *)
Class Fuel := fuel : nat.

(** ** Forward ([forward.rs]) *)

Module Forward.
Record Forward : Type := MkForward {
  buffer_pool : BufferPool;
  curr_buffer : BufferWriter;
  channel : Channel;
  sender_id : NodeID;
}.

Section forward.
Context `{BuildProfile, Receivers, SystemAlloc, Fuel} {A : Type} `{Transport A}.
Context (size_of align_of : Z).

Definition new (ch : Channel) (sender : NodeID) (info : PoolInfo) : M (Net A) Error Forward :=
  pool ← on_heap (on_outcome (expect_ok "failed to initialise buffer pool")
    (BufferPool_new size_of align_of (pool_capacity info) (pool_buffer_size info)));
  r ← on_heap (try_get pool);
  w ← lift (expect "failed to fetch initial buffer" r.1);
  mret (MkForward r.2 w ch sender).

Definition flush (s : Forward) : M (Net A) Error Forward :=
  send_or_panic (channel s) (reader (curr_buffer s)) (sender_id s) ;;
  r ← on_world (get fuel (buffer_pool s));
  mret (MkForward r.2 r.1 (channel s) (sender_id s)).

Definition push (s : Forward) (e : ArconEventWrapper A)
  : M (Net A) Error (option (ArconEventWrapper A) * Forward) :=
  r ← on_heap (writer_push (curr_buffer s) e);
  mret (r.1, MkForward (buffer_pool s) r.2 (channel s) (sender_id s)).

Definition add (s : Forward) (event : ArconEvent A) : M (Net A) Error Forward :=
  match event with
  | Element _ =>
      r ← push s (wrap event);
      match r.1 with
      | Some e => s ← flush r.2; r ← push s e; mret r.2
      | None => mret r.2
      end
  | _ =>
      r ← push s (wrap event);
      match r.1 with
      | Some e => s ← flush r.2; r ← push s e; flush r.2
      | None => flush r.2
      end
  end.
End forward.
End Forward.

(** ** RoundRobin ([round_robin.rs]) *)

Module RoundRobin.
Record RoundRobin : Type := MkRoundRobin {
  buffer_pool : BufferPool;
  curr_buffer : BufferWriter;
  channels : list Channel;
  sender_id : NodeID;
  curr_index : Z;
}.

Section round_robin.
Context `{BuildProfile, Receivers, SystemAlloc, Fuel} {A : Type} `{Transport A}.
Context (size_of align_of : Z).

Definition new (chs : list Channel) (sender : NodeID) (info : PoolInfo)
  : M (Net A) Error RoundRobin :=
  if bool_decide (1 < length chs)%nat then
    pool ← on_heap (on_outcome (expect_ok "failed to initialise buffer pool")
      (BufferPool_new size_of align_of (pool_capacity info) (pool_buffer_size info)));
    r ← on_heap (try_get pool);
    w ← lift (expect "failed to fetch initial buffer" r.1);
    mret (MkRoundRobin r.2 w chs sender 0)
  else panic "Number of Channels must exceed 1 for a RoundRobin strategy".

Definition flush (s : RoundRobin) : M (Net A) Error RoundRobin :=
  match channels s !! Z.to_nat (curr_index s) with
  | Some channel =>
      send_or_panic channel (reader (curr_buffer s)) (sender_id s) ;;
      i ← lift (u_add 64 (curr_index s) 1);
      let i := if len (channels s) <=? i then 0 else i in
      r ← on_world (get fuel (buffer_pool s));
      mret (MkRoundRobin r.2 r.1 (channels s) (sender_id s) i)
  | None => panic "Bad channel setup"
  end.

Definition push (s : RoundRobin) (e : ArconEventWrapper A)
  : M (Net A) Error (option (ArconEventWrapper A) * RoundRobin) :=
  r ← on_heap (writer_push (curr_buffer s) e);
  mret (r.1, MkRoundRobin (buffer_pool s) r.2 (channels s) (sender_id s) (curr_index s)).

Definition add (s : RoundRobin) (event : ArconEvent A) : M (Net A) Error RoundRobin :=
  match event with
  | Element _ =>
      r ← push s (wrap event);
      match r.1 with
      | Some e => s ← flush r.2; r ← push s e; mret r.2
      | None => mret r.2
      end
  | _ =>
      r ← push s (wrap event);
      match r.1 with
      | Some e => s ← flush r.2; r ← push s e; flush r.2
      | None => flush r.2
      end
  end.

Definition num_channels (s : RoundRobin) : Z := len (channels s).
End round_robin.
End RoundRobin.

(** ** Broadcast ([broadcast.rs]) *)

Module Broadcast.
Record Broadcast : Type := MkBroadcast {
  buffer_pool : BufferPool;
  channels : list Channel;
  curr_buffer : BufferWriter;
  sender_id : NodeID;
}.

Section broadcast.
Context `{BuildProfile, Receivers, SystemAlloc, Fuel} {A : Type} `{Transport A, NeedsDrop A}.
Context (size_of align_of : Z).

Definition new (chs : list Channel) (sender : NodeID) (info : PoolInfo)
  : M (Net A) Error Broadcast :=
  if bool_decide (1 < length chs)%nat then
    if len chs <? pool_capacity info then
      pool ← on_heap (on_outcome (expect_ok "failed to initialise BufferPool")
        (BufferPool_new size_of align_of (pool_capacity info) (pool_buffer_size info)));
      r ← on_heap (try_get pool);
      w ← lift (expect "failed to fetch initial buffer" r.1);
      mret (MkBroadcast r.2 chs w sender)
    else panic "Strategy must be initialised with a pool capacity larger than amount of channels"
  else panic "Number of Channels must exceed 1 for a Broadcast strategy".

(** The loop of [flush]: every channel but the last gets a copy in a buffer of its own. *)
Fixpoint flush_to (pool : BufferPool) (curr : BufferWriter) (sender : NodeID)
    (chs : list Channel) : M (Net A) Error BufferPool :=
  match chs with
  | [] => mret pool
  | [channel] =>
      send_or_panic channel (reader curr) sender ;;
      mret pool
  | channel :: chs' =>
      r ← on_world (get fuel pool);
      writer ← on_heap (copy_from_writer r.1 curr);
      send_or_panic channel (reader writer) sender ;;
      flush_to r.2 curr sender chs'
  end.
Definition flush (s : Broadcast) : M (Net A) Error Broadcast :=
  pool ← flush_to (buffer_pool s) (curr_buffer s) (sender_id s) (channels s);
  r ← on_world (get fuel pool);
  mret (MkBroadcast r.2 (channels s) r.1 (sender_id s)).

Definition push (s : Broadcast) (e : ArconEventWrapper A)
  : M (Net A) Error (option (ArconEventWrapper A) * Broadcast) :=
  r ← on_heap (writer_push (curr_buffer s) e);
  mret (r.1, MkBroadcast (buffer_pool s) (channels s) r.2 (sender_id s)).

Definition add (s : Broadcast) (event : ArconEvent A) : M (Net A) Error Broadcast :=
  match event with
  | Element _ =>
      r ← push s (wrap event);
      match r.1 with
      | Some e => s ← flush r.2; r ← push s e; mret r.2
      | None => mret r.2
      end
  | _ =>
      r ← push s (wrap event);
      match r.1 with
      | Some e => s ← flush r.2; r ← push s e; flush r.2
      | None => flush r.2
      end
  end.

Definition num_channels (s : Broadcast) : Z := len (channels s).
End broadcast.
End Broadcast.

(** ** KeyBy ([key_by.rs]) *)

Module KeyBy.
(** [buffer_map] is a hash map; its entries are visited in the order of [map_to_list]. *)
Record KeyBy : Type := MkKeyBy {
  buffer_pool : BufferPool;
  max_key : Z;
  key_ranges : Z;
  sender_id : NodeID;
  buffer_map : gmap Z (Channel * BufferWriter);
}.

Section key_by.
Context `{BuildProfile, Receivers, SystemAlloc, Fuel} {A : Type} `{Transport A, ArconType A}.
Context (size_of align_of : Z).

Fixpoint init_buffers (pool : BufferPool) (i : Z) (chs : list Channel)
    (m : gmap Z (Channel * BufferWriter))
  : M (Net A) Error (BufferPool * gmap Z (Channel * BufferWriter)) :=
  match chs with
  | [] => mret (pool, m)
  | channel :: chs' =>
      r ← on_heap (try_get pool);
      w ← lift (expect "failed to fetch initial buffer" r.1);
      init_buffers r.2 (i + 1) chs' (<[i := (channel, w)]> m)
  end.
Definition new (max_key : Z) (chs : list Channel) (sender : NodeID) (info : PoolInfo)
  : M (Net A) Error KeyBy :=
  if len chs <? pool_capacity info then
    pool ← on_heap (on_outcome (expect_ok "failed to initialise BufferPool")
      (BufferPool_new size_of align_of (pool_capacity info) (pool_buffer_size info)));
    r ← init_buffers pool 0 chs ∅;
    mret (MkKeyBy r.1 max_key (len chs) sender r.2)
  else panic "Strategy must be initialised with a pool capacity larger than amount of channels".

Definition set_buffer (s : KeyBy) (pool : BufferPool) (i : Z) (cw : Channel * BufferWriter)
  : KeyBy :=
  MkKeyBy pool (max_key s) (key_ranges s) (sender_id s) (<[i := cw]> (buffer_map s)).

Definition flush_buffer (sender : NodeID) (pool : BufferPool) (channel : Channel)
    (writer : BufferWriter) : M (Net A) Error (BufferWriter * BufferPool) :=
  send_or_panic channel (reader writer) sender ;;
  on_world (get fuel pool).

(** One entry of the map is flushed, or receives an event. *)
Definition flush_entry (i : Z) (s : KeyBy) : M (Net A) Error KeyBy :=
  match buffer_map s !! i with
  | Some (channel, writer) =>
      r ← flush_buffer (sender_id s) (buffer_pool s) channel writer;
      mret (set_buffer s r.2 i (channel, r.1))
  | None => mret s
  end.
Definition push_entry (i : Z) (channel : Channel) (writer : BufferWriter)
    (event : ArconEventWrapper A) (s : KeyBy) : M (Net A) Error KeyBy :=
  r ← on_heap (writer_push writer event);
  match r.1 with
  | Some e =>
      r ← flush_buffer (sender_id s) (buffer_pool s) channel r.2;
      r' ← on_heap (writer_push r.1 e);
      mret (set_buffer s r.2 i (channel, r'.2))
  | None => mret (set_buffer s (buffer_pool s) i (channel, r.2))
  end.

(** [for (_, (chan, buffer)) in self.buffer_map.iter_mut()] *)
Fixpoint for_entries (f : Z → KeyBy → M (Net A) Error KeyBy) (keys : list Z) (s : KeyBy)
  : M (Net A) Error KeyBy :=
  match keys with
  | [] => mret s
  | i :: keys' => s ← f i s; for_entries f keys' s
  end.
Definition flush (s : KeyBy) : M (Net A) Error KeyBy :=
  for_entries flush_entry (map_to_list (buffer_map s)).*1 s.

(** The key range that is responsible for a key. *)
Definition placement (s : KeyBy) (key : Z) : outcome Error Z :=
  key ← u_rem key (max_key s);
  prod ← u_mul 64 key (key_ranges s);
  u_div prod (max_key s).

Definition add (s : KeyBy) (event : ArconEvent A) : M (Net A) Error KeyBy :=
  match event with
  | Element element =>
      index ← lift (placement s (get_key (data element)));
      match buffer_map s !! index with
      | Some (channel, writer) => push_entry index channel writer (wrap event) s
      | None => panic "Bad KeyBy setup"
      end
  | _ =>
      s ← for_entries (λ i s,
        match buffer_map s !! i with
        | Some (channel, writer) => push_entry i channel writer (wrap event) s
        | None => mret s
        end) (map_to_list (buffer_map s)).*1 s;
      flush s
  end.

Definition num_channels (s : KeyBy) : Z := Z.of_nat (size (buffer_map s)).
End key_by.
End KeyBy.

(** ** The strategies together ([strategy/mod.rs]) *)

Inductive ChannelStrategy : Type :=
| StForward (s : Forward.Forward)
| StBroadcast (s : Broadcast.Broadcast)
| StKeyBy (s : KeyBy.KeyBy)
| StRoundRobin (s : RoundRobin.RoundRobin)
| Mute.

Section strategy.
Context `{BuildProfile, Receivers, Fuel} {A : Type} `{Transport A, ArconType A}.

Definition strategy_add (s : ChannelStrategy) (event : ArconEvent A)
  : M (Net A) Error ChannelStrategy :=
  match s with
  | StForward s => StForward <$> Forward.add s event
  | StBroadcast s => StBroadcast <$> Broadcast.add s event
  | StKeyBy s => StKeyBy <$> KeyBy.add s event
  | StRoundRobin s => StRoundRobin <$> RoundRobin.add s event
  | Mute => mret Mute
  end.
Definition strategy_flush (s : ChannelStrategy) : M (Net A) Error ChannelStrategy :=
  match s with
  | StForward s => StForward <$> Forward.flush s
  | StBroadcast s => StBroadcast <$> Broadcast.flush s
  | StKeyBy s => StKeyBy <$> KeyBy.flush s
  | StRoundRobin s => StRoundRobin <$> RoundRobin.flush s
  | Mute => mret Mute
  end.
Definition strategy_num_channels (s : ChannelStrategy) : Z :=
  match s with
  | StForward _ => 1
  | StBroadcast s => Broadcast.num_channels s
  | StKeyBy s => KeyBy.num_channels s
  | StRoundRobin s => RoundRobin.num_channels s
  | Mute => 0
  end.
End strategy.
