(* ===== verification/ChannelSpec.v ===== *)
(** What the channel strategies promise, as a pure function that cuts a sequence of events into
    batches, and the proof that each strategy implements it over the recycled buffers. *)

From S2P Require Import Prelude Error Allocator EventBuffer Pool Serialization StateBackend Data Channel.

(** ** The specification *)

Section spec.
Context {A : Type}.
Abbreviation Wrapper := (ArconEventWrapper A).
Implicit Types (bs : list (list Wrapper)) (c : list Wrapper) (e : ArconEvent A).

(** The batches sent so far and the events waiting.  An event that finds the buffer full starts a
    new batch; a watermark, an epoch or a death closes the batch it is in. *)
Definition spec_add (size : Z) (st : list (list Wrapper) * list Wrapper) e
  : list (list Wrapper) * list Wrapper :=
  let '(bs, c) := st in
  let '(bs, c) := if len c <? size then (bs, c ++ [wrap e]) else (bs ++ [c], [wrap e]) in
  if is_element e then (bs, c) else (bs ++ [c], []).
Definition spec_run (size : Z) (es : list (ArconEvent A)) : list (list Wrapper) * list Wrapper :=
  foldl (spec_add size) ([], []) es.

(** Only the last event of a batch may be a watermark, an epoch or a death. *)
Definition wrapped_element (w : Wrapper) : bool :=
  match wrapped w with Some e => is_element e | None => false end.
Definition batch_ok (size : Z) c : Prop :=
  0 < len c ≤ size ∧
  ∃ c' w, c = c' ++ [w] ∧ Forall (λ w, wrapped_element w = true) c'.
Definition pending_ok (size : Z) c : Prop :=
  len c ≤ size ∧ Forall (λ w, wrapped_element w = true) c.

Lemma pending_batch size c w :
  pending_ok size c → len c + 1 ≤ size → batch_ok size (c ++ [w]).
Proof.
  intros [Hl Hall] Hs. split; [rewrite length_app; cbn; lia|]. by exists c, w.
Qed.
Lemma full_batch size c : 0 < size → pending_ok size c → size ≤ len c → batch_ok size c.
Proof.
  intros Hs [Hl Hall] Hge. split; [lia|].
  destruct (exists_last (l:=c)) as (c' & w & ->); [intros ->; cbn in Hge; lia|].
  exists c', w. split; [done|]. by apply Forall_app in Hall as [? _].
Qed.

Lemma spec_add_ok size bs c e :
  0 < size → Forall (batch_ok size) bs → pending_ok size c →
  let '(bs', c') := spec_add size (bs, c) e in
  mjoin bs' ++ c' = mjoin bs ++ c ++ [wrap e] ∧
  Forall (batch_ok size) bs' ∧ pending_ok size c' ∧ (is_element e = false → c' = []).
Proof.
  intros Hs Hbs Hc. unfold spec_add. destruct (Z.ltb_spec (len c) size) as [Hlt|Hge].
  - destruct (is_element e) eqn:He.
    + split; [done|]. split; [done|]. split; [|done]. destruct Hc. split.
      * rewrite length_app. cbn. lia.
      * apply Forall_app. split; [done|]. by constructor.
    + rewrite join_app. cbn. rewrite !app_nil_r. split; [done|].
      split; [|split; [by split; [cbn; lia|]|done]].
      apply Forall_app. split; [done|]. constructor; [|done]. apply pending_batch; [done|lia].
  - pose proof (full_batch size c Hs Hc Hge) as Hfull. destruct (is_element e) eqn:He.
    + rewrite join_app. cbn. rewrite app_nil_r, <- (assoc_L (++)). split; [done|].
      split; [apply Forall_app; split; [done|]; by constructor|]. split; [|done].
      split; [cbn; lia|]. by constructor.
    + rewrite !join_app. cbn. rewrite !app_nil_r, <- (assoc_L (++)). split; [done|].
      split; [|split; [by split; [cbn; lia|]|done]]. rewrite !Forall_app. split; [split|]; [done|by constructor|].
      constructor; [|done]. split; [cbn; lia|]. by exists [], (wrap e).
Qed.

Lemma spec_run_snoc size es e : spec_run size (es ++ [e]) = spec_add size (spec_run size es) e.
Proof. unfold spec_run. by rewrite foldl_app. Qed.

Lemma spec_run_ok size es :
  0 < size →
  let '(bs, c) := spec_run size es in
  mjoin bs ++ c = wrap <$> es ∧ Forall (batch_ok size) bs ∧ pending_ok size c.
Proof.
  intros Hs. induction es as [|e es IH] using rev_ind.
  - cbn. split; [done|]. split; [done|]. split; [cbn; lia|done].
  - rewrite spec_run_snoc. destruct (spec_run size es) as [bs c]. destruct IH as (Hj & Hb & Hc).
    pose proof (spec_add_ok size bs c e Hs Hb Hc) as Hadd. destruct (spec_add size (bs, c) e) as [bs' c'].
    destruct Hadd as (Hj' & Hb' & Hc' & _). split; [|done].
    by rewrite Hj', (assoc_L (++)), Hj, fmap_app.
Qed.
End spec.

(** Joining the messages of the batches. *)
Lemma join_imap_single {X Y} (f : X → Y) (l : list X) : mjoin (imap (λ _ x, [f x]) l) = f <$> l.
Proof. induction l as [|x l IH]; cbn; [done|]. by rewrite <- IH. Qed.
Lemma imap_const {X Y} (f : X → Y) (l : list X) : imap (λ _ x, f x) l = f <$> l.
Proof. induction l as [|x l IH]; cbn; [done|]. by rewrite <- IH. Qed.
Lemma length_join_imap {X Y} (f : nat → X → list Y) (l : list X) :
  (∀ k x, length (f k x) = 1%nat) → length (mjoin (imap f l)) = length l.
Proof.
  revert f. induction l as [|x l IH]; intros f Hf; cbn; [done|].
  by rewrite length_app, Hf, IH by (intros; apply Hf).
Qed.
Lemma lookup_join_imap {X Y} (f : nat → X → list Y) (l : list X) k x y :
  (∀ k x, length (f k x) = 1%nat) → l !! k = Some x → f k x = [y] →
  mjoin (imap f l) !! k = Some y.
Proof.
  revert f k. induction l as [|x' l IH]; intros f k Hf Hk He; [done|]. cbn.
  destruct k as [|k]; cbn in Hk; simplify_eq.
  - by rewrite He.
  - specialize (Hf 0%nat x') as H0. destruct (f 0%nat x') as [|y' [|]]; try done. cbn.
    apply (IH (f ∘ S)); [intros; apply Hf|done|done].
Qed.

(** ** Sending and refilling *)

Section net.
Context `{profile : BuildProfile, Receivers, Fuel} {A : Type} `{Transport A}.
Abbreviation Wrapper := (ArconEventWrapper A).
Implicit Types (p : BufferPool) (n : Net A) (held : list (nat * list Wrapper)) (c : list Wrapper).

(** Receivers keep up, the busy wait is followed long enough, and serialisation succeeds. *)
Context (D : nat) (Hfair : fair D) (Hser : ∀ l a s (m : RawArconMessage A), tell_serialised l a s m = None).

Definition net_inv p held n : Prop :=
  world_inv p held (world n) ∧ (D + length (bp_buffers p) ≤ fuel)%nat.

Lemma events_of_ok p b c held n :
  net_inv p ((b, c) :: held) n → events_of (MkBufferReader b (len c)) (heap (world n)) = c.
Proof using Type.
  intros [[Hinv _] _]. unfold events_of. by erewrite as_slice_ok by exact Hinv.
Qed.

(** Sending what a writer holds gives the buffer away and delivers the events. *)
Lemma send_ok p b c held n ch sender :
  net_inv p ((b, c) :: held) n →
  ∃ n', send_or_panic ch (MkBufferReader b (len c)) sender n = (Ok tt, n') ∧
    net_inv p held n' ∧ sent n' = sent n ++ [(actor_of ch, MkRawArconMessage c sender)].
Proof using Hser.
  intros Hn. pose proof (events_of_ok _ _ _ _ _ Hn) as Hev. destruct Hn as [[Hinv Hlen] Hfuel].
  destruct ch as [a|a serde]; unfold send_or_panic, send, mbind, M_bind.
  - unfold gets. rewrite Hev. unfold on_world, zoom, hand_over, deliver, modify, mret, M_ret.
    eexists. split; [done|]. split; [|done]. split; [|done]. split; cbn.
    + eapply pool_inv_proper; [|done|exact Hinv]. unfold flying. rewrite fmap_app. cbn.
      rewrite (assoc_L (++)). symmetry. apply Permutation_cons_append.
    + apply Forall_app. split; [done|]. by constructor.
  - unfold on_heap, on_world, in_heap, into_vec, reader_drop, get_st, zoom.
    rewrite (as_slice_ok _ _ _ _ _ Hinv). cbn [world heap].
    destruct (release_ok _ _ _ _ _ Hinv) as (h' & Hr & Hinv'). cbn [r_buffer]. rewrite Hr.
    rewrite Hser. unfold deliver, modify, mret, M_ret. eexists. split; [done|].
    split; [|done]. split; [|done]. by split.
Qed.

Lemma net_push_ok p b c held n sz v :
  net_inv p ((b, c) :: held) n →
  ∃ r c' n', on_heap (writer_push (MkBufferWriter b (len c) sz) v) n =
      (Ok (r, MkBufferWriter b (len c') sz), n') ∧
    net_inv p ((b, c') :: held) n' ∧ sent n' = sent n ∧
    if decide (len c < bp_buffer_size p) then r = None ∧ c' = c ++ [v]
    else r = Some v ∧ c' = c ∧ len c = bp_buffer_size p.
Proof using Type.
  intros [[Hinv Hlen] Hfuel].
  destruct (writer_push_ok p b c _ (heap (world n)) v sz Hinv) as (r & c' & h' & Hp & Hinv' & Hr).
  exists r, c', (MkNet (MkWorld h' (in_flight (world n)) (now (world n))) (sent n)).
  unfold on_heap, on_world, in_heap, zoom. rewrite Hp. split; [done|]. split; [done|]. split; [done|].
  case_decide; [done|]. by destruct Hr as (? & ? & ? & ?).
Qed.

Lemma net_get_ok p held n :
  net_inv p held n → (length held < length (bp_buffers p))%nat →
  ∃ b p' n', on_world (get fuel p) n = (Ok (MkBufferWriter b 0 (bp_buffer_size p), p'), n') ∧
    net_inv p' ((b, []) :: held) n' ∧ sent n' = sent n ∧
    bp_buffer_size p' = bp_buffer_size p ∧ bp_buffers p' = bp_buffers p.
Proof using Hfair.
  intros [Hinv Hfuel] Hlt.
  destruct (get_ok D p held (world n) fuel Hfair Hinv Hlt Hfuel)
    as (b & p' & w' & Hg & Hs & Hb & Hw & _).
  exists b, p', (MkNet w' (sent n)). unfold on_world, zoom. rewrite Hg.
  split; [done|]. split; [|done]. split; [done|]. by rewrite Hb.
Qed.
End net.

(** ** Strategies with one buffer

    [Forward], [RoundRobin] and [Broadcast] add an event the same way, over a push and a flush of
    their own.  The [k]-th flush sends the buffer's events as the messages [emit k]; the events are
    those a strategy [admits]. *)
Section batching.
Context {A S : Type}.
Abbreviation Wrapper := (ArconEventWrapper A).
Context (push : S → Wrapper → M (Net A) Error (option Wrapper * S)).
Context (flush : S → M (Net A) Error S).

Definition batch_add (s : S) (event : ArconEvent A) : M (Net A) Error S :=
  match event with
  | Element _ =>
      r ← push s (wrap event);
      match r.1 with
      | Some e => s ← flush r.2; r ← push s e; mret r.2
      | None => mret r.2
      end
  | _ =>
      r ← push s (wrap event);
      match r.1 with
      | Some e => s ← flush r.2; r ← push s e; flush r.2
      | None => flush r.2
      end
  end.
Fixpoint add_all (add : S → ArconEvent A → M (Net A) Error S) (s : S) (es : list (ArconEvent A))
  : M (Net A) Error S :=
  match es with
  | [] => mret s
  | e :: es' => s ← add s e; add_all add s es'
  end.

Context (size : Z) (Hsize : 0 < size).
Context (emit : nat → list Wrapper → list (nat * RawArconMessage A)).
(** [Inv s n k c]: after [k] flushes the buffer of [s] holds [c]. *)
Context (Inv : S → Net A → nat → list Wrapper → Prop).
Context (admits : Wrapper → Prop).
Context (push_ok : ∀ s n k c v, admits v → Inv s n k c → ∃ r s' c' n', push s v n = (Ok (r, s'), n') ∧
  Inv s' n' k c' ∧ sent n' = sent n ∧
  if decide (len c < size) then r = None ∧ c' = c ++ [v] else r = Some v ∧ c' = c ∧ len c = size).
Context (flush_ok : ∀ s n k c, Inv s n k c → ∃ s' n', flush s n = (Ok s', n') ∧
  Inv s' n' (Datatypes.S k) [] ∧ sent n' = sent n ++ emit k c).

(** What the batches [bs], the first of which is the [k]-th, amount to on the wire. *)
Definition emitted (k : nat) (bs : list (list Wrapper)) : list (nat * RawArconMessage A) :=
  mjoin (imap (λ i c, emit (k + i)%nat c) bs).

Lemma emitted_app k bs bs' :
  emitted k (bs ++ bs') = emitted k bs ++ emitted (k + length bs) bs'.
Proof using Type.
  unfold emitted. rewrite imap_app, join_app. f_equal. f_equal. apply imap_ext.
  intros i x _. cbn. f_equal. lia.
Qed.
Lemma emitted_one k c : emitted k [c] = emit k c.
Proof using Type. unfold emitted. cbn. by rewrite Nat.add_0_r, app_nil_r. Qed.

(** One event, as the specification has it. *)
Lemma batch_add_ok s n bs c e :
  admits (wrap e) → Inv s n (length bs) c →
  ∃ s' n', batch_add s e n = (Ok s', n') ∧
    let '(bs', c') := spec_add size (bs, c) e in
    Inv s' n' (length bs') c' ∧
    ∃ new, bs' = bs ++ new ∧ sent n' = sent n ++ emitted (length bs) new.
Proof using push_ok flush_ok Hsize.
  intros Hadm Hinv. destruct (push_ok s n (length bs) c (wrap e) Hadm Hinv)
    as (r & s1 & c1 & n1 & E1 & I1 & S1 & H1).
  assert (Hone : ∀ (bs : list (list Wrapper)) c, length (bs ++ [c]) = Datatypes.S (length bs)).
  { intros. rewrite length_app. cbn. lia. }
  unfold spec_add. case_decide as Hlt.
  - destruct H1 as [-> ->]. rewrite (proj2 (Z.ltb_lt _ _)) by done.
    destruct (is_element e) eqn:He.
    + exists s1, n1. destruct e; try done. cbn [batch_add]. step_ok E1. split; [done|].
      split; [done|]. exists []. by rewrite !app_nil_r.
    + destruct (flush_ok s1 n1 _ _ I1) as (s2 & n2 & E2 & I2 & S2).
      exists s2, n2. split; [destruct e; try done; cbn [batch_add]; by step_ok E1|].
      rewrite Hone. split; [done|]. eexists. split; [done|]. by rewrite emitted_one, S2, S1.
  - destruct H1 as (-> & -> & Hfull). rewrite (proj2 (Z.ltb_ge _ _)) by lia.
    destruct (flush_ok s1 n1 _ _ I1) as (s2 & n2 & E2 & I2 & S2).
    destruct (push_ok s2 n2 _ [] (wrap e) Hadm I2) as (r & s3 & c3 & n3 & E3 & I3 & S3 & H3).
    rewrite decide_True in H3 by done. destruct H3 as [-> ->]. cbn [app] in *.
    destruct (is_element e) eqn:He.
    + exists s3, n3. destruct e; try done. cbn [batch_add]. step_ok E1. cbn [fst snd].
      step_ok E2. step_ok E3. split; [done|]. rewrite Hone. split; [done|].
      exists [c]. split; [done|]. by rewrite emitted_one, S3, S2, S1.
    + destruct (flush_ok s3 n3 _ _ I3) as (s4 & n4 & E4 & I4 & S4).
      exists s4, n4. split.
      { destruct e; try done; cbn [batch_add]; step_ok E1; cbn [fst snd]; step_ok E2; by step_ok E3. }
      rewrite !Hone. split; [done|]. exists ([c] ++ [[wrap e]]). split; [by rewrite (assoc_L (++))|].
      rewrite emitted_app, !emitted_one, S4, S3, S2, S1. cbn [length].
      by rewrite Nat.add_1_r, (assoc_L (++)).
Qed.

(** Any number of events. *)
Lemma add_all_ok s n es bs c :
  Forall (λ e, admits (wrap e)) es → Inv s n (length bs) c →
  ∃ s' n', add_all batch_add s es n = (Ok s', n') ∧
    let '(bs', c') := foldl (spec_add size) (bs, c) es in
    Inv s' n' (length bs') c' ∧
    ∃ new, bs' = bs ++ new ∧ sent n' = sent n ++ emitted (length bs) new.
Proof using push_ok flush_ok Hsize.
  revert s n bs c. induction es as [|e es IH]; intros s n bs c Hadm Hinv.
  - exists s, n. split; [done|]. split; [done|]. exists []. by rewrite !app_nil_r.
  - apply Forall_cons in Hadm as [Hadm Hadms]. destruct (batch_add_ok s n bs c e Hadm Hinv) as (s1 & n1 & E1 & H1).
    cbn [add_all foldl]. destruct (spec_add size (bs, c) e) as [bs1 c1].
    destruct H1 as (I1 & new1 & -> & S1).
    destruct (IH s1 n1 _ _ Hadms I1) as (s2 & n2 & E2 & H2).
    exists s2, n2. step_ok E1. split; [done|].
    destruct (foldl (spec_add size) (bs ++ new1, c1) es) as [bs2 c2].
    destruct H2 as (I2 & new2 & -> & S2). split; [done|]. exists (new1 ++ new2).
    by rewrite emitted_app, S2, S1, !(assoc_L (++)), length_app.
Qed.
End batching.

(** ** The three strategies *)

Section strategies.
Context `{profile : BuildProfile, Receivers, Fuel, SystemAlloc} {A : Type} `{Transport A}.
Abbreviation Wrapper := (ArconEventWrapper A).
Context (D : nat) (Hfair : fair D).
Context (Hser : ∀ l a s (m : RawArconMessage A), tell_serialised l a s m = None).
Context (size : Z) (Hsize : 0 < size).

(** The buffer of a strategy: the pool, the writer and the events it holds. *)
Definition buffer_inv (p : BufferPool) (w : BufferWriter) (n : Net A) (c : list Wrapper) : Prop :=
  w = MkBufferWriter (w_buffer w) (len c) (w_capacity w) ∧
  net_inv D p [(w_buffer w, c)] n ∧ bp_buffer_size p = size.

Lemma buffer_push_ok p w n c v :
  buffer_inv p w n c → ∃ r w' c' n', on_heap (writer_push w v) n = (Ok (r, w'), n') ∧
    buffer_inv p w' n' c' ∧ sent n' = sent n ∧
    if decide (len c < size) then r = None ∧ c' = c ++ [v] else r = Some v ∧ c' = c ∧ len c = size.
Proof using Hsize.
  destruct w as [b l sz]. intros (Hw & Hn & <-). cbn in Hw, Hn. injection Hw as ->.
  destruct (net_push_ok D p b c [] n sz v Hn) as (r & c' & n' & E1 & I1 & S1 & R1).
  exists r, (MkBufferWriter b (len c') sz), c', n'.
  split; [exact E1|]. split; [by split|]. done.
Qed.

Lemma buffer_refill_ok p n :
  net_inv D p [] n → bp_buffer_size p = size → (0 < length (bp_buffers p))%nat →
  ∃ w p' n', on_world (get fuel p) n = (Ok (w, p'), n') ∧ buffer_inv p' w n' [] ∧ sent n' = sent n ∧
    bp_buffers p' = bp_buffers p.
Proof using Hfair.
  intros Hn Hs Hb. destruct (net_get_ok D Hfair p [] n Hn) as (b & p' & n' & E1 & I1 & S1 & Hs1 & Hb1);
    [done|]. eexists _, p', n'. split; [exact E1|]. split; [|done].
  split; [done|]. split; [exact I1|congruence].
Qed.

Lemma buffer_new_ok size_of align_of cap mem t p h' w p' h'' :
  0 < cap < usize_max → size < usize_max → (D + Z.to_nat cap ≤ fuel)%nat →
  BufferPool_new size_of align_of cap size (MkHeap mem []) = (Ok p, h') →
  try_get p h' = (Ok (Some w, p'), h'') →
  buffer_inv p' w (MkNet (MkWorld h'' [] t) []) [] ∧ len (bp_buffers p') = cap.
Proof using Hsize.
  clear Hfair Hser. intros Hc Hs Hfuel Hp Ht.
  destruct (BufferPool_new_inv (T:=Wrapper) size_of align_of cap size (MkHeap mem []) p h' Hc)
    as (Hinv & Hsz & Hcap); [lia|exact Hp|].
  pose proof (try_get_ok _ _ _ Hinv) as Htry. rewrite decide_False in Htry by set_solver.
  destruct Htry as (h1 & E1 & I1). rewrite E1 in Ht. simplify_eq.
  destruct Hinv as [_ [Hlen _] _ _ _ _ _].
  split; [|cbn; lia]. split; [done|]. split; [|done]. split; [by split|]. cbn. lia.
Qed.

(** *** Forward *)

Definition forward_inv (ch : Channel) (sender : NodeID) (s : Forward.Forward) (n : Net A)
    (k : nat) (c : list Wrapper) : Prop :=
  Forward.channel s = ch ∧ Forward.sender_id s = sender ∧
  (0 < length (bp_buffers (Forward.buffer_pool s)))%nat ∧
  buffer_inv (Forward.buffer_pool s) (Forward.curr_buffer s) n c.
Definition forward_emit (ch : Channel) (sender : NodeID) (k : nat) (c : list Wrapper)
  : list (nat * RawArconMessage A) := [(actor_of ch, MkRawArconMessage c sender)].

Lemma forward_push_ok ch sender s n k c v :
  forward_inv ch sender s n k c → ∃ r s' c' n', Forward.push s v n = (Ok (r, s'), n') ∧
    forward_inv ch sender s' n' k c' ∧ sent n' = sent n ∧
    if decide (len c < size) then r = None ∧ c' = c ++ [v] else r = Some v ∧ c' = c ∧ len c = size.
Proof using Hsize.
  intros (<- & <- & Hb & Hbuf).
  destruct (buffer_push_ok _ _ _ _ v Hbuf) as (r & w' & c' & n' & E1 & I1 & R1).
  eexists r, _, c', n'. unfold Forward.push. step_ok E1. split; [done|]. done.
Qed.
Lemma forward_flush_ok ch sender s n k c :
  forward_inv ch sender s n k c → ∃ s' n', Forward.flush s n = (Ok s', n') ∧
    forward_inv ch sender s' n' (S k) [] ∧ sent n' = sent n ++ forward_emit ch sender k c.
Proof using Hfair Hser.
  intros (<- & <- & Hb & Hw & Hn & Hs). unfold Forward.flush, reader.
  rewrite Hw. cbn [w_buffer w_len].
  destruct (send_ok D Hser _ _ _ [] n (Forward.channel s) (Forward.sender_id s) Hn) as (n1 & E1 & I1 & S1).
  step_ok E1.
  destruct (buffer_refill_ok _ _ I1 Hs Hb) as (w & p & n2 & E2 & I2 & S2 & B2).
  step_ok E2. eexists _, n2. split; [done|]. split; [|by rewrite S2, S1].
  split; [done|]. split; [done|]. split; [by cbn; rewrite B2|done].
Qed.

(** *** RoundRobin *)

Definition round_robin_inv (chs : list Channel) (sender : NodeID) (s : RoundRobin.RoundRobin)
    (n : Net A) (k : nat) (c : list Wrapper) : Prop :=
  RoundRobin.channels s = chs ∧ RoundRobin.sender_id s = sender ∧
  RoundRobin.curr_index s = Z.of_nat k mod len chs ∧
  (0 < length (bp_buffers (RoundRobin.buffer_pool s)))%nat ∧
  buffer_inv (RoundRobin.buffer_pool s) (RoundRobin.curr_buffer s) n c.
Definition round_robin_emit (chs : list Channel) (sender : NodeID) (k : nat) (c : list Wrapper)
  : list (nat * RawArconMessage A) :=
  match chs !! Z.to_nat (Z.of_nat k mod len chs) with
  | Some ch => [(actor_of ch, MkRawArconMessage c sender)]
  | None => []
  end.

Lemma round_robin_push_ok chs sender s n k c v :
  round_robin_inv chs sender s n k c → ∃ r s' c' n', RoundRobin.push s v n = (Ok (r, s'), n') ∧
    round_robin_inv chs sender s' n' k c' ∧ sent n' = sent n ∧
    if decide (len c < size) then r = None ∧ c' = c ++ [v] else r = Some v ∧ c' = c ∧ len c = size.
Proof using Hsize.
  intros (<- & <- & Hi & Hb & Hbuf).
  destruct (buffer_push_ok _ _ _ _ v Hbuf) as (r & w' & c' & n' & E1 & I1 & R1).
  eexists r, _, c', n'. unfold RoundRobin.push. step_ok E1. split; [done|]. done.
Qed.
Lemma round_robin_flush_ok chs sender s n k c :
  0 < len chs < usize_max →
  round_robin_inv chs sender s n k c → ∃ s' n', RoundRobin.flush s n = (Ok s', n') ∧
    round_robin_inv chs sender s' n' (S k) [] ∧ sent n' = sent n ++ round_robin_emit chs sender k c.
Proof using Hfair Hser.
  intros Hchs (<- & <- & Hi & Hb & Hw & Hn & Hs). unfold RoundRobin.flush, reader, round_robin_emit.
  pose proof (Z.mod_pos_bound (Z.of_nat k) (len (RoundRobin.channels s)) ltac:(lia)) as Hmod.
  rewrite Hi. destruct (RoundRobin.channels s !! _) as [ch|] eqn:Hch.
  2:{ apply lookup_ge_None in Hch. lia. }
  rewrite Hw. cbn [w_buffer w_len].
  destruct (send_ok D Hser _ _ _ [] n ch (RoundRobin.sender_id s) Hn) as (n1 & E1 & I1 & S1).
  step_ok E1. unfold mbind at 1, M_bind at 1, lift.
  rewrite u_add_ok by (unfold in_u, usize_max in *; lia).
  destruct (buffer_refill_ok _ _ I1 Hs Hb) as (w & p & n2 & E2 & I2 & S2 & B2).
  step_ok E2. eexists _, n2. split; [done|]. split; [|by rewrite S2, S1].
  split; [done|]. split; [done|]. split; [|split; [by cbn; rewrite B2|done]]. cbn.
  rewrite Nat2Z.inj_succ, <- Z.add_1_r, <- Zplus_mod_idemp_l.
  destruct (Z.leb_spec (len (RoundRobin.channels s)) (Z.of_nat k mod len (RoundRobin.channels s) + 1)).
  - replace (Z.of_nat k mod len (RoundRobin.channels s) + 1) with (len (RoundRobin.channels s)) by lia.
    by rewrite Z_mod_same_full.
  - by rewrite (Z.mod_small (_ + 1)) by lia.
Qed.

(** *** Broadcast

    The events are copied for all channels but one, so they must own no memory. *)
Section broadcast.
Context `{NeedsDrop A}.

Definition broadcast_inv (chs : list Channel) (sender : NodeID) (s : Broadcast.Broadcast)
    (n : Net A) (k : nat) (c : list Wrapper) : Prop :=
  Broadcast.channels s = chs ∧ Broadcast.sender_id s = sender ∧
  (1 < length (bp_buffers (Broadcast.buffer_pool s)))%nat ∧
  buffer_inv (Broadcast.buffer_pool s) (Broadcast.curr_buffer s) n c.
Definition broadcast_emit (chs : list Channel) (sender : NodeID) (k : nat) (c : list Wrapper)
  : list (nat * RawArconMessage A) := (λ ch, (actor_of ch, MkRawArconMessage c sender)) <$> chs.

Lemma broadcast_push_ok chs sender s n k c v :
  broadcast_inv chs sender s n k c → ∃ r s' c' n', Broadcast.push s v n = (Ok (r, s'), n') ∧
    broadcast_inv chs sender s' n' k c' ∧ sent n' = sent n ∧
    if decide (len c < size) then r = None ∧ c' = c ++ [v] else r = Some v ∧ c' = c ∧ len c = size.
Proof using Hsize.
  intros (<- & <- & Hb & Hbuf).
  destruct (buffer_push_ok _ _ _ _ v Hbuf) as (r & w' & c' & n' & E1 & I1 & R1).
  eexists r, _, c', n'. unfold Broadcast.push. step_ok E1. split; [done|]. done.
Qed.
Lemma panics_bind {X Y} (m : M (Net A) Error X) (f : X → M (Net A) Error Y) n msg :
  (m n).1 = Panic msg → ((x ← m; f x) n).1 = Panic msg.
Proof. intros Hm. unfold mbind, M_bind. destruct (m n) as [o n']. cbn in Hm. by rewrite Hm. Qed.

(** What the loop does about one channel that is not the last. *)
Lemma flush_to_copy p b c sz sender ch chs n :
  net_inv D p [(b, c)] n → (1 < length (bp_buffers p))%nat → chs ≠ [] →
  if existsb needs_drop c
  then (Broadcast.flush_to p (MkBufferWriter b (len c) sz) sender (ch :: chs) n).1 =
    Panic "undefined behaviour: two owners of the memory of an event"
  else ∃ p' n', Broadcast.flush_to p (MkBufferWriter b (len c) sz) sender (ch :: chs) n =
      Broadcast.flush_to p' (MkBufferWriter b (len c) sz) sender chs n' ∧
    net_inv D p' [(b, c)] n' ∧ sent n' = sent n ++ [(actor_of ch, MkRawArconMessage c sender)] ∧
    bp_buffer_size p' = bp_buffer_size p ∧ bp_buffers p' = bp_buffers p.
Proof using Hfair Hser.
  intros Hn Hb Hne. destruct (net_get_ok D Hfair p [(b, c)] n Hn) as (b2 & p2 & n2 & E2 & I2 & S2 & Hs2 & Hb2);
    [done|]. destruct I2 as [[Hinv2 Hfl2] Hfuel2].
  pose proof (copy_from_writer_ok p2 _ _ b2 [] b c (bp_buffer_size p) sz Hinv2) as Hcopy. cbv zeta in Hcopy.
  change (len []) with 0 in Hcopy. destruct chs as [|ch' chs]; [done|]. cbn [Broadcast.flush_to]. destruct (existsb needs_drop c).
  - step_ok E2. cbn [fst snd]. apply panics_bind.
    unfold on_heap, on_world, in_heap, zoom. by rewrite Hcopy.
  - destruct Hcopy as (h3 & E3 & Hinv3).
    set (n3 := MkNet (MkWorld h3 (in_flight (world n2)) (now (world n2))) (sent n2)).
    assert (I3 : net_inv D p2 [(b2, c); (b, c)] n3) by (by split).
    destruct (send_ok D Hser p2 b2 c _ n3 ch sender I3) as (n4 & E4 & I4 & S4).
    exists p2, n4. step_ok E2. cbn [fst snd].
    assert (E3' : on_heap (copy_from_writer (MkBufferWriter b2 0 (bp_buffer_size p))
        (MkBufferWriter b (len c) sz)) n2 = (Ok (MkBufferWriter b2 (len c) (bp_buffer_size p)), n3)).
    { unfold on_heap, on_world, in_heap, zoom. by rewrite E3. }
    step_ok E3'. unfold reader. cbn [w_buffer w_len]. step_ok E4. split; [done|].
    split; [done|]. split; [|split; congruence]. rewrite S4. cbn. by rewrite S2.
Qed.
Lemma flush_to_ok sender chs p b c sz n :
  existsb needs_drop c = false →
  chs ≠ [] → net_inv D p [(b, c)] n → (1 < length (bp_buffers p))%nat →
  ∃ p' n', Broadcast.flush_to p (MkBufferWriter b (len c) sz) sender chs n = (Ok p', n') ∧
    net_inv D p' [] n' ∧ sent n' = sent n ++ broadcast_emit chs sender 0 c ∧
    bp_buffer_size p' = bp_buffer_size p ∧ bp_buffers p' = bp_buffers p.
Proof using Hfair Hser.
  intros Hc. revert p n. induction chs as [|ch chs IH]; intros p n Hne Hn Hb; [done|].
  destruct chs as [|ch' chs].
  - destruct (send_ok D Hser p b c [] n ch sender Hn) as (n1 & E1 & I1 & S1).
    exists p, n1. cbn [Broadcast.flush_to]. unfold reader. cbn [w_buffer w_len]. by step_ok E1.
  - pose proof (flush_to_copy p b c sz sender ch (ch' :: chs) n Hn Hb ltac:(done)) as Hcopy.
    rewrite Hc in Hcopy. destruct Hcopy as (p4 & n4 & -> & I4 & S4 & Hs4 & Hb4).
    destruct (IH p4 n4) as (p5 & n5 & E5 & I5 & S5 & Hs5 & Hb5); [done|done|by rewrite Hb4|].
    exists p5, n5. split; [exact E5|]. split; [done|]. split; [|split; congruence].
    rewrite S5, S4. cbn. by rewrite <- (assoc_L (++)).
Qed.

(** The invariant between additions: the buffer holds no event that owns memory. *)
Definition plain_inv chs sender s n k c : Prop :=
  broadcast_inv chs sender s n k c ∧ existsb needs_drop c = false.

Lemma plain_push_ok chs sender s n k c v :
  needs_drop v = false → plain_inv chs sender s n k c →
  ∃ r s' c' n', Broadcast.push s v n = (Ok (r, s'), n') ∧
    plain_inv chs sender s' n' k c' ∧ sent n' = sent n ∧
    if decide (len c < size) then r = None ∧ c' = c ++ [v] else r = Some v ∧ c' = c ∧ len c = size.
Proof using Hsize.
  intros Hv [Hinv Hc]. destruct (broadcast_push_ok chs sender s n k c v Hinv) as (r & s' & c' & n' & E & I & S & Hr).
  exists r, s', c', n'. split; [done|]. split; [|done]. split; [done|].
  case_decide; destruct_and?; simplify_eq; [|done]. rewrite existsb_app, Hc. cbn. by rewrite Hv.
Qed.
Lemma plain_flush_ok chs sender s n k c :
  chs ≠ [] → plain_inv chs sender s n k c → ∃ s' n', Broadcast.flush s n = (Ok s', n') ∧
    plain_inv chs sender s' n' (S k) [] ∧ sent n' = sent n ++ broadcast_emit chs sender k c.
Proof using Hfair Hser.
  intros Hchs [(<- & <- & Hb & Hw & Hn & Hs) Hc]. unfold Broadcast.flush. rewrite Hw.
  destruct (flush_to_ok (Broadcast.sender_id s) (Broadcast.channels s) _ _ c
    (w_capacity (Broadcast.curr_buffer s)) n Hc Hchs Hn Hb) as (p1 & n1 & E1 & I1 & S1 & Hs1 & Hb1).
  step_ok E1. destruct (buffer_refill_ok p1 n1 I1) as (w & p & n2 & E2 & I2 & S2 & B2);
    [congruence|rewrite Hb1; lia|].
  step_ok E2. eexists _, n2. split; [done|]. split; [|by rewrite S2, S1]. split; [|done].
  split; [done|]. split; [done|]. split; [by cbn; rewrite B2, Hb1|done].
Qed.

(** An event that owns memory makes the flush undefined. *)
Lemma owning_flush chs sender s n k c :
  (1 < length chs)%nat → broadcast_inv chs sender s n k c → existsb needs_drop c = true →
  (Broadcast.flush s n).1 = Panic "undefined behaviour: two owners of the memory of an event".
Proof using Hfair Hser.
  intros Hchs (<- & <- & Hb & Hw & Hn & Hs) Hc. unfold Broadcast.flush. rewrite Hw.
  destruct (Broadcast.channels s) as [|ch chs]; [cbn in Hchs; lia|].
  pose proof (flush_to_copy _ _ c (w_capacity (Broadcast.curr_buffer s)) (Broadcast.sender_id s) ch chs n Hn Hb) as Hcopy.
  rewrite Hc in Hcopy. unfold mbind, M_bind.
  destruct (Broadcast.flush_to _ _ _ _ _) as [o n1]. cbn in Hcopy. rewrite Hcopy; [done|]. intros ->. cbn in Hchs. lia.
Qed.
Lemma owning_add chs sender s n k c e :
  (1 < length chs)%nat → plain_inv chs sender s n k c → needs_drop e = true →
  ((s' ← Broadcast.add s e; Broadcast.flush s') n).1 =
    Panic "undefined behaviour: two owners of the memory of an event".
Proof using Hfair Hser Hsize.
  intros Hchs [Hinv Hc] He.
  assert (Hlast : ∀ s n k c, broadcast_inv chs sender s n k (c ++ [wrap e]) →
    (Broadcast.flush s n).1 = Panic "undefined behaviour: two owners of the memory of an event").
  { intros s1 n1 k1 c1 I1. eapply owning_flush; [done|exact I1|]. rewrite existsb_app.
    apply orb_true_iff. right. apply orb_true_iff. left. exact He. }
  destruct (broadcast_push_ok chs sender s n k c (wrap e) Hinv) as (r & s1 & c1 & n1 & E1 & I1 & S1 & Hp1).
  case_decide.
  - destruct Hp1 as [-> ->]. pose proof (Hlast _ _ _ _ I1) as Hf.
    destruct e; try done; cbn [Broadcast.add].
    + rewrite bind_assoc. step_ok E1. exact Hf.
    + apply panics_bind. step_ok E1. exact Hf.
  - destruct Hp1 as (-> & -> & _).
    destruct (plain_flush_ok chs sender s1 n1 k c) as (s2 & n2 & E2 & [I2 _] & S2);
      [intros ->; cbn in Hchs; lia|by split|].
    destruct (broadcast_push_ok chs sender s2 n2 _ [] (wrap e) I2) as (r & s3 & c3 & n3 & E3 & I3 & S3 & Hp3).
    rewrite decide_True in Hp3 by done. destruct Hp3 as [-> ->]. pose proof (Hlast _ _ _ [] I3) as Hf.
    destruct e; try done; cbn [Broadcast.add].
    + rewrite bind_assoc. step_ok E1. cbn [fst snd]. rewrite bind_assoc. step_ok E2. rewrite bind_assoc.
      step_ok E3. exact Hf.
    + apply panics_bind. step_ok E1. cbn [fst snd]. step_ok E2. step_ok E3. exact Hf.
Qed.
End broadcast.
End strategies.

(** ** Properties *)

Section properties.
Context `{profile : BuildProfile, Receivers, Fuel, SystemAlloc} {A : Type} `{Transport A}.
Implicit Types (es : list (ArconEvent A)).

(** A network before the strategy is created. *)
Definition fresh_net (mem : Memory) (t : nat) : Net A := MkNet (MkWorld (MkHeap mem []) [] t) [].

(** The assumptions on the surroundings: receivers drop every reader within [D] occasions, busy
    waits are followed long enough for the pool's capacity, and remote serialisation succeeds. *)
Definition surroundings (D : nat) (info : PoolInfo) : Prop :=
  fair D ∧ (∀ l a s (m : RawArconMessage A), tell_serialised l a s m = None) ∧
  0 < pool_capacity info < usize_max ∧ 0 < pool_buffer_size info < usize_max ∧
  (D + Z.to_nat (pool_capacity info) ≤ fuel)%nat.

Lemma add_all_app {S : Type} (add : S → ArconEvent A → M (Net A) Error S) (x : S) es es' n :
  add_all add x (es ++ es') n = (add_all add x es ≫= λ y, add_all add y es') n.
Proof.
  revert x n. induction es as [|e es IH]; intros x n; [done|]. cbn. rewrite bind_assoc. unfold mbind, M_bind.
  destruct (add x e n) as [[] ?]; [apply IH|done..].
Qed.
(** The batches a run of events is cut into. *)
Definition batches_of (size : Z) es (bs : list (list (ArconEventWrapper A)))
    (pending : list (ArconEventWrapper A)) : Prop :=
  mjoin bs ++ pending = wrap <$> es ∧ Forall (batch_ok size) bs ∧ pending_ok size pending.

(** How every strategy with one buffer is set up, up to its own constructor [k]. *)
Lemma fresh_strategy {X : Type} (k : BufferPool → BufferWriter → X) m1 m2 size_of align_of info D
    mem t (s : X) n :
  surroundings D info →
  (pool ← on_heap (on_outcome (expect_ok m1)
     (BufferPool_new size_of align_of (pool_capacity info) (pool_buffer_size info)));
   r ← on_heap (try_get pool);
   w ← lift (expect m2 r.1);
   mret (k r.2 w)) (fresh_net mem t) = (Ok s, n) →
  ∃ p w, s = k p w ∧ buffer_inv D (pool_buffer_size info) p w n [] ∧
    len (bp_buffers p) = pool_capacity info ∧ sent n = [].
Proof.
  intros (_ & _ & Hc & Hs & Hfuel) Hnew. inv_bind Hnew. inv_bind Hk. inv_bind Hk0.
  unfold mret, M_ret in *. unfold lift in Hm1. destruct a0 as [[w|] p]; [|done]. cbn in Hm1, Hk.
  injection Hm1 as <- <-. injection Hk as <- <-. exists p, w. split; [done|].
  unfold on_heap, on_world, in_heap, on_outcome, zoom, fresh_net in *. cbn in *.
  destruct (BufferPool_new _ _ _ _ _) as [o h1] eqn:E1. destruct o; simplify_eq. cbn in *.
  destruct (try_get a h1) as [o h2] eqn:E2. simplify_eq.
  destruct (buffer_new_ok D (pool_buffer_size info) ltac:(lia) size_of align_of
    (pool_capacity info) mem t a h1 w p h2) as [Hb Hl]; [done|lia|done|exact E1|exact E2|].
  done.
Qed.

(** The messages of a run, from the batches of the specification. *)
Lemma run_batches {S} push flush (emit : nat → _) (Inv : S → Net A → nat → _ → Prop) admits size s n es :
  0 < size → sent n = [] → Forall (λ e, admits (wrap e)) es → Inv s n 0%nat [] →
  (∀ s n k c v, admits v → Inv s n k c → ∃ r s' c' n', push s v n = (Ok (r, s'), n') ∧
    Inv s' n' k c' ∧ sent n' = sent n ∧
    if decide (len c < size) then r = None ∧ c' = c ++ [v] else r = Some v ∧ c' = c ∧ len c = size) →
  (∀ s n k c, Inv s n k c → ∃ s' n', flush s n = (Ok s', n') ∧
    Inv s' n' (Datatypes.S k) [] ∧ sent n' = sent n ++ emit k c) →
  ∃ s' n' bs pending, add_all (batch_add push flush) s es n = (Ok s', n') ∧
    sent n' = mjoin (imap emit bs) ∧ batches_of size es bs pending ∧
    Inv s' n' (length bs) pending.
Proof.
  intros Hs Hn0 Hadm Hinv Hpush Hflush.
  destruct (add_all_ok push flush size Hs emit Inv admits Hpush Hflush s n es [] [] Hadm Hinv)
    as (s' & n' & E1 & H3).
  pose proof (spec_run_ok size es Hs) as Hspec.
  unfold spec_run in Hspec. destruct (foldl _ ([], []) es) as [bs c].
  destruct H3 as (I1 & new & -> & S1). exists s', n', new, c. split; [exact E1|].
  split; [|by split]. rewrite S1, Hn0. unfold emitted. cbn. f_equal.
Qed.

Lemma forward_run D size_of align_of info ch sender mem t s n es :
  surroundings D info →
  Forward.new size_of align_of ch sender info (fresh_net mem t) = (Ok s, n) →
  ∃ s' n' bs pending, add_all Forward.add s es n = (Ok s', n') ∧
    sent n' = (λ c, (actor_of ch, MkRawArconMessage c sender)) <$> bs ∧
    batches_of (pool_buffer_size info) es bs pending ∧
    (∃ s'' n'', Forward.flush s' n' = (Ok s'', n'') ∧
      sent n'' = sent n' ++ [(actor_of ch, MkRawArconMessage pending sender)]).
Proof.
  intros Hsur Hnew. pose proof Hsur as (Hfair & Hser & Hc & Hs & Hfuel).
  destruct (fresh_strategy (λ p w, Forward.MkForward p w ch sender) _ _ _ _ _ D mem t s n Hsur Hnew)
    as (p & w & -> & Hb & Hl & Hn0).
  destruct (run_batches Forward.push Forward.flush (forward_emit ch sender)
    (forward_inv D (pool_buffer_size info) ch sender) (λ _, True) (pool_buffer_size info) (Forward.MkForward p w ch sender) n es)
    as (s' & n' & bs & c & E1 & S1 & Hbs & I1);
    [lia|exact Hn0|by apply Forall_true| |by intros; apply forward_push_ok; [lia|]
     |intros; apply forward_flush_ok; done|].
  { split; [done|]. split; [done|]. cbn. split; [lia|done]. }
  exists s', n', bs, c. split; [exact E1|]. split;
    [rewrite S1; exact (join_imap_single (λ c, (actor_of ch, MkRawArconMessage c sender)) bs)|].
  split; [done|].
  destruct (forward_flush_ok D Hfair Hser _ ch sender _ _ _ _ I1) as (s2 & n2 & E2 & _ & S2). eauto.
Qed.

(** C6: Forward loses, reorders and duplicates nothing: the messages that reached the downstream actor
    and the events still waiting are the events that were added, in order, cut into batches that
    fit a buffer and end at watermarks, epochs and deaths. *)
Theorem forward_delivers D size_of align_of info ch sender mem t s n es :
  surroundings D info →
  Forward.new size_of align_of ch sender info (fresh_net mem t) = (Ok s, n) →
  ∃ s' n' bs pending, add_all Forward.add s es n = (Ok s', n') ∧
    sent n' = (λ c, (actor_of ch, MkRawArconMessage c sender)) <$> bs ∧
    batches_of (pool_buffer_size info) es bs pending ∧
    (∃ s'' n'', Forward.flush s' n' = (Ok s'', n'') ∧
      sent n'' = sent n' ++ [(actor_of ch, MkRawArconMessage pending sender)]).
Proof. apply forward_run. Qed.

(** C9: Broadcast delivers every batch to every channel, for events that own no memory, under the
    assumptions on the surroundings.  An event that does (an element with a [String], or any death)
    makes the flush of its batch undefined: its bits are copied for every channel, and every receiver
    frees what it owns. *)
Theorem broadcast_delivers `{NeedsDrop A} D size_of align_of info chs sender mem t s n es :
  surroundings D info → Forall (λ e, needs_drop e = false) es →
  Broadcast.new size_of align_of chs sender info (fresh_net mem t) = (Ok s, n) →
  ∃ s' n' bs pending, add_all Broadcast.add s es n = (Ok s', n') ∧
    sent n' = mjoin ((λ c, (λ ch, (actor_of ch, MkRawArconMessage c sender)) <$> chs) <$> bs) ∧
    batches_of (pool_buffer_size info) es bs pending ∧
    (∀ e, needs_drop e = true → ((s'' ← Broadcast.add s' e; Broadcast.flush s'') n').1 =
      Panic "undefined behaviour: two owners of the memory of an event").
Proof.
  intros Hsur Hplain Hnew. pose proof Hsur as (Hfair & Hser & Hc & Hs & Hfuel).
  unfold Broadcast.new in Hnew. case_bool_decide as Hchs; [|done].
  destruct (Z.ltb_spec (len chs) (pool_capacity info)) as [Hcap|]; [|done].
  destruct (fresh_strategy (λ p w, Broadcast.MkBroadcast p chs w sender) _ _ _ _ _ D mem t s n Hsur Hnew)
    as (p & w & -> & Hb & Hl & Hn0).
  destruct (run_batches Broadcast.push Broadcast.flush (broadcast_emit chs sender)
    (plain_inv D (pool_buffer_size info) chs sender) (λ v, needs_drop v = false) (pool_buffer_size info)
    (Broadcast.MkBroadcast p chs w sender) n es) as (s' & n' & bs & c & E1 & S1 & Hbs & I1);
    [lia|exact Hn0|exact Hplain| |by intros; apply plain_push_ok; [lia|..]
     |intros; apply plain_flush_ok; first [done | intros ->; cbn in *; lia]|].
  { split; [|done]. split; [done|]. split; [done|]. cbn. split; [lia|done]. }
  exists s', n', bs, c. split; [exact E1|]. split; [|split; [done|]].
  - rewrite S1. f_equal. exact (imap_const (broadcast_emit chs sender 0) bs).
  - intros e He. by eapply (owning_add D Hfair Hser (pool_buffer_size info) ltac:(lia)).
Qed.

(** C34: RoundRobin delivers the [k]-th batch to the channel [k] modulo their number, and to no other:
    in particular a watermark or an epoch reaches one channel only. *)
Theorem round_robin_delivers D size_of align_of info chs sender mem t s n es :
  surroundings D info → len chs < usize_max →
  RoundRobin.new size_of align_of chs sender info (fresh_net mem t) = (Ok s, n) →
  ∃ s' n' bs pending, add_all RoundRobin.add s es n = (Ok s', n') ∧
    batches_of (pool_buffer_size info) es bs pending ∧
    length (sent n') = length bs ∧
    (∀ k c, bs !! k = Some c → ∃ ch, chs !! (k mod length chs)%nat = Some ch ∧
      sent n' !! k = Some (actor_of ch, MkRawArconMessage c sender)).
Proof.
  intros Hsur Hlen Hnew. pose proof Hsur as (Hfair & Hser & Hc & Hs & Hfuel).
  unfold RoundRobin.new in Hnew. case_bool_decide as Hchs; [|done].
  destruct (fresh_strategy (λ p w, RoundRobin.MkRoundRobin p w chs sender 0) _ _ _ _ _ D mem t s n
    Hsur Hnew) as (p & w & -> & Hb & Hl & Hn0).
  destruct (run_batches RoundRobin.push RoundRobin.flush (round_robin_emit chs sender)
    (round_robin_inv D (pool_buffer_size info) chs sender) (λ _, True) (pool_buffer_size info) (RoundRobin.MkRoundRobin p w chs sender 0) n es)
    as (s' & n' & bs & c & E1 & S1 & Hbs & I1);
    [lia|exact Hn0|by apply Forall_true| |by intros; apply round_robin_push_ok; [lia|]
     |intros; apply round_robin_flush_ok; first [done | lia]|].
  { split; [done|]. split; [done|]. split; [done|]. cbn. split; [lia|done]. }
  exists s', n', bs, c. split; [exact E1|]. split; [done|].
  assert (Hemit : ∀ k (c : list (ArconEventWrapper A)), ∃ ch, chs !! (k mod length chs)%nat = Some ch ∧
    round_robin_emit chs sender k c = [(actor_of ch, MkRawArconMessage c sender)]).
  { intros k c0. unfold round_robin_emit. rewrite <- Nat2Z.inj_mod, Nat2Z.id.
    destruct (lookup_lt_is_Some_2 chs (k mod length chs)%nat) as [ch Hch];
      [apply Nat.mod_upper_bound; lia|]. exists ch. by rewrite Hch. }
  rewrite S1. split.
  - apply length_join_imap. intros k x. destruct (Hemit k x) as (ch & _ & ->). done.
  - intros k x Hk. destruct (Hemit k x) as (ch & Hch & He). exists ch. split; [done|].
    apply (lookup_join_imap _ bs k x); [|done|done].
    intros k' x'. destruct (Hemit k' x') as (ch' & _ & ->). done.
Qed.
End properties.

(** ** Witnesses *)

#[local] Instance debug_profile : BuildProfile := true.
#[local] Instance eager_receivers : Receivers := λ _ _, true.
#[local] Instance bump_alloc : SystemAlloc := λ calls _, 4096 + len calls.
#[local] Instance patience : Fuel := 8%nat.
#[local] Instance integers_own_nothing : NeedsDrop Z := λ _, false.
#[local] Instance reliable_network : Transport Z := λ _ _ _ _, None.
Definition example_mem : Memory := Memory_new 4096.
Definition example_events : list (ArconEvent Z) :=
  [Element (MkArconElement 1 None); Element (MkArconElement 2 None); Element (MkArconElement 3 None);
   EvWatermark (MkWatermark 5); EvEpoch (MkEpoch 1)].
Lemma example_surroundings : surroundings (A:=Z) 1 (2, 4).
Proof.
  split; [intros t; exists t; split; [lia|done]|]. split; [done|].
  split; [by vm_compute|]. split; [by vm_compute|]. cbn. unfold fuel, patience. lia.
Qed.

Example forward_delivers_witness :
  match Forward.new (A:=Z) 16 8 (Local 7) (MkNodeID 1) (2, 4) (fresh_net example_mem 0) with
  | (Ok s, n) =>
      ∃ s' n' bs pending, add_all Forward.add s example_events n = (Ok s', n') ∧
        sent n' = (λ c, (7%nat, MkRawArconMessage c (MkNodeID 1))) <$> bs ∧
        batches_of 2 example_events bs pending ∧
        (∃ s'' n'', Forward.flush s' n' = (Ok s'', n'') ∧
          sent n'' = sent n' ++ [(7%nat, MkRawArconMessage pending (MkNodeID 1))])
  | _ => False
  end.
Proof.
  destruct (Forward.new _ _ _ _ _ _) as [[s| | |] n] eqn:E; [|by vm_compute in E..].
  exact (forward_delivers 1 _ _ _ _ _ _ _ s n example_events example_surroundings E).
Defined.

Example broadcast_delivers_witness :
  let chs := [Local 7; Remote 8 Reliable; Local 9] in
  match Broadcast.new (A:=Z) 16 8 chs (MkNodeID 1) (2, 4) (fresh_net example_mem 0) with
  | (Ok s, n) =>
      ∃ s' n' bs pending, add_all Broadcast.add s example_events n = (Ok s', n') ∧
        sent n' = mjoin ((λ c, (λ ch, (actor_of ch, MkRawArconMessage c (MkNodeID 1))) <$> chs) <$> bs) ∧
        batches_of 2 example_events bs pending ∧
        ((s'' ← Broadcast.add s' (Death "end"); Broadcast.flush s'') n').1 =
          Panic "undefined behaviour: two owners of the memory of an event"
  | _ => False
  end.
Proof.
  cbv zeta. destruct (Broadcast.new _ _ _ _ _ _) as [[s| | |] n] eqn:E; [|by vm_compute in E..].
  assert (Hplain : Forall (λ e, needs_drop e = false) example_events) by (by repeat constructor).
  destruct (broadcast_delivers 1 _ _ _ _ _ _ _ s n example_events example_surroundings Hplain E)
    as (s' & n' & bs & pending & Ha & Hs & Hb & Hd).
  exists s', n', bs, pending. split; [exact Ha|]. split; [exact Hs|]. split; [exact Hb|].
  exact (Hd (Death "end") eq_refl).
Defined.

Example round_robin_delivers_witness :
  let chs := [Local 7; Remote 8 Reliable] in
  match RoundRobin.new (A:=Z) 16 8 chs (MkNodeID 1) (2, 4) (fresh_net example_mem 0) with
  | (Ok s, n) =>
      ∃ s' n' bs pending, add_all RoundRobin.add s example_events n = (Ok s', n') ∧
        batches_of 2 example_events bs pending ∧
        length (sent n') = length bs ∧
        (∀ k c, bs !! k = Some c → ∃ ch, chs !! (k mod length chs)%nat = Some ch ∧
          sent n' !! k = Some (actor_of ch, MkRawArconMessage c (MkNodeID 1)))
  | _ => False
  end.
Proof.
  cbv zeta. destruct (RoundRobin.new _ _ _ _ _ _) as [[s| | |] n] eqn:E; [|by vm_compute in E..].
  assert (Hlen : len [Local 7; Remote 8 Reliable] < usize_max) by done.
  exact (round_robin_delivers 1 _ _ _ _ _ _ _ s n example_events example_surroundings Hlen E).
Defined.
