(* ===== verification/KeyBySpec.v ===== *)
(** The partitioning strategy [KeyBy]: every channel receives exactly the events routed to it, cut
    into batches as [ChannelSpec.v] specifies. *)

From S2P Require Import Prelude Error Allocator EventBuffer Pool Serialization StateBackend Data Channel ChannelSpec BackendLaws.
Import KeyBy.

(** Function update. *)
Definition upd {X} (f : Z → X) (i : Z) (x : X) : Z → X := λ j, if decide (j = i) then x else f j.
Lemma upd_eq {X} (f : Z → X) i x : upd f i x i = x.
Proof. unfold upd. by rewrite decide_True. Qed.
Lemma upd_ne {X} (f : Z → X) i x j : j ≠ i → upd f i x j = f j.
Proof. intros. unfold upd. by rewrite decide_False. Qed.

(** The messages for one actor among those tagged with another. *)
Lemma filter_tagged {X} (a a' : nat) (l : list X) :
  (filter (λ x, x.1 = a') ((λ m, (a, m)) <$> l)).*2 = if decide (a = a') then l else [].
Proof.
  induction l as [|x l IH]; [by case_decide|]. rewrite fmap_cons, filter_cons. cbn [fst].
  repeat case_decide; try done. rewrite fmap_cons, IH. done.
Qed.

Section key_by.
Context `{profile : BuildProfile, Receivers, Fuel, SystemAlloc} {A : Type} `{Transport A, ArconType A}.
Abbreviation Wrapper := (ArconEventWrapper A).
Abbreviation Stream := (list (list Wrapper) * list Wrapper)%type.
Context (D : nat) (Hfair : fair D).
Context (Hser : ∀ l a s (m : RawArconMessage A), tell_serialised l a s m = None).
Context (bsize : Z) (chs : list Channel) (sender : NodeID).
Context (Hsize : 0 < bsize) (Hchs : NoDup (actor_of <$> chs)).

(** The messages an actor received. *)
Definition delivered (a : nat) (n : Net A) : list (RawArconMessage A) :=
  (filter (λ x, x.1 = a) (sent n)).*2.

(** The buffers held by the entries of the map, with the events that wait in them. *)
Definition hold (m : gmap Z (Channel * BufferWriter)) (st : Z → Stream) : list (nat * list Wrapper) :=
  (λ kv, (w_buffer kv.2.2, (st kv.1).2)) <$> map_to_list m.

Record key_inv (s : KeyBy) (n : Net A) (st : Z → Stream) : Prop := {
  ki_net : net_inv D (buffer_pool s) (hold (buffer_map s) st) n;
  ki_size : bp_buffer_size (buffer_pool s) = bsize;
  ki_room : (size (buffer_map s) < length (bp_buffers (buffer_pool s)))%nat;
  ki_sender : sender_id s = sender;
  ki_chan : ∀ i ch w, buffer_map s !! i = Some (ch, w) →
    0 ≤ i ∧ chs !! Z.to_nat i = Some ch ∧ w_len w = len (st i).2;
  ki_sent : ∀ i ch, chs !! Z.to_nat i = Some ch → 0 ≤ i →
    delivered (actor_of ch) n = (λ c, MkRawArconMessage c sender) <$> (st i).1;
}.

Lemma hold_entry m st i ch w :
  m !! i = Some (ch, w) → hold m st ≡ₚ (w_buffer w, (st i).2) :: hold (delete i m) st.
Proof using Type. intros Hi. unfold hold. by rewrite <- (map_to_list_delete m i (ch, w)). Qed.
Lemma hold_update m st i ch w x :
  hold (<[i := (ch, w)]> m) (upd st i x) ≡ₚ (w_buffer w, x.2) :: hold (delete i m) st.
Proof using Type.
  unfold hold. rewrite <- insert_delete_eq, map_to_list_insert by (by simplify_map_eq).
  cbn. rewrite upd_eq. f_equiv.
  erewrite list_fmap_ext; [done|].
  intros j [k cw] Hj. apply list_elem_of_lookup_2, elem_of_map_to_list in Hj. cbn.
  rewrite upd_ne; [done|]. intros ->. by simplify_map_eq.
Qed.

Lemma net_inv_perm p (held held' : list (nat * list Wrapper)) (n : Net A) : held ≡ₚ held' → net_inv D p held n → net_inv D p held' n.
Proof using Type.
  intros Hp [[Hinv Hf] Hfuel]. split; [|done]. split; [|done].
  eapply pool_inv_proper; [|done|exact Hinv]. by rewrite Hp.
Qed.

Lemma delivered_app a (n n' : Net A) l :
  sent n' = sent n ++ l → delivered a n' = delivered a n ++ (filter (λ x, x.1 = a) l).*2.
Proof using Type. intros Hs. unfold delivered. by rewrite Hs, filter_app, fmap_app. Qed.

(** Writing an entry back: its channel has sent [new] more batches and holds [c']. *)
Lemma key_inv_update s (n n' : Net A) (st : Z → Stream) i ch w w' p' bs' c' :
  key_inv s n st → buffer_map s !! i = Some (ch, w) →
  net_inv D p' ((w_buffer w', c') :: hold (delete i (buffer_map s)) st) n' →
  bp_buffer_size p' = bsize → length (bp_buffers p') = length (bp_buffers (buffer_pool s)) →
  w_len w' = len c' →
  sent n' = sent n ++ ((λ m, (actor_of ch, m)) <$> ((λ c, MkRawArconMessage c sender) <$> bs')) →
  key_inv (set_buffer s p' i (ch, w')) n' (upd st i ((st i).1 ++ bs', c')).
Proof using Hchs Hsize.
  intros [Hnet Hs Hroom Hsender Hchan Hsent] Hi Hnet' Hs' Hl' Hw' Hout.
  destruct (Hchan _ _ _ Hi) as (Hi0 & Hich & _). split; cbn.
  - eapply net_inv_perm; [|exact Hnet']. symmetry. by apply (hold_update _ _ _ _ _ (_, c')).
  - done.
  - rewrite map_size_insert_Some by (by eexists). by rewrite Hl'.
  - done.
  - intros j ch' w'' [[<- ?]|[Hne Hj]]%lookup_insert_Some; simplify_eq.
    + rewrite upd_eq. done.
    + rewrite upd_ne by done. eauto.
  - intros j ch' Hj Hj0. rewrite (delivered_app _ _ _ _ Hout), (Hsent j ch' Hj Hj0).
    rewrite filter_tagged. destruct (decide (j = i)) as [->|Hne].
    + simplify_eq. rewrite upd_eq, decide_True by done. cbn [fst]. by rewrite fmap_app.
    + rewrite upd_ne, decide_False, app_nil_r; [done| |done].
      intros Ha. apply Hne. apply Z2Nat.inj; [done|done|].
      apply (NoDup_lookup _ _ _ (actor_of ch') Hchs); rewrite list_lookup_fmap;
        [by rewrite Hj|rewrite Hich; cbn; congruence].
Qed.

(** The specification of pushing and of flushing one entry. *)
Definition spec_push (st : Stream) (w : Wrapper) : Stream :=
  if len st.2 <? bsize then (st.1, st.2 ++ [w]) else (st.1 ++ [st.2], [w]).
Definition spec_flush (st : Stream) : Stream := (st.1 ++ [st.2], []).
Lemma spec_add_key st e :
  spec_add bsize st e =
    if is_element e then spec_push st (wrap e) else spec_flush (spec_push st (wrap e)).
Proof using Type.
  destruct st as [bs c]. unfold spec_add, spec_push, spec_flush. cbn.
  destruct (len c <? bsize), (is_element e); done.
Qed.

Lemma length_hold m st : length (hold m st) = size m.
Proof using Type. unfold hold. by rewrite length_fmap, length_map_to_list. Qed.
Lemma entry_writer s (n : Net A) st i ch w :
  key_inv s n st → buffer_map s !! i = Some (ch, w) →
  w = MkBufferWriter (w_buffer w) (len (st i).2) (w_capacity w) ∧
  net_inv D (buffer_pool s) ((w_buffer w, (st i).2) :: hold (delete i (buffer_map s)) st) n ∧
  (length (hold (delete i (buffer_map s)) st) < length (bp_buffers (buffer_pool s)))%nat.
Proof using Type.
  intros [Hnet Hs Hroom Hsender Hchan Hsent] Hi. split; [|split].
  - destruct w as [b l cp]. destruct (Hchan _ _ _ Hi) as (_ & _ & Hl). cbn in *. congruence.
  - eapply net_inv_perm; [|exact Hnet]. by eapply hold_entry.
  - rewrite length_hold, map_size_delete_Some by (by eexists). lia.
Qed.

(** [flush_buffer] gives the writer's buffer away and takes an empty one. *)
Lemma flush_buffer_ok p held (n : Net A) b c cp ch :
  net_inv D p ((b, c) :: held) n → (length held < length (bp_buffers p))%nat →
  ∃ b' p' n', flush_buffer sender p ch (MkBufferWriter b (len c) cp) n =
      (Ok (MkBufferWriter b' 0 (bp_buffer_size p), p'), n') ∧
    net_inv D p' ((b', []) :: held) n' ∧
    sent n' = sent n ++ [(actor_of ch, MkRawArconMessage c sender)] ∧
    bp_buffer_size p' = bp_buffer_size p ∧ bp_buffers p' = bp_buffers p.
Proof using Hfair Hser.
  intros Hn Hl. destruct (send_ok D Hser p b c held n ch sender Hn) as (n1 & E1 & I1 & S1).
  destruct (net_get_ok D Hfair p held n1 I1 Hl) as (b' & p' & n2 & E2 & I2 & S2 & Hs & Hb).
  exists b', p', n2. unfold flush_buffer, reader. cbn [w_buffer w_len]. step_ok E1.
  split; [exact E2|]. split; [done|]. by rewrite S2.
Qed.

Lemma flush_entry_ok s (n : Net A) st i ch w :
  key_inv s n st → buffer_map s !! i = Some (ch, w) →
  ∃ s' n', flush_entry i s n = (Ok s', n') ∧ key_inv s' n' (upd st i (spec_flush (st i))) ∧
    dom (buffer_map s') = dom (buffer_map s) ∧ max_key s' = max_key s ∧ key_ranges s' = key_ranges s.
Proof using Hfair Hser Hchs Hsize.
  intros Hinv Hi. destruct (entry_writer _ _ _ _ _ _ Hinv Hi) as (Hw & Hn & Hl).
  destruct (flush_buffer_ok _ _ n _ _ (w_capacity w) ch Hn Hl) as (b' & p' & n' & E1 & I1 & S1 & Hs & Hb).
  unfold flush_entry. rewrite Hi, Hw, (ki_sender _ _ _ Hinv). step_ok E1.
  eexists _, n'. split; [done|]. split; [|split; [|done]].
  - eapply (key_inv_update s n n' st i ch w _ p' [(st i).2] []); try done.
    + rewrite Hs. apply Hinv.
    + by rewrite Hb.
  - cbn. apply dom_insert_lookup_L. by eexists.
Qed.

Lemma push_entry_ok s (n : Net A) st i ch w v :
  key_inv s n st → buffer_map s !! i = Some (ch, w) →
  ∃ s' n', push_entry i ch w v s n = (Ok s', n') ∧ key_inv s' n' (upd st i (spec_push (st i) v)) ∧
    dom (buffer_map s') = dom (buffer_map s) ∧ max_key s' = max_key s ∧ key_ranges s' = key_ranges s.
Proof using Hfair Hser Hchs Hsize.
  intros Hinv Hi. destruct (entry_writer _ _ _ _ _ _ Hinv Hi) as (Hw & Hn & Hl).
  pose proof (ki_size _ _ _ Hinv) as Hbs.
  destruct (net_push_ok D _ _ _ _ n (w_capacity w) v Hn) as (r & c1 & n1 & E1 & I1 & S1 & R1).
  unfold push_entry. rewrite Hw. step_ok E1. rewrite Hbs in R1. unfold spec_push.
  assert (Hdom : ∀ cw, dom (<[i := cw]> (buffer_map s)) = dom (buffer_map s)).
  { intros cw. apply dom_insert_lookup_L. by eexists. }
  case_decide as Hlt.
  - destruct R1 as [-> ->]. rewrite (proj2 (Z.ltb_lt _ _)) by done.
    eexists _, n1. split; [done|]. split; [|split; [apply Hdom|done]].
    rewrite <- (app_nil_r (st i).1).
    apply (key_inv_update s n n1 st i ch w _ (buffer_pool s) []); try done.
    by rewrite app_nil_r.
  - destruct R1 as (-> & -> & Hfull). rewrite (proj2 (Z.ltb_ge _ _)) by lia. cbn [fst snd].
    destruct (flush_buffer_ok _ _ n1 _ _ (w_capacity w) ch I1 Hl)
      as (b2 & p2 & n2 & E2 & I2 & S2 & Hs2 & Hb2).
    rewrite (ki_sender _ _ _ Hinv). step_ok E2.
    destruct (net_push_ok D p2 b2 [] _ n2 (bp_buffer_size (buffer_pool s)) v I2)
      as (r & c3 & n3 & E3 & I3 & S3 & R3).
    rewrite decide_True in R3 by (cbn; rewrite Hs2; lia). destruct R3 as [-> ->]. cbn [app] in *.
    step_ok E3. eexists _, n3. split; [done|]. split; [|split; [apply Hdom|done]].
    apply (key_inv_update s n n3 st i ch w _ p2 [(st i).2] [v]); try done.
    + congruence.
    + by rewrite Hb2.
    + by rewrite S3, S2, S1.
Qed.

(** A loop over entries applies [F] to the stream of each. *)
Lemma for_entries_ok (f : Z → KeyBy → M (Net A) Error KeyBy) (F : Stream → Stream) keys s n st :
  (∀ s n st i ch w, key_inv s n st → buffer_map s !! i = Some (ch, w) →
    ∃ s' n', f i s n = (Ok s', n') ∧ key_inv s' n' (upd st i (F (st i))) ∧
      dom (buffer_map s') = dom (buffer_map s) ∧ max_key s' = max_key s ∧ key_ranges s' = key_ranges s) →
  key_inv s n st → NoDup keys → (∀ i, i ∈ keys → i ∈ dom (buffer_map s)) →
  ∃ s' n' st', for_entries f keys s n = (Ok s', n') ∧ key_inv s' n' st' ∧
    (∀ i, st' i = if decide (i ∈ keys) then F (st i) else st i) ∧
    dom (buffer_map s') = dom (buffer_map s) ∧ max_key s' = max_key s ∧ key_ranges s' = key_ranges s.
Proof using Hfair Hser Hchs Hsize.
  intros Hf. revert s n st. induction keys as [|i keys IH]; intros s n st Hinv Hnd Hin; cbn [for_entries].
  - exists s, n, st. split; [done|]. split; [done|]. split; [|done]. intros i.
    rewrite decide_False; [done|set_solver].
  - apply NoDup_cons in Hnd as [Hi Hnd].
    destruct (proj1 (elem_of_dom _ i) (Hin i ltac:(set_solver))) as [[ch w] Hl].
    destruct (Hf s n st i ch w Hinv Hl) as (s1 & n1 & E1 & I1 & D1 & M1 & K1).
    destruct (IH s1 n1 _ I1 Hnd) as (s2 & n2 & st2 & E2 & I2 & F2 & D2 & M2 & K2).
    { intros j Hj. rewrite D1. apply Hin. set_solver. }
    exists s2, n2, st2. step_ok E1. split; [exact E2|]. split; [done|].
    split; [|split; [|split]; congruence]. intros j. rewrite F2.
    destruct (decide (j = i)) as [->|Hne].
    + rewrite decide_False, upd_eq, decide_True by set_solver. done.
    + rewrite upd_ne by done. repeat case_decide; set_solver.
Qed.

(** *** Events *)

Context (mk : Z) (Hmk : 0 < mk) (Hspace : mk * len chs < 2 ^ 64).

(** The index of the channel an element is routed to; other events go to every channel. *)
Definition route (e : ArconEvent A) : option Z :=
  match e with
  | Element el => Some ((get_key (data el) mod mk) * len chs / mk)
  | _ => None
  end.
Definition routed (i : Z) (e : ArconEvent A) : Prop :=
  match route e with Some j => j = i | None => True end.
#[export] Instance routed_dec i e : Decision (routed i e).
Proof using Type. unfold routed. destruct (route e); apply _. Defined.

Definition key_ready (s : KeyBy) (n : Net A) (st : Z → Stream) : Prop :=
  key_inv s n st ∧ max_key s = mk ∧ key_ranges s = len chs ∧
  ∀ i, i ∈ dom (buffer_map s) ↔ 0 ≤ i < len chs.

Lemma route_range el : 0 < len chs → 0 ≤ get_key (data el) mod mk * len chs / mk < len chs.
Proof using Hmk.
  intros Hlen. pose proof (Z.mod_pos_bound (get_key (data el)) mk Hmk).
  split; [apply Z.div_pos; nia|]. apply Z.div_lt_upper_bound; [done|]. nia.
Qed.
Lemma placement_ok s el :
  max_key s = mk → key_ranges s = len chs →
  placement s (get_key (data el)) = Ok (get_key (data el) mod mk * len chs / mk).
Proof using Hmk Hspace.
  intros Hm Hk. unfold placement. rewrite Hm, Hk, u_rem_ok by lia. cbn [mbind outcome_bind].
  pose proof (Z.mod_pos_bound (get_key (data el)) mk Hmk).
  rewrite u_mul_ok by (unfold in_u; nia). cbn [mbind outcome_bind]. by rewrite u_div_ok by lia.
Qed.

Lemma key_add_ok s (n : Net A) st e :
  0 < len chs → key_ready s n st →
  ∃ s' n' st', KeyBy.add s e n = (Ok s', n') ∧ key_ready s' n' st' ∧
    ∀ i, 0 ≤ i < len chs → st' i = if decide (routed i e) then spec_add bsize (st i) e else st i.
Proof using Hfair Hser Hchs Hsize Hmk Hspace.
  intros Hlen (Hinv & Hm & Hk & Hdom).
  assert (Hkeys' : ∀ s, (∀ i, i ∈ dom (buffer_map s) ↔ 0 ≤ i < len chs) →
    ∀ i, i ∈ (map_to_list (buffer_map s)).*1 ↔ 0 ≤ i < len chs).
  { intros s0 Hd i. rewrite <- Hd, elem_of_dom, list_elem_of_fmap. split.
    - intros ([j x] & -> & Hj%elem_of_map_to_list). by eexists.
    - intros [x Hx]. exists (i, x). by rewrite elem_of_map_to_list. }
  destruct (is_element e) eqn:He.
  - destruct e as [el| | |]; try done. pose proof (route_range el Hlen) as Hr.
    set (j := get_key (data el) mod mk * len chs / mk) in *.
    destruct (proj1 (elem_of_dom (buffer_map s) j) (proj2 (Hdom j) Hr)) as [[ch w] Hl].
    destruct (push_entry_ok s n st j ch w (wrap (Element el)) Hinv Hl)
      as (s1 & n1 & E1 & I1 & D1 & M1 & K1).
    eexists s1, n1, _. unfold add. unfold mbind, M_bind, lift. rewrite placement_ok by done.
    fold j. rewrite Hl. split; [exact E1|]. split.
    + split; [exact I1|]. split; [congruence|]. split; [congruence|]. by rewrite D1.
    + intros i Hi. unfold routed, route. fold j. case_decide as Hij.
      * subst i. by rewrite upd_eq, spec_add_key.
      * by rewrite upd_ne by done.
  - assert (Hadd : KeyBy.add s e = (s ← for_entries (λ i s,
        match buffer_map s !! i with
        | Some (channel, writer) => push_entry i channel writer (wrap e) s
        | None => mret s
        end) (map_to_list (buffer_map s)).*1 s; flush s)) by (by destruct e).
    rewrite Hadd. clear Hadd.
    destruct (for_entries_ok (λ i s, match buffer_map s !! i with
        | Some (channel, writer) => push_entry i channel writer (wrap e) s
        | None => mret s end) (λ x, spec_push x (wrap e)) (map_to_list (buffer_map s)).*1 s n st)
      as (s1 & n1 & st1 & E1 & I1 & F1 & D1 & M1 & K1).
    { intros s0 n0 st0 i ch w Hi Hl. rewrite Hl. by apply push_entry_ok. }
    { done. }
    { apply NoDup_fst_map_to_list. }
    { intros i Hi. by apply Hdom, (Hkeys' s Hdom). }
    destruct (for_entries_ok flush_entry spec_flush (map_to_list (buffer_map s1)).*1 s1 n1 st1)
      as (s2 & n2 & st2 & E2 & I2 & F2 & D2 & M2 & K2).
    { intros s0 n0 st0 i ch w Hi Hl. by eapply flush_entry_ok. }
    { done. }
    { apply NoDup_fst_map_to_list. }
    { intros i Hi. rewrite D1. apply Hdom, (Hkeys' s1); [by rewrite D1|done]. }
    exists s2, n2, st2. step_ok E1. split; [exact E2|]. split.
    + split; [exact I2|]. split; [congruence|]. split; [congruence|]. by rewrite D2, D1.
    + intros i Hi. rewrite F2, decide_True by (apply (Hkeys' s1); [by rewrite D1|done]).
      rewrite F1, decide_True by (by apply (Hkeys' s)).
      rewrite decide_True by (unfold routed; by destruct e). by rewrite spec_add_key, He.
Qed.

Lemma key_add_all_ok s (n : Net A) st es :
  0 < len chs → key_ready s n st →
  ∃ s' n' st', add_all KeyBy.add s es n = (Ok s', n') ∧ key_ready s' n' st' ∧
    ∀ i, 0 ≤ i < len chs → st' i = foldl (spec_add bsize) (st i) (filter (routed i) es).
Proof using Hfair Hser Hchs Hsize Hmk Hspace.
  intros Hlen. revert s n st. induction es as [|e es IH]; intros s n st Hr; cbn [add_all].
  - by exists s, n, st.
  - destruct (key_add_ok s n st e Hlen Hr) as (s1 & n1 & st1 & E1 & I1 & F1).
    destruct (IH s1 n1 st1 I1) as (s2 & n2 & st2 & E2 & I2 & F2).
    exists s2, n2, st2. step_ok E1. split; [exact E2|]. split; [done|].
    intros i Hi. rewrite F2, F1, filter_cons by done. by case_decide.
Qed.

(** *** The initial state *)

Definition no_events : Z → Stream := λ _, ([], []).
Record init_inv (p : BufferPool) (k : nat) (m : gmap Z (Channel * BufferWriter)) (n : Net A) : Prop := {
  ii_net : net_inv D p (hold m no_events) n;
  ii_size : bp_buffer_size p = bsize;
  ii_sent : sent n = [];
  ii_count : size m = k;
  ii_chan : ∀ i ch w, m !! i = Some (ch, w) → 0 ≤ i ∧ chs !! Z.to_nat i = Some ch ∧ w_len w = 0;
  ii_dom : ∀ i, i ∈ dom m ↔ 0 ≤ i < Z.of_nat k;
}.

Lemma init_buffers_ok rest k p m (n : Net A) r n' :
  init_inv p k m n → chs = take k chs ++ rest →
  init_buffers p (Z.of_nat k) rest m n = (Ok r, n') →
  init_inv r.1 (length chs) r.2 n' ∧ length (bp_buffers r.1) = length (bp_buffers p).
Proof using Hsize.
  revert k p m n. induction rest as [|ch rest IH]; intros k p m n Hi Hc Hr; cbn [init_buffers] in Hr.
  - unfold mret, M_ret in Hr. simplify_eq. cbn. split; [|done]. rewrite app_nil_r in Hc.
    destruct Hi as [Hn Hs Hsent Hcount Hchan Hdom].
    assert (Hle : (length chs ≤ k)%nat) by (rewrite Hc, length_take; lia).
    assert (Hk : (k ≤ length chs)%nat).
    { destruct k as [|k]; [lia|]. assert (Z.of_nat k ∈ dom m) as [[ch w] Hl]%elem_of_dom by (apply Hdom; lia).
      apply Hchan in Hl as (_ & Hl & _). rewrite Nat2Z.id in Hl. by apply lookup_lt_Some in Hl. }
    replace (length chs) with k by lia. by split.
  - inv_bind Hr. inv_bind Hk. unfold lift in Hm0. destruct a as [[w|] p1]; [|done]. cbn in Hm0, Hk0.
    injection Hm0 as <- <-.
    destruct Hi as [[[Hpool Hfl] Hfuel] Hs Hsent Hcount Hchan Hdom].
    unfold on_heap, on_world, in_heap, zoom in Hm.
    pose proof (try_get_ok _ _ _ Hpool) as Ht. case_decide as Hcur; [rewrite Ht in Hm; discriminate|].
    destruct Ht as (h1 & Ht & Hpool1). rewrite Ht in Hm. injection Hm as <- <- <-.
    assert (Hnone : m !! Z.of_nat k = None).
    { apply not_elem_of_dom. rewrite Hdom. lia. }
    assert (Hlk : chs !! k = Some ch).
    { rewrite Hc, lookup_app_r; rewrite length_take; [|lia].
      destruct (decide (k ≤ length chs)%nat) as [|Hkl]; [by rewrite Nat.min_l, Nat.sub_diag by lia|].
      exfalso. apply (f_equal length) in Hc. rewrite length_app, length_take in Hc. cbn in Hc. lia. }
    replace (Z.of_nat k + 1) with (Z.of_nat (S k)) in Hk0 by lia.
    apply (IH (S k)) in Hk0; [cbn in Hk0; destruct Hk0 as [? Hl]; by split| |].
    + split; cbn.
      * split; [|done]. split; [|done]. eapply pool_inv_proper; [|done|exact Hpool1].
        unfold hold. rewrite map_to_list_insert by done. done.
      * done.
      * done.
      * rewrite map_size_insert_None by done. by rewrite Hcount.
      * intros i ch' w' [[<- ?]|[_ Hl]]%lookup_insert_Some; [|by eapply Hchan]. simplify_eq.
        rewrite Nat2Z.id. split; [lia|done].
      * intros i. rewrite dom_insert, elem_of_union, elem_of_singleton, Hdom. lia.
    + rewrite (take_S_r _ _ _ Hlk), <- (assoc_L (++)). exact Hc.
Qed.
End key_by.

(** ** Properties *)

Section properties.
Context `{profile : BuildProfile, Receivers, Fuel, SystemAlloc} {A : Type} `{Transport A, ArconType A}.

Lemma key_by_new_ok D size_of align_of info mk chs sender mem t s (n : Net A) :
  surroundings (A:=A) D info →
  KeyBy.new size_of align_of mk chs sender info (fresh_net mem t) = (Ok s, n) →
  key_ready D (pool_buffer_size info) chs sender mk s n no_events.
Proof.
  intros (Hfair & Hser & Hc & Hs & Hfuel) Hnew. unfold KeyBy.new in Hnew.
  destruct (Z.ltb_spec (len chs) (pool_capacity info)) as [Hcap|]; [|done].
  inv_bind Hnew. inv_bind Hk. unfold mret, M_ret in Hk0. injection Hk0 as <- <-.
  unfold on_heap, on_world, in_heap, on_outcome, zoom, fresh_net in Hm. cbn in Hm.
  destruct (BufferPool_new _ _ _ _ _) as [o h1] eqn:E1. destruct o; [|discriminate..]. injection Hm as -> <-. cbn in *.
  destruct (BufferPool_new_inv (T:=ArconEventWrapper A) size_of align_of _ _ (MkHeap mem []) a h1 Hc Hs E1)
    as (Hpool & Hsz & Hpc).
  pose proof (pi_capacity _ _ _ Hpool) as [Hlen _].
  apply (init_buffers_ok D (pool_buffer_size info) chs ltac:(lia) chs 0) in Hm0; [|split; cbn|done].
  - destruct Hm0 as [[Hn Hsz' Hsent Hcount Hchan Hdom] Hlb]. split; [|done]. split; cbn.
    + done.
    + done.
    + lia.
    + done.
    + done.
    + intros i ch _ _. unfold delivered. by rewrite Hsent.
  - split; [|lia]. split; [exact Hpool|constructor].
  - done.
  - done.
  - done.
  - intros i ch w Hl. by rewrite lookup_empty in Hl.
  - intros i. set_solver by lia.
Qed.

(** C8: KeyBy partitions: the channel of an index receives exactly the elements whose key falls in its
    range together with every watermark, epoch and death, in order and in well-formed batches; every
    element is routed to exactly one of the channels, and elements of equal keys to the same one. *)
Theorem key_by_partitions D size_of align_of info mk chs sender mem t s n (es : list (ArconEvent A)) :
  surroundings D info → NoDup (actor_of <$> chs) → 0 < mk → 0 < len chs → mk * len chs < 2 ^ 64 →
  KeyBy.new size_of align_of mk chs sender info (fresh_net mem t) = (Ok s, n) →
  ∃ s' n', add_all KeyBy.add s es n = (Ok s', n') ∧
    (∀ i ch, chs !! i = Some ch → ∃ bs pending,
      batches_of (pool_buffer_size info) (filter (routed chs mk (Z.of_nat i)) es) bs pending ∧
      delivered (actor_of ch) n' = (λ c, MkRawArconMessage c sender) <$> bs) ∧
    (∀ el, ∃ i, route chs mk (Element el) = Some i ∧ 0 ≤ i < len chs) ∧
    (∀ el el', get_key (data el) = get_key (data el') →
      route chs mk (Element el) = route chs mk (Element el')).
Proof.
  intros Hsur Hnd Hmk Hlen Hspace Hnew. pose proof Hsur as (Hfair & Hser & Hc & Hs & Hfuel).
  pose proof (key_by_new_ok D _ _ _ _ _ _ _ _ _ _ Hsur Hnew) as Hready.
  destruct (key_add_all_ok D Hfair Hser (pool_buffer_size info) chs sender ltac:(lia) Hnd mk Hmk Hspace
    s n no_events es Hlen Hready) as (s' & n' & st & E1 & [Hinv _] & Hst).
  exists s', n'. split; [exact E1|]. split; [|split].
  - intros i ch Hch. pose proof (lookup_lt_Some _ _ _ Hch).
    pose proof (spec_run_ok (pool_buffer_size info) (filter (routed chs mk (Z.of_nat i)) es) ltac:(lia)) as Hspec.
    destruct (spec_run _ _) as [bs c] eqn:Hrun. specialize (Hst (Z.of_nat i) ltac:(lia)).
    assert (Hbc : st (Z.of_nat i) = (bs, c)) by (rewrite <- Hrun; exact Hst).
    exists bs, c. split; [exact Hspec|]. change bs with (bs, c).1. rewrite <- Hbc.
    eapply ki_sent; [exact Hinv|by rewrite Nat2Z.id|lia].
  - intros el. eexists. split; [done|]. by apply route_range.
  - intros el el' Heq. unfold route. by rewrite Heq.
Qed.
End properties.

(** ** Witness *)

#[local] Instance debug_profile : BuildProfile := true.
#[local] Instance eager_receivers : Receivers := λ _ _, true.
#[local] Instance bump_alloc : SystemAlloc := λ calls _, 4096 + len calls.
#[local] Instance patience : Fuel := 8%nat.
#[local] Instance reliable_network : Transport Z := λ _ _ _ _, None.
#[local] Instance Z_ArconType : ArconType Z :=
  {| arcon_value := countable_Value 7; arcon_drop _ := false; UNSAFE_SER_ID := 0; RELIABLE_SER_ID := 1; VERSION_ID := 1;
     get_key := λ z, z `mod` 2 ^ 64 |}.

Lemma key_surroundings : surroundings (A:=Z) 1 (2, 4).
Proof.
  split; [intros t; exists t; split; [lia|done]|]. split; [done|].
  split; [by vm_compute|]. split; [by vm_compute|]. cbn. unfold fuel, patience. lia.
Qed.
Lemma key_channels : NoDup (actor_of <$> [Local 7; Remote 8 Reliable]).
Proof. apply (bool_decide_unpack _). by vm_compute. Qed.

Example key_by_partitions_witness :
  let chs := [Local 7; Remote 8 Reliable] in
  match KeyBy.new (A:=Z) 16 8 10 chs (MkNodeID 1) (2, 4) (fresh_net (Memory_new 4096) 0) with
  | (Ok s, n) =>
      ∃ s' n', add_all KeyBy.add s (Element ∘ ArconElement_new <$> [1; 7; 3; 8; 9]) n = (Ok s', n') ∧
      (∀ i ch, chs !! i = Some ch → ∃ bs pending,
        batches_of 2 (filter (routed chs 10 (Z.of_nat i)) (Element ∘ ArconElement_new <$> [1; 7; 3; 8; 9]))
          bs pending ∧
        delivered (actor_of ch) n' = (λ c, MkRawArconMessage c (MkNodeID 1)) <$> bs) ∧
      (∀ el, ∃ i, route chs 10 (Element el) = Some i ∧ 0 ≤ i < len chs) ∧
      (∀ el el', get_key (data el) = get_key (data el') →
        route chs 10 (Element el) = route chs 10 (Element el'))
  | _ => False
  end.
Proof.
  cbv zeta. destruct (KeyBy.new _ _ _ _ _ _ _) as [[s| | |] n] eqn:E; [|by vm_compute in E..].
  apply (key_by_partitions 1 16 8 (2, 4) 10 [Local 7; Remote 8 Reliable] (MkNodeID 1) (Memory_new 4096)
    0 s n (Element ∘ ArconElement_new <$> [1; 7; 3; 8; 9]) key_surroundings key_channels); [lia|by vm_compute..|exact E].
Defined.
