(* ===== verification/BackendClient.v ===== *)
(** What the clients of a backend reason with: which content a handle has, and how each operation
    through an active handle changes it, derived once from the contract of [StateBackend.v]. *)

From S2P Require Import Prelude Error Serialization StateBackend.

(** ** The content of handles *)

Section content.
Context {B : Type} `{BackendRep B}.

(** The handle is registered and [Rep] represents [x] under its metakeys. *)
Definition holds {S IK N X} `{Metakey IK, Metakey N} (Rep : Region → bytes → X → Prop) (b : B)
    (h : Handle S IK N) (x : X) : Prop :=
  registered h = true ∧ ∃ r, region b (h_id h) = Some r ∧ Rep r (metakeys h) x.

(** [b'] differs from [b] at most in the regions of [ids]. *)
Definition changes (ids : gset string) (b b' : B) : Prop :=
  ∀ id, id ∉ ids → region b' id = region b id.

#[export] Instance changes_preorder ids : PreOrder (changes ids).
Proof.
  split.
  - by intros b id.
  - intros b1 b2 b3 H1 H2 id Hid. by rewrite H2, H1.
Qed.
Lemma changes_weaken ids ids' b b' : ids ⊆ ids' → changes ids b b' → changes ids' b b'.
Proof. intros Hs Hc id Hid. apply Hc. set_solver. Qed.
Lemma same_data_changes ids b b' : same_data b b' → changes ids b b'.
Proof. by intros Hs id _. Qed.
Lemma updates_changes b b' id r : updates b b' id r → changes {[id]} b b'.
Proof. intros [_ Hu] id' Hid. apply Hu. set_solver. Qed.
Lemma holds_frame {S IK N X} `{Metakey IK, Metakey N} (Rep : Region → bytes → X → Prop) ids b b'
    (h : Handle S IK N) x :
  changes ids b b' → h_id h ∉ ids → holds Rep b h x → holds Rep b' h x.
Proof. intros Hc Hid [Hreg (r & Hr & Hx)]. split; [done|]. exists r. by rewrite Hc. Qed.
End content.

Abbreviation holds_value b h x := (holds ValRep b h x).
Abbreviation holds_vec b h l := (holds VecRep b h l).
Abbreviation holds_map b h m := (holds MapRep b h m).

(** ** Operations through active handles *)

(** Running [m] returns [a] and changes at most the regions of [ids], ending in a backend with [Q]. *)
Definition runs {B E A} `{BackendRep B} (m : M B E A) (b : B) (a : A) (ids : gset string)
    (Q : B → Prop) : Prop :=
  ∃ b', m b = (Ok a, b') ∧ changes ids b b' ∧ Q b'.
Lemma runs_outcome {B E E' A A'} `{BackendRep B} (f : outcome E A → outcome E' A') (m : M B E A) b a a' ids Q :
  runs m b a ids Q → f (Ok a) = Ok a' → runs (on_outcome f m) b a' ids Q.
Proof. intros (b' & E1 & Hc & HQ) Hf. exists b'. unfold on_outcome. rewrite E1. by rewrite Hf. Qed.
Lemma runs_weaken {B E A} `{BackendRep B} (m : M B E A) b a ids ids' (Q Q' : B → Prop) :
  runs m b a ids Q → ids ⊆ ids' → (∀ b', Q b' → Q' b') → runs m b a ids' Q'.
Proof. intros (b' & E1 & Hc & HQ) Hi HQ'. exists b'. split; [done|]. split; [by eapply changes_weaken|by apply HQ']. Qed.
Lemma runs_bind {B E A A'} `{BackendRep B} (m : M B E A) (k : A → M B E A') b a a' ids Q Q' :
  runs m b a ids Q → (∀ b', Q b' → changes ids b b' → runs (k a) b' a' ids Q') → runs (m ≫= k) b a' ids Q'.
Proof.
  intros (b1 & E1 & Hc1 & HQ) Hk. destruct (Hk b1 HQ Hc1) as (b2 & E2 & Hc2 & HQ'). exists b2.
  split; [by step_ok E1|]. split; [by etrans|done].
Qed.

Section active.
Context {B : Type} `{BackendRep B} {S : StateType} {IK N X A : Type} `{Metakey IK, Metakey N}.
Implicit Types (h : Handle S IK N) (f : Handle S IK N → StateM B A).

Lemma active_reads (Rep : Region → bytes → X → Prop) h f b x a :
  holds Rep b h x →
  (∀ r, region b (h_id h) = Some r → Rep r (metakeys h) x → reads (f h) b a) →
  runs (activate h ≫= f) b a ∅ (λ _, True).
Proof.
  intros [Hreg (r & Hr & Hx)] Hf. destruct (Hf r Hr Hx) as (b' & E & Hs). exists b'.
  unfold activate. rewrite Hreg. split; [exact E|]. split; [by apply same_data_changes|done].
Qed.
Lemma active_writes {X'} (Rep : Region → bytes → X → Prop) (Rep' : Region → bytes → X' → Prop) h f b x a x' :
  holds Rep b h x →
  (∀ r, region b (h_id h) = Some r → Rep r (metakeys h) x →
    writes Rep' (f h) b (h_id h) r (metakeys h) a x') →
  runs (activate h ≫= f) b a {[h_id h]} (λ b', holds Rep' b' h x').
Proof.
  intros [Hreg (r & Hr & Hx)] Hf. destruct (Hf r Hr Hx) as (b' & r' & E & Hu & Hx' & _). exists b'.
  unfold activate. rewrite Hreg. split; [exact E|]. split; [by eapply updates_changes|].
  split; [done|]. exists r'. by destruct Hu.
Qed.
End active.

Section operations.
#[local] Set Default Proof Using "All".
Context {B : Type} `{BackendSpec B} {IK N : Type} `{Metakey IK, Metakey N}.
Context {T : Type} `{Value T}.

Section value.
Implicit Types (h : Handle (ValueState T) IK N) (b : B).
Lemma value_get_runs h b x : holds ValRep b h x → runs (ActiveValue.get h) b x ∅ (λ _, True).
Proof. intros Hh. eapply active_reads; [exact Hh|]. intros. by eapply value_get_spec. Qed.
Lemma value_set_runs h b x v :
  holds ValRep b h x → runs (ActiveValue.set h v) b x {[h_id h]} (λ b', holds ValRep b' h (Some v)).
Proof. intros Hh. eapply active_writes; [exact Hh|]. intros. by eapply value_set_spec. Qed.
Lemma value_fast_set_runs h b x v :
  holds ValRep b h x → runs (ActiveValue.fast_set h v) b tt {[h_id h]} (λ b', holds ValRep b' h (Some v)).
Proof. intros Hh. eapply active_writes; [exact Hh|]. intros. by eapply value_fast_set_spec. Qed.
End value.

Section vec.
Implicit Types (h : Handle (VecState T) IK N) (b : B).
Lemma vec_get_runs h b l : holds VecRep b h l → runs (ActiveVec.get h) b l ∅ (λ _, True).
Proof. intros Hh. eapply active_reads; [exact Hh|]. intros. by eapply vec_get_spec. Qed.
Lemma vec_is_empty_runs h b l : holds VecRep b h l → runs (ActiveVec.is_empty h) b (bool_decide (l = [])) ∅ (λ _, True).
Proof. intros Hh. eapply active_reads; [exact Hh|]. intros. by eapply vec_is_empty_spec. Qed.
Lemma vec_append_runs h b l v :
  holds VecRep b h l → vec_fits (l ++ [v]) → runs (ActiveVec.append h v) b tt {[h_id h]} (λ b', holds VecRep b' h (l ++ [v])).
Proof. intros Hh Hf. eapply active_writes; [exact Hh|]. intros. by eapply vec_append_spec. Qed.
Lemma vec_clear_runs h b l :
  holds VecRep b h l → runs (ActiveVec.clear h) b tt {[h_id h]} (λ b', holds VecRep b' h ([] : list T)).
Proof. intros Hh. eapply active_writes; [exact Hh|]. intros. by eapply vec_clear_spec. Qed.
End vec.
End operations.

Section map_operations.
#[local] Set Default Proof Using "All".
Context {B K V IK N : Type} `{BackendSpec B, Key K, !MessageLaws K, EqDecision K, !Countable K,
  Value V, Metakey IK, Metakey N, !MapSpec B K V IK N}.
Implicit Types (h : Handle (MapState K V) IK N) (b : B) (m : gmap K V).

Lemma map_get_runs h b m k : holds MapRep b h m → runs (ActiveMap.get h k) b (m !! k) ∅ (λ _, True).
Proof. intros Hh. eapply active_reads; [exact Hh|]. intros. by eapply map_get_spec. Qed.
Lemma map_contains_runs h b m k : holds MapRep b h m → runs (ActiveMap.contains h k) b (bool_decide (is_Some (m !! k))) ∅ (λ _, True).
Proof. intros Hh. eapply active_reads; [exact Hh|]. intros. by eapply map_contains_spec. Qed.
Lemma map_len_runs h b m : holds MapRep b h m → runs (ActiveMap.len h) b (Z.of_nat (size m)) ∅ (λ _, True).
Proof. intros Hh. eapply active_reads; [exact Hh|]. intros. by eapply map_len_spec. Qed.
Lemma map_insert_runs h b m k v :
  holds MapRep b h m → runs (ActiveMap.insert h k v) b (m !! k) {[h_id h]} (λ b', holds MapRep b' h (<[k := v]> m)).
Proof. intros Hh. eapply active_writes; [exact Hh|]. intros. by eapply map_insert_spec. Qed.
Lemma map_fast_insert_runs h b m k v :
  holds MapRep b h m → runs (ActiveMap.fast_insert h k v) b tt {[h_id h]} (λ b', holds MapRep b' h (<[k := v]> m)).
Proof. intros Hh. eapply active_writes; [exact Hh|]. intros. by eapply map_fast_insert_spec. Qed.
Lemma map_remove_runs h b m k :
  holds MapRep b h m → runs (ActiveMap.remove h k) b (m !! k) {[h_id h]} (λ b', holds MapRep b' h (delete k m)).
Proof. intros Hh. eapply active_writes; [exact Hh|]. intros. by eapply map_remove_spec. Qed.
Lemma map_clear_runs h b m :
  holds MapRep b h m → runs (ActiveMap.clear h) b tt {[h_id h]} (λ b', holds MapRep b' h (∅ : gmap K V)).
Proof. intros Hh. eapply active_writes; [exact Hh|]. intros. by eapply map_clear_spec. Qed.
Lemma map_values_runs h b m :
  holds MapRep b h m →
  ∃ l, runs (ActiveMap.values h) b (Ok <$> l) ∅ (λ _, True) ∧ l ≡ₚ (map_to_list m).*2.
Proof.
  intros [Hreg (r & Hr & Hx)]. destruct (map_values_spec h b r m Hr Hx) as (l & Hl & Hp).
  exists l. split; [|done]. eapply active_reads; [by split; [|exists r]|done].
Qed.
Lemma map_iter_runs h b m :
  handle_wf h → holds MapRep b h m →
  ∃ l, runs (ActiveMap.iter h) b (Ok <$> l) ∅ (λ _, True) ∧ l ≡ₚ map_to_list m.
Proof.
  intros Hw [Hreg (r & Hr & Hx)]. destruct (map_iter_spec h b r m Hw Hr Hx) as (l & Hl & Hp).
  exists l. split; [|done]. eapply active_reads; [by split; [|exists r]|done].
Qed.
End map_operations.

(** ** Registration

    A handle that is registered for the first time finds nothing; in a restored backend it finds what
    was stored under its id. *)
Definition stored {B S IK N X} `{BackendRep B, Metakey IK, Metakey N}
    (Rep : Region → bytes → X → Prop) (x0 : X) (b : B) (h : Handle S IK N) (x : X) : Prop :=
  match region b (h_id h) with
  | Some r => Rep r (metakeys h) x
  | None => x = x0
  end.

Lemma registers_holds {B S IK N X} `{BackendRep B, Metakey IK, Metakey N}
    (Stored Rep : Region → bytes → X → Prop) (x0 x : X) (m : StateM B (Handle S IK N)) b h :
  registers Stored Rep x0 m b h → stored Stored x0 b h x →
  ∃ b', m b = (Ok (set_registered h), b') ∧ backend_ok b' ∧ changes {[h_id h]} b b' ∧
    holds Rep b' (set_registered h) x.
Proof.
  intros (b' & r' & E & Hok & Hu & Hr') Hx. exists b'. split; [exact E|]. split; [done|].
  split; [by eapply updates_changes|]. split; [done|]. exists r'. split; [by destruct Hu|].
  unfold stored in Hx. destruct (region b (h_id h)) as [r|]; subst; apply Hr'; by rewrite ?length_metakeys.
Qed.
Lemma stored_frame {B S IK N X} `{BackendRep B, Metakey IK, Metakey N}
    (Rep : Region → bytes → X → Prop) x0 ids (b b' : B) (h : Handle S IK N) x :
  changes ids b b' → h_id h ∉ ids → stored Rep x0 b h x → stored Rep x0 b' h x.
Proof. intros Hc Hid. unfold stored. by rewrite Hc. Qed.

(** Registering a handle finds what is stored, or the empty state. *)
Definition registers_to {B S IK N X} `{BackendRep B, Metakey IK, Metakey N}
    (Rep : Region → bytes → X → Prop) (m : StateM B (Handle S IK N)) b h (x : X) : Prop :=
  ∃ b', m b = (Ok (set_registered h), b') ∧ backend_ok b' ∧ changes {[h_id h]} b b' ∧
    holds Rep b' (set_registered h) x.

Section registration.
#[local] Set Default Proof Using "All".
Context {B IK N : Type} `{BackendSpec B, Metakey IK, Metakey N}.
Lemma register_value_holds {T} `{Value T} (h : Handle (ValueState T) IK N) b x :
  backend_ok b → stored ValRep None b h x → registers_to ValRep (register_value_handle h) b h x.
Proof. intros. eapply registers_holds; [by apply register_value_spec|done]. Qed.
Lemma register_map_holds {K V} `{Key K, !MessageLaws K, EqDecision K, !Countable K, Value V}
    (h : Handle (MapState K V) IK N) b (m : gmap K V) :
  backend_ok b → stored MapRep ∅ b h m → registers_to MapRep (register_map_handle h) b h m.
Proof. intros. eapply registers_holds; [by apply register_map_spec|done]. Qed.
Lemma register_vec_holds {T} `{Value T} (h : Handle (VecState T) IK N) b l :
  backend_ok b → stored VecStored [] b h l → registers_to VecRep (register_vec_handle h) b h l.
Proof. intros. eapply registers_holds; [by apply register_vec_spec|done]. Qed.
End registration.

(** ** Handles with item keys and namespaces *)

(** The handle at an item key and a namespace. *)
Definition handle_at {S IK N} (h : Handle S IK N) (k : IK) (n : N) : Handle S IK N :=
  set_namespace (set_item_key h k) n.

Section families.
Context {B : Type} `{BackendRep B} {S : StateType} {IK N X A : Type} `{Metakey IK, Metakey N, EqDecision IK, EqDecision N}.
Implicit Types (h : Handle S IK N) (f : IK → N → X) (op : Handle S IK N → StateM B A).

(** The handle has the content [f k n] at every item key [k] and namespace [n]. *)
Definition holds_all (Rep : Region → bytes → X → Prop) (b : B) h f : Prop :=
  registered h = true ∧ ∃ r, region b (h_id h) = Some r ∧
    ∀ k n, mk_wf k → mk_wf n → Rep r (metakeys (handle_at h k n)) (f k n).
Definition update_at (k : IK) (n : N) (x : X) f : IK → N → X := λ k' n', if decide (k' = k ∧ n' = n) then x else f k' n'.
Lemma update_at_eq k n x f : update_at k n x f k n = x.
Proof. unfold update_at. by rewrite decide_True. Qed.
Lemma update_at_ne k n x f k' n' : (k', n') ≠ (k, n) → update_at k n x f k' n' = f k' n'.
Proof. intros Hne. unfold update_at. rewrite decide_False; [done|]. intros [-> ->]. done. Qed.

(** What a backend stores for the handle before it is registered. *)
Definition stored_all (Rep : Region → bytes → X → Prop) (x0 : X) (b : B) h f : Prop :=
  match region b (h_id h) with
  | Some r => ∀ k n, mk_wf k → mk_wf n → Rep r (metakeys (handle_at h k n)) (f k n)
  | None => ∀ k n, mk_wf k → mk_wf n → f k n = x0
  end.
Lemma registers_holds_all Stored Rep x0 (m : StateM B (Handle S IK N)) b h f :
  registers Stored Rep x0 m b h → stored_all Stored x0 b h f →
  ∃ b', m b = (Ok (set_registered h), b') ∧ backend_ok b' ∧ changes {[h_id h]} b b' ∧
    holds_all Rep b' (set_registered h) f.
Proof.
  intros (b' & r' & E & Hok & Hu & Hr') Hf. exists b'. split; [exact E|]. split; [done|].
  split; [by eapply updates_changes|]. split; [done|]. exists r'. split; [by destruct Hu|]. intros k n Hk Hn.
  unfold stored_all in Hf. destruct (region b (h_id h)) as [r|]; subst; [apply Hr'; [by rewrite length_metakeys|by apply Hf]|]. rewrite Hf by done. apply Hr'. by rewrite length_metakeys.
Qed.
Lemma stored_all_frame Rep x0 ids b b' h f :
  changes ids b b' → h_id h ∉ ids → stored_all Rep x0 b h f → stored_all Rep x0 b' h f.
Proof. intros Hc Hid. unfold stored_all. by rewrite Hc. Qed.

Lemma holds_all_at Rep b h f k n :
  holds_all Rep b h f → mk_wf k → mk_wf n → holds Rep b (handle_at h k n) (f k n).
Proof. intros [Hreg (r & Hr & Hf)] Hk Hn. split; [done|]. exists r. split; [done|]. by apply Hf. Qed.
Lemma holds_all_frame Rep ids b b' h f :
  changes ids b b' → h_id h ∉ ids → holds_all Rep b h f → holds_all Rep b' h f.
Proof. intros Hc Hid [Hreg (r & Hr & Hf)]. split; [done|]. exists r. by rewrite Hc. Qed.
Lemma holds_all_ext Rep b h f g :
  (∀ k n, mk_wf k → mk_wf n → f k n = g k n) → holds_all Rep b h f → holds_all Rep b h g.
Proof.
  intros Hfg [Hreg (r & Hr & Hf)]. split; [done|]. exists r. split; [done|]. intros k n Hk Hn. rewrite <- Hfg by done. by apply Hf.
Qed.
Lemma active_writes_at Rep h op b f a k n x :
  mk_wf k → mk_wf n → holds_all Rep b h f →
  (∀ r, region b (h_id h) = Some r → Rep r (metakeys (handle_at h k n)) (f k n) →
    writes Rep (op (handle_at h k n)) b (h_id h) r (metakeys (handle_at h k n)) a x) →
  runs (activate (handle_at h k n) ≫= op) b a {[h_id h]} (λ b', holds_all Rep b' h (update_at k n x f)).
Proof.
  intros Hk Hn [Hreg (r & Hr & Hf)] Hop. destruct (Hop r Hr (Hf k n Hk Hn)) as (b' & r' & E & Hu & Hx & Hfr).
  exists b'. unfold activate. cbn [registered handle_at set_namespace set_item_key with_namespace with_item_key].
  rewrite Hreg. split; [exact E|]. split; [by eapply updates_changes|]. split; [done|]. exists r'.
  split; [by destruct Hu|]. intros k' n' Hk' Hn'. unfold update_at. case_decide as Heq; [by destruct Heq as [-> ->]|].
  destruct (metakeys_disjoint (handle_at h k' n') (handle_at h k n)) as [Hne Hlen]; [done|done| |by apply Hfr, Hf].
  cbn. intros [= -> ->]. by apply Heq.
Qed.
End families.

(** Registrations return no [Result]. *)
Definition registering {B A} (m : StateM B A) : M B Error A := on_outcome (expect_ok "registration failed") m.
Lemma registering_all {B} {S : StateType} {IK N X} `{BackendRep B, Metakey IK, Metakey N}
    (Stored Rep : Region → bytes → X → Prop) x0 (m : StateM B (Handle S IK N)) b h (f : IK → N → X) :
  registers Stored Rep x0 m b h → stored_all Stored x0 b h f →
  ∃ b', registering m b = (Ok (set_registered h), b') ∧ backend_ok b' ∧ changes {[h_id h]} b b' ∧
    holds_all Rep b' (set_registered h) f.
Proof.
  intros Hm Hf. destruct (registers_holds_all Stored Rep x0 m b h f Hm Hf) as (b' & E & Hb). exists b'.
  split; [|done]. unfold registering, on_outcome. by rewrite E.
Qed.
