(* ===== verification/Timer.v ===== *)
(** [arcon/src/timer]: the interface of timers, the timer of components that need none, and the
    event timer, which keeps its timeouts in the state backend and in a hash wheel. *)

From S2P Require Import Prelude Error Serialization StateBackend BackendClient Data.

(** ** The interface ([timer/mod.rs]) *)

(** A timer, the backend of the session it is given, and the randomness drawn so far, from which
    [Uuid::new_v4] makes its ids. *)
Record TimerEnv (T B : Type) : Type := MkTimerEnv { timer : T; sb : B; drawn : nat }.
Arguments MkTimerEnv {T B}.
Arguments timer {T B}.
Arguments sb {T B}.
Arguments drawn {T B}.

Definition set_timer {T B} (t : T) (s : TimerEnv T B) : TimerEnv T B := MkTimerEnv t (sb s) (drawn s).
Definition set_sb {T B} (b : B) (s : TimerEnv T B) : TimerEnv T B := MkTimerEnv (timer s) b (drawn s).

(** An operation of the backend whose error the caller unwraps with [expect]. *)
Definition sb_expect {T B A} (msg : string) (m : StateM B A) : M (TimerEnv T B) Error A :=
  zoom sb set_sb (on_outcome (expect_ok msg) m).

(** Registrations return no [Result]: a failure inside one panics. *)
Definition sb_register {T B A} (m : StateM B A) : M (TimerEnv T B) Error A :=
  sb_expect "registration failed" m.

(** [Result<(), E>] as a value. *)
Abbreviation Scheduled E := (unit + E)%type.

Class TimerBackend (T E : Type) (B : Type) := {
  timer_register_states : M (TimerEnv T B) Error unit;
  timer_init : M (TimerEnv T B) Error unit;
  schedule_after : Z → E → M (TimerEnv T B) Error (Scheduled E);
  schedule_at : Z → E → M (TimerEnv T B) Error (Scheduled E);
  current_time : M (TimerEnv T B) Error Z;
  advance_to : Z → M (TimerEnv T B) Error (list E);
  timer_handle_epoch : Epoch → M (TimerEnv T B) Error unit;
}.

(** The implementation for [()]. *)
#[export] Instance unit_TimerBackend B : TimerBackend unit ArconNever B := {
  timer_register_states := mret tt;
  timer_init := mret tt;
  schedule_after _ e := match e with end;
  schedule_at _ e := match e with end;
  current_time := panic "No point in calling this if you don't need timers anyway.";
  advance_to _ := mret [];
  timer_handle_epoch _ := mret tt;
}.

(** ** The hash wheel and the source of ids, which are third-party code *)

Inductive Skip : Type := SkipEmpty | SkipMillis (ms : Z) | SkipNone.
Inductive TimerError (X : Type) : Type := NotFound | Expired (x : X).
Arguments NotFound {X}.
Arguments Expired {X}.

(** [QuadWheelWithOverflow<String>]. *)
Class QuadWheel (W : Type) := {
  wheel_default : W;
  insert_with_delay : string → Z → W → (unit + TimerError string) * W;
  can_skip : W → Skip;
  wheel_skip : Z → W → W;
  wheel_tick : W → list string * W;
}.
Class Uuids := new_v4 : nat → string.

(** The documented behaviour of the wheel: it holds entries with the milliseconds that remain until
    they expire, an entry without a remaining delay is refused as expired, [can_skip] allows skipping
    for as long as nothing expires, and a tick returns the entries that expire in this millisecond. *)
Class QuadWheelLaws (W : Type) `{QuadWheel W} := {
  pending : W → list (string * Z);
  pending_default : pending wheel_default = [];
  insert_spec id d w : 0 ≤ d →
    if decide (d = 0) then insert_with_delay id d w = (inr (Expired id), w)
    else ∃ w', insert_with_delay id d w = (inl tt, w') ∧ pending w' ≡ₚ (id, d) :: pending w;
  can_skip_spec w :
    match can_skip w with
    | SkipEmpty => pending w = []
    | SkipMillis ms => 0 < ms ∧ Forall (λ e, ms < e.2) (pending w)
    | SkipNone => True
    end;
  skip_spec ms allowed w : can_skip w = SkipMillis allowed → 0 ≤ ms ≤ allowed →
    pending (wheel_skip ms w) ≡ₚ prod_map id (λ d, d - ms) <$> pending w;
  tick_spec w : Forall (λ e, 0 < e.2) (pending w) →
    (wheel_tick w).1 ≡ₚ (filter (λ e, e.2 = 1) (pending w)).*1 ∧
    pending (wheel_tick w).2 ≡ₚ prod_map id (λ d, d - 1) <$> filter (λ e, e.2 ≠ 1) (pending w);
}.
Class UuidLaws `{Uuids} : Prop := new_v4_inj :: Inj (=) (=) new_v4.

(** ** The event timer ([timer/event_timer.rs]) *)

Record EventTimerEvent (E : Type) : Type := MkEventTimerEvent {
  time_when_scheduled : Z;
  timeout_millis : Z;
  payload : E;
}.
Arguments MkEventTimerEvent {E}.
Arguments time_when_scheduled {E}.
Arguments timeout_millis {E}.
Arguments payload {E}.

Record EventTimer (W E : Type) : Type := MkEventTimer {
  wheel : W;
  ts_current_time : Handle (ValueState u64) unit unit;
  ts_timeouts : Handle (MapState string (EventTimerEvent E)) unit unit;
}.
Arguments MkEventTimer {W E}.
Arguments wheel {W E}.
Arguments ts_current_time {W E}.
Arguments ts_timeouts {W E}.

Section event_timer.
Context `{BuildProfile, Uuids} {W : Type} `{QuadWheel W} {E B : Type} `{Backend B}.
Context `{Value u64, Key string, Value (EventTimerEvent E)}.
Abbreviation Env := (TimerEnv (EventTimer W E) B).

Definition EventTimer_new : EventTimer W E :=
  MkEventTimer wheel_default (value_handle u64 "__event_timer_current_time")
    (map_handle string (EventTimerEvent E) "__event_timer_timeouts").

Definition set_wheel (w : W) (s : Env) : Env :=
  set_timer (MkEventTimer w (ts_current_time (timer s)) (ts_timeouts (timer s))) s.

(** An operation of the wheel. *)
Definition on_wheel {A} (f : W → A * W) : M Env Error A := λ s,
  let '(a, w) := f (wheel (timer s)) in (Ok a, set_wheel w s).

(** [Uuid::new_v4().to_string()] *)
Definition new_id : M Env Error string := λ s,
  (Ok (new_v4 (drawn s)), MkTimerEnv (timer s) (sb s) (S (drawn s))).

Definition et_current_time : M Env Error Z :=
  t ← gets timer;
  o ← sb_expect "couldn't get current time" (ActiveValue.get (ts_current_time t));
  x ← lift (expect "called `Option::unwrap()` on a `None` value" o);
  mret (uint_val x).
Definition set_time (ts : Z) : M Env Error unit :=
  t ← gets timer;
  sb_expect "could not set current time" (ActiveValue.fast_set (ts_current_time t) (UInt ts)).
Definition add_time (by_ : Z) : M Env Error unit :=
  cur ← et_current_time;
  new_time ← lift (u_add 64 cur by_);
  set_time new_time.

Definition take_entry (id : string) : M Env Error (option E) :=
  t ← gets timer;
  e ← sb_expect "no timeout found for id" (ActiveMap.remove (ts_timeouts t) id);
  mret (payload <$> e).
Definition put_entry (id : string) (e : EventTimerEvent E) : M Env Error unit :=
  t ← gets timer;
  sb_expect "couldn't persist timeout" (ActiveMap.fast_insert (ts_timeouts t) id e).

(** One entry of [replay_events], and the loop over all of them. *)
Definition replay_entry (time : Z) (res : StateResult (string * EventTimerEvent E)) : M Env Error unit :=
  kv ← lift (expect_ok "could not get timeout entry" res);
  due ← lift (u_add 64 (time_when_scheduled kv.2) (timeout_millis kv.2));
  delay ← lift (u_sub 64 due time);
  r ← on_wheel (insert_with_delay kv.1 delay);
  match r with
  | inl _ => mret tt
  | inr _ => panic "A timeout has expired during replay"
  end.
Definition replay_events : M Env Error unit :=
  time ← et_current_time;
  t ← gets timer;
  entries ← sb_expect "could not get timeouts" (ActiveMap.iter (ts_timeouts t));
  for_each (replay_entry time) entries.

(** The body of the [for] loop over the entries that a tick returned. *)
Fixpoint take_entries (ids : list string) (res : list E) : M Env Error (list E) :=
  match ids with
  | [] => mret res
  | id :: ids' =>
      e ← take_entry id;
      take_entries ids' (match e with Some entry => res ++ [entry] | None => res end)
  end.

(** [tick_and_collect], one unit of [fuel] per iteration of its loop. *)
Fixpoint tick_loop (fuel : nat) (time_left : Z) (res : list E) : M Env Error (list E) :=
  match fuel with
  | O => lift Diverge
  | S fuel' =>
      if 0 <? time_left then
        t ← gets timer;
        match can_skip (wheel t) with
        | SkipEmpty => add_time time_left ;; mret res
        | SkipMillis skip_ms =>
            if time_left <=? skip_ms then
              on_wheel (λ w, (tt, wheel_skip time_left w)) ;;
              add_time time_left ;;
              mret res
            else
              on_wheel (λ w, (tt, wheel_skip skip_ms w)) ;;
              add_time skip_ms ;;
              time_left ← lift (u_sub 32 time_left skip_ms);
              tick_loop fuel' time_left res
        | SkipNone =>
            ids ← on_wheel wheel_tick;
            res ← take_entries ids res;
            add_time 1 ;;
            time_left ← lift (u_sub 32 time_left 1);
            tick_loop fuel' time_left res
        end
      else mret res
  end.
(** Every iteration takes at least a millisecond off. *)
Definition tick_and_collect (time_left : Z) (res : list E) : M Env Error (list E) :=
  tick_loop (S (Z.to_nat time_left)) time_left res.

Definition et_schedule_after (delay : Z) (entry : E) : M Env Error (Scheduled E) :=
  id ← new_id;
  r ← on_wheel (insert_with_delay id delay);
  match r with
  | inl _ =>
      now ← et_current_time;
      put_entry id (MkEventTimerEvent now delay entry) ;;
      mret (inl tt)
  | inr (Expired _) => mret (inr entry)
  | inr _ => panic "Could not insert timer entry!"
  end.
Definition et_schedule_at (time : Z) (entry : E) : M Env Error (Scheduled E) :=
  cur_time ← et_current_time;
  if time <=? cur_time then mret (inr entry)
  else
    delay ← lift (u_sub 64 time cur_time);
    et_schedule_after delay entry.

(** The loop of [advance_to] over chunks of [u32::MAX] milliseconds. *)
Fixpoint advance_loop (fuel : nat) (time_left : Z) (res : list E) : M Env Error (list E) :=
  match fuel with
  | O => lift Diverge
  | S fuel' =>
      if u32_max <? time_left then
        res ← tick_and_collect u32_max res;
        time_left ← lift (u_sub 64 time_left u32_max);
        advance_loop fuel' time_left res
      else tick_and_collect time_left res
  end.
Definition et_advance_to (ts : Z) : M Env Error (list E) :=
  cur_time ← et_current_time;
  if ts <? cur_time then mret []
  else
    time_left ← lift (u_sub 64 ts cur_time);
    advance_loop (S (Z.to_nat (time_left / u32_max))) time_left [].

Definition et_register_states : M Env Error unit :=
  t ← gets timer;
  c ← sb_register (register_value_handle (ts_current_time t));
  m ← sb_register (register_map_handle (ts_timeouts t));
  modify (set_timer (MkEventTimer (wheel t) c m)).

Definition init_current_time : M Env Error unit :=
  t ← gets timer;
  o ← sb_expect "could not check current time" (ActiveValue.get (ts_current_time t));
  match o with
  | None => sb_expect "could not set current time" (ActiveValue.set (ts_current_time t) (UInt 0)) ;; mret tt
  | Some _ => mret tt
  end.
Definition et_init : M Env Error unit := init_current_time ;; replay_events.

#[export] Instance EventTimer_TimerBackend : TimerBackend (EventTimer W E) E B := {
  timer_register_states := et_register_states;
  timer_init := et_init;
  schedule_after := et_schedule_after;
  schedule_at := et_schedule_at;
  current_time := et_current_time;
  advance_to := et_advance_to;
  timer_handle_epoch _ := mret tt;
}.
End event_timer.
