(* ===== verification/TimerSpec.v ===== *)
(** What the event timer promises: a clock and a finite map of timeouts, of which advancing the clock
    fires exactly the due ones, in the order of their deadlines. *)

From S2P Require Import Prelude Error Serialization StateBackend InMemory BackendLaws BackendClient Data Timer.
From Stdlib Require Import Sorting.Sorted.

Lemma map_to_list_union {K X} `{Countable K} (m1 m2 : gmap K X) :
  m1 ##ₘ m2 → map_to_list (m1 ∪ m2) ≡ₚ map_to_list m1 ++ map_to_list m2.
Proof.
  intros Hd. apply NoDup_Permutation.
  - apply NoDup_map_to_list.
  - apply NoDup_app. split; [apply NoDup_map_to_list|]. split; [|apply NoDup_map_to_list].
    intros [k x]. rewrite !elem_of_map_to_list. intros H1 H2. by eapply map_disjoint_spec.
  - intros [k x]. rewrite elem_of_app, !elem_of_map_to_list. by rewrite lookup_union_Some.
Qed.

Lemma NoDup_filter_fst {K X} (P : K * X → Prop) `{!∀ x, Decision (P x)} (l : list (K * X)) :
  NoDup l.*1 → NoDup (filter P l).*1.
Proof.
  induction l as [|[k x] l IH]; [done|]. rewrite filter_cons, fmap_cons. intros [Hk Hl]%NoDup_cons.
  case_decide; [|by apply IH]. rewrite fmap_cons. apply NoDup_cons. split; [|by apply IH].
  rewrite list_elem_of_fmap. intros ([k' x'] & ? & Hin%list_elem_of_filter). cbn in *. subst.
  apply Hk, list_elem_of_fmap. exists (k', x'). by destruct Hin.
Qed.
Lemma entries_of {K X} `{Countable K} (m : gmap K X) (ids : list K) :
  (∀ k, k ∈ ids → k ∈ dom m) → ∃ kvs, kvs.*1 = ids ∧ ∀ kv, kv ∈ kvs → m !! kv.1 = Some kv.2.
Proof.
  induction ids as [|k ids IH]; intros Hin.
  - exists []. split; [done|]. by intros kv ?%elem_of_nil.
  - destruct IH as (kvs & <- & Hkvs); [intros; apply Hin; by right|].
    assert (k ∈ dom m) as [x Hx]%elem_of_dom by (apply Hin; by left).
    exists ((k, x) :: kvs). split; [done|]. intros kv [->|?]%elem_of_cons; [done|by apply Hkvs].
Qed.

Lemma sorted_app {X} (R : X → X → Prop) l1 l2 :
  StronglySorted R l1 → StronglySorted R l2 → (∀ a b, a ∈ l1 → b ∈ l2 → R a b) →
  StronglySorted R (l1 ++ l2).
Proof.
  induction 1 as [|a l1 Hs IH Ha]; intros H2 H12; cbn; [done|]. constructor.
  - apply IH; [done|]. intros. apply H12; [by right|done].
  - apply Forall_app. split; [done|]. apply Forall_forall. intros b Hb. apply H12; [by left|done].
Qed.

(** ** The specification *)

Section spec.
Context {E : Type}.
Implicit Types (m : gmap string (EventTimerEvent E)) (l : list (EventTimerEvent E)).

Definition due (e : EventTimerEvent E) : Z := time_when_scheduled e + timeout_millis e.
Definition earlier (a b : EventTimerEvent E) : Prop := due a ≤ due b.

(** Advancing to [ts] fires [l] out of [m], and [m'] is what remains. *)
Record fires m (ts : Z) l m' : Prop := {
  fires_events : l ≡ₚ (map_to_list (filter (λ kv, due kv.2 ≤ ts) m)).*2;
  fires_sorted : StronglySorted earlier l;
  fires_rest : m' = filter (λ kv, ts < due kv.2) m;
}.

Lemma fires_bound m ts l m' : fires m ts l m' → Forall (λ e, due e ≤ ts) l.
Proof.
  intros [Hl _ _]. rewrite Hl, Forall_fmap, Forall_forall. intros [k e] Hk.
  apply elem_of_map_to_list, map_lookup_filter_Some in Hk as [_ Hk]. exact Hk.
Qed.
Lemma fires_none m ts : map_Forall (λ _ e, ts < due e) m → fires m ts [] m.
Proof.
  intros Hm. split; [|constructor|].
  - rewrite map_empty_filter_2; [done|]. intros k e He. specialize (Hm k e He). cbn in *. lia.
  - symmetry. apply map_filter_id. intros k e He. by specialize (Hm k e He).
Qed.
Lemma fires_trans m mid ts l1 m1 l2 m2 :
  mid ≤ ts → fires m mid l1 m1 → fires m1 ts l2 m2 → fires m ts (l1 ++ l2) m2.
Proof.
  intros Hle H1 H2. pose proof (fires_bound _ _ _ _ H1) as Hb1.
  destruct H1 as [E1 S1 ->], H2 as [E2 S2 ->]. split.
  - rewrite E1, E2, <- fmap_app, map_filter_filter. f_equiv.
    rewrite <- map_to_list_union.
    + apply Permutation_refl'. f_equal. apply map_eq. intros k. apply option_eq. intros e.
      rewrite lookup_union_Some, !map_lookup_filter_Some; cbn; [|].
      * split; [intros [[? ?]|[? [? ?]]]; (split; [done|lia])|].
        intros [He ?]. destruct (decide (due e ≤ mid)); [left|right]; (split; [done|lia]).
      * apply map_disjoint_spec. intros k' x y. rewrite !map_lookup_filter_Some. cbn.
        intros [? ?] [? [? ?]]. simplify_eq. lia.
    + apply map_disjoint_spec. intros k' x y. rewrite !map_lookup_filter_Some. cbn.
      intros [? ?] [? [? ?]]. simplify_eq. lia.
  - apply sorted_app; [done..|]. intros a b Ha Hb. unfold earlier.
    rewrite Forall_forall in Hb1. specialize (Hb1 a Ha). cbn in Hb1.
    rewrite E2, list_elem_of_fmap in Hb. destruct Hb as ([k e] & -> & Hk).
    apply elem_of_map_to_list in Hk. rewrite !map_lookup_filter_Some in Hk. cbn in *. lia.
  - rewrite map_filter_filter. apply map_filter_ext. intros k e _. cbn. lia.
Qed.
End spec.

(** ** The invariant *)

Section event_timer.
#[local] Set Default Proof Using "All".
Context {profile : BuildProfile} `{UuidLaws} {W : Type} `{QuadWheelLaws W} {E B : Type} `{BackendSpec B}.
Context `{Value u64, Key string, !MessageLaws string, Value (EventTimerEvent E)}.
Context `{!MapSpec B string (EventTimerEvent E) unit unit}.
Abbreviation Env := (TimerEnv (EventTimer W E) B).
Implicit Types (s : Env) (m : gmap string (EventTimerEvent E)) (l : list (EventTimerEvent E)).

Definition timer_ids : gset string := {["__event_timer_current_time"; "__event_timer_timeouts"]}.
Definition cur_h s := ts_current_time (timer s).
Definition map_h s := ts_timeouts (timer s).

(** What the backend stores for the timer. *)
Record timer_data s (now : Z) m : Prop := {
  td_cur_id : h_id (cur_h s) = "__event_timer_current_time";
  td_map_id : h_id (map_h s) = "__event_timer_timeouts";
  td_now : holds ValRep (sb s) (cur_h s) (Some (UInt now : u64));
  td_map : holds MapRep (sb s) (map_h s) m;
}.
Definition remaining (now : Z) (kv : string * EventTimerEvent E) : string * Z := (kv.1, due kv.2 - now).
Record timer_inv s (now : Z) m : Prop := {
  ti_data :> timer_data s now m;
  ti_pending : pending (wheel (timer s)) ≡ₚ remaining now <$> map_to_list m;
  ti_due : map_Forall (λ _ e, now < due e < 2 ^ 64) m;
  ti_now : 0 ≤ now < 2 ^ 64;
  ti_fresh : ∀ k, (drawn s ≤ k)%nat → new_v4 k ∉ dom m;
}.
(** What an operation of the timer leaves alone. *)
Record timer_frame s s' : Prop := {
  tf_cur : cur_h s' = cur_h s;
  tf_map : map_h s' = map_h s;
  tf_sb : changes timer_ids (sb s) (sb s');
  tf_drawn : (drawn s ≤ drawn s')%nat;
}.
#[export] Instance timer_frame_preorder : PreOrder timer_frame.
Proof.
  split.
  - by split.
  - intros s1 s2 s3 [] []. split; [congruence|congruence|by etrans|lia].
Qed.

(** ** Single operations *)

Lemma sb_expect_runs {A} msg (op : StateM B A) s a ids Q :
  runs op (sb s) a ids Q →
  ∃ b', sb_expect msg op s = (Ok a, set_sb b' s) ∧ changes ids (sb s) b' ∧ Q b'.
Proof.
  intros (b' & Eq & Hc & HQ). exists b'. split; [|done].
  unfold sb_expect, zoom, on_outcome. by rewrite Eq.
Qed.

Lemma current_time_ok s now m :
  timer_data s now m → ∃ b', et_current_time s = (Ok now, set_sb b' s) ∧ changes ∅ (sb s) b'.
Proof.
  intros Hd. destruct (sb_expect_runs "couldn't get current time" _ s _ _ _
    (value_get_runs (cur_h s) (sb s) _ (td_now _ _ _ Hd))) as (b' & Eq & Hc & _).
  exists b'. split; [|done]. unfold et_current_time. rewrite (bind_ok _ _ _ _ _ (eq_refl : gets timer s = _)).
  by step_ok Eq.
Qed.
Lemma data_frame ids s b' now m :
  changes ids (sb s) b' → h_id (cur_h s) ∉ ids → h_id (map_h s) ∉ ids → timer_data s now m →
  timer_data (set_sb b' s) now m.
Proof. intros Hc H1' H2' []. split; [done|done|by eapply holds_frame..]. Qed.
Lemma data_frame_empty s b' now m : changes ∅ (sb s) b' → timer_data s now m → timer_data (set_sb b' s) now m.
Proof. intros Hc. eapply data_frame; [exact Hc|set_solver..]. Qed.

Lemma set_time_ok s now m ts :
  timer_data s now m → ∃ s', set_time ts s = (Ok tt, s') ∧ timer_data s' ts m ∧ timer_frame s s' ∧
    timer s' = timer s ∧ drawn s' = drawn s.
Proof.
  intros Hd. destruct (sb_expect_runs "could not set current time" _ s _ _ _
    (value_fast_set_runs (cur_h s) (sb s) _ (UInt ts) (td_now _ _ _ Hd))) as (b' & Eq & Hc & HQ).
  exists (set_sb b' s). destruct Hd as [H1' H2' H3' H4']. split; [exact Eq|]. split; [|split; [|done]].
  - split; [done|done|done|]. eapply (holds_frame _ _ (sb s)); [exact Hc| |done].
    change (h_id (map_h s) ∉ ({[h_id (cur_h s)]} : gset string)). rewrite H1', H2'. by apply not_elem_of_singleton.
  - split; [done|done| |done]. eapply changes_weaken; [|exact Hc]. rewrite H1'. unfold timer_ids. set_solver.
Qed.
Lemma add_time_ok s now m d :
  timer_data s now m → 0 ≤ now → 0 ≤ d → now + d < 2 ^ 64 →
  ∃ s', add_time d s = (Ok tt, s') ∧ timer_data s' (now + d) m ∧ timer_frame s s' ∧
    timer s' = timer s ∧ drawn s' = drawn s.
Proof.
  intros Hd Hnow Hd0 Hlt. destruct (current_time_ok s now m Hd) as (b1 & E1 & Hc1).
  pose proof (data_frame_empty _ _ _ _ Hc1 Hd) as Hd1.
  destruct (set_time_ok _ now m (now + d) Hd1) as (s2 & E2 & Hd2 & [Hf1 Hf2 Hf3 Hf4] & Ht & Hr).
  exists s2. unfold add_time. step_ok E1. unfold lift at 1.
  rewrite u_add_ok by (unfold in_u; lia). erewrite bind_ok by done. split; [exact E2|].
  split; [done|]. split; [|done]. split; [done|done| |done].
  etrans; [|exact Hf3]. eapply changes_weaken; [|exact Hc1]. set_solver.
Qed.

Lemma map_op_ok {A} msg (op : StateM B A) s now m a m' :
  timer_data s now m →
  runs op (sb s) a {[h_id (map_h s)]} (λ b', holds MapRep b' (map_h s) m') →
  ∃ s', sb_expect msg op s = (Ok a, s') ∧ timer_data s' now m' ∧ timer_frame s s' ∧
    timer s' = timer s ∧ drawn s' = drawn s.
Proof.
  intros [H1' H2' H3' H4'] Hop. destruct (sb_expect_runs msg _ s _ _ _ Hop) as (b' & Eq & Hc & HQ).
  exists (set_sb b' s). split; [exact Eq|]. split; [|split; [|done]].
  - split; [done|done| |done]. eapply (holds_frame _ _ (sb s)); [exact Hc| |done].
    change (h_id (cur_h s) ∉ ({[h_id (map_h s)]} : gset string)). rewrite H1', H2'. by apply not_elem_of_singleton.
  - split; [done|done| |done]. eapply changes_weaken; [|exact Hc]. rewrite H2'. unfold timer_ids. set_solver.
Qed.
Lemma take_entry_ok s now m id :
  timer_data s now m → ∃ s', take_entry id s = (Ok (payload <$> m !! id), s') ∧
    timer_data s' now (delete id m) ∧ timer_frame s s' ∧ timer s' = timer s ∧ drawn s' = drawn s.
Proof.
  intros Hd. destruct (map_op_ok "no timeout found for id" _ s now m _ _ Hd
    (map_remove_runs (map_h s) (sb s) m id (td_map _ _ _ Hd))) as (s' & Eq & Hr).
  exists s'. split; [|done]. unfold take_entry.
  rewrite (bind_ok _ _ _ _ _ (eq_refl : gets timer s = _)). by step_ok Eq.
Qed.
Lemma put_entry_ok s now m id e :
  timer_data s now m → ∃ s', put_entry id e s = (Ok tt, s') ∧
    timer_data s' now (<[id := e]> m) ∧ timer_frame s s' ∧ timer s' = timer s ∧ drawn s' = drawn s.
Proof.
  intros Hd. destruct (map_op_ok "couldn't persist timeout" _ s now m _ _ Hd
    (map_fast_insert_runs (map_h s) (sb s) m id e (td_map _ _ _ Hd))) as (s' & Eq & Hr).
  exists s'. split; [|done]. unfold put_entry.
  rewrite (bind_ok _ _ _ _ _ (eq_refl : gets timer s = _)). exact Eq.
Qed.

(** Taking distinct present entries yields their events in order. *)
Lemma take_entries_ok kvs s now m res :
  timer_data s now m → NoDup kvs.*1 → (∀ kv, kv ∈ kvs → m !! kv.1 = Some kv.2) →
  ∃ s', take_entries kvs.*1 res s = (Ok (res ++ (payload ∘ snd <$> kvs)), s') ∧
    timer_data s' now (filter (λ kv, kv.1 ∉ kvs.*1) m) ∧ timer_frame s s' ∧
    timer s' = timer s ∧ drawn s' = drawn s.
Proof.
  revert s m res. induction kvs as [|[id e] kvs IH]; intros s m res Hd Hnd Hin; cbn [fmap list_fmap take_entries fst].
  - exists s. rewrite app_nil_r. split; [done|]. split; [|done].
    rewrite map_filter_id; [done|]. intros k x _. cbn. set_solver.
  - apply NoDup_cons in Hnd as [Hid Hnd].
    destruct (take_entry_ok s now m id Hd) as (s1 & E1 & Hd1 & Hf1 & Ht1 & Hr1). step_ok E1.
    assert (Hm : m !! id = Some e) by (apply (Hin (id, e)); by left). rewrite Hm. cbn [fmap option_fmap option_map].
    destruct (IH s1 (delete id m) (res ++ [payload e]) Hd1 Hnd) as (s2 & E2 & Hd2 & Hf2 & Ht2 & Hr2).
    { intros [k x] Hk. cbn. rewrite lookup_delete_ne; [by apply (Hin (k, x)); right|].
      intros ->. apply Hid. apply list_elem_of_fmap. by exists (k, x). }
    exists s2. split; [|split; [|split; [by etrans|split; congruence]]].
    + rewrite E2. by rewrite <- (assoc_L (++)).
    + replace (filter (λ kv, kv.1 ∉ id :: kvs.*1) m) with (filter (λ kv, kv.1 ∉ kvs.*1) (delete id m)); [done|].
      apply map_eq. intros k. apply option_eq. intros x. rewrite !map_lookup_filter_Some, lookup_delete_Some.
      cbn. rewrite not_elem_of_cons. naive_solver.
Qed.

(** ** Advancing *)

Lemma pending_due s now m k d :
  timer_inv s now m → (k, d) ∈ pending (wheel (timer s)) ↔ ∃ e, m !! k = Some e ∧ d = due e - now.
Proof.
  intros Hi. rewrite (ti_pending _ _ _ Hi), list_elem_of_fmap. unfold remaining. split.
  - intros ([k' e] & ? & Hk%elem_of_map_to_list). simplify_eq. by exists e.
  - intros (e & Hk & ->). exists (k, e). by rewrite elem_of_map_to_list.
Qed.
Lemma pending_forall (P : Z → Prop) s now m :
  timer_inv s now m → Forall (λ e, P e.2) (pending (wheel (timer s))) ↔ map_Forall (λ _ e, P (due e - now)) m.
Proof.
  intros Hi. rewrite Forall_forall. split.
  - intros HP k e Hk. apply (HP (k, due e - now)). rewrite pending_due by done. by exists e.
  - intros HP [k d]. rewrite pending_due by done. intros (e & Hk & ->). by apply (HP k).
Qed.

(** Moving the wheel by [d] milliseconds in which nothing expires, as far as it allows. *)
Lemma skip_ok s now m d ms :
  timer_inv s now m → can_skip (wheel (timer s)) = SkipMillis ms → 0 ≤ d ≤ ms → now + d < 2 ^ 64 → map_Forall (λ _ e, now + d < due e) m →
  ∃ s1 s2, on_wheel (λ w, (tt, wheel_skip d w)) s = (Ok tt, s1) ∧ add_time d s1 = (Ok tt, s2) ∧
    timer_inv s2 (now + d) m ∧ timer_frame s s2.
Proof.
  intros Hi Hskip Hd Hlt Hall. set (s1 := set_wheel (wheel_skip d (wheel (timer s))) s).
  assert (Hd1 : timer_data s1 now m) by by destruct (ti_data _ _ _ Hi).
  destruct (add_time_ok s1 now m d Hd1) as (s2 & E2 & Hd2 & Hf2 & Ht2 & Hr2);
    [by apply Hi|lia|done|].
  exists s1, s2. split; [done|]. split; [exact E2|]. split; [|by destruct Hf2].
  split; [done| |..].
  - rewrite Ht2. cbn. rewrite (skip_spec d ms) by done.
    rewrite (ti_pending _ _ _ Hi), <- list_fmap_compose. apply Permutation_refl'. apply list_fmap_ext.
      intros _ [k e] _. unfold remaining, prod_map. cbn. f_equal. lia.
  - intros k e Hk. specialize (Hall k e Hk). cbn in Hall. destruct (ti_due _ _ _ Hi k e Hk). lia.
  - destruct (ti_now _ _ _ Hi). lia.
  - rewrite Hr2. apply Hi.
Qed.

(** A tick fires what expires in its millisecond. *)
Lemma ticked_entries s now m :
  timer_inv s now m → ∃ kvs, kvs.*1 = (wheel_tick (wheel (timer s))).1 ∧ NoDup kvs.*1 ∧
    (∀ k e, (k, e) ∈ kvs ↔ m !! k = Some e ∧ due e = now + 1).
Proof.
  intros Hi. destruct (tick_spec (wheel (timer s))) as [Hids _].
  { apply (pending_forall (λ x, 0 < x) s now m Hi). intros k e Hk. destruct (ti_due _ _ _ Hi k e Hk). lia. }
  assert (Hin : ∀ k, k ∈ (wheel_tick (wheel (timer s))).1 ↔ ∃ e, m !! k = Some e ∧ due e = now + 1).
  { intros k. rewrite Hids, list_elem_of_fmap. split.
    - intros ([k' d] & -> & [Hd Hp]%list_elem_of_filter). cbn in *. apply (pending_due s now m) in Hp; [|done].
      destruct Hp as (e & Hk & ->). exists e. split; [done|lia].
    - intros (e & Hk & Hd). exists (k, 1). split; [done|]. apply list_elem_of_filter. split; [done|].
      apply (pending_due s now m); [done|]. exists e. split; [done|lia]. }
  destruct (entries_of m (wheel_tick (wheel (timer s))).1) as (kvs & Hkvs & Hm).
  { intros k (e & Hk & _)%Hin. apply elem_of_dom. by eexists. }
  exists kvs. split; [done|]. split.
  - rewrite Hkvs, Hids. apply NoDup_filter_fst. rewrite (ti_pending _ _ _ Hi), <- list_fmap_compose.
    apply (NoDup_fst_map_to_list m).
  - intros k e. split.
    + intros Hk. pose proof (Hm _ Hk) as He. cbn in He. split; [done|].
      assert (k ∈ kvs.*1) as Hk' by (apply list_elem_of_fmap; by exists (k, e)).
      rewrite Hkvs in Hk'. apply Hin in Hk' as (e' & He' & Hd). by simplify_eq.
    + intros [Hk Hd]. assert (k ∈ kvs.*1) as Hk' by (rewrite Hkvs; apply Hin; by exists e).
      apply list_elem_of_fmap in Hk' as ([k' e'] & ? & Hk'). cbn in *. subst.
      pose proof (Hm _ Hk') as He. cbn in He. by simplify_eq.
Qed.
Lemma remaining_tick now m m' :
  (∀ k e, m' !! k = Some e ↔ m !! k = Some e ∧ due e ≠ now + 1) →
  prod_map id (λ d, d - 1) <$> filter (λ e, e.2 ≠ 1) (remaining now <$> map_to_list m)
  ≡ₚ remaining (now + 1) <$> map_to_list m'.
Proof using Type.
  intros Hm'. apply NoDup_Permutation.
  - eapply (NoDup_fmap_1 fst). rewrite <- list_fmap_compose.
    replace (fst ∘ prod_map id (λ d : Z, d - 1)) with (@fst string Z) by done.
    apply NoDup_filter_fst. rewrite <- list_fmap_compose. apply (NoDup_fst_map_to_list m).
  - eapply (NoDup_fmap_1 fst). rewrite <- list_fmap_compose. apply (NoDup_fst_map_to_list m').
  - intros [k d]. rewrite !list_elem_of_fmap. unfold remaining. split.
    + intros ([k' d'] & ? & [Hd' Hk']%list_elem_of_filter). cbn in *. simplify_eq.
      apply list_elem_of_fmap in Hk' as ([k2 e] & ? & Hk%elem_of_map_to_list). cbn in *. simplify_eq.
      exists (k2, e). rewrite elem_of_map_to_list, Hm'. cbn. split; [unfold id; f_equal; lia|]. split; [done|lia].
    + intros ([k' e] & ? & Hk%elem_of_map_to_list). cbn in *. simplify_eq. apply Hm' in Hk as [Hk Hne].
      exists (k', due e - now). unfold prod_map. cbn. split; [f_equal; unfold id; lia|].
      apply list_elem_of_filter. cbn. split; [lia|]. apply list_elem_of_fmap. exists (k', e).
      by rewrite elem_of_map_to_list.
Qed.
Lemma fires_tick now m m' kvs :
  map_Forall (λ _ e, now < due e < 2 ^ 64) m → NoDup kvs.*1 →
  (∀ k e, (k, e) ∈ kvs ↔ m !! k = Some e ∧ due e = now + 1) →
  (∀ k e, m' !! k = Some e ↔ m !! k = Some e ∧ due e ≠ now + 1) → fires m (now + 1) kvs.*2 m'.
Proof using Type.
  intros Hdue Hnd Hin Hm'. split.
  - rewrite <- (NoDup_Permutation kvs (map_to_list (filter (λ kv, due kv.2 ≤ now + 1) m))); [done|..].
    + by eapply (NoDup_fmap_1 fst).
    + apply NoDup_map_to_list.
    + intros [k e]. rewrite Hin, elem_of_map_to_list, map_lookup_filter_Some. cbn.
      split; intros [Hk Hd]; (split; [done|]); destruct (Hdue k e Hk); lia.
  - assert (Hall : Forall (λ e, due e = now + 1) kvs.*2).
    { apply Forall_fmap, Forall_forall. intros [k e] Hk. by apply Hin in Hk as [_ ?]. }
    clear -Hall. induction Hall as [|e l He Hall IH]; constructor; [done|].
    eapply Forall_impl; [exact Hall|]. intros e' He'. cbn in *. unfold earlier. lia.
  - apply map_eq. intros k. apply option_eq. intros e. rewrite Hm', map_lookup_filter_Some. cbn.
    split; intros [Hk Hd]; (split; [done|]); destruct (Hdue k e Hk); lia.
Qed.
Lemma tick_ok s now m res :
  timer_inv s now m → now + 1 < 2 ^ 64 →
  ∃ ids s1 s2 s3 l m', on_wheel wheel_tick s = (Ok ids, s1) ∧
    take_entries ids res s1 = (Ok (res ++ (payload <$> l)), s2) ∧ add_time 1 s2 = (Ok tt, s3) ∧
    timer_inv s3 (now + 1) m' ∧ timer_frame s s3 ∧ fires m (now + 1) l m'.
Proof.
  intros Hi Hlt. destruct (ticked_entries s now m Hi) as (kvs & Hkvs & Hnd & Hin).
  destruct (tick_spec (wheel (timer s))) as [_ Hp].
  { apply (pending_forall (λ x, 0 < x) s now m Hi). intros k e Hk. destruct (ti_due _ _ _ Hi k e Hk). lia. }
  set (s1 := set_wheel (wheel_tick (wheel (timer s))).2 s).
  assert (Hd1 : timer_data s1 now m) by by destruct (ti_data _ _ _ Hi).
  destruct (take_entries_ok kvs s1 now m res Hd1 Hnd) as (s2 & E2 & Hd2 & Hf2 & Ht2 & Hr2).
  { intros [k e] Hk. by apply Hin. }
  set (m' := filter (λ kv, kv.1 ∉ kvs.*1) m) in *.
  assert (Hm' : ∀ k e, m' !! k = Some e ↔ m !! k = Some e ∧ due e ≠ now + 1).
  { intros k e. unfold m'. rewrite map_lookup_filter_Some. cbn. split; intros [Hk Hne]; (split; [done|]).
    - intros Hd. apply Hne. apply list_elem_of_fmap. exists (k, e). by rewrite Hin.
    - intros ([k' e'] & ? & Hk')%list_elem_of_fmap. cbn in *. subst. apply Hin in Hk' as [? ?]. by simplify_eq. }
  destruct (add_time_ok s2 now m' 1 Hd2) as (s3 & E3 & Hd3 & Hf3 & Ht3 & Hr3); [by apply Hi|lia|lia|].
  exists (wheel_tick (wheel (timer s))).1, s1, s2, s3, kvs.*2, m'. split.
  { unfold on_wheel. by destruct (wheel_tick (wheel (timer s))) as [ids w] eqn:Ew; unfold s1; rewrite ?Ew. }
  split; [rewrite <- Hkvs, <- list_fmap_compose; exact E2|]. split; [exact E3|].
  split; [|split].
  - split; [done| |..].
    + rewrite Ht3, Ht2. cbn. rewrite Hp, (ti_pending _ _ _ Hi). by apply remaining_tick.
    + intros k e [Hk Hne]%Hm'. destruct (ti_due _ _ _ Hi k e Hk). lia.
    + destruct (ti_now _ _ _ Hi). lia.
    + intros k Hk. rewrite Hr3, Hr2 in Hk. intros [e He]%elem_of_dom. apply Hm' in He as [He _].
      apply (ti_fresh _ _ _ Hi k Hk). by apply elem_of_dom.
  - assert (timer_frame s s1) by by split. etrans; [done|]. by etrans.
  - apply fires_tick; [apply Hi|done..].
Qed.

Definition advanced s m (ts : Z) (res : list E) (r : outcome Error (list E) * Env) : Prop :=
  ∃ s' l m', r = (Ok (res ++ (payload <$> l)), s') ∧ timer_inv s' ts m' ∧ timer_frame s s' ∧
    fires m ts l m'.

Lemma advanced_trans s m mid l m1 s1 ts res r :
  mid ≤ ts → timer_frame s s1 → fires m mid l m1 →
  advanced s1 m1 ts (res ++ (payload <$> l)) r → advanced s m ts res r.
Proof.
  intros Hle Hf Hl (s' & l' & m' & -> & Hi & Hf' & Hl'). exists s', (l ++ l'), m'.
  split; [by rewrite fmap_app, (assoc_L (++))|]. split; [done|]. split; [by etrans|]. by eapply fires_trans.
Qed.

(** The wheel says that nothing expires in [ms], so nothing is due. *)
Lemma skip_none_due s now m ms d :
  timer_inv s now m → can_skip (wheel (timer s)) = SkipMillis ms → d ≤ ms →
  map_Forall (λ _ e, now + d < due e) m.
Proof.
  intros Hi Hs Hd. pose proof (can_skip_spec (wheel (timer s))) as Hc. rewrite Hs in Hc.
  destruct Hc as [_ Hc]. apply (pending_forall (λ x, ms < x) s now m Hi) in Hc.
  intros k e Hk. specialize (Hc k e Hk). cbn in Hc. lia.
Qed.

Lemma empty_ok s now m d :
  timer_inv s now m → can_skip (wheel (timer s)) = SkipEmpty → 0 ≤ d → now + d < 2 ^ 64 →
  ∃ s', add_time d s = (Ok tt, s') ∧ timer_inv s' (now + d) m ∧ timer_frame s s' ∧
    map_Forall (λ _ e, now + d < due e) m.
Proof.
  intros Hi Hs Hd Hlt. pose proof (can_skip_spec (wheel (timer s))) as Hc. rewrite Hs in Hc.
  assert (Hempty : m = ∅).
  { apply map_to_list_empty_iff, (fmap_nil_inv (remaining now)), Permutation_nil_r.
    by rewrite <- (ti_pending _ _ _ Hi), Hc. }
  destruct (add_time_ok s now m d (ti_data _ _ _ Hi)) as (s' & Eq & Hd' & Hf & Ht & Hr);
    [by apply Hi|done|done|].
  exists s'. split; [exact Eq|]. subst m. split; [|split; [done|apply map_Forall_empty]]. split.
  - done.
  - by rewrite Ht, Hc.
  - apply map_Forall_empty.
  - destruct (ti_now _ _ _ Hi). lia.
  - rewrite Hr. apply Hi.
Qed.

Lemma tick_loop_ok fuel : ∀ s now m tl res,
  timer_inv s now m → 0 ≤ tl ≤ u32_max → now + tl < 2 ^ 64 → (Z.to_nat tl < fuel)%nat →
  advanced s m (now + tl) res (tick_loop fuel tl res s).
Proof.
  induction fuel as [|fuel IH]; intros s now m tl res Hi Htl Hlt Hfuel; [lia|]. cbn [tick_loop].
  destruct (Z.ltb_spec 0 tl) as [Hpos|Hz].
  2:{ replace (now + tl) with now by lia. exists s, [], m. rewrite app_nil_r. split; [done|].
      split; [done|]. split; [done|]. apply fires_none. intros k e Hk. by apply (ti_due _ _ _ Hi k e). }
  rewrite (bind_ok _ _ _ _ _ (eq_refl : gets timer s = _)). cbv beta.
  unfold u32_max in Htl. destruct (can_skip (wheel (timer s))) as [|ms|] eqn:Hskip.
  - destruct (empty_ok s now m tl Hi Hskip) as (s1 & E1 & Hi1 & Hf1 & Hnone); [lia|done|].
    step_ok E1. exists s1, [], m. rewrite app_nil_r. split; [done|]. split; [done|]. split; [done|].
    by apply fires_none.
  - pose proof (can_skip_spec (wheel (timer s))) as Hc. rewrite Hskip in Hc. destruct Hc as [Hms _].
    destruct (Z.leb_spec tl ms) as [Hle|Hgt].
    + pose proof (skip_none_due s now m ms tl Hi Hskip Hle) as Hnone.
      destruct (skip_ok s now m tl ms Hi Hskip ltac:(lia) Hlt Hnone) as (s1 & s2 & E1 & E2 & Hi2 & Hf2).
      step_ok E1. step_ok E2. exists s2, [], m. rewrite app_nil_r. split; [done|]. split; [done|].
      split; [done|]. by apply fires_none.
    + pose proof (skip_none_due s now m ms ms Hi Hskip ltac:(lia)) as Hnone.
      destruct (skip_ok s now m ms ms Hi Hskip ltac:(lia) ltac:(lia) Hnone) as (s1 & s2 & E1 & E2 & Hi2 & Hf2).
      step_ok E1. step_ok E2. unfold lift at 1. rewrite u_sub_ok by (unfold in_u; lia).
      erewrite bind_ok by done. apply (advanced_trans s m (now + ms) [] m s2); [lia|done|by apply fires_none|].
      rewrite app_nil_r. replace (now + tl) with ((now + ms) + (tl - ms)) by lia. apply IH; [done|unfold u32_max; lia..].
  - destruct (tick_ok s now m res Hi ltac:(lia)) as (ids & s1 & s2 & s3 & l & m' & E1 & E2 & E3 & Hi3 & Hf3 & Hl).
    step_ok E1. step_ok E2. step_ok E3. unfold lift at 1. rewrite u_sub_ok by (unfold in_u; lia).
    erewrite bind_ok by done. apply (advanced_trans s m (now + 1) l m' s3); [lia|done..|].
    replace (now + tl) with ((now + 1) + (tl - 1)) by lia. apply IH; [done|unfold u32_max; lia..].
Qed.

Lemma advance_loop_ok fuel : ∀ s now m tl res,
  timer_inv s now m → 0 ≤ tl → now + tl < 2 ^ 64 → (Z.to_nat (tl / u32_max) < fuel)%nat →
  advanced s m (now + tl) res (advance_loop fuel tl res s).
Proof.
  induction fuel as [|fuel IH]; intros s now m tl res Hi Htl Hlt Hfuel; [lia|]. cbn [advance_loop].
  assert (Hu : 0 < u32_max) by done.
  destruct (Z.ltb_spec u32_max tl) as [Hgt|Hle].
  - destruct (tick_loop_ok (S (Z.to_nat u32_max)) s now m u32_max res Hi ltac:(lia) ltac:(lia) ltac:(lia))
      as (s1 & l & m1 & E1 & Hi1 & Hf1 & Hl).
    unfold tick_and_collect at 1. step_ok E1. unfold lift at 1.
    rewrite u_sub_ok by (unfold in_u; destruct (ti_now _ _ _ Hi); lia). erewrite bind_ok by done.
    apply (advanced_trans s m (now + u32_max) l m1 s1); [lia|done..|].
    replace (now + tl) with ((now + u32_max) + (tl - u32_max)) by lia. apply IH; [done|lia|lia|].
    replace tl with ((tl - u32_max) + 1 * u32_max) in Hfuel by lia.
    rewrite Z.div_add in Hfuel by lia.
    pose proof (Z.div_pos (tl - u32_max) u32_max). lia.
  - unfold tick_and_collect. apply tick_loop_ok; [done|lia..].
Qed.

Lemma advance_to_inv s now m ts :
  timer_inv s now m → now ≤ ts < 2 ^ 64 → advanced s m ts [] (et_advance_to ts s).
Proof.
  intros Hi Hts. destruct (current_time_ok s now m (ti_data _ _ _ Hi)) as (b' & E1 & Hc).
  unfold et_advance_to. step_ok E1. rewrite (proj2 (Z.ltb_ge _ _)) by lia. unfold lift at 1.
  rewrite u_sub_ok by (unfold in_u; destruct (ti_now _ _ _ Hi); lia). erewrite bind_ok by done.
  assert (Hi' : timer_inv (set_sb b' s) now m).
  { pose proof (data_frame_empty _ _ _ _ Hc (ti_data _ _ _ Hi)). by destruct Hi. }
  assert (Hf : timer_frame s (set_sb b' s)).
  { split; [done|done| |done]. eapply changes_weaken; [|exact Hc]. set_solver. }
  destruct (advance_loop_ok (S (Z.to_nat ((ts - now) / u32_max))) _ now m (ts - now) [] Hi')
    as (s' & l & m' & E2 & Hi2 & Hf2 & Hl); [lia..|].
  exists s', l, m'. split; [exact E2|]. replace (now + (ts - now)) with ts in * by lia.
  split; [done|]. split; [by etrans|done].
Qed.

(** ** Scheduling *)

Lemma schedule_after_inv s now m delay entry :
  timer_inv s now m → 0 ≤ delay → now + delay < 2 ^ 64 →
  ∃ s', timer_frame s s' ∧
    if decide (delay = 0)
    then et_schedule_after delay entry s = (Ok (inr entry), s') ∧ timer_inv s' now m
    else ∃ id, et_schedule_after delay entry s = (Ok (inl tt), s') ∧ m !! id = None ∧
      timer_inv s' now (<[id := MkEventTimerEvent now delay entry]> m).
Proof.
  intros Hi Hdelay Hlt. set (id := new_v4 (drawn s)).
  set (s0 := MkTimerEnv (timer s) (sb s) (S (drawn s))).
  assert (Hi0 : timer_inv s0 now m).
  { destruct Hi as [[]]. split; [by split|done..|]. intros k Hk. apply ti_fresh0. cbn in Hk. lia. }
  assert (Hf0 : timer_frame s s0) by (split; [done..|cbn; lia]).
  unfold et_schedule_after. rewrite (bind_ok _ _ _ _ _ (eq_refl : new_id s = (Ok id, s0))). cbv beta.
  pose proof (insert_spec id delay (wheel (timer s0)) Hdelay) as Hins. case_decide as Hz.
  - exists s0. split; [done|]. split; [|done].
    assert (E1 : on_wheel (insert_with_delay id delay) s0 = (Ok (inr (Expired id)), s0)).
    { unfold on_wheel. rewrite Hins. unfold set_wheel, set_timer, s0. cbn. by destruct (timer s). }
    by step_ok E1.
  - destruct Hins as (w' & Hins & Hpend). set (s1 := set_wheel w' s0).
    assert (E1 : on_wheel (insert_with_delay id delay) s0 = (Ok (inl tt), s1)).
    { unfold on_wheel. by rewrite Hins. }
    assert (Hd1 : timer_data s1 now m) by by destruct (ti_data _ _ _ Hi0).
    destruct (current_time_ok s1 now m Hd1) as (b2 & E2 & Hc2).
    pose proof (data_frame_empty _ _ _ _ Hc2 Hd1) as Hd2.
    destruct (put_entry_ok _ now m id (MkEventTimerEvent now delay entry) Hd2)
      as (s3 & E3 & Hd3 & Hf3 & Ht3 & Hr3).
    assert (Hnone : m !! id = None) by (apply not_elem_of_dom, (ti_fresh _ _ _ Hi); lia).
    exists s3. split.
    + etrans; [done|]. etrans; [|exact Hf3]. split; [done|done| |done]. cbn.
      eapply changes_weaken; [|exact Hc2]. set_solver.
    + exists id. step_ok E1. cbv iota. step_ok E2. step_ok E3. split; [done|]. split; [done|]. split.
      * done.
      * rewrite Ht3. cbn. rewrite Hpend, map_to_list_insert by done. cbn.
        rewrite (ti_pending _ _ _ Hi). unfold remaining at 2, due. cbn.
        by replace (now + delay - now) with delay by lia.
      * apply map_Forall_insert_2; [unfold due; cbn; lia|]. apply Hi.
      * apply Hi.
      * intros k Hk. rewrite Hr3 in Hk. cbn in Hk. rewrite dom_insert, not_elem_of_union, not_elem_of_singleton.
        split; [|apply (ti_fresh _ _ _ Hi); lia]. intros Heq%(inj new_v4). lia.
Qed.
Lemma schedule_at_inv s now m time entry :
  timer_inv s now m → 0 ≤ time < 2 ^ 64 →
  ∃ s', timer_frame s s' ∧
    if decide (time ≤ now)
    then et_schedule_at time entry s = (Ok (inr entry), s') ∧ timer_inv s' now m
    else ∃ id, et_schedule_at time entry s = (Ok (inl tt), s') ∧ m !! id = None ∧
      timer_inv s' now (<[id := MkEventTimerEvent now (time - now) entry]> m).
Proof.
  intros Hi Htime. destruct (current_time_ok s now m (ti_data _ _ _ Hi)) as (b' & E1 & Hc).
  assert (Hi' : timer_inv (set_sb b' s) now m).
  { pose proof (data_frame_empty _ _ _ _ Hc (ti_data _ _ _ Hi)). by destruct Hi. }
  assert (Hf : timer_frame s (set_sb b' s)).
  { split; [done|done| |done]. eapply changes_weaken; [|exact Hc]. set_solver. }
  unfold et_schedule_at. case_decide as Hle.
  - exists (set_sb b' s). split; [done|]. split; [|done]. step_ok E1.
    by rewrite (proj2 (Z.leb_le _ _)) by done.
  - destruct (schedule_after_inv _ now m (time - now) entry Hi') as (s' & Hf' & Hs'); [lia..|].
    rewrite decide_False in Hs' by lia. destruct Hs' as (id & E2 & Hid & Hi2).
    exists s'. split; [by etrans|]. exists id. split; [|done]. step_ok E1.
    rewrite (proj2 (Z.leb_gt _ _)) by lia. unfold lift at 1.
    rewrite u_sub_ok by (unfold in_u; destruct (ti_now _ _ _ Hi); lia). by erewrite bind_ok by done.
Qed.

(** ** Starting, afresh or from stored state *)

Record timer_registered s (o : option u64) m : Prop := {
  tr_cur_id : h_id (cur_h s) = "__event_timer_current_time";
  tr_map_id : h_id (map_h s) = "__event_timer_timeouts";
  tr_now : holds ValRep (sb s) (cur_h s) o;
  tr_map : holds MapRep (sb s) (map_h s) m;
  tr_wheel : pending (wheel (timer s)) = [];
}.

Lemma sb_register_ok {S IK N X} `{Metakey IK, Metakey N} (Stored Rep : Region → bytes → X → Prop) x0 x
    (op : StateM B (Handle S IK N)) (h : Handle S IK N) s :
  registers Stored Rep x0 op (sb s) h → stored Stored x0 (sb s) h x →
  ∃ b', sb_register op s = (Ok (set_registered h), set_sb b' s) ∧ backend_ok b' ∧
    changes {[h_id h]} (sb s) b' ∧ holds Rep b' (set_registered h) x.
Proof.
  intros Hr Hx. destruct (registers_holds Stored Rep x0 x op (sb s) h Hr Hx) as (b' & Eq & Hrest).
  exists b'. split; [|done]. unfold sb_register, sb_expect, zoom, on_outcome. by rewrite Eq.
Qed.

Lemma register_states_ok s o m :
  timer s = EventTimer_new → backend_ok (sb s) →
  stored ValRep None (sb s) (cur_h s) o → stored MapRep ∅ (sb s) (map_h s) m →
  ∃ s', et_register_states s = (Ok tt, s') ∧ backend_ok (sb s') ∧ timer_registered s' o m ∧
    changes timer_ids (sb s) (sb s') ∧ drawn s' = drawn s.
Proof.
  intros Ht Hok Ho Hm.
  destruct (sb_register_ok ValRep ValRep None o _ _ s (register_value_spec (sb s) (cur_h s) Hok)) as
    (b1 & E1 & Hok1 & Hc1 & Hh1); [done|].
  assert (Hne : h_id (map_h s) ∉ ({[h_id (cur_h s)]} : gset string)).
  { unfold map_h, cur_h. rewrite Ht. by apply not_elem_of_singleton. }
  destruct (sb_register_ok MapRep MapRep ∅ m _ _ (set_sb b1 s) (register_map_spec b1 (map_h s) Hok1)) as
    (b2 & E2 & Hok2 & Hc2 & Hh2); [by eapply stored_frame|].
  exists (set_timer (MkEventTimer (wheel (timer s)) (set_registered (cur_h s)) (set_registered (map_h s))) (set_sb b2 s)).
  unfold et_register_states. rewrite (bind_ok _ _ _ _ _ (eq_refl : gets timer s = _)).
  unfold cur_h, map_h in *. step_ok E1. step_ok E2. split; [done|]. split; [done|]. split; [|split; [|done]].
  - rewrite Ht in *. split; [done|done| |done|apply pending_default].
    eapply (holds_frame _ _ b1); [exact Hc2| |exact Hh1]. by apply not_elem_of_singleton.
  - cbn. etrans; (eapply changes_weaken; [|eassumption]); rewrite Ht; unfold timer_ids; cbn; set_solver.
Qed.

Lemma replay_loop_ok kvs s now :
  0 ≤ now → Forall (λ kv : string * EventTimerEvent E, now < due kv.2 < 2 ^ 64) kvs →
  ∃ w, for_each (replay_entry now) (Ok <$> kvs) s = (Ok tt, set_wheel w s) ∧
    pending w ≡ₚ (remaining now <$> kvs) ++ pending (wheel (timer s)).
Proof.
  intros Hnow. revert s. induction kvs as [|[id e] kvs IH]; intros s Hall.
  - exists (wheel (timer s)). split; [|done]. unfold set_wheel, set_timer. cbn. by destruct s as [[] ? ?].
  - apply Forall_cons in Hall as [He Hall]. cbn [fst snd] in He.
    pose proof (insert_spec id (due e - now) (wheel (timer s)) ltac:(lia)) as Hins.
    rewrite decide_False in Hins by lia. destruct Hins as (w1 & Hins & Hp1).
    assert (E1 : replay_entry now (Ok (id, e)) s = (Ok tt, set_wheel w1 s)).
    { unfold replay_entry, lift, expect_ok, mbind, M_bind. cbn [fst snd].
      change (time_when_scheduled e + timeout_millis e) with (due e) in *.
      rewrite u_add_ok by (unfold in_u, due in *; lia). fold (due e).
      rewrite u_sub_ok by (unfold in_u; lia). unfold on_wheel. by rewrite Hins. }
    destruct (IH (set_wheel w1 s) Hall) as (w2 & E2 & Hp2).
    exists w2. rewrite fmap_cons. cbn [for_each]. step_ok E1. split; [exact E2|].
    rewrite Hp2. cbn. rewrite Hp1. unfold remaining at 3. cbn. by rewrite Permutation_middle.
Qed.

Definition start_time (o : option u64) : Z := match o with Some x => uint_val x | None => 0 end.

Lemma init_current_time_ok s o m :
  timer_registered s o m →
  ∃ s1, init_current_time s = (Ok tt, s1) ∧ timer_data s1 (start_time o) m ∧ timer_frame s s1 ∧
    timer s1 = timer s ∧ drawn s1 = drawn s.
Proof.
  intros [H1' H2' H3' H4' _].
  destruct (sb_expect_runs "could not check current time" _ s _ _ _
    (value_get_runs (cur_h s) (sb s) _ H3')) as (b1 & E1 & Hc1 & _).
  assert (Hh1 : holds ValRep b1 (cur_h s) o) by (eapply holds_frame; [exact Hc1|set_solver|done]).
  assert (Hm1 : holds MapRep b1 (map_h s) m) by (eapply holds_frame; [exact Hc1|set_solver|done]).
  assert (Hc1' : changes timer_ids (sb s) b1) by (eapply changes_weaken; [|exact Hc1]; set_solver).
  unfold init_current_time. rewrite (bind_ok _ _ _ _ _ (eq_refl : gets timer s = _)). step_ok E1.
  destruct o as [[x]|]; cbn [start_time uint_val].
  - exists (set_sb b1 s). split; [done|]. by split.
  - destruct (sb_expect_runs "could not set current time" _ (set_sb b1 s) _ _ _
      (value_set_runs (cur_h s) b1 _ (UInt 0) Hh1)) as (b2 & E2 & Hc2 & Hh2).
    exists (set_sb b2 s). step_ok E2. split; [done|]. split; [|split; [|done]].
    + split; [done..|]. eapply holds_frame; [exact Hc2| |exact Hm1].
      change (map_h (set_sb b2 s)) with (map_h s). rewrite H1', H2'. by apply not_elem_of_singleton.
    + split; [done|done| |done]. cbn. etrans; [done|]. eapply changes_weaken; [|exact Hc2].
      rewrite H1'. unfold timer_ids. set_solver.
Qed.

Lemma init_ok s o m :
  timer_registered s o m → 0 ≤ start_time o < 2 ^ 64 →
  map_Forall (λ _ e, start_time o < due e < 2 ^ 64) m →
  (∀ k, (drawn s ≤ k)%nat → new_v4 k ∉ dom m) →
  ∃ s', et_init s = (Ok tt, s') ∧ timer_inv s' (start_time o) m ∧ timer_frame s s'.
Proof.
  intros Hr Hstart Hdue Hfresh.
  destruct (init_current_time_ok s o m Hr) as (s1 & E1 & Hd1 & Hf1 & Ht1 & Hr1).
  destruct (current_time_ok s1 _ m Hd1) as (b2 & E2 & Hc2).
  pose proof (data_frame_empty _ _ _ _ Hc2 Hd1) as Hd2.
  assert (Hwf : handle_wf (map_h (set_sb b2 s1))) by done.
  destruct (map_iter_runs (map_h (set_sb b2 s1)) (sb (set_sb b2 s1)) m Hwf (td_map _ _ _ Hd2)) as (l & Hit & Hl).
  destruct (sb_expect_runs "could not get timeouts" _ _ _ _ _ Hit) as (b3 & E3 & Hc3 & _).
  pose proof (data_frame_empty _ _ _ _ Hc3 Hd2) as Hd3.
  assert (Hall : Forall (λ kv : string * EventTimerEvent E, start_time o < due kv.2 < 2 ^ 64) l).
  { rewrite Hl, Forall_forall. intros [k e] Hk%elem_of_map_to_list. by apply (Hdue k). }
  destruct (replay_loop_ok l (set_sb b3 (set_sb b2 s1)) (start_time o) ltac:(lia) Hall) as (w & E4 & Hp).
  exists (set_wheel w (set_sb b3 (set_sb b2 s1))). split; [|split].
  - unfold et_init. step_ok E1. unfold replay_events. step_ok E2.
    rewrite (bind_ok _ _ _ _ _ (eq_refl : gets timer (set_sb b2 s1) = _)). step_ok E3. exact E4.
  - split; [by destruct Hd3| |done|lia|].
    + rewrite Hp, Hl. cbn. by rewrite Ht1, (tr_wheel _ _ _ Hr), app_nil_r.
    + intros k Hk. apply Hfresh. cbn in Hk. by rewrite Hr1 in Hk.
  - etrans; [exact Hf1|]. split; [done|done| |done]. cbn.
    etrans; (eapply changes_weaken; [|eassumption]); set_solver.
Qed.

(** ** The contract as the list of entries with their deadlines *)

Definition entry_of (e : EventTimerEvent E) : Z * E := (due e, payload e).
Definition entries_rep s now (l : list (Z * E)) : Prop :=
  ∃ m, timer_inv s now m ∧ l ≡ₚ entry_of <$> (map_to_list m).*2.

Lemma timer_inv_frame s now m ids b' :
  timer_inv s now m → changes ids (sb s) b' → ids ## timer_ids → timer_inv (set_sb b' s) now m.
Proof.
  intros Hi Hc Hdisj. pose proof (ti_data _ _ _ Hi) as [H1' H2' H3' H4'].
  assert (timer_data (set_sb b' s) now m).
  { eapply data_frame; [exact Hc|rewrite H1'|rewrite H2'|done]; unfold timer_ids in Hdisj; set_solver. }
  by destruct Hi.
Qed.
Lemma entries_insert m id e :
  m !! id = None → entry_of <$> (map_to_list (<[id := e]> m)).*2 ≡ₚ entry_of e :: (entry_of <$> (map_to_list m).*2).
Proof using Type. intros Hid. by rewrite map_to_list_insert. Qed.
Lemma entries_fires m ts l m' :
  fires m ts l m' →
  entry_of <$> (map_to_list m).*2 ≡ₚ (entry_of <$> l) ++ (entry_of <$> (map_to_list m').*2) ∧
  Forall (λ e, e.1 ≤ ts) (entry_of <$> l) ∧ Forall (λ e, ts < e.1) (entry_of <$> (map_to_list m').*2) ∧
  StronglySorted (λ a b, a.1 ≤ b.1) (entry_of <$> l).
Proof using Type.
  intros Hf. pose proof (fires_bound _ _ _ _ Hf) as Hb. destruct Hf as [Hl Hs ->]. split; [|split; [|split]].
  - rewrite Hl, <- fmap_app, <- fmap_app, <- map_to_list_union.
    + apply Permutation_refl'. do 3 f_equal. apply map_eq. intros k. apply option_eq. intros e.
      rewrite lookup_union_Some, !map_lookup_filter_Some; cbn.
      * split; [|by intros [[? ?]|[? ?]]]. intros He.
        destruct (decide (due e ≤ ts)); [left|right]; (split; [done|lia]).
      * apply map_disjoint_spec. intros k' x y. rewrite !map_lookup_filter_Some. cbn.
        intros [? ?] [? ?]. simplify_eq. lia.
    + apply map_disjoint_spec. intros k' x y. rewrite !map_lookup_filter_Some. cbn.
      intros [? ?] [? ?]. simplify_eq. lia.
  - by apply Forall_fmap.
  - rewrite <- list_fmap_compose, Forall_fmap, Forall_forall. intros [k e] Hk%elem_of_map_to_list.
    apply map_lookup_filter_Some in Hk as [_ Hk]. exact Hk.
  - clear Hl Hb. induction Hs as [|e l Hs IH He]; cbn; constructor; [done|]. by apply Forall_fmap.
Qed.
End event_timer.

(** What a timer represents: a clock and the entries to come, each with its deadline; and the regions
    of the backend it keeps them in. *)
Class TimerRep (T E B : Type) := {
  timer_regions : gset string;
  timer_rep : TimerEnv T B → Z → list (Z * E) → Prop;
}.
(** What a node relies on. *)
Class TimerSpec (T E B : Type) `{BackendRep B, TimerBackend T E B, TimerRep T E B} : Prop := {
  timer_rep_frame s now (l : list (Z * E)) ids b' :
    timer_rep s now l → changes ids (sb s) b' → ids ## timer_regions → timer_rep (set_sb b' s) now l;
  advance_to_spec s now (l : list (Z * E)) ts :
    timer_rep s now l → now ≤ ts < 2 ^ 64 → ∃ fired rest s',
      advance_to ts s = (Ok fired.*2, s') ∧ timer_rep s' ts rest ∧
      changes timer_regions (sb s) (sb s') ∧ l ≡ₚ fired ++ rest ∧
      Forall (λ e, e.1 ≤ ts) fired ∧ Forall (λ e, ts < e.1) rest ∧ StronglySorted (λ a b, a.1 ≤ b.1) fired;
  timer_epoch_spec s now (l : list (Z * E)) e :
    timer_rep s now l → ∃ s', timer_handle_epoch e s = (Ok tt, s') ∧ timer_rep s' now l ∧
      changes timer_regions (sb s) (sb s');
}.
(** What operators that schedule timeouts rely on. *)
Class SchedulerSpec (T E B : Type) `{BackendRep B, TimerBackend T E B, TimerRep T E B} : Prop := {
  scheduler_timer :: TimerSpec T E B;
  current_time_spec s now (l : list (Z * E)) :
    timer_rep s now l → ∃ s', current_time s = (Ok now, s') ∧ timer_rep s' now l ∧
      changes timer_regions (sb s) (sb s');
  schedule_at_spec s now (l : list (Z * E)) time entry :
    timer_rep s now l → 0 ≤ time < 2 ^ 64 → ∃ s', changes timer_regions (sb s) (sb s') ∧
      if decide (time ≤ now)
      then schedule_at time entry s = (Ok (inr entry), s') ∧ timer_rep s' now l
      else schedule_at time entry s = (Ok (inl tt), s') ∧ timer_rep s' now ((time, entry) :: l);
  schedule_after_spec s now (l : list (Z * E)) delay entry :
    timer_rep s now l → 0 ≤ delay → now + delay < 2 ^ 64 → ∃ s', changes timer_regions (sb s) (sb s') ∧
      if decide (delay = 0)
      then schedule_after delay entry s = (Ok (inr entry), s') ∧ timer_rep s' now l
      else schedule_after delay entry s = (Ok (inl tt), s') ∧ timer_rep s' now ((now + delay, entry) :: l);
}.

#[export] Instance unit_TimerRep B : TimerRep unit ArconNever B := {
  timer_regions := ∅;
  timer_rep _ _ l := l = [];
}.
#[export] Instance unit_TimerSpec B `{BackendRep B} : TimerSpec unit ArconNever B.
Proof.
  split.
  - done.
  - intros s now l ts -> _. exists [], [], s. repeat (split; [done|]). by repeat split; constructor.
  - intros s now l e ->. by exists s.
Qed.

Section properties.
#[local] Set Default Proof Using "All".
Context {profile : BuildProfile} `{UuidLaws} {W : Type} `{QuadWheelLaws W} {E B : Type} `{BackendSpec B}.
Context `{Value u64, Key string, !MessageLaws string, Value (EventTimerEvent E)}.
Context `{!MapSpec B string (EventTimerEvent E) unit unit}.
Abbreviation Env := (TimerEnv (EventTimer W E) B).

#[export] Instance EventTimer_TimerRep : TimerRep (EventTimer W E) E B := {
  timer_regions := timer_ids;
  timer_rep := entries_rep;
}.

#[export] Instance EventTimer_SchedulerSpec : SchedulerSpec (EventTimer W E) E B.
Proof.
  split; [split|..].
  - intros s now l ids b' (m & Hi & Hl) Hc Hd. exists m. split; [|done]. by eapply timer_inv_frame.
  - intros s now l ts (m & Hi & Hl) Hts.
    destruct (advance_to_inv s now m ts Hi Hts) as (s' & lf & m' & Eq & Hi' & Hf & Hfire).
    destruct (entries_fires _ _ _ _ Hfire) as (Hp & H1' & H2' & H3').
    exists (entry_of <$> lf), (entry_of <$> (map_to_list m').*2), s'.
    rewrite <- list_fmap_compose. split; [exact Eq|]. split; [by exists m'|]. split; [by apply Hf|].
    split; [by rewrite Hl|]. done.
  - intros s now l e Hs. exists s. by split; [|split].
  - intros s now l (m & Hi & Hl). destruct (current_time_ok s now m (ti_data _ _ _ Hi)) as (b' & Eq & Hc).
    exists (set_sb b' s). split; [exact Eq|]. split; [|cbn; eapply changes_weaken; [|exact Hc]; set_solver].
    exists m. split; [|done]. eapply timer_inv_frame; [done|exact Hc|set_solver].
  - intros s now l time entry (m & Hi & Hl) Ht.
    destruct (schedule_at_inv s now m time entry Hi Ht) as (s' & Hf & Hs'). exists s'. split; [by apply Hf|].
    case_decide as Hle.
    + destruct Hs' as [Eq Hi']. split; [exact Eq|]. by exists m.
    + destruct Hs' as (id & Eq & Hid & Hi'). split; [exact Eq|]. eexists. split; [exact Hi'|].
      rewrite entries_insert by done. rewrite Hl. unfold entry_of at 2, due. cbn.
      by replace (now + (time - now)) with time by lia.
  - intros s now l delay entry (m & Hi & Hl) Hdelay Hlt.
    destruct (schedule_after_inv s now m delay entry Hi Hdelay Hlt) as (s' & Hf & Hs'). exists s'.
    split; [by apply Hf|]. case_decide as Hz.
    + destruct Hs' as [Eq Hi']. split; [exact Eq|]. by exists m.
    + destruct Hs' as (id & Eq & Hid & Hi'). split; [exact Eq|]. eexists. split; [exact Hi'|].
      by rewrite entries_insert, Hl by done.
Qed.

Lemma timer_start_ok (s : Env) (o : option u64) (m : gmap string (EventTimerEvent E)) :
  timer s = EventTimer_new → backend_ok (sb s) →
  stored ValRep None (sb s) (ts_current_time (timer s)) o → stored MapRep ∅ (sb s) (ts_timeouts (timer s)) m →
  0 ≤ start_time o < 2 ^ 64 → map_Forall (λ _ e, start_time o < due e < 2 ^ 64) m →
  (∀ k, (drawn s ≤ k)%nat → new_v4 k ∉ dom m) →
  ∃ s', (timer_register_states ;; timer_init) s = (Ok tt, s') ∧
    timer_rep s' (start_time o) (entry_of <$> (map_to_list m).*2) ∧
    changes timer_ids (sb s) (sb s').
Proof.
  intros Ht Hok Ho Hm Hstart Hdue Hfresh.
  destruct (register_states_ok s o m Ht Hok Ho Hm) as (s1 & E1 & Hok1 & Hr & Hc1 & Hd1).
  destruct (init_ok s1 o m Hr Hstart Hdue) as (s2 & E2 & Hi & Hf); [by rewrite Hd1|].
  exists s2. cbn. step_ok E1. split; [exact E2|]. split; [by exists m|]. etrans; [done|]. by apply Hf.
Qed.

(** C5: The event timer implements the contract of timers: it keeps the scheduled entries and nothing
    else, refuses what is already due, and advancing the clock returns exactly the entries whose
    deadline has passed, in the order of their deadlines, and ends for every target. *)
Theorem event_timer_implements_scheduler : SchedulerSpec (EventTimer W E) E B.
Proof. exact EventTimer_SchedulerSpec. Qed.

(** C35: A timer that is created over stored state resumes where the stored one stood: the clock has the
    stored time, and exactly the stored timeouts are scheduled, at their deadlines. *)
Theorem event_timer_restart (s : Env) (o : option u64) (m : gmap string (EventTimerEvent E)) :
  timer s = EventTimer_new → backend_ok (sb s) →
  stored ValRep None (sb s) (ts_current_time (timer s)) o → stored MapRep ∅ (sb s) (ts_timeouts (timer s)) m →
  0 ≤ start_time o < 2 ^ 64 → map_Forall (λ _ e, start_time o < due e < 2 ^ 64) m →
  (∀ k, (drawn s ≤ k)%nat → new_v4 k ∉ dom m) →
  ∃ s', (timer_register_states ;; timer_init) s = (Ok tt, s') ∧
    timer_rep s' (start_time o) (entry_of <$> (map_to_list m).*2) ∧
    changes timer_ids (sb s) (sb s').
Proof. apply timer_start_ok. Qed.
End properties.

(** ** A concrete wheel: the list of its entries *)

Definition ListWheel : Type := list (string * Z).
Definition earliest (w : ListWheel) : Z := foldr (λ e acc, Z.min e.2 acc) u64_max w.
#[export] Instance ListWheel_QuadWheel : QuadWheel ListWheel := {
  wheel_default := [];
  insert_with_delay id d w := if d =? 0 then (inr (Expired id), w) else (inl tt, (id, d) :: w);
  can_skip w :=
    match w with
    | [] => SkipEmpty
    | _ => if 1 <? earliest w then SkipMillis (earliest w - 1) else SkipNone
    end;
  wheel_skip ms w := prod_map id (λ d, d - ms) <$> w;
  wheel_tick w := ((filter (λ e, e.2 = 1) w).*1, prod_map id (λ d, d - 1) <$> filter (λ e, e.2 ≠ 1) w);
}.
Lemma earliest_le w : Forall (λ e, earliest w ≤ e.2) w.
Proof.
  induction w as [|e w IH]; [constructor|].
  change (earliest (e :: w)) with (Z.min e.2 (earliest w)). constructor; [lia|].
  eapply Forall_impl; [exact IH|]. intros e' He'. cbn beta in *. lia.
Qed.
#[export] Instance ListWheel_laws : QuadWheelLaws ListWheel.
Proof.
  refine {| pending := λ w, w |}.
  - done.
  - intros id d w Hd. cbn. case_decide as Hz; [by rewrite (proj2 (Z.eqb_eq _ _)) by done|].
    rewrite (proj2 (Z.eqb_neq _ _)) by done. by eexists.
  - intros [|e w]; [done|]. unfold can_skip, ListWheel_QuadWheel.
    destruct (Z.ltb_spec 1 (earliest (e :: w))) as [Hlt|]; [|done]. split; [lia|].
    eapply Forall_impl; [apply earliest_le|]. intros e' He'. cbn beta in *. lia.
  - done.
  - done.
Defined.
#[export] Instance counter_uuids : Uuids := λ k, pretty k.
#[export] Instance counter_uuids_laws : UuidLaws.
Proof. intros x y Heq. by apply pretty_nat_inj in Heq. Qed.

#[local] Instance debug_profile : BuildProfile := true.
#[local] Instance example_u64 : Value u64 := countable_Value 1.
#[local] Instance example_string : Value string := countable_Value 2.
#[local] Instance example_string_laws : MessageLaws string := countable_MessageLaws.
Definition event_tuple (e : EventTimerEvent Z) : Z * Z * Z := (time_when_scheduled e, timeout_millis e, payload e).
#[local] Instance event_eq_dec : EqDecision (EventTimerEvent Z).
Proof. solve_decision. Defined.
#[local] Program Instance event_countable : Countable (EventTimerEvent Z) :=
  inj_countable' event_tuple (λ p, MkEventTimerEvent p.1.1 p.1.2 p.2) _.
Next Obligation. by intros []. Qed.
#[local] Instance example_event : Value (EventTimerEvent Z) := countable_Value 3.

Example event_timer_implements_scheduler_witness :
  SchedulerSpec (EventTimer ListWheel Z) Z InMemory.
Proof. apply (event_timer_implements_scheduler (W:=ListWheel) (E:=Z) (B:=InMemory)). Defined.

(** A backend in which a timer stored the time 3 and a timeout of 4 milliseconds set at time 2. *)
Definition stored_event : EventTimerEvent Z := MkEventTimerEvent 2 4 77.
Definition stored_id : string := new_v4 0.
Definition example_timer_backend : InMemory :=
  MkInMemory {[ "__event_timer_current_time" := {[ [] := SmallBox_new (UInt 3 : u64) ]};
    "__event_timer_timeouts" := {[ ld stored_id := SmallBox_new stored_event ]} ]}.
Definition restarted : TimerEnv (EventTimer ListWheel Z) InMemory :=
  MkTimerEnv EventTimer_new example_timer_backend 1.

Lemma stored_timeouts :
  stored MapRep ∅ (sb restarted) (ts_timeouts (timer restarted)) {[stored_id := stored_event]}.
Proof.
  split.
  - intros k. change (metakeys (ts_timeouts (timer restarted)) ++ ld k) with (ld k).
    destruct (decide (k = stored_id)) as [->|Hne].
    + by rewrite !lookup_singleton_eq.
    + rewrite !lookup_singleton_ne; [done|done|]. intros Heq. apply Hne. symmetry. by apply ld_inj.
  - intros key sv Hk. split; [cbn; lia|]. intros _. apply lookup_singleton_Some in Hk as [<- _].
    by exists stored_id.
Qed.
Example event_timer_restart_witness :
  ∃ s', (timer_register_states ;; timer_init) restarted = (Ok tt, s') ∧
    timer_rep s' (start_time (Some (UInt 3)))
      (entry_of <$> (map_to_list ({[stored_id := stored_event]} : gmap string (EventTimerEvent Z))).*2) ∧
    changes timer_ids (sb restarted) (sb s').
Proof.
  apply (event_timer_restart (W:=ListWheel) (B:=InMemory) restarted (Some (UInt 3)) {[stored_id := stored_event]}).
  - done.
  - done.
  - done.
  - exact stored_timeouts.
  - done.
  - by apply map_Forall_singleton.
  - intros k Hk. rewrite dom_singleton, not_elem_of_singleton. unfold stored_id.
    intros Heq%(inj new_v4). cbn in Hk. lia.
Defined.
