(* ===== verification/Metrics.v ===== *)
(** [arcon/src/metrics]: counters, gauges, moving averages, meters and histograms, with [f64] as the
    binary64 numbers of the Standard Library's specification of floating point arithmetic. *)

From S2P Require Import Prelude Error.
From Stdlib Require Import Floats.SpecFloat.

(** ** Binary64 *)

Definition f64 : Type := spec_float.
Definition f64_add : f64 → f64 → f64 := SFadd 53 1024.
Definition f64_sub : f64 → f64 → f64 := SFsub 53 1024.
Definition f64_mul : f64 → f64 → f64 := SFmul 53 1024.
Definition f64_div : f64 → f64 → f64 := SFdiv 53 1024.
Definition f64_le : f64 → f64 → bool := SFleb.
Definition f64_lt : f64 → f64 → bool := SFltb.
Definition f64_eq : f64 → f64 → bool := SFeqb.

(** [m] times two to the power [e], rounded to the nearest, ties to even; [x as f64] for an integer. *)
Definition f64_dyadic (m e : Z) : f64 := binary_normalize 53 1024 m e false.
Definition f64_of_int (x : Z) : f64 := f64_dyadic x 0.

(** [f64::round]: half away from zero. *)
Definition f64_round (x : f64) : f64 :=
  match x with
  | S754_finite s m e =>
      if 0 <=? e then x
      else
        let r := (2 * Zpos m + 2 ^ (- e)) / (2 * 2 ^ (- e)) in
        if r =? 0 then S754_zero s else f64_of_int (if s then - r else r)
  | _ => x
  end.
(** A cast to an unsigned type truncates and saturates. *)
Definition f64_as_u (w : Z) (x : f64) : Z :=
  match x with
  | S754_finite false m e =>
      Z.min (2 ^ w - 1) (if 0 <=? e then Zpos m * 2 ^ e else Zpos m / 2 ^ (- e))
  | S754_infinity false => 2 ^ w - 1
  | _ => 0
  end.
Definition signed (s : bool) (m : positive) : Z := if s then Zneg m else Zpos m.
(** [f64::mul_add]: one rounding at the end. *)
Definition f64_mul_add (a b c : f64) : f64 :=
  match a, b, c with
  | S754_finite sa ma ea, S754_finite sb mb eb, S754_finite sc mc ec =>
      let e := Z.min (ea + eb) ec in
      f64_dyadic (signed sa ma * signed sb mb * 2 ^ (ea + eb - e) + signed sc mc * 2 ^ (ec - e)) e
  | _, _, _ => f64_add (f64_mul a b) c
  end.

(** ** The system clock ([util/mod.rs]) *)

(** [system_time n] is what the [n]-th reading of the system clock is after the epoch of the system, in
    nanoseconds, or [None] if it is before. *)
Class SystemTime := system_time : nat → option Z.
(** A value together with the number of readings taken so far. *)
Record Timed (A : Type) : Type := MkTimed { item : A; readings : nat }.
Arguments MkTimed {A}.
Arguments item {A}.
Arguments readings {A}.

Definition get_system_time_nano `{SystemTime} {A E} : M (Timed A) E Z := λ s,
  (match system_time (readings s) with
   | Some t => Ok (t mod 2 ^ 64)
   | None => Panic "Time went backwards"
   end, MkTimed (item s) (S (readings s))).

(** ** Counters and gauges ([counter.rs], [gauge.rs]) *)

Module Counter.
Record Counter : Type := MkCounter { counter : Z }.
Definition new : Counter := MkCounter 0.
Definition inc_n `{BuildProfile} (n : Z) (c : Counter) : outcome Error Counter :=
  MkCounter <$> u_add 128 (counter c) n.
Definition inc `{BuildProfile} (c : Counter) : outcome Error Counter := inc_n 1 c.
End Counter.

Module Gauge.
Record Gauge : Type := MkGauge { value : Z }.
Definition new : Gauge := MkGauge 0.
Definition inc_n `{BuildProfile} (n : Z) (g : Gauge) : outcome Error Gauge :=
  MkGauge <$> u_add 128 (value g) n.
Definition inc `{BuildProfile} (g : Gauge) : outcome Error Gauge := inc_n 1 g.
Definition dec_n (n : Z) (g : Gauge) : Gauge :=
  MkGauge (if n <=? value g then value g - n else 0).
Definition dec (g : Gauge) : Gauge := dec_n 1 g.
Definition get (g : Gauge) : Z := value g.
End Gauge.

(** ** Moving averages ([ewma.rs]) *)

Definition INTERVAL : Z := 5.
Definition SECONDS_PER_MINUTE : f64 := f64_of_int 60.
(** [1.0 - (-INTERVAL as f64 / SECONDS_PER_MINUTE / minutes as f64)] *)
Definition alpha_of (minutes : Z) : f64 :=
  f64_sub (f64_of_int 1)
    (f64_div (f64_div (f64_of_int (- INTERVAL)) SECONDS_PER_MINUTE) (f64_of_int minutes)).
Definition M1_ALPHA : f64 := alpha_of 1.
Definition M5_ALPHA : f64 := alpha_of 5.
Definition M15_ALPHA : f64 := alpha_of 15.

Module EWMA.
Record EWMA : Type := MkEWMA {
  initialised : bool;
  rate : f64;
  uncounted : Z;
  alpha : f64;
  interval : f64;
}.
Definition new (alpha interval : f64) : EWMA := MkEWMA false (f64_of_int 0) 0 alpha interval.
Definition one_min_ewma : EWMA := new M1_ALPHA (f64_of_int INTERVAL).
Definition five_min_ewma : EWMA := new M5_ALPHA (f64_of_int INTERVAL).
Definition fifteen_min_ewma : EWMA := new M15_ALPHA (f64_of_int INTERVAL).

Definition update `{BuildProfile} (n : Z) (x : EWMA) : outcome Error EWMA :=
  u ← u_add 64 (uncounted x) n;
  Ok (MkEWMA (initialised x) (rate x) u (alpha x) (interval x)).
Definition tick (x : EWMA) : EWMA :=
  let instant_rate := f64_div (f64_of_int (uncounted x)) (interval x) in
  if initialised x then
    MkEWMA true (f64_add (rate x) (f64_mul (alpha x) (f64_sub instant_rate (rate x)))) 0
      (alpha x) (interval x)
  else MkEWMA true instant_rate 0 (alpha x) (interval x).
Definition get_rate (x : EWMA) : f64 := rate x.
End EWMA.
Import EWMA (rate, uncounted, initialised, alpha, interval).

(** ** Meters ([meter.rs]) *)

Module Meter.
Record Meter : Type := MkMeter {
  m1_rate : EWMA.EWMA;
  m5_rate : EWMA.EWMA;
  m15_rate : EWMA.EWMA;
  count : Z;
  start_time : Z;
  last_tick : Z;
}.
(** [Duration::new(5, 0).as_nanos()] and [Duration::new(1, 0).as_nanos()] *)
Definition tick_interval : Z := 5 * 10 ^ 9.
Definition nanos_per_second : Z := 10 ^ 9.

Section meter.
Context `{BuildProfile, SystemTime}.
Abbreviation MeterM := (M (Timed Meter) Error).

(** The state before is not yet a meter: only the clock moves. *)
Definition new : M (Timed ()) Error Meter :=
  start_time ← get_system_time_nano;
  mret (MkMeter EWMA.one_min_ewma EWMA.five_min_ewma EWMA.fifteen_min_ewma 0 start_time start_time).

Definition set_meter (m : Meter) : MeterM unit := modify (λ s, MkTimed m (readings s)).

Definition tick_all (m : Meter) : Meter :=
  MkMeter (EWMA.tick (m1_rate m)) (EWMA.tick (m5_rate m)) (EWMA.tick (m15_rate m))
    (count m) (start_time m) (last_tick m).
Definition set_last_tick (t : Z) (m : Meter) : Meter :=
  MkMeter (m1_rate m) (m5_rate m) (m15_rate m) (count m) (start_time m) t.
Definition tick_if_necessary : MeterM unit :=
  m ← gets item;
  new_tick ← get_system_time_nano;
  age ← lift (u_sub 64 new_tick (last_tick m));
  if tick_interval <? age then
    new_interval_tick ← lift (u_sub 64 new_tick (age mod tick_interval));
    set_meter (Nat.iter (Z.to_nat (age / tick_interval)) tick_all (set_last_tick new_interval_tick m))
  else mret tt.

Definition on_meter (f : Meter → outcome Error Meter) : MeterM unit :=
  m ← gets item;
  m' ← lift (f m);
  set_meter m'.
Definition add_count (n : Z) (m : Meter) : outcome Error Meter :=
  c ← u_add 64 (count m) n;
  Ok (MkMeter (m1_rate m) (m5_rate m) (m15_rate m) c (start_time m) (last_tick m)).
Definition update_m1 (n : Z) (m : Meter) : outcome Error Meter :=
  r ← EWMA.update n (m1_rate m);
  Ok (MkMeter r (m5_rate m) (m15_rate m) (count m) (start_time m) (last_tick m)).
Definition update_m5 (n : Z) (m : Meter) : outcome Error Meter :=
  r ← EWMA.update n (m5_rate m);
  Ok (MkMeter (m1_rate m) r (m15_rate m) (count m) (start_time m) (last_tick m)).
Definition update_m15 (n : Z) (m : Meter) : outcome Error Meter :=
  r ← EWMA.update n (m15_rate m);
  Ok (MkMeter (m1_rate m) (m5_rate m) r (count m) (start_time m) (last_tick m)).
Definition mark_n (n : Z) : MeterM unit :=
  tick_if_necessary ;;
  on_meter (add_count n) ;;
  on_meter (update_m1 n) ;;
  on_meter (update_m5 n) ;;
  on_meter (update_m15 n).
Definition mark : MeterM unit := mark_n 1.

Definition get_count (m : Meter) : Z := count m.
Definition get_one_min_rate : MeterM f64 := tick_if_necessary ;; EWMA.get_rate ∘ m1_rate <$> gets item.
Definition get_five_min_rate : MeterM f64 := tick_if_necessary ;; EWMA.get_rate ∘ m5_rate <$> gets item.
Definition get_fifteen_min_rate : MeterM f64 := tick_if_necessary ;; EWMA.get_rate ∘ m15_rate <$> gets item.
Definition get_mean_rate : MeterM f64 :=
  m ← gets item;
  if count m =? 0 then mret (f64_of_int 0)
  else
    now ← get_system_time_nano;
    d ← lift (u_sub 64 now (start_time m));
    let elapsed := f64_of_int d in
    mret (f64_div (f64_of_int (count m)) (f64_mul elapsed (f64_of_int nanos_per_second))).
End meter.
End Meter.

(** ** Histograms ([histogram.rs]) *)

Module Histogram.
(** The natural logarithm and the exponential are functions of the platform. *)
Class Libm := { f64_ln : f64 → f64; f64_exp : f64 → f64 }.

Definition PRECISION : f64 := f64_of_int 100.
Definition BUCKETS : nat := Pos.to_nat (2 ^ 16).

Record Histogram : Type := MkHistogram { vals : list Z; sum : Z; count : Z }.
Definition default : Histogram := MkHistogram (replicate BUCKETS 0) 0 0.

Section histogram.
Context `{BuildProfile, Libm}.
Abbreviation HistM := (M Histogram Error).

Definition compress (value : f64) : outcome Error Z :=
  let boosted := f64_add (f64_of_int 1) (SFabs value) in
  let compressed := f64_mul_add PRECISION (f64_ln boosted) (f64_dyadic 1 (-1)) in
  if f64_le compressed (f64_of_int 65535) then Ok (f64_as_u 16 compressed)
  else Panic "assertion failed: compressed <= f64::from(u16::max_value())".
Definition decompress (compressed : Z) : f64 :=
  f64_sub (f64_exp (f64_div (f64_of_int compressed) PRECISION)) (f64_of_int 1).

Definition set_sum (s : Z) : HistM unit := modify (λ h, MkHistogram (vals h) s (count h)).
Definition incr_count : HistM unit :=
  h ← gets id;
  c ← lift (u_add 64 (count h) 1);
  modify (λ h, MkHistogram (vals h) (sum h) c).
(** [self.vals[compressed as usize] += 1] *)
Definition incr_bucket (i : Z) : HistM unit :=
  h ← gets vals;
  v ← lift (expect "index out of bounds" (h !! Z.to_nat i));
  v ← lift (u_add 64 v 1);
  modify (λ h, MkHistogram (<[Z.to_nat i := v]> (vals h)) (sum h) (count h)).

Definition measure (raw_value : Z) : HistM unit :=
  let value_float := f64_of_int raw_value in
  set_sum (f64_as_u 64 (f64_round value_float)) ;;
  incr_count ;;
  compressed ← lift (compress value_float);
  incr_bucket compressed.

(** The loop over the buckets from index [idx] on. *)
Fixpoint find_bucket (target sum : f64) (idx : Z) (vals : list Z) : f64 :=
  match vals with
  | [] => S754_nan
  | v :: vals' =>
      let sum := f64_add sum (f64_of_int v) in
      if f64_le target sum then decompress idx else find_bucket target sum (idx + 1) vals'
  end.
Definition percentile (h : Histogram) (p : f64) : outcome Error f64 :=
  if f64_le p (f64_of_int 100) then
    if count h =? 0 then Ok S754_nan
    else
      let target := f64_mul (f64_of_int (count h)) (f64_div p (f64_of_int 100)) in
      let target := if f64_eq target (f64_of_int 0) then f64_of_int 1 else target in
      Ok (find_bucket target (f64_of_int 0) 0 (vals h))
  else Panic "percentiles must not exceed 100.0".
Definition get_sum (h : Histogram) : Z := sum h.
Definition get_count (h : Histogram) : Z := count h.
End histogram.
End Histogram.
