(* ===== verification/MetricsSpec.v ===== *)
(** What the metrics measure: a meter accounts for every mark exactly once and ticks in step with the
    clock; a histogram counts every value in its bucket. *)

From S2P Require Import Prelude Error Metrics.
From Stdlib Require Import Floats.SpecFloat.

(** ** Moving averages: the reference *)

Definition instant_rate (iv : f64) (c : Z) : f64 := f64_div (f64_of_int c) iv.
Definition smooth (alpha iv r : f64) (c : Z) : f64 :=
  f64_add r (f64_mul alpha (f64_sub (instant_rate iv c) r)).
(** The average after ticks that saw the given counts, and marks of [rest] since. *)
Definition average (alpha iv : f64) (counts : list Z) (rest : Z) : EWMA.EWMA :=
  match counts with
  | [] => EWMA.MkEWMA false (f64_of_int 0) rest alpha iv
  | c :: cs => EWMA.MkEWMA true (foldl (smooth alpha iv) (instant_rate iv c) cs) rest alpha iv
  end.

Lemma tick_average alpha iv counts rest :
  EWMA.tick (average alpha iv counts rest) = average alpha iv (counts ++ [rest]) 0.
Proof. destruct counts as [|c cs]; [done|]. cbn. by rewrite foldl_app. Qed.
Lemma update_average `{BuildProfile} alpha iv counts rest n :
  in_u 64 (rest + n) →
  EWMA.update n (average alpha iv counts rest) = Ok (average alpha iv counts (rest + n)).
Proof.
  intros Hr. unfold EWMA.update. destruct counts; cbn [average EWMA.uncounted]; by rewrite u_add_ok.
Qed.

(** ** Meters *)

Definition zsum (l : list Z) : Z := foldr Z.add 0 l.
Lemma zsum_app l1 l2 : zsum (l1 ++ l2) = zsum l1 + zsum l2.
Proof. unfold zsum. induction l1 as [|x l1 IH]; cbn; lia. Qed.
Lemma zsum_replicate n : zsum (replicate n 0) = 0.
Proof. by induction n. Qed.
Lemma zsum_nonneg l : Forall (λ x, 0 ≤ x) l → 0 ≤ zsum l.
Proof. unfold zsum. induction 1; cbn; lia. Qed.

Section meters.
Context `{BuildProfile, SystemTime}.
Import Meter.

(** The meter started at [start] whose ticks saw [counts] and which has [rest] marks since the last. *)
Definition meter_of (start : Z) (counts : list Z) (rest : Z) : Meter :=
  MkMeter (average M1_ALPHA (f64_of_int INTERVAL) counts rest)
    (average M5_ALPHA (f64_of_int INTERVAL) counts rest)
    (average M15_ALPHA (f64_of_int INTERVAL) counts rest)
    (zsum counts + rest) start (start + len counts * tick_interval).

Lemma tick_all_meter start counts rest :
  tick_all (set_last_tick (start + (len counts + 1) * tick_interval) (meter_of start counts rest)) =
  meter_of start (counts ++ [rest]) 0.
Proof.
  unfold meter_of, tick_all, set_last_tick. cbn. rewrite !tick_average, length_app, zsum_app. cbn.
  f_equal; lia.
Qed.
(** The ticks of one call: the first sees the marks since the last tick, the others none. *)
Definition ticked (counts : list Z) (rest : Z) (k : nat) : list Z :=
  counts ++ match k with O => [] | S k' => rest :: replicate k' 0 end.
Lemma iter_ticks start counts rest k t :
  Nat.iter k tick_all (set_last_tick t (meter_of start counts rest)) =
  set_last_tick t (meter_of start (ticked counts rest k) (match k with O => rest | _ => 0 end)).
Proof.
  induction k as [|k IH]; [unfold ticked; by rewrite app_nil_r|]. rewrite Nat.iter_succ, IH.
  assert (ticked counts rest (S k) =
    ticked counts rest k ++ [match k with O => rest | _ => 0 end]) as ->.
  { unfold ticked. destruct k as [|k]; cbn; [by rewrite app_nil_r|].
    by rewrite <- (assoc_L (++)), replicate_cons_app. }
  unfold meter_of, tick_all, set_last_tick. cbn. rewrite !tick_average, zsum_app. cbn. f_equal. lia.
Qed.
Lemma length_ticked counts rest k : length (ticked counts rest k) = (length counts + k)%nat.
Proof. unfold ticked. destruct k; rewrite length_app; [done|]. cbn. by rewrite length_replicate. Qed.
Lemma zsum_ticked counts rest k :
  zsum (ticked counts rest k) + match k with O => rest | _ => 0 end = zsum counts + rest.
Proof. unfold ticked. destruct k; rewrite zsum_app; [cbn; lia|]. cbn. rewrite zsum_replicate. lia. Qed.

Lemma set_last_tick_meter start counts rest :
  set_last_tick (start + len counts * tick_interval) (meter_of start counts rest) = meter_of start counts rest.
Proof. done. Qed.

Lemma reading_ok {A E} (s : Timed A) now :
  system_time (readings s) = Some now → 0 ≤ now < 2 ^ 64 →
  get_system_time_nano (E:=E) s = (Ok now, MkTimed (item s) (S (readings s))).
Proof. intros Ht Hn. unfold get_system_time_nano. rewrite Ht. by rewrite Z.mod_small. Qed.

(** A reading of the clock at or after the last tick. *)
Lemma tick_if_necessary_ok start counts rest now n :
  system_time n = Some now → 0 ≤ start → start + len counts * tick_interval ≤ now < 2 ^ 64 →
  ∃ k, tick_if_necessary (MkTimed (meter_of start counts rest) n) =
      (Ok tt, MkTimed (meter_of start (ticked counts rest k) (match k with O => rest | _ => 0 end)) (S n)) ∧
    let last := start + len (ticked counts rest k) * tick_interval in last ≤ now ≤ last + tick_interval.
Proof.
  intros Ht Hs [Hle Hlt]. set (last := start + len counts * tick_interval) in *.
  assert (Hp : 0 < tick_interval) by done.
  assert (Hlast : start ≤ last) by (unfold last; lia).
  pose proof (reading_ok (E:=Error) (MkTimed (meter_of start counts rest) n) now Ht ltac:(lia)) as E.
  unfold tick_if_necessary. rewrite (bind_ok _ _ _ _ _ (eq_refl : gets item _ = _)). step_ok E.
  change (last_tick _) with last. unfold lift at 1. rewrite u_sub_ok by (unfold in_u; lia).
  erewrite bind_ok by done.
  destruct (Z.ltb_spec tick_interval (now - last)) as [Hgt|Hle']; cbn [mret M_ret].
  - pose proof (Z.mod_pos_bound (now - last) _ Hp). pose proof (Z_div_mod_eq_full (now - last) tick_interval).
    assert (1 ≤ (now - last) / tick_interval) by (apply Z.div_le_lower_bound; lia).
    unfold lift. rewrite u_sub_ok by (unfold in_u; lia). erewrite bind_ok by done.
    exists (Z.to_nat ((now - last) / tick_interval)). cbn [item]. rewrite iter_ticks. unfold set_meter, modify. cbn [readings].
    rewrite length_ticked.
    assert (now - (now - last) mod tick_interval = start + len (ticked counts rest
      (Z.to_nat ((now - last) / tick_interval))) * tick_interval) as ->.
    { rewrite length_ticked. unfold last in *. lia. }
    rewrite set_last_tick_meter. split; [done|]. cbn zeta. unfold last in *. lia.
  - exists O. unfold ticked. rewrite app_nil_r. split; [done|]. cbn zeta. fold last. lia.
Qed.

Lemma mark_n_ok start counts rest now n k :
  system_time n = Some now → 0 ≤ start → start + len counts * tick_interval ≤ now < 2 ^ 64 →
  Forall (λ x, 0 ≤ x) counts → 0 ≤ rest → 0 ≤ k → zsum counts + rest + k < 2 ^ 64 →
  ∃ counts' rest', mark_n k (MkTimed (meter_of start counts rest) n) =
      (Ok tt, MkTimed (meter_of start counts' rest') (S n)) ∧
    zsum counts' + rest' = zsum counts + rest + k ∧ Forall (λ x, 0 ≤ x) counts' ∧ 0 ≤ rest' ∧
    let last := start + len counts' * tick_interval in last ≤ now ≤ last + tick_interval.
Proof.
  intros Ht Hs Hlast Hc Hr Hk Hlt.
  destruct (tick_if_necessary_ok start counts rest now n Ht Hs Hlast) as (j & E & Hj).
  exists (ticked counts rest j), ((match j with O => rest | _ => 0 end) + k).
  pose proof (zsum_ticked counts rest j) as Hz.
  assert (0 ≤ match j with O => rest | _ => 0 end) as Hr' by (destruct j; lia).
  assert (Forall (λ x, 0 ≤ x) (ticked counts rest j)) as Hc'.
  { unfold ticked. apply Forall_app. split; [done|]. destruct j; constructor; [done|].
    by apply Forall_replicate. }
  pose proof (zsum_nonneg _ Hc') as Hn.
  split; [|split; [lia|split; [done|split; [lia|done]]]].
  unfold mark_n. step_ok E. unfold on_meter, mbind, M_bind, gets, lift, set_meter, modify, add_count. cbn.
  rewrite u_add_ok by (unfold in_u; lia). cbn.
  unfold update_m1. cbn. rewrite update_average by (unfold in_u; lia). cbn.
  unfold update_m5. cbn. rewrite update_average by (unfold in_u; lia). cbn.
  unfold update_m15. cbn. rewrite update_average by (unfold in_u; lia). cbn.
  do 2 f_equal. unfold meter_of. f_equal. lia.
Qed.

Lemma new_ok n now :
  system_time n = Some now → 0 ≤ now < 2 ^ 64 →
  new (MkTimed tt n) = (Ok (meter_of now [] 0), MkTimed tt (S n)).
Proof.
  intros Ht Hn. unfold new. step_ok (reading_ok (E:=Error) (MkTimed tt n) now Ht Hn).
  unfold meter_of. by replace (now + len [] * tick_interval) with now by (cbn [length]; lia).
Qed.

Lemma marks_ok (times : nat → Z) start ns n counts rest :
  (∀ i, (n ≤ i < n + length ns)%nat → system_time i = Some (times i)) →
  (∀ i j, (i ≤ j)%nat → times i ≤ times j) → times (n + length ns)%nat < 2 ^ 64 →
  0 ≤ start → Forall (λ x, 0 ≤ x) counts → 0 ≤ rest → Forall (λ x, 0 ≤ x) ns →
  zsum counts + rest + zsum ns < 2 ^ 64 →
  let last := start + len counts * tick_interval in last ≤ times (pred n) ≤ last + tick_interval →
  ∃ counts' rest', for_each mark_n ns (MkTimed (meter_of start counts rest) n) =
      (Ok tt, MkTimed (meter_of start counts' rest') (n + length ns)%nat) ∧
    zsum counts' + rest' = zsum counts + rest + zsum ns ∧
    let last := start + len counts' * tick_interval in
    last ≤ times (pred (n + length ns)) ≤ last + tick_interval.
Proof.
  revert n counts rest. induction ns as [|k ns IH]; intros n counts rest Ht Hmono Hmax Hs Hc Hr Hns Hsum last Hlast.
  - exists counts, rest. cbn in *. rewrite Nat.add_0_r. split; [done|]. split; [lia|]. done.
  - inversion_clear Hns as [|? ? Hk Hns']. cbn [zsum foldr] in Hsum. fold (zsum ns) in Hsum.
    pose proof (zsum_nonneg _ Hns'). cbn [length] in *.
    pose proof (Hmono (pred n) n ltac:(lia)). pose proof (Hmono n (n + S (length ns))%nat ltac:(lia)).
    destruct (mark_n_ok start counts rest (times n) n k) as (c1 & r1 & E1 & Hz1 & Hc1 & Hr1 & Hl1);
      [apply Ht; lia|done|unfold last in *; lia|done..|lia|].
    destruct (IH (S n) c1 r1) as (c2 & r2 & E2 & Hz2 & Hl2); try done.
    + intros i Hi. apply Ht. lia.
    + by rewrite <- plus_n_Sm in Hmax.
    + lia.
    + exists c2, r2. replace (n + S (length ns))%nat with (S n + length ns)%nat by lia.
      change (zsum (k :: ns)) with (k + zsum ns). split; [|split; [lia|done]]. cbn [for_each]. step_ok E1. exact E2.
Qed.

(** However the marks fall, a meter counts each exactly once: at most [tick_interval] after the last
    reading of a clock that does not run backwards, the averages are those of a tick every interval since
    the start over counts that, with the marks still uncounted, add up to all the marks. *)
Theorem meter_accounts (times : nat → Z) (ns : list Z) :
  (∀ i, (i ≤ length ns)%nat → system_time i = Some (times i)) →
  (∀ i j, (i ≤ j)%nat → times i ≤ times j) → 0 ≤ times O → times (S (length ns)) < 2 ^ 64 →
  Forall (λ n, 0 ≤ n) ns → zsum ns < 2 ^ 64 →
  ∃ m counts rest, new (MkTimed tt 0) = (Ok m, MkTimed tt 1) ∧
    for_each mark_n ns (MkTimed m 1) =
      (Ok tt, MkTimed (meter_of (times O) counts rest) (S (length ns))) ∧
    zsum counts + rest = zsum ns ∧
    times O + len counts * tick_interval ≤ times (length ns) ≤ times O + (len counts + 1) * tick_interval.
Proof.
  intros Ht Hmono H0' Hmax Hns Hsum. exists (meter_of (times O) [] 0).
  pose proof (Hmono O (S (length ns)) ltac:(lia)).
  destruct (marks_ok times (times O) ns 1 [] 0) as (c & r & E & Hz & Hl); try done; cbn; try (unfold tick_interval; lia).
  { intros i Hi. apply Ht. lia. }
  exists c, r. split; [apply new_ok; [apply Ht; lia|lia]|]. split; [exact E|]. split; [cbn in Hz; lia|].
  cbn in Hl. lia.
Qed.
End meters.

(** The factor of the one-minute average exceeds one, so that the average overshoots: after a burst and
    an idle interval the throughput is negative. *)
Lemma one_minute_rate_negative `{BuildProfile} :
  ∃ x, EWMA.update 100 EWMA.one_min_ewma = Ok x ∧
    f64_lt (EWMA.get_rate (EWMA.tick (EWMA.tick x))) (f64_of_int 0) = true.
Proof. eexists. split; [reflexivity|]. vm_compute. reflexivity. Qed.

Lemma mean_rate `{BuildProfile, SystemTime} m k t :
  Meter.count m ≠ 0 → system_time k = Some t → in_u 64 t → in_u 64 (t - Meter.start_time m) →
  Meter.get_mean_rate (MkTimed m k) =
    (Ok (f64_div (f64_of_int (Meter.count m)) (f64_mul (f64_of_int (t - Meter.start_time m)) (f64_of_int Meter.nanos_per_second))), MkTimed m (S k)).
Proof.
  intros Hc Ht Hu Hd. unfold Meter.get_mean_rate. erewrite bind_ok by done. cbn [item]. rewrite (proj2 (Z.eqb_neq _ _)) by done.
  erewrite bind_ok by (unfold get_system_time_nano; cbn [readings]; by rewrite Ht). rewrite Z.mod_small by exact Hu.
  rewrite u_sub_ok by exact Hd. by erewrite bind_ok by done.
Qed.
(** The mean rate of a hundred marks in a second is not a hundred per second. *)
Lemma mean_rate_of_second `{BuildProfile} :
  let times : SystemTime := λ n, Some (Z.of_nat n * 10 ^ 9) in
  ∃ r s, Meter.get_mean_rate (H0:=times) (MkTimed (meter_of 0 [] 100) 1) = (Ok r, s) ∧
    f64_lt r (f64_dyadic 1 (-20)) = true.
Proof.
  intros times. eexists _, _. split; [apply (mean_rate _ _ (10 ^ 9)); unfold in_u; cbn [Meter.count Meter.start_time meter_of]; (done || lia)|].
  vm_compute. reflexivity.
Qed.

(** ** Histograms *)

Section histograms.
Context `{BuildProfile, Histogram.Libm}.
Import Histogram.

Lemma f64_as_u_range w x : 0 ≤ w → 0 ≤ f64_as_u w x < 2 ^ w.
Proof.
  intros Hw. assert (0 < 2 ^ w) by lia. unfold f64_as_u.
  destruct x as [|[]| |[] m e]; try lia. destruct (Z.leb_spec 0 e).
  - pose proof (Z.pow_nonneg 2 e ltac:(lia)). lia.
  - pose proof (Z.div_pos (Zpos m) (2 ^ - e) ltac:(lia) ltac:(lia)). lia.
Qed.
Lemma compress_range v b : compress v = Ok b → 0 ≤ b < 2 ^ 16.
Proof. unfold compress. case_match; [|done]. intros [= <-]. by apply f64_as_u_range. Qed.

(** The number of values of [vs] in the bucket [b]. *)
Definition in_bucket (b : Z) (v : Z) : Prop := compress (f64_of_int v) = Ok b.
#[export] Instance in_bucket_dec b v : Decision (in_bucket b v).
Proof.
  unfold in_bucket. destruct (compress _) as [b'| | |]; [|by right..].
  destruct (decide (b' = b)) as [->|Hne]; [by left|right; congruence].
Defined.
Definition occurrences (vs : list Z) (b : Z) : Z := len (filter (in_bucket b) vs).
Definition last_sum (vs : list Z) : Z :=
  match last vs with Some v => f64_as_u 64 (f64_round (f64_of_int v)) | None => 0 end.

Record hist_rep (h : Histogram) (vs : list Z) : Prop := {
  hr_length : length (vals h) = BUCKETS;
  hr_vals b : 0 ≤ b < 2 ^ 16 → vals h !! Z.to_nat b = Some (occurrences vs b);
  hr_count : count h = len vs;
  hr_sum : sum h = last_sum vs;
}.
Definition measurable (v : Z) : Prop := ∃ b, in_bucket b v.

Lemma default_rep : hist_rep default [].
Proof.
  split; [apply length_replicate| |done..]. intros b Hb. apply lookup_replicate_2. unfold BUCKETS. lia.
Qed.
Lemma occurrences_app vs v b :
  occurrences (vs ++ [v]) b = occurrences vs b + (if decide (in_bucket b v) then 1 else 0).
Proof.
  unfold occurrences. rewrite filter_app, length_app, Nat2Z.inj_add. f_equal.
  rewrite filter_cons. by case_decide.
Qed.
Lemma occurrences_le vs b : occurrences vs b ≤ len vs.
Proof. unfold occurrences. pose proof (length_filter (in_bucket b) vs). lia. Qed.

Lemma measure_ok h vs v :
  hist_rep h vs → measurable v → len vs + 1 < 2 ^ 64 →
  ∃ h', measure v h = (Ok tt, h') ∧ hist_rep h' (vs ++ [v]).
Proof.
  intros [Hl Hv Hc Hs] [b Hb] Hlen. pose proof (compress_range _ _ Hb) as Hr.
  pose proof (occurrences_le vs b) as Ho.
  exists (MkHistogram (<[Z.to_nat b := occurrences vs b + 1]> (vals h))
    (f64_as_u 64 (f64_round (f64_of_int v))) (len vs + 1)). split.
  - unfold measure. unfold set_sum at 1, modify at 1. erewrite bind_ok by done. cbv beta.
    unfold incr_count. rewrite (bind_assoc (gets id)). erewrite bind_ok by done. cbv beta.
    cbn [vals sum count id]. rewrite Hc. unfold lift at 1. rewrite u_add_ok by (unfold in_u; lia).
    rewrite bind_assoc. erewrite bind_ok by done. cbv beta. unfold modify at 1. erewrite bind_ok by done.
    cbv beta. cbn [vals sum count]. rewrite Hb. erewrite bind_ok by done. cbv beta.
    unfold incr_bucket. erewrite bind_ok by done. cbv beta. cbn [vals]. rewrite Hv by done. unfold lift.
    erewrite bind_ok by done. cbv beta. rewrite u_add_ok by (unfold in_u, occurrences in *; lia). done.
  - split; cbn [vals count sum].
    + by rewrite length_insert.
    + intros b' Hb'. rewrite occurrences_app. destruct (decide (b' = b)) as [->|Hne].
      * rewrite decide_True by done. apply list_lookup_insert_eq. rewrite Hl. unfold BUCKETS. lia.
      * rewrite list_lookup_insert_ne by lia. rewrite Hv by done. rewrite decide_False; [f_equal; lia|].
        unfold in_bucket in *. congruence.
    + rewrite length_app. cbn. lia.
    + unfold last_sum. by rewrite last_snoc.
Qed.

(** A histogram counts every value once, in the bucket it is compressed to, and never indexes out of its
    buckets; but its sum is that of the last value alone. *)
Theorem histogram_counts (vs : list Z) :
  Forall measurable vs → len vs < 2 ^ 64 →
  ∃ h, for_each measure vs default = (Ok tt, h) ∧ get_count h = len vs ∧
    (∀ b, 0 ≤ b < 2 ^ 16 → vals h !! Z.to_nat b = Some (occurrences vs b)) ∧ get_sum h = last_sum vs.
Proof.
  intros Hm Hlen. assert (∃ h, for_each measure vs default = (Ok tt, h) ∧ hist_rep h vs) as (h & E & []).
  { induction vs as [|v vs IH] using rev_ind; [exists default; split; [done|apply default_rep]|].
    rewrite Forall_app, Forall_singleton in Hm. rewrite length_app in Hlen. cbn in Hlen.
    destruct IH as (h & E & Hh); [apply Hm|lia|].
    destruct (measure_ok h vs v Hh) as (h' & E' & Hh'); [apply Hm|lia|]. exists h'. split; [|done].
    rewrite for_each_app. step_ok E. cbn [for_each]. by step_ok E'. }
  by exists h.
Qed.
End histograms.

(** ** Witnesses *)

#[local] Instance debug_profile : BuildProfile := true.
Definition example_times (n : nat) : Z := 10 ^ 12 + Z.of_nat n * (3 * 10 ^ 9).
#[local] Instance example_clock : SystemTime := λ n, Some (example_times n).
(** Logarithms of one everywhere: every value falls in the bucket 100. *)
#[local] Instance example_libm : Histogram.Libm :=
  {| Histogram.f64_ln := λ _, f64_of_int 1; Histogram.f64_exp := λ _, f64_of_int 1 |}.

Example meter_accounts_witness :
  ∃ m counts rest, Meter.new (MkTimed tt 0) = (Ok m, MkTimed tt 1) ∧
    for_each Meter.mark_n [2; 0; 5] (MkTimed m 1) =
      (Ok tt, MkTimed (meter_of (example_times 0) counts rest) 4) ∧
    zsum counts + rest = zsum [2; 0; 5] ∧
    example_times 0 + len counts * Meter.tick_interval ≤ example_times 3
      ≤ example_times 0 + (len counts + 1) * Meter.tick_interval.
Proof.
  apply (meter_accounts example_times [2; 0; 5]).
  - done.
  - intros i j Hij. unfold example_times. lia.
  - done.
  - done.
  - repeat constructor; done.
  - done.
Defined.

Example histogram_counts_witness :
  ∃ h, for_each Histogram.measure [7; 9] Histogram.default = (Ok tt, h) ∧ Histogram.get_count h = 2 ∧
    (∀ b, 0 ≤ b < 2 ^ 16 → Histogram.vals h !! Z.to_nat b = Some (occurrences [7; 9] b)) ∧
    Histogram.get_sum h = last_sum [7; 9].
Proof.
  apply (histogram_counts [7; 9]).
  - repeat constructor; exists 100; vm_compute; reflexivity.
  - done.
Defined.
