(* ===== verification/Operator.v ===== *)
(** [arcon/src/stream/operator]: the interface of operators, the context they are called with, and the
    function operators. *)

From S2P Require Import Prelude Error Allocator EventBuffer Pool Serialization StateBackend BackendClient Data Channel Timer.

(** ** The context of a call ([operator/mod.rs]) *)

(** What an [OperatorContext] borrows: the channel strategy with the queues it sends to, and the timer
    with the session of the state backend. *)
Record OpEnv (OUT T B : Type) : Type := MkOpEnv {
  strategy : ChannelStrategy;
  net : Net OUT;
  tenv : TimerEnv T B;
}.
Arguments MkOpEnv {OUT T B}.
Arguments strategy {OUT T B}.
Arguments net {OUT T B}.
Arguments tenv {OUT T B}.

Section context.
Context {OUT T B : Type}.
Abbreviation OpM := (M (OpEnv OUT T B) Error).

Definition on_timer {A} (m : M (TimerEnv T B) Error A) : OpM A :=
  zoom tenv (λ t c, MkOpEnv (strategy c) (net c) t) m.
(** A computation on the session. *)
Definition on_session {A} (m : M B Error A) : OpM A := on_timer (zoom sb set_sb m).

Section output.
Context `{BuildProfile, Receivers, Fuel, Transport OUT, ArconType OUT}.
Definition output (event : ArconEvent OUT) : OpM unit := λ c,
  let '(o, n) := strategy_add (strategy c) event (net c) in
  match o with
  | Ok s => (Ok tt, MkOpEnv s n (tenv c))
  | Err e => (Err e, MkOpEnv (strategy c) n (tenv c))
  | Panic msg => (Panic msg, MkOpEnv (strategy c) n (tenv c))
  | Diverge => (Diverge, MkOpEnv (strategy c) n (tenv c))
  end.
End output.

Context {TS : Type} `{TimerBackend T TS B}.
Definition ctx_current_time : OpM Z := on_timer current_time.
Definition ctx_schedule_after (delay : Z) (entry : TS) : OpM (Scheduled TS) :=
  on_timer (schedule_after delay entry).
Definition ctx_schedule_at (time : Z) (entry : TS) : OpM (Scheduled TS) :=
  on_timer (schedule_at time entry).
End context.

(** ** The interface *)

(** A registration returns no [Result]; a method that takes [&mut self] returns the new value. *)
Class Operator (OP IN OUT TS T B : Type) := {
  op_register_states : OP → M B Error OP;
  op_init : OP → M B Error OP;
  handle_element : OP → ArconElement IN → M (OpEnv OUT T B) Error unit;
  handle_watermark : OP → Watermark → M (OpEnv OUT T B) Error unit;
  handle_epoch : OP → Epoch → M (OpEnv OUT T B) Error unit;
  handle_timeout : OP → TS → M (OpEnv OUT T B) Error unit;
}.

(** The macros [ignore_watermark], [ignore_epoch] and [ignore_timeout]. *)
Definition ignore_watermark {S E} (_ : Watermark) : M S E unit := mret tt.
Definition ignore_epoch {S E} (_ : Epoch) : M S E unit := mret tt.
Definition ignore_timeout {S E TS} (_ : TS) : M S E unit := mret tt.

(** [GenericBundle]: the states of a user function. *)
Class GenericBundle (S B : Type) := bundle_register_states : S → M B Error S.
#[export] Instance unit_bundle B : GenericBundle unit B := λ s, mret s.

(** ** Function operators ([operator/function]) *)

(** The user functions read and write the session, and may panic like any code. *)
Record Map (IN OUT S B : Type) : Type := MkMap { map_state : S; map_udf : IN → S → M B Error OUT }.
Arguments MkMap {IN OUT S B}.
Arguments map_state {IN OUT S B}.
Arguments map_udf {IN OUT S B}.
Record Filter (IN S B : Type) : Type := MkFilter { filter_state : S; filter_udf : IN → S → M B Error bool }.
Arguments MkFilter {IN S B}.
Arguments filter_state {IN S B}.
Arguments filter_udf {IN S B}.
(** The iterator that the user function returns is the list of its items. *)
Record FlatMap (IN OUT S B : Type) : Type := MkFlatMap { flat_state : S; flat_udf : IN → S → M B Error (list OUT) }.
Arguments MkFlatMap {IN OUT S B}.
Arguments flat_state {IN OUT S B}.
Arguments flat_udf {IN OUT S B}.
(** The user function gets the datum as [&mut IN]; in the model it returns the new one. *)
Record MapInPlace (IN S B : Type) : Type := MkMapInPlace { place_state : S; place_udf : IN → S → M B Error IN }.
Arguments MkMapInPlace {IN S B}.
Arguments place_state {IN S B}.
Arguments place_udf {IN S B}.

Definition Map_new {IN OUT B} (udf : IN → OUT) : Map IN OUT unit B := MkMap tt (λ x _, mret (udf x)).
Definition Map_stateful {IN OUT S B} (state : S) (udf : IN → S → M B Error OUT) : Map IN OUT S B := MkMap state udf.
Definition Filter_new {IN B} (udf : IN → bool) : Filter IN unit B := MkFilter tt (λ x _, mret (udf x)).
Definition Filter_stateful {IN S B} (state : S) (udf : IN → S → M B Error bool) : Filter IN S B := MkFilter state udf.
Definition FlatMap_new {IN OUT B} (udf : IN → list OUT) : FlatMap IN OUT unit B := MkFlatMap tt (λ x _, mret (udf x)).
Definition FlatMap_stateful {IN OUT S B} (state : S) (udf : IN → S → M B Error (list OUT)) : FlatMap IN OUT S B := MkFlatMap state udf.
Definition MapInPlace_new {IN B} (udf : IN → IN) : MapInPlace IN unit B := MkMapInPlace tt (λ x _, mret (udf x)).
Definition MapInPlace_stateful {IN S B} (state : S) (udf : IN → S → M B Error IN) : MapInPlace IN S B := MkMapInPlace state udf.

Section functions.
Context `{BuildProfile, Receivers, Fuel} {IN OUT S T B : Type} `{Transport OUT, ArconType OUT, Transport IN, ArconType IN}.
Context `{GenericBundle S B, TimerBackend T ArconNever B}.

#[export] Instance Map_Operator : Operator (Map IN OUT S B) IN OUT ArconNever T B := {
  op_register_states op := s ← bundle_register_states (map_state op); mret (MkMap s (map_udf op));
  op_init op := mret op;
  handle_element op element :=
    result ← on_session (map_udf op (data element) (map_state op));
    output (Element (MkArconElement result (timestamp element)));
  handle_watermark _ := ignore_watermark;
  handle_epoch _ := ignore_epoch;
  handle_timeout _ := ignore_timeout;
}.

#[export] Instance Filter_Operator : Operator (Filter IN S B) IN IN ArconNever T B := {
  op_register_states op := s ← bundle_register_states (filter_state op); mret (MkFilter s (filter_udf op));
  op_init op := mret op;
  handle_element op element :=
    keep ← on_session (filter_udf op (data element) (filter_state op));
    if keep : bool then output (Element element) else mret tt;
  handle_watermark _ := ignore_watermark;
  handle_epoch _ := ignore_epoch;
  handle_timeout _ := ignore_timeout;
}.

#[export] Instance FlatMap_Operator : Operator (FlatMap IN OUT S B) IN OUT ArconNever T B := {
  op_register_states op := s ← bundle_register_states (flat_state op); mret (MkFlatMap s (flat_udf op));
  op_init op := mret op;
  handle_element op element :=
    result ← on_session (flat_udf op (data element) (flat_state op));
    for_each (λ item, output (Element (MkArconElement item (timestamp element)))) result;
  handle_watermark _ := ignore_watermark;
  handle_epoch _ := ignore_epoch;
  handle_timeout _ := ignore_timeout;
}.

#[export] Instance MapInPlace_Operator : Operator (MapInPlace IN S B) IN IN ArconNever T B := {
  op_register_states op := s ← bundle_register_states (place_state op); mret (MkMapInPlace s (place_udf op));
  op_init op := mret op;
  handle_element op element :=
    d ← on_session (place_udf op (data element) (place_state op));
    output (Element (MkArconElement d (timestamp element)));
  handle_watermark _ := ignore_watermark;
  handle_epoch _ := ignore_epoch;
  handle_timeout _ := ignore_timeout;
}.
End functions.
