(* ===== verification/OperatorSpec.v ===== *)
(** What the function operators compute: on a stream of elements, the stream the list functions give. *)

From S2P Require Import Prelude Error Allocator EventBuffer Pool Serialization StateBackend BackendClient Data Channel Timer Operator.

(** ** The parts of a context *)

Section parts.
Context {OUT T B : Type}.
Implicit Types (c : OpEnv OUT T B).
Definition backend_of (c : OpEnv OUT T B) : B := sb (tenv c).
Definition with_backend (b : B) (c : OpEnv OUT T B) : OpEnv OUT T B :=
  MkOpEnv (strategy c) (net c) (set_sb b (tenv c)).
Lemma with_backend_twice b b' c : with_backend b (with_backend b' c) = with_backend b c.
Proof. done. Qed.
Lemma with_backend_id c : with_backend (backend_of c) c = c.
Proof. by destruct c as [? ? []]. Qed.
Definition with_tenv (t : TimerEnv T B) c : OpEnv OUT T B := MkOpEnv (strategy c) (net c) t.

Lemma on_session_ok {E A} (f : outcome E A → outcome Error A) (m : M B E A) c x b :
  m (backend_of c) = (Ok x, b) → f (Ok x) = Ok x → on_session (on_outcome f m) c = (Ok x, with_backend b c).
Proof. intros E1 Hf. unfold on_session, on_timer, zoom, on_outcome. unfold backend_of in E1. by rewrite E1, Hf. Qed.
Lemma on_timer_ok {A} (m : M (TimerEnv T B) Error A) c o t :
  m (tenv c) = (o, t) → on_timer m c = (o, with_tenv t c).
Proof. intros E. unfold on_timer, zoom. by rewrite E. Qed.
Lemma on_timer_bind {A A'} (m : M (TimerEnv T B) Error A) (k : A → M (TimerEnv T B) Error A') c :
  (on_timer m ≫= λ x, on_timer (k x)) c = on_timer (m ≫= k) c.
Proof.
  unfold on_timer, zoom, mbind, M_bind. destruct (m (tenv c)) as [[x| | |] t]; [|done..]. cbn. by destruct (k x t).
Qed.

Context `{BuildProfile, Receivers, Fuel, Transport OUT, ArconType OUT}.
(** Output depends on the strategy and the queues alone. *)
Lemma output_tenv ev c t : output ev (with_tenv t c) = prod_map id (with_tenv t) (output ev c).
Proof. unfold output. cbn. by destruct (strategy_add (strategy c) ev (net c)) as [[] ?]. Qed.
Lemma outputs_tenv evs c t : for_each output evs (with_tenv t c) = prod_map id (with_tenv t) (for_each output evs c).
Proof.
  revert c. induction evs as [|ev evs IH]; intros c; [done|]. cbn [for_each]. unfold mbind at 1 2, M_bind.
  rewrite output_tenv. destruct (output ev c) as [[] c1]; cbn; [apply IH|done..].
Qed.
End parts.

Section streams.
Context `{BuildProfile, Receivers, Fuel} {IN OUT T B : Type} `{Transport OUT, ArconType OUT, Transport IN, ArconType IN}.
Context `{TimerBackend T ArconNever B}.

Definition emit {A} `{Transport A, ArconType A} (e : ArconElement A) : M (OpEnv A T B) Error unit := output (Element e).
Definition with_data {A A'} (x : A') (e : ArconElement A) : ArconElement A' := MkArconElement x (timestamp e).

Lemma on_session_ret {A O} (a : A) (c : OpEnv O T B) : on_session (mret a) c = (Ok a, c).
Proof. by destruct c as [? ? []]. Qed.
Lemma filter_element p (e : ArconElement IN) (c : OpEnv IN T B) :
  handle_element (Filter_new (B:=B) p) e c = if p (data e) then emit e c else (Ok tt, c).
Proof.
  cbn [handle_element Filter_Operator]. unfold Filter_new. cbn [filter_udf].
  rewrite (bind_ok _ _ _ _ _ (on_session_ret _ _)). by destruct (p (data e)).
Qed.

(** Over a stream of elements, the stateless function operators emit, in order and with the timestamps
    of their inputs, the map, the filter and the concatenated images of the stream; the in-place map
    emits what the map does. *)
Theorem function_operators_stream (f : IN → OUT) (p : IN → bool) (g : IN → list OUT) (h : IN → IN)
    (es : list (ArconElement IN)) (c : OpEnv OUT T B) (c' : OpEnv IN T B) :
  for_each (handle_element (Map_new (B:=B) f)) es c =
    for_each emit ((λ e, with_data (f (data e)) e) <$> es) c ∧
  for_each (handle_element (Filter_new (B:=B) p)) es c' =
    for_each emit (filter (λ e, p (data e)) es) c' ∧
  for_each (handle_element (FlatMap_new (B:=B) g)) es c =
    for_each emit (es ≫= λ e, (λ x, with_data x e) <$> g (data e)) c ∧
  for_each (handle_element (MapInPlace_new (B:=B) h)) es c' =
    for_each (handle_element (Map_new (B:=B) h)) es c'.
Proof.
  split; [|split; [|split]].
  - rewrite for_each_fmap. apply for_each_ext. intros e s. cbn. by rewrite (bind_ok _ _ _ _ _ (on_session_ret _ _)).
  - revert c'. induction es as [|e es IH]; intros c'; [done|]. rewrite filter_cons. cbn [for_each].
    unfold mbind at 1, M_bind. rewrite filter_element. case_decide as Hp; destruct (p (data e)); try done.
    cbn [for_each]. unfold mbind, M_bind. destruct (emit e c') as [[] ?]; [apply IH|done..].
  - rewrite for_each_bind. apply for_each_ext. intros e s. cbn [handle_element FlatMap_Operator].
    unfold FlatMap_new. cbn [flat_udf]. rewrite (bind_ok _ _ _ _ _ (on_session_ret _ _)). by rewrite for_each_fmap.
  - by apply for_each_ext.
Qed.
End streams.
