(* ===== verification/Window.v ===== *)
(** [arcon/src/stream/operator/window]: windows that append or aggregate, and the operator that assigns
    elements to windows of event time. *)

From S2P Require Import Prelude Error Allocator EventBuffer Pool Serialization StateBackend BackendClient Data Channel Timer Operator.

(** ** The interface ([window/mod.rs]) *)

(** A window is called with the session, which is the state of the computation, and the key and the
    index it keeps its content under. *)
Record WindowContext : Type := MkWindowContext { wc_key : Z; wc_index : Z }.

Class Window (W IN OUT B : Type) := {
  window_register_states : W → M B Error W;
  on_element : W → IN → WindowContext → M B Error unit;
  result : W → WindowContext → M B Error OUT;
  clear : W → WindowContext → M B Error unit;
}.

(** The handle that [set_item_key] and [set_namespace] leave behind. *)
Definition keyed {S} (h : Handle S u64 u64) (ctx : WindowContext) : Handle S u64 u64 :=
  set_namespace (set_item_key h (UInt (wc_key ctx))) (UInt (wc_index ctx)).

(** ** Appending windows *)

Record AppenderWindow (IN OUT : Type) : Type := MkAppenderWindow {
  buffer : Handle (VecState IN) u64 u64;
  materializer : list IN → OUT;
}.
Arguments MkAppenderWindow {IN OUT}.
Arguments buffer {IN OUT}.
Arguments materializer {IN OUT}.

Definition AppenderWindow_new {IN OUT} (materializer : list IN → OUT) : AppenderWindow IN OUT :=
  MkAppenderWindow
    (with_namespace (with_item_key (vec_handle IN "appender_window_buffer") (UInt 0)) (UInt 0)) materializer.

#[export] Instance AppenderWindow_Window {IN OUT B} `{Backend B, Value IN} : Window (AppenderWindow IN OUT) IN OUT B := {
  window_register_states w :=
    h ← registering (register_vec_handle (buffer w));
    mret (MkAppenderWindow h (materializer w));
  on_element w element ctx := state_try (ActiveVec.append (keyed (buffer w) ctx) element);
  result w ctx :=
    buf ← state_try (ActiveVec.get (keyed (buffer w) ctx));
    mret (materializer w buf);
  clear w ctx := state_try (ActiveVec.clear (keyed (buffer w) ctx));
}.

(** ** Incremental windows *)

(** [util/prost_helpers.rs] *)
Record ProstOption (A : Type) : Type := MkProstOption { inner : option A }.
Arguments MkProstOption {A}.
Arguments inner {A}.

Section incremental.
Context {IN OUT : Type}.
Definition IncrementalWindowAggregator (init : IN → OUT) (agg : IN → OUT → OUT)
  : Aggregator IN (ProstOption OUT) OUT := {|
  create_accumulator := MkProstOption None;
  agg_add acc value :=
    match inner acc with
    | None => MkProstOption (Some (init value))
    | Some x => MkProstOption (Some (agg value x))
    end;
  merge_accumulators _ _ := Panic "not implemented";
  accumulator_into_result acc := expect "uninitialized incremental window" (inner acc);
|}.

Record IncrementalWindow : Type := MkIncrementalWindow {
  aggregator : Handle (AggregatorState IN (ProstOption OUT) OUT) u64 u64;
}.
Definition IncrementalWindow_new (init : IN → OUT) (agg : IN → OUT → OUT) : IncrementalWindow :=
  MkIncrementalWindow
    (with_namespace (with_item_key
      (aggregator_handle "incremental_window_aggregating_state" (IncrementalWindowAggregator init agg))
      (UInt 0)) (UInt 0)).

#[export] Instance IncrementalWindow_Window {B} `{Backend B, Value IN, Value (ProstOption OUT)}
  : Window IncrementalWindow IN OUT B := {
  window_register_states w :=
    h ← registering (register_aggregator_handle (aggregator w));
    mret (MkIncrementalWindow h);
  on_element w element ctx := state_try (ActiveAggregator.aggregate (keyed (aggregator w) ctx) element);
  result w ctx := state_try (ActiveAggregator.get (keyed (aggregator w) ctx));
  clear w ctx := state_try (ActiveAggregator.clear (keyed (aggregator w) ctx));
}.
End incremental.
Arguments IncrementalWindow : clear implicits.
Arguments MkIncrementalWindow {IN OUT}.
Arguments aggregator {IN OUT}.

(** ** The assigner of event-time windows ([window/event_time.rs]) *)

Record WindowEvent : Type := MkWindowEvent { we_key : Z; we_index : Z; we_timestamp : Z }.
Record KeyAndIndex : Type := MkKeyAndIndex { ki_key : Z; ki_index : Z }.
#[export] Instance WindowEvent_eq_dec : EqDecision WindowEvent.
Proof. solve_decision. Defined.
#[export] Instance KeyAndIndex_eq_dec : EqDecision KeyAndIndex.
Proof. solve_decision. Defined.
#[export] Program Instance WindowEvent_countable : Countable WindowEvent :=
  inj_countable' (λ e, (we_key e, we_index e, we_timestamp e)) (λ p, MkWindowEvent p.1.1 p.1.2 p.2) _.
Next Obligation. by intros []. Qed.
#[export] Program Instance KeyAndIndex_countable : Countable KeyAndIndex :=
  inj_countable' (λ e, (ki_key e, ki_index e)) (λ p, MkKeyAndIndex p.1 p.2) _.
Next Obligation. by intros []. Qed.

Record EventTimeWindowAssignerState : Type := MkAssignerState {
  window_start : Handle (ValueState u64) u64 unit;
  active_windows : Handle (MapState KeyAndIndex unit) unit unit;
}.
Definition EventTimeWindowAssignerState_new : EventTimeWindowAssignerState :=
  MkAssignerState (with_item_key (value_handle u64 "window_start") (UInt 0))
    (map_handle KeyAndIndex unit "active_windows").

Record EventTimeWindowAssigner (W : Type) : Type := MkAssigner {
  window_length : Z;
  window_slide : Z;
  late_arrival_time : Z;
  is_keyed : bool;
  window : W;
  wa_state : EventTimeWindowAssignerState;
}.
Arguments MkAssigner {W}.
Arguments window_length {W}.
Arguments window_slide {W}.
Arguments late_arrival_time {W}.
Arguments is_keyed {W}.
Arguments window {W}.
Arguments wa_state {W}.

Definition EventTimeWindowAssigner_new {W} (window : W) (length slide late : Z) (keyed : bool)
  : outcome Error (EventTimeWindowAssigner W) :=
  if length <? slide then Panic "Window Length lower than slide!"
  else
    r ← u_rem length slide;
    if negb (r =? 0) then Panic "Window Length not divisible by slide!"
    else Ok (MkAssigner length slide late keyed window EventTimeWindowAssignerState_new).

Section assigner.
Context `{BuildProfile, Receivers, Fuel} {W IN OUT T B : Type} `{Transport OUT, ArconType IN, ArconType OUT}.
Context `{Backend B, TimerBackend T WindowEvent B, !Window W IN OUT B}.
Context `{Value u64, Key KeyAndIndex, Value unit}.
Implicit Type a : EventTimeWindowAssigner W.
Abbreviation OpM := (M (OpEnv OUT T B) Error).

(** An operation on the session whose error is unwrapped. *)
Definition expecting {A} (msg : string) (m : StateM B A) : OpM A := on_session (on_outcome (expect_ok msg) m).
Definition window_expect {A} (msg : string) (m : M B Error A) : OpM A := on_session (on_outcome (expect_ok msg) m).

Definition start_of a (key : Z) : Handle (ValueState u64) u64 unit :=
  set_item_key (window_start (wa_state a)) (UInt key).
Definition new_window_trigger a (key index : Z) : OpM (Scheduled WindowEvent) :=
  o ← expecting "window start state get error" (ActiveValue.get (start_of a key));
  w_start ← lift (expect "tried to schedule window_trigger for key which hasn't started" o);
  off ← lift (u_mul 64 index (window_slide a));
  x ← lift (u_add 64 (uint_val w_start) off);
  ts ← lift (u_add 64 x (window_length a));
  due ← lift (u_add 64 ts (late_arrival_time a));
  ctx_schedule_at due (MkWindowEvent key index ts).

Definition window_key a (e : ArconElement IN) : Z := if is_keyed a then get_key (data e) else 0.

(** The lowest and the highest window of an element. *)
Definition window_range a (key ts : Z) : OpM (Z * Z) :=
  o ← expecting "window start state get error" (ActiveValue.get (start_of a key));
  match o with
  | Some start =>
      d ← lift (u_sub 64 ts (uint_val start));
      ceil ← lift (u_div d (window_slide a));
      n ← lift (u_div (window_length a) (window_slide a));
      if n <=? ceil then
        n ← lift (u_div (window_length a) (window_slide a));
        x ← lift (u_sub 64 ceil n);
        floor ← lift (u_add 64 x 1);
        mret (floor, ceil)
      else mret (0, ceil)
  | None =>
      expecting "window start set error" (ActiveValue.set (start_of a key) (UInt ts)) ;;
      mret (0, 0)
  end.
(** What is done for every index of the range. *)
Definition insert_element a (key : Z) (e : ArconElement IN) (index : Z) : OpM unit :=
  window_expect "window error" (on_element (window a) (data e) (MkWindowContext key index)) ;;
  active ← expecting "window active check error"
    (ActiveMap.contains (active_windows (wa_state a)) (MkKeyAndIndex key index));
  if active : bool then mret tt
  else
    expecting "active windows insert error"
      (ActiveMap.insert (active_windows (wa_state a)) (MkKeyAndIndex key index) tt) ;;
    r ← new_window_trigger a key index;
    match r with
    | inl _ => mret tt
    | inr _ => panic "internal error: entered unreachable code: Window was expired when scheduled"
    end.
(** [floor..=ceil] *)
Definition range_incl (floor ceil : Z) : list Z := seqZ floor (ceil - floor + 1).

Definition assigner_handle_element a (element : ArconElement IN) : OpM unit :=
  let ts := default 1 (timestamp element) in
  time ← ctx_current_time;
  let ts_lower_bound := saturating_sub time (late_arrival_time a) in
  if ts <? ts_lower_bound then mret tt
  else
    let key := window_key a element in
    r ← window_range a key ts;
    for_each (insert_element a key element) (range_incl r.1 r.2).

Definition assigner_handle_timeout a (timeout : WindowEvent) : OpM unit :=
  let '(MkWindowEvent key index timestamp) := timeout in
  e ← window_expect "window result error" (result (window a) (MkWindowContext key index));
  window_expect "window clear error" (clear (window a) (MkWindowContext key index)) ;;
  expecting "active window remove error"
    (ActiveMap.remove (active_windows (wa_state a)) (MkKeyAndIndex key index)) ;;
  output (Element (with_timestamp e timestamp)).

#[export] Instance EventTimeWindowAssigner_Operator
  : Operator (EventTimeWindowAssigner W) IN OUT WindowEvent T B := {
  op_register_states a :=
    ws ← registering (register_value_handle (window_start (wa_state a)));
    aw ← registering (register_map_handle (active_windows (wa_state a)));
    w ← window_register_states (window a);
    mret (MkAssigner (window_length a) (window_slide a) (late_arrival_time a) (is_keyed a) w (MkAssignerState ws aw));
  op_init a := mret a;
  handle_element := assigner_handle_element;
  handle_watermark _ := ignore_watermark;
  handle_epoch _ := ignore_epoch;
  handle_timeout := assigner_handle_timeout;
}.
End assigner.
