(* ===== verification/WindowSpec.v ===== *)
(** What windows promise: a window keeps, for every key and index, the sequence of elements that were
    added since it was cleared, and its result is a function of that sequence. *)

From S2P Require Import Prelude Error Serialization StateBackend ByteStore BackendClient Data Operator Window.
From stdpp Require Import functions.

(** ** The contract *)

Abbreviation Contents IN := (KeyAndIndex → list IN).
Definition ki_wf (k : KeyAndIndex) : Prop := in_u 64 (ki_key k) ∧ in_u 64 (ki_index k).
Definition context_of (k : KeyAndIndex) : WindowContext := MkWindowContext (ki_key k) (ki_index k).

Class WindowRep (W IN OUT B : Type) := {
  window_regions : W → gset string;
  window_rep : W → B → Contents IN → Prop;
  (** What the backend stores for a window that is not registered yet. *)
  window_stored : W → B → Contents IN → Prop;
  (** The result for a sequence of elements, if there is one. *)
  window_value : W → list IN → option OUT;
}.
Class WindowSpec (W IN OUT B : Type) `{BackendRep B, !Window W IN OUT B, !WindowRep W IN OUT B} : Prop := {
  window_value_some (w : W) (b : B) (f : Contents IN) (l : list IN) :
    window_rep w b f → l ≠ [] → is_Some (window_value w l : option OUT);
  window_rep_frame (w : W) (b b' : B) (f : Contents IN) ids :
    window_rep w b f → changes ids b b' → window_regions w ## ids → window_rep w b' f;
  window_rep_ext (w : W) (b : B) (f g : Contents IN) :
    window_rep w b f → (∀ k, ki_wf k → f k = g k) → window_rep w b g;
  window_stored_frame (w : W) (b b' : B) (f : Contents IN) ids :
    window_stored w b f → changes ids b b' → window_regions w ## ids → window_stored w b' f;
  window_register_spec (w : W) (b : B) (f : Contents IN) : backend_ok b → window_stored w b f →
    ∃ w' b', window_register_states w b = (Ok w', b') ∧ backend_ok b' ∧ changes (window_regions w) b b' ∧
      window_regions w' = window_regions w ∧ window_value w' = (window_value w : list IN → option OUT) ∧ window_rep w' b' f;
  on_element_spec (w : W) (b : B) (f : Contents IN) k e : window_rep w b f → ki_wf k → vec_fits (f k ++ [e]) →
    runs (on_element w e (context_of k)) b tt (window_regions w)
      (λ b', window_rep w b' (<[k := f k ++ [e]]> f));
  result_spec (w : W) (b : B) (f : Contents IN) k x : window_rep w b f → ki_wf k → window_value w (f k) = Some x →
    runs (result w (context_of k)) b x (window_regions w) (λ b', window_rep w b' f);
  clear_spec (w : W) (b : B) (f : Contents IN) k : window_rep w b f → ki_wf k →
    runs (clear w (context_of k)) b tt (window_regions w) (λ b', window_rep w b' (<[k := []]> f));
}.

(** ** The two kinds of windows *)

(** The content at a metakey of the state backend. *)
Definition contents_at {IN X} (content : list IN → X) (f : Contents IN) (k i : u64) : X :=
  content (f (MkKeyAndIndex (uint_val k) (uint_val i))).
Lemma contents_update {IN X} (content : list IN → X) (f : Contents IN) k l (k' i' : u64) :
  update_at (UInt (ki_key k)) (UInt (ki_index k)) (content l) (contents_at content f) k' i' =
  contents_at content (<[k := l]> f) k' i'.
Proof.
  unfold update_at, contents_at. case_decide as Heq.
  - destruct Heq as [-> ->]. cbn. destruct k. by rewrite fn_lookup_insert.
  - rewrite fn_lookup_insert_ne; [done|]. intros ->. apply Heq. by destruct k', i'.
Qed.

Section kinds.
#[local] Set Default Proof Using "All".
Context {IN OUT B : Type} `{BackendSpec B}.

(** The content of a keyed handle under an operation that writes. *)
Lemma keyed_writes {S X A} (Rep : Region → bytes → X → Prop) (h : Handle S u64 u64) (op : Handle S u64 u64 → StateM B A)
    b (content : list IN → X) (f : Contents IN) (x : A) k l :
  ki_wf k → holds_all Rep b h (contents_at content f) →
  (∀ r, region b (h_id h) = Some r → Rep r (metakeys (keyed h (context_of k))) (content (f k)) →
    writes Rep (op (keyed h (context_of k))) b (h_id h) r (metakeys (keyed h (context_of k))) x (content l)) →
  runs (activate (keyed h (context_of k)) ≫= op) b x {[h_id h]} (λ b', holds_all Rep b' h (contents_at content (<[k := l]> f))).
Proof.
  intros [Hk Hi] Hh Hop. eapply runs_weaken; [|done|].
  - apply (active_writes_at Rep h op b (contents_at content f) x (UInt (ki_key k)) (UInt (ki_index k)) (content l));
      [done|done|done|]. destruct k. apply Hop.
  - intros b' Hb'. eapply holds_all_ext; [|exact Hb']. intros. apply contents_update.
Qed.
Lemma keyed_holds {S X} (Rep : Region → bytes → X → Prop) (h : Handle S u64 u64) b (content : list IN → X) (f : Contents IN) k :
  ki_wf k → holds_all Rep b h (contents_at content f) → holds Rep b (keyed h (context_of k)) (content (f k)).
Proof.
  intros [Hk Hi] Hh. pose proof (holds_all_at Rep b h _ (UInt (ki_key k)) (UInt (ki_index k)) Hh Hk Hi) as Hat.
  destruct k. exact Hat.
Qed.

Section appender.
Context `{Value IN}.
#[export] Instance AppenderWindow_Rep : WindowRep (AppenderWindow IN OUT) IN OUT B := {
  window_regions w := {[h_id (buffer w)]};
  window_rep w b f := holds_all VecRep b (buffer w) (contents_at id f);
  window_stored w b f := stored_all VecStored [] b (buffer w) (contents_at id f);
  window_value w l := Some (materializer w l);
}.
#[export] Instance AppenderWindow_Spec : WindowSpec (AppenderWindow IN OUT) IN OUT B.
Proof.
  split; cbn [window_rep window_stored window_register_states window_regions window_value AppenderWindow_Rep on_element result clear AppenderWindow_Window].
  - intros w b f l _ _. by eexists.
  - intros w b b' f ids Hf Hc Hd. eapply holds_all_frame; [exact Hc|set_solver|done].
  - intros w b f g Hf Hfg. eapply holds_all_ext; [|exact Hf]. intros k i Hk Hi. by apply Hfg.
  - intros w b b' f ids Hf Hc Hd. eapply stored_all_frame; [exact Hc|set_solver|done].
  - intros w b f Hok Hf. destruct (registering_all VecStored VecRep [] _ b (buffer w) _ (register_vec_spec b (buffer w) Hok) Hf)
      as (b' & E & Hok' & Hc & Hh).
    exists (MkAppenderWindow (set_registered (buffer w)) (materializer w)), b'. split; [|done].
    by step_ok E.
  - intros w b f k e Hf Hk Hfit. eapply runs_outcome; [|done]. eapply (keyed_writes VecRep); [done..|].
    intros r Hr Hx. by apply (vec_append_spec (keyed (buffer w) (context_of k)) b r).
  - intros w b f k x Hf Hk [= <-].
    destruct (vec_get_runs _ _ _ (keyed_holds _ _ _ _ _ _ Hk Hf)) as (b' & E & Hc & _). exists b'.
    split; [|split; [eapply changes_weaken; [|exact Hc]; set_solver|eapply holds_all_frame; [exact Hc|set_solver|done]]].
    step_ok (state_try_ok _ _ _ _ E). done.
  - intros w b f k Hf Hk. eapply runs_outcome; [|done]. eapply (keyed_writes VecRep _ _ _ id); [done..|].
    intros r Hr Hx. by eapply (vec_clear_spec (keyed (buffer w) (context_of k)) b r).
Qed.
End appender.

Section incremental.
Context `{Value IN, Value (ProstOption OUT)}.
Implicit Type w : IncrementalWindow IN OUT.
Definition accumulate w : list IN → ProstOption OUT :=
  foldl (agg_add (extra_data (aggregator w))) (create_accumulator (extra_data (aggregator w))).
(** Nothing is stored for a window without elements. *)
Definition stored_acc w (l : list IN) : option (ProstOption OUT) :=
  match l with [] => None | _ => Some (accumulate w l) end.
(** The window's aggregator is the incremental one, and the backend runs it. *)
Definition incremental w : Prop :=
  (∃ init agg, extra_data (aggregator w) = IncrementalWindowAggregator init agg) ∧ agg_ok (B:=B) (extra_data (aggregator w)).
Lemma default_acc w l : default (create_accumulator (extra_data (aggregator w))) (stored_acc w l) = accumulate w l.
Proof. by destruct l. Qed.
Lemma stored_acc_snoc w l e : stored_acc w (l ++ [e]) = Some (agg_add (extra_data (aggregator w)) (accumulate w l) e).
Proof. unfold accumulate. destruct l; cbn; [done|]. by rewrite foldl_app. Qed.
Lemma accumulate_some w init agg x l :
  extra_data (aggregator w) = IncrementalWindowAggregator init agg →
  accumulate w (x :: l) = MkProstOption (Some (foldl (λ acc v, agg v acc) (init x) l)).
Proof.
  unfold accumulate. intros ->. cbn. generalize (init x). induction l as [|y l IH]; intros z; [done|]. cbn. apply IH.
Qed.

(** The accumulators of incremental windows cannot be merged: a backend that merges partial results of
    its own accord, as RocksDB does, makes the merge operator panic. *)
Lemma incremental_partial_merge_panics (init : IN → OUT) agg (first : bytes) (x y : ProstOption OUT) :
  first_accumulator (IncrementalWindowAggregator init agg) (Some first) = Ok (Some x) →
  merge_aggregated (IncrementalWindowAggregator init agg) [first; acc_enc y] = Panic "not implemented".
Proof.
  intros Hx. unfold merge_aggregated. cbn [head tail]. rewrite Hx. cbn. by rewrite protobuf_deserialize_ok.
Qed.

#[export] Instance IncrementalWindow_Rep : WindowRep (IncrementalWindow IN OUT) IN OUT B := {
  window_regions w := {[h_id (aggregator w)]};
  window_rep w b f := incremental w ∧ holds_all (AggRep (extra_data (aggregator w))) b (aggregator w) (contents_at (stored_acc w) f);
  window_stored w b f := incremental w ∧ stored_all (AggStored (extra_data (aggregator w))) None b (aggregator w) (contents_at (stored_acc w) f);
  window_value w l := inner (accumulate w l);
}.
#[export] Instance IncrementalWindow_Spec : WindowSpec (IncrementalWindow IN OUT) IN OUT B.
Proof.
  split; cbn [window_rep window_stored window_register_states window_regions window_value IncrementalWindow_Rep on_element result clear IncrementalWindow_Window].
  - intros w b f l [[(init & agg & Hw) _] _] Hl. destruct l as [|x l]; [done|]. rewrite (accumulate_some w init agg) by done. by eexists.
  - intros w b b' f ids [Hw Hf] Hc Hd. split; [done|]. eapply holds_all_frame; [exact Hc|set_solver|done].
  - intros w b f g [Hw Hf] Hfg. split; [done|]. eapply holds_all_ext; [|exact Hf]. intros k i Hk Hi. unfold contents_at. by rewrite Hfg.
  - intros w b b' f ids [Hw Hf] Hc Hd. split; [done|]. eapply stored_all_frame; [exact Hc|set_solver|done].
  - intros w b f Hok [Hw Hf]. destruct (registering_all (AggStored (extra_data (aggregator w))) _ None _ b (aggregator w) _ (register_aggregator_spec b (aggregator w) Hok (proj2 Hw)) Hf)
      as (b' & E & Hok' & Hc & Hh).
    exists (MkIncrementalWindow (set_registered (aggregator w))), b'. split; [|done].
    by step_ok E.
  - intros w b f k e [Hw Hf] Hk Hfit. eapply runs_outcome; [|done]. eapply runs_weaken; [|done|intros b' Hb'; split; [done|exact Hb']].
    eapply (keyed_writes (AggRep (extra_data (aggregator w))) _ _ _ (stored_acc w)); [done..|]. intros r Hr Hx. rewrite stored_acc_snoc, <- default_acc.
    by apply (aggregator_aggregate_spec (keyed (aggregator w) (context_of k)) b r).
  - intros w b f k x [Hw Hf] Hk Hv. pose proof (keyed_holds _ _ _ _ _ _ Hk Hf) as [Hreg (r & Hr & Hx)].
    destruct (aggregator_get_spec _ _ _ _ Hr Hx) as (b' & E & Hs). exists b'.
    assert (Hc : changes ∅ b b') by by apply same_data_changes.
    split; [|split; [eapply changes_weaken; [|exact Hc]; set_solver|split; [done|eapply holds_all_frame; [exact Hc|set_solver|done]]]].
    unfold state_try, on_outcome, ActiveAggregator.get, activate. rewrite Hreg.
    erewrite bind_ok by done. cbv beta. rewrite E. cbn [keyed set_namespace set_item_key with_namespace with_item_key extra_data].
    rewrite default_acc. destruct Hw as [(init & agg & ->) _]. cbn. by rewrite Hv.
  - intros w b f k [Hw Hf] Hk. eapply runs_outcome; [|done]. eapply runs_weaken; [|done|intros b' Hb'; split; [done|exact Hb']].
    eapply (keyed_writes (AggRep (extra_data (aggregator w))) _ _ _ (stored_acc w)); [done..|]. intros r Hr Hx.
    by eapply (aggregator_clear_spec (keyed (aggregator w) (context_of k)) b r).
Qed.
End incremental.
End kinds.
