(* ===== verification/AssignerSpec.v ===== *)
(** The assigner of event-time windows: every element goes to the windows whose interval it lies in, and
    every window fires once, when its lateness is over, with all its elements in the order of arrival. *)

From stdpp Require Import functions.
From S2P Require Import Prelude Error Allocator EventBuffer Pool Serialization StateBackend BackendClient Data Channel Timer TimerSpec Operator OperatorSpec Window WindowSpec.
From Stdlib Require Import Sorting.Sorted.
#[local] Open Scope Z_scope.

(** ** Intervals *)

(** The range of indices that the code computes for an element [d] after the start of its first window
    is that of the windows the element lies in; [n] slides make a window. *)
Lemma range_spec S n d i :
  0 < S → 0 < n → 0 ≤ d →
  let ceil := d / S in let floor := if n <=? ceil then ceil - n + 1 else 0 in
  i ∈ range_incl floor ceil ↔ 0 ≤ i ∧ i * S ≤ d < i * S + n * S.
Proof.
  intros HS Hn Hd ceil floor. unfold range_incl. rewrite elem_of_seqZ.
  pose proof (Z.div_mod d S ltac:(lia)) as Hdm. pose proof (Z.mod_pos_bound d S HS). fold ceil in Hdm.
  assert (0 ≤ ceil) by (apply Z.div_pos; lia).
  unfold floor. destruct (Z.leb_spec n ceil); split; intros; nia.
Qed.
Lemma range_NoDup floor ceil : NoDup (range_incl floor ceil).
Proof. apply NoDup_seqZ. Qed.

Section assigner.
#[local] Set Default Proof Using "All".
Context `{BuildProfile, Receivers, Fuel} {W IN OUT T B : Type} `{Transport OUT, ArconType IN, ArconType OUT}.
Context `{BackendSpec B, !TimerBackend T WindowEvent B, !TimerRep T WindowEvent B, !SchedulerSpec T WindowEvent B}.
Context `{!Window W IN OUT B, !WindowRep W IN OUT B, !WindowSpec W IN OUT B}.
Context `{Value u64, Key KeyAndIndex, !MessageLaws KeyAndIndex, Value unit, !MapSpec B KeyAndIndex unit unit unit}.
Context (a : EventTimeWindowAssigner W).
Implicit Types (c : OpEnv OUT T B) (hist : list (ArconElement IN)) (e : ArconElement IN) (k : KeyAndIndex).

(** ** The history of an assigner *)

Abbreviation L := (window_length a).
Abbreviation slide := (window_slide a).
Abbreviation late := (late_arrival_time a).
Definition event_ts e : Z := default 1 (timestamp e).
(** The first window of a key starts with its first element. *)
Definition first_start hist (key : Z) : option Z :=
  event_ts <$> head (filter (λ e, window_key a e = key) hist).
Definition window_end (start index : Z) : Z := start + index * slide + L.
Definition in_window (start index : Z) e : Prop :=
  0 ≤ index ∧ start + index * slide ≤ event_ts e < window_end start index.
#[local] Instance in_window_dec start index e : Decision (in_window start index e).
Proof using Type. unfold in_window. apply _. Defined.
(** The elements of a window, in the order of arrival. *)
Definition content hist k : list IN :=
  match first_start hist (ki_key k) with
  | Some start => data <$> filter (λ e, window_key a e = ki_key k ∧ in_window start (ki_index k) e) hist
  | None => []
  end.
(** When the window is due, given the starts of the keys. *)
Definition end_of (st : Z → option Z) k : Z := window_end (default 0 (st (ki_key k))) (ki_index k).
Definition due_of (st : Z → option Z) k : Z := end_of st k + late.
Definition live hist (now : Z) k : list IN := if now <? due_of (first_start hist) k then content hist k else [].

Lemma first_start_app hist e key :
  first_start (hist ++ [e]) key =
    match first_start hist key with
    | Some s => Some s
    | None => if decide (window_key a e = key) then Some (event_ts e) else None
    end.
Proof using Type.
  unfold first_start. rewrite filter_app. destruct (filter _ hist) as [|x l]; cbn; [|done].
  by destruct (decide (window_key a e = key)).
Qed.

(** An assigner as [EventTimeWindowAssigner::new] and the registration of its states leave it. *)
Record assigner_wf : Prop := {
  aw_slide : 0 < slide;
  aw_length : ∃ n, 0 < n ∧ L = n * slide;
  aw_late : 0 ≤ late;
  aw_start : window_start (wa_state a) = set_registered (window_start EventTimeWindowAssignerState_new);
  aw_active : active_windows (wa_state a) = set_registered (active_windows EventTimeWindowAssignerState_new);
  aw_regions : window_regions (window a) ## {["window_start"; "active_windows"]};
  aw_timer : timer_regions (T:=T) (E:=WindowEvent) (B:=B) ## {["window_start"; "active_windows"]} ∪ window_regions (window a);
}.

(** ** The state of an assigner *)

Abbreviation bk c := (backend_of c).
Definition entry_of_window (st : Z → option Z) k : Z * WindowEvent :=
  (due_of st k, MkWindowEvent (ki_key k) (ki_index k) (end_of st k)).
(** What the backend and the timer hold: the starts of the keys, the contents of the windows, the active
    windows, and the timeouts [l] at the time [now]. *)
Record holds_windows c (st : Z → option Z) (f : Contents IN) (act : gmap KeyAndIndex unit) (now : Z)
    (l : list (Z * WindowEvent)) : Prop := {
  hw_start : holds_all ValRep (bk c) (window_start (wa_state a)) (λ (k : u64) (_ : unit), UInt <$> st (uint_val k));
  hw_active : holds_map (bk c) (active_windows (wa_state a)) act;
  hw_window : window_rep (window a) (bk c) f;
  hw_timer : timer_rep (tenv c) now l;
}.
(** The regions of the assigner and of its window. *)
Definition assigner_regions : gset string := {["window_start"; "active_windows"]} ∪ window_regions (window a).

Context (Hwf : assigner_wf).

(** An operation on the session that changes one part. *)
Lemma session_ok {E A} (g : outcome E A → outcome Error A) (m : M B E A) c x ids Q :
  runs m (bk c) x ids Q → g (Ok x) = Ok x →
  ∃ b, on_session (on_outcome g m) c = (Ok x, with_backend b c) ∧ changes ids (bk c) b ∧ Q b.
Proof. intros (b & E1 & Hc & HQ) Hg. exists b. split; [by apply on_session_ok|done]. Qed.
Lemma holds_windows_read c st f act now l b :
  holds_windows c st f act now l → changes ∅ (bk c) b → holds_windows (with_backend b c) st f act now l.
Proof.
  intros [] Hc. split.
  - eapply holds_all_frame; [exact Hc|set_solver|done].
  - eapply holds_frame; [exact Hc|set_solver|done].
  - eapply window_rep_frame; [done|exact Hc|set_solver].
  - eapply timer_rep_frame; [done|exact Hc|set_solver].
Qed.
Lemma start_id : h_id (window_start (wa_state a)) = "window_start".
Proof. by rewrite (aw_start Hwf). Qed.
Lemma active_id : h_id (active_windows (wa_state a)) = "active_windows".
Proof. by rewrite (aw_active Hwf). Qed.
Lemma holds_windows_window c st f act now l b g :
  holds_windows c st f act now l → changes (window_regions (window a)) (bk c) b → window_rep (window a) b g →
  holds_windows (with_backend b c) st g act now l.
Proof.
  intros [] Hc Hg. pose proof (aw_regions Hwf). pose proof (aw_timer Hwf). split; [..|done|].
  - eapply holds_all_frame; [exact Hc|rewrite start_id; set_solver|done].
  - eapply holds_frame; [exact Hc|rewrite active_id; set_solver|done].
  - eapply timer_rep_frame; [done|exact Hc|set_solver].
Qed.
Lemma holds_windows_active c st f act now l b act' :
  holds_windows c st f act now l → changes {[h_id (active_windows (wa_state a))]} (bk c) b →
  holds_map b (active_windows (wa_state a)) act' → holds_windows (with_backend b c) st f act' now l.
Proof.
  intros [] Hc Hg. rewrite active_id in Hc. pose proof (aw_regions Hwf). pose proof (aw_timer Hwf). split; [|done|..].
  - eapply holds_all_frame; [exact Hc|rewrite start_id; set_solver|done].
  - eapply window_rep_frame; [done|exact Hc|set_solver].
  - eapply timer_rep_frame; [done|exact Hc|set_solver].
Qed.
Lemma holds_windows_timer c st f act now l t now' l' :
  holds_windows c st f act now l →
  changes (timer_regions (T:=T) (E:=WindowEvent) (B:=B)) (bk c) (sb t) → timer_rep t now' l' →
  holds_windows (with_tenv t c) st f act now' l'.
Proof.
  intros [] Hc Ht. pose proof (aw_regions Hwf). pose proof (aw_timer Hwf). split; [..|done].
  - eapply holds_all_frame; [exact Hc|rewrite start_id; set_solver|done].
  - eapply holds_frame; [exact Hc|rewrite active_id; set_solver|done].
  - eapply window_rep_frame; [done|exact Hc|set_solver].
Qed.

(** ** Inserting an element into one window *)

(** [c'] differs from [c] in the timer and the session only. *)
Definition same_output c c' : Prop := strategy c' = strategy c ∧ net c' = net c.

Lemma start_handle key : start_of a key = handle_at (window_start (wa_state a)) (UInt key) tt.
Proof. unfold start_of. by rewrite (aw_start Hwf). Qed.
Lemma start_get_ok c st f act now l key :
  holds_windows c st f act now l → in_u 64 key →
  ∃ b, expecting "window start state get error" (ActiveValue.get (start_of a key)) c =
    (Ok (UInt <$> st key), with_backend b c) ∧ holds_windows (with_backend b c) st f act now l.
Proof.
  intros Hw Hk. pose proof (holds_all_at ValRep _ _ _ (UInt key) tt (hw_start _ _ _ _ _ _ Hw) Hk I) as Hst.
  destruct (session_ok (expect_ok "window start state get error") _ c _ _ _ (value_get_runs _ _ _ Hst) eq_refl) as (b & E1 & Hc & _).
  exists b. split; [by rewrite start_handle|]. by apply holds_windows_read.
Qed.
Lemma bind_lift {S E A A'} (x : A) (k : A → M S E A') s : (lift (Ok x) ≫= k) s = k x s.
Proof using Type. done. Qed.
Lemma new_window_trigger_ok c st f act now l k s :
  holds_windows c st f act now l → ki_wf k → st (ki_key k) = Some s → 0 ≤ s →
  window_end s (ki_index k) + late < 2 ^ 64 → now < window_end s (ki_index k) + late →
  ∃ c', new_window_trigger a (ki_key k) (ki_index k) c = (Ok (inl tt), c') ∧ same_output c c' ∧
    holds_windows c' st f act now (entry_of_window st k :: l).
Proof.
  intros Hw Hk Hs Hs0 Hlt Hnow. pose proof (aw_slide Hwf). pose proof (aw_late Hwf).
  destruct (aw_length Hwf) as (n & Hn & HL). destruct Hk as [Hk Hi]. unfold window_end in *.
  assert (0 ≤ ki_index k * slide) by (destruct Hi; nia). assert (0 < L) by nia.
  destruct (start_get_ok c st f act now l (ki_key k) Hw Hk) as (b & E1 & Hw1). rewrite Hs in E1.
  assert (Hdue : due_of st k = s + ki_index k * slide + L + late).
  { unfold due_of, end_of, window_end. by rewrite Hs. }
  destruct (schedule_at_spec (tenv (with_backend b c)) now l (s + ki_index k * slide + L + late)
    (MkWindowEvent (ki_key k) (ki_index k) (s + ki_index k * slide + L)) (hw_timer _ _ _ _ _ _ Hw1)) as (t & Hct & Hsch); [lia|].
  rewrite decide_False in Hsch by lia. destruct Hsch as [E2 Ht].
  exists (with_tenv t (with_backend b c)). split; [|split; [done|]].
  - unfold new_window_trigger. step_ok E1. cbn [fmap option_fmap option_map expect]. rewrite bind_lift.
    cbn [uint_val]. rewrite u_mul_ok, bind_lift by (unfold in_u; lia). do 3 rewrite u_add_ok, bind_lift by (unfold in_u; lia).
    by apply on_timer_ok.
  - unfold entry_of_window. rewrite Hdue. unfold end_of. rewrite Hs. unfold window_end. cbn [default]. 
    by eapply holds_windows_timer.
Qed.

(** The timeouts are those of the active windows. *)
Definition windows_rep c (st : Z → option Z) (f : Contents IN) (act : gmap KeyAndIndex unit) (now : Z) : Prop :=
  ∃ l, holds_windows c st f act now l ∧ l ≡ₚ entry_of_window st <$> (map_to_list act).*1.

Lemma insert_element_ok c st f act now k e s :
  windows_rep c st f act now → ki_wf k → st (ki_key k) = Some s → 0 ≤ s →
  window_end s (ki_index k) + late < 2 ^ 64 → now < window_end s (ki_index k) + late → vec_fits (f k ++ [data e]) →
  ∃ c', insert_element a (ki_key k) e (ki_index k) c = (Ok tt, c') ∧ same_output c c' ∧
    windows_rep c' st (<[k := f k ++ [data e]]> f) (<[k := tt]> act) now.
Proof.
  intros (l & Hw & Hl) Hk Hs Hs0 Hlt Hnow Hfit.
  destruct (session_ok (expect_ok "window error") _ c tt _ _ (on_element_spec _ _ _ k (data e) (hw_window _ _ _ _ _ _ Hw) Hk Hfit) eq_refl)
    as (b1 & E1 & Hc1 & Hf1). pose proof (holds_windows_window _ _ _ _ _ _ _ _ Hw Hc1 Hf1) as Hw1.
  destruct (session_ok (expect_ok "window active check error") _ _ _ _ _ (map_contains_runs _ _ _ k (hw_active _ _ _ _ _ _ Hw1)) eq_refl)
    as (b2 & E2 & Hc2 & _). pose proof (holds_windows_read _ _ _ _ _ _ _ Hw1 Hc2) as Hw2.
  unfold insert_element, window_expect, expecting. step_ok E1. destruct k as [key index]. cbn [ki_key ki_index] in *. step_ok E2.
  destruct (act !! MkKeyAndIndex key index) as [[]|] eqn:Ha.
  - rewrite bool_decide_eq_true_2 by by eexists. eexists. split; [reflexivity|]. split; [done|]. exists l.
    rewrite insert_id by done. by split.
  - rewrite bool_decide_eq_false_2 by by intros [].
    destruct (session_ok (expect_ok "active windows insert error") _ _ _ _ _
      (map_insert_runs _ _ _ (MkKeyAndIndex key index) tt (hw_active _ _ _ _ _ _ Hw2)) eq_refl) as (b3 & E3 & Hc3 & Ha3).
    step_ok E3. pose proof (holds_windows_active _ _ _ _ _ _ _ _ Hw2 Hc3 Ha3) as Hw3.
    destruct (new_window_trigger_ok _ _ _ _ _ _ (MkKeyAndIndex key index) s Hw3 Hk Hs Hs0 Hlt Hnow) as (c' & E4 & Ho & Hw4).
    cbn [ki_key ki_index] in E4. step_ok E4. exists c'. split; [done|]. split; [done|]. eexists. split; [exact Hw4|].
    rewrite map_to_list_insert by done. cbn. by rewrite Hl.
Qed.

Definition insert_all (f : Contents IN) (key : Z) (x : IN) (l : list Z) : Contents IN :=
  foldl (λ f i, <[MkKeyAndIndex key i := f (MkKeyAndIndex key i) ++ [x]]> f) f l.
Definition activate_all (act : gmap KeyAndIndex unit) (key : Z) (l : list Z) : gmap KeyAndIndex unit :=
  foldl (λ act i, <[MkKeyAndIndex key i := tt]> act) act l.
Lemma insert_all_spec f key x l k :
  NoDup l → insert_all f key x l k = if decide (ki_key k = key ∧ ki_index k ∈ l) then f k ++ [x] else f k.
Proof using Type.
  intros Hnd. revert f. induction Hnd as [|i l Hi Hnd IH]; intros f; cbn.
  { rewrite decide_False; [done|]. by intros [_ ?%elem_of_nil]. }
  unfold insert_all in IH. rewrite IH. destruct (decide (k = MkKeyAndIndex key i)) as [->|Hne].
  - rewrite decide_False by by intros []. cbn. rewrite decide_True by (split; [done|by left]). by rewrite fn_lookup_insert.
  - rewrite fn_lookup_insert_ne by done. destruct k as [key' i']. cbn. apply decide_ext. rewrite elem_of_cons.
    split; [tauto|]. intros [-> [->|?]]; [done|tauto].
Qed.
Lemma activate_all_spec act key l k :
  k ∈ dom (activate_all act key l) ↔ k ∈ dom act ∨ ki_key k = key ∧ ki_index k ∈ l.
Proof using Type.
  revert act. induction l as [|i l IH]; intros act; cbn.
  { rewrite elem_of_nil. tauto. }
  unfold activate_all in IH. rewrite IH, dom_insert, elem_of_union, elem_of_singleton, elem_of_cons.
  destruct k as [key' i']. cbn. split; [intros [[[= -> ->]|?]|?]; tauto|].
  intros [?|[-> [->|?]]]; tauto.
Qed.
Lemma insert_elements_ok c st f act now key e s l :
  windows_rep c st f act now → in_u 64 key → st key = Some s → 0 ≤ s →
  Forall (λ i, in_u 64 i ∧ window_end s i + late < 2 ^ 64 ∧ now < window_end s i + late) l →
  NoDup l → Forall (λ i, vec_fits (f (MkKeyAndIndex key i) ++ [data e])) l →
  ∃ c', for_each (insert_element a key e) l c = (Ok tt, c') ∧ same_output c c' ∧
    windows_rep c' st (insert_all f key (data e) l) (activate_all act key l) now.
Proof.
  intros Hw Hk Hs Hs0 Hl Hnd. revert c f act Hw.
  induction Hl as [|i l (Hi & Hlt & Hnow) Hl IH]; intros c f act Hw Hfit; [by exists c|].
  apply NoDup_cons in Hnd as [Hil Hnd]. apply Forall_cons in Hfit as [Hfit Hfits].
  destruct (insert_element_ok c st f act now (MkKeyAndIndex key i) e s) as (c1 & E1 & Ho1 & Hw1); [done..|].
  destruct (IH Hnd c1 _ _ Hw1) as (c2 & E2 & Ho2 & Hw2).
  { rewrite Forall_forall in Hfits |- *. intros j Hj. rewrite fn_lookup_insert_ne; [by apply Hfits|]. by intros [= ->]. }
   exists c2. cbn [for_each].
  cbn [ki_key ki_index] in E1. step_ok E1. split; [exact E2|]. split; [|done].
  destruct Ho1, Ho2. split; congruence.
Qed.

(** ** The range of windows of an element *)

Lemma windows_rep_ext c st st' f f' act now :
  (∀ key, st key = st' key) → (∀ k, ki_wf k → f k = f' k) → windows_rep c st f act now → windows_rep c st' f' act now.
Proof.
  intros Hst Hf (l & Hw & Hl). exists l. split.
  - destruct Hw. split; [|done|by eapply window_rep_ext|done]. eapply holds_all_ext; [|done]. cbn. intros. by rewrite Hst.
  - rewrite Hl. apply reflexive_eq, list_fmap_ext. intros _ k _. unfold entry_of_window, due_of, end_of. by rewrite Hst.
Qed.
Definition floor_of (d : Z) : Z := if L / slide <=? d / slide then d / slide - L / slide + 1 else 0.

Lemma slides : ∃ n, 0 < n ∧ L = n * slide ∧ L / slide = n.
Proof.
  destruct (aw_length Hwf) as (n & Hn & HL). pose proof (aw_slide Hwf). exists n. split; [done|]. split; [done|].
  rewrite HL. apply Z.div_mul. lia.
Qed.
Lemma window_range_known c st f act now key ts s :
  windows_rep c st f act now → in_u 64 key → st key = Some s → s ≤ ts → ts - s < 2 ^ 64 →
  ∃ c', window_range a key ts c = (Ok (floor_of (ts - s), (ts - s) / slide), c') ∧ same_output c c' ∧
    windows_rep c' st f act now.
Proof.
  intros (l & Hw & Hl) Hk Hs Hle Hlt. destruct (start_get_ok c st f act now l key Hw Hk) as (b & E1 & Hw1).
  rewrite Hs in E1. exists (with_backend b c). split; [|split; [done|by exists l]]. unfold window_range. step_ok E1.
  cbn [fmap option_fmap option_map uint_val]. pose proof (aw_slide Hwf). destruct slides as (n & Hn & _ & Hd). unfold floor_of. rewrite Hd.
  assert (0 ≤ (ts - s) / slide ≤ ts - s) by (split; [apply Z.div_pos; lia|apply Z.div_le_upper_bound; nia]).
  rewrite u_sub_ok, bind_lift by (unfold in_u; lia). rewrite !u_div_ok, !bind_lift by lia. rewrite Hd.
  destruct (Z.leb_spec n ((ts - s) / slide)); [|done]. rewrite bind_lift.
  rewrite u_sub_ok, bind_lift by (unfold in_u; lia). by rewrite u_add_ok, bind_lift by (unfold in_u; lia).
Qed.
Lemma window_range_new c st f act now key ts :
  windows_rep c st f act now → in_u 64 key → st key = None → (∀ k, k ∈ dom act → is_Some (st (ki_key k))) →
  ∃ c', window_range a key ts c = (Ok (0, 0), c') ∧ same_output c c' ∧ windows_rep c' (<[key := Some ts]> st) f act now.
Proof.
  intros (l & Hw & Hl) Hk Hs Hact. destruct (start_get_ok c st f act now l key Hw Hk) as (b & E1 & Hw1). rewrite Hs in E1.
  assert (runs (ActiveValue.set (start_of a key) (UInt ts)) (bk (with_backend b c)) None {[h_id (window_start (wa_state a))]}
    (λ b', holds_all ValRep b' (window_start (wa_state a)) (λ (k : u64) (_ : unit), UInt <$> (<[key := Some ts]> st) (uint_val k)))) as Hset.
  { eapply runs_weaken; [|done|].
    - rewrite start_handle. eapply (active_writes_at ValRep _ _ _ _ _ _ _ (Some (UInt ts))); [exact Hk|done|apply Hw1|].
      intros r Hr Hx. eapply value_set_spec in Hx; [|exact Hr]. cbn [uint_val] in Hx. rewrite Hs in Hx. exact Hx.
    - intros b' Hb'. eapply holds_all_ext; [|exact Hb']. intros [k] [] _ _. unfold update_at. cbn [uint_val]. case_decide as Heq.
      + destruct Heq as [[= ->] _]. by rewrite fn_lookup_insert.
      + rewrite fn_lookup_insert_ne; [done|]. intros <-. by apply Heq. }
  destruct (session_ok (expect_ok "window start set error") _ _ _ _ _ Hset eq_refl) as (b2 & E2 & Hc2 & Hst2).
  exists (with_backend b2 (with_backend b c)). split; [|split; [done|]].
  - unfold window_range. step_ok E1. cbn [fmap option_fmap option_map]. unfold expecting. by step_ok E2.
  - exists l. split.
    + rewrite start_id in Hc2. pose proof (aw_regions Hwf). pose proof (aw_timer Hwf). destruct Hw1. split; [done|..].
      * eapply holds_frame; [exact Hc2|rewrite active_id; set_solver|done].
      * eapply window_rep_frame; [done|exact Hc2|set_solver].
      * eapply timer_rep_frame; [done|exact Hc2|set_solver].
    + rewrite Hl. apply reflexive_eq, list_fmap_ext. intros j k Hj. unfold entry_of_window, due_of, end_of.
      assert (key ≠ ki_key k) as Hne; [|by rewrite !fn_lookup_insert_ne].
      intros ->. destruct (Hact k) as [x Hx]; [|by rewrite Hs in Hx].
      apply list_elem_of_lookup_2 in Hj. apply list_elem_of_fmap in Hj as ([k' []] & -> & Hin%elem_of_map_to_list). by apply elem_of_dom_2 in Hin.
Qed.

(** ** The assigner after a history *)

Definition in_range e : Prop :=
  in_u 64 (window_key a e) ∧ 0 ≤ event_ts e ∧ event_ts e + L + late < 2 ^ 64.
(** The assigner at the time [now], after it accepted the elements of [hist]. *)
Definition assigner_rep c hist (now : Z) : Prop :=
  Forall in_range hist ∧ ∃ act, windows_rep c (first_start hist) (live hist now) act now ∧
    ∀ k, k ∈ dom act ↔ ki_wf k ∧ live hist now k ≠ [].

Lemma first_start_in hist key s :
  first_start hist key = Some s → ∃ e, e ∈ hist ∧ window_key a e = key ∧ event_ts e = s.
Proof using Type.
  unfold first_start. destruct (filter _ hist) as [|e l] eqn:Hf; [done|]. intros [= <-].
  assert (e ∈ filter (λ e, window_key a e = key) hist) as [He Hin]%list_elem_of_filter by (rewrite Hf; by left).
  by exists e.
Qed.
Lemma first_start_range hist key s : Forall in_range hist → first_start hist key = Some s → 0 ≤ s < 2 ^ 64.
Proof.
  intros Hh (e & He & _ & <-)%first_start_in. rewrite Forall_forall in Hh. destruct (Hh e He) as (_ & H1' & H2').
  destruct slides as (n & Hn & HL & _). pose proof (aw_slide Hwf). pose proof (aw_late Hwf). nia.
Qed.
Lemma live_none hist now k : first_start hist (ki_key k) = None → live hist now k = [].
Proof using Type. intros Hn. unfold live, content. rewrite Hn. by case_match. Qed.

(** Accepting an element adds it to the windows it lies in, and to no others. *)
Lemma content_app hist e k s :
  first_start (hist ++ [e]) (ki_key k) = Some s → (∀ s', first_start hist (ki_key k) = Some s' → s' = s) →
  (first_start hist (ki_key k) = None → filter (λ e, window_key a e = ki_key k ∧ in_window s (ki_index k) e) hist = []) →
  content (hist ++ [e]) k =
    content hist k ++ (if decide (window_key a e = ki_key k ∧ in_window s (ki_index k) e) then [data e] else []).
Proof using Type.
  intros Hs Hold Hnone. unfold content. rewrite Hs. destruct (first_start hist (ki_key k)) as [s'|] eqn:Hs'.
  - rewrite (Hold s') by done. rewrite filter_app, fmap_app. f_equal. rewrite filter_cons, filter_nil. by case_decide.
  - rewrite filter_app, Hnone by done. rewrite filter_cons, filter_nil. by case_decide.
Qed.
Lemma no_start_filter hist key (P : ArconElement IN → Prop) `{!∀ e, Decision (P e)} :
  first_start hist key = None → filter (λ e, window_key a e = key ∧ P e) hist = [].
Proof using Type.
  unfold first_start. intros Hn. destruct (filter (λ e, window_key a e = key) hist) as [|x l] eqn:Hf; [|done].
  destruct (filter (λ e, window_key a e = key ∧ P e) hist) as [|y l] eqn:Hg; [done|].
  assert (y ∈ filter (λ e, window_key a e = key ∧ P e) hist) as [[Hy _] Hin]%list_elem_of_filter by (rewrite Hg; by left).
  assert (y ∈ filter (λ e, window_key a e = key) hist) as Hy' by (by apply list_elem_of_filter).
  rewrite Hf in Hy'. by apply elem_of_nil in Hy'.
Qed.
Lemma live_app hist e now s k :
  first_start (hist ++ [e]) (window_key a e) = Some s →
  (∀ s', first_start hist (window_key a e) = Some s' → s' = s) → now <= event_ts e + late →
  live (hist ++ [e]) now k =
    if decide (ki_key k = window_key a e ∧ in_window s (ki_index k) e) then live hist now k ++ [data e] else live hist now k.
Proof.
  intros Hs Hold Hnow. destruct (decide (ki_key k = window_key a e)) as [Hk|Hk].
  - assert (Hc : content (hist ++ [e]) k =
      content hist k ++ (if decide (window_key a e = ki_key k ∧ in_window s (ki_index k) e) then [data e] else [])).
    { apply content_app; [by rewrite Hk|intros s'; rewrite Hk; apply Hold|intros; by apply no_start_filter]. }
    assert (Hl : content hist k = [] ∨ due_of (first_start hist) k = due_of (first_start (hist ++ [e])) k).
    { unfold due_of, end_of, content. rewrite Hk, Hs. destruct (first_start hist (window_key a e)) as [s'|]; [|by left].
      right. by rewrite (Hold s'). }
    unfold live. rewrite Hc. destruct (decide (in_window s (ki_index k) e)) as [Hin|Hin].
    + rewrite !decide_True by done.
      assert (Hlt : now < due_of (first_start (hist ++ [e])) k).
      { unfold due_of, end_of. rewrite Hk, Hs. destruct Hin. unfold window_end in *. cbn. unfold id. lia. }
      rewrite (proj2 (Z.ltb_lt _ _) Hlt). destruct Hl as [E|E]; rewrite E; [by destruct (now <? _)|]. by rewrite (proj2 (Z.ltb_lt _ _) Hlt).
    + rewrite !decide_False, app_nil_r by tauto. destruct Hl as [->| ->]; [by repeat case_match|done].
  - rewrite decide_False by tauto. assert (Hf : first_start (hist ++ [e]) (ki_key k) = first_start hist (ki_key k)).
    { rewrite first_start_app. case_match; [done|]. by rewrite decide_False. }
    unfold live, due_of, end_of, content. rewrite Hf. case_match; [|done]. case_match; [|done].
    rewrite filter_app, filter_cons, filter_nil, decide_False, app_nil_r; [done|]. intros [? _]. by apply Hk.
Qed.

(** ** Elements *)

Lemma same_output_trans c1 c2 c3 : same_output c1 c2 → same_output c2 c3 → same_output c1 c3.
Proof using Type. intros [] []. split; congruence. Qed.
Lemma ctx_current_time_ok c st f act now :
  windows_rep c st f act now → ∃ c', ctx_current_time c = (Ok now, c') ∧ same_output c c' ∧ windows_rep c' st f act now.
Proof.
  intros (l & Hw & Hl). destruct (current_time_spec _ _ _ (hw_timer _ _ _ _ _ _ Hw)) as (t & E & Ht & Hc).
  exists (with_tenv t c). split; [by apply on_timer_ok|]. split; [done|]. exists l. split; [|done]. by eapply holds_windows_timer.
Qed.
(** The start of the key of an element that is accepted. *)
Definition start_with hist e : Z := default (event_ts e) (first_start hist (window_key a e)).
Lemma start_with_app hist e : first_start (hist ++ [e]) (window_key a e) = Some (start_with hist e).
Proof using Type. rewrite first_start_app. unfold start_with. case_match; [done|]. by rewrite decide_True. Qed.
Lemma window_range_ok c hist e act now :
  windows_rep c (first_start hist) (live hist now) act now → (∀ k, k ∈ dom act ↔ ki_wf k ∧ live hist now k ≠ []) →
  Forall in_range hist → in_range e → start_with hist e ≤ event_ts e →
  ∃ c', window_range a (window_key a e) (event_ts e) c =
      (Ok (floor_of (event_ts e - start_with hist e), (event_ts e - start_with hist e) / slide), c') ∧ same_output c c' ∧
    windows_rep c' (first_start (hist ++ [e])) (live hist now) act now.
Proof.
  intros Hw Hact Hh He Hle. destruct He as (Hk & Hts & Hlt). pose proof (aw_slide Hwf). pose proof (aw_late Hwf).
  destruct slides as (n & Hn & HL & Hd). unfold start_with in *.
  destruct (first_start hist (window_key a e)) as [s|] eqn:Hs; cbn [default] in *; unfold id in *.
  - pose proof (first_start_range hist _ s Hh Hs).
    destruct (window_range_known c _ _ _ _ _ (event_ts e) s Hw Hk Hs) as (c' & E & Ho & Hw'); [lia|nia|].
    exists c'. split; [done|]. split; [done|]. eapply windows_rep_ext; [|done|exact Hw']. intros key.
    rewrite first_start_app. destruct (first_start hist key) eqn:Hkey; [done|]. rewrite decide_False; [done|]. congruence.
  - destruct (window_range_new c _ _ _ _ _ (event_ts e) Hw Hk Hs) as (c' & E & Ho & Hw').
    { intros k Hin%Hact. destruct (first_start hist (ki_key k)) eqn:Hkk; [by eexists|]. destruct Hin as [_ Hl].
      by rewrite live_none in Hl. }
    exists c'. split; [|split; [done|]].
    + rewrite E. rewrite Z.sub_diag. unfold floor_of. rewrite Hd, Z.div_0_l by lia. by rewrite (proj2 (Z.leb_gt _ _)).
    + eapply windows_rep_ext; [|done|exact Hw']. intros key. rewrite first_start_app.
      destruct (decide (window_key a e = key)) as [<-|Hne]; [by rewrite fn_lookup_insert, Hs|].
      rewrite fn_lookup_insert_ne by done. by destruct (first_start hist key).
Qed.
Lemma element_windows s e i :
  s ≤ event_ts e → i ∈ range_incl (floor_of (event_ts e - s)) ((event_ts e - s) / slide) ↔ in_window s i e.
Proof.
  intros Hle. destruct slides as (n & Hn & HL & Hd). unfold floor_of. rewrite Hd.
  rewrite (range_spec slide n (event_ts e - s) i); [|apply (aw_slide Hwf)|done|lia].
  unfold in_window, window_end. rewrite <- HL. lia.
Qed.
Lemma live_accepted hist e now k :
  start_with hist e ≤ event_ts e → now ≤ event_ts e + late →
  live (hist ++ [e]) now k =
    insert_all (live hist now) (window_key a e) (data e)
      (range_incl (floor_of (event_ts e - start_with hist e)) ((event_ts e - start_with hist e) / slide)) k.
Proof.
  intros Hle Hnow. rewrite insert_all_spec by apply range_NoDup.
  rewrite (live_app hist e now _ k (start_with_app hist e)); [|intros s' Hs'; unfold start_with; by rewrite Hs'|done].
  apply decide_ext. by rewrite element_windows.
Qed.

Lemma live_length hist now k : (length (live hist now k) ≤ length hist)%nat.
Proof using Type.
  unfold live, content. repeat case_match; cbn; try lia. rewrite length_fmap. apply length_filter.
Qed.
(** An element that is not too late, and not before the start of its key, is accepted. *)
Lemma accept_ok c hist now e :
  assigner_rep c hist now → in_range e → start_with hist e ≤ event_ts e → now ≤ event_ts e + late →
  vec_fits (hist ++ [e]) →
  ∃ c', (r ← window_range a (window_key a e) (event_ts e);
      for_each (insert_element a (window_key a e) e) (range_incl r.1 r.2)) c = (Ok tt, c') ∧
    same_output c c' ∧ assigner_rep c' (hist ++ [e]) now.
Proof.
  intros (Hh & act & Hw & Hact) He Hle Hnow Hfit. pose proof (start_with_app hist e) as Hs.
  destruct (window_range_ok c hist e act now Hw Hact Hh He Hle) as (c1 & E1 & Ho1 & Hw1).
  set (s := start_with hist e) in *. pose proof He as (Hk & Hts & Hlt).
  assert (Hh' : Forall in_range (hist ++ [e])) by (apply Forall_app; split; [done|by apply Forall_singleton]).
  pose proof (first_start_range _ _ _ Hh' Hs) as Hs0. pose proof (aw_slide Hwf). pose proof (aw_late Hwf).
  set (idx := range_incl (floor_of (event_ts e - s)) ((event_ts e - s) / slide)).
  assert (Hidx : Forall (λ i, in_u 64 i ∧ window_end s i + late < 2 ^ 64 ∧ now < window_end s i + late) idx).
  { apply Forall_forall. intros i (Hi & Hi1 & Hi2)%element_windows; [|done]. unfold window_end, in_u in *.
    assert (i ≤ i * slide) by nia. split; [nia|lia]. }
  destruct (insert_elements_ok c1 _ _ _ now _ e s idx Hw1 Hk Hs) as (c2 & E2 & Ho2 & Hw2); [lia|done|apply range_NoDup|..].
  { apply Forall_forall. intros i _. pose proof (live_length hist now (MkKeyAndIndex (window_key a e) i)).
    unfold vec_fits in *. rewrite !length_app in *. cbn in *. lia. }
  exists c2. split; [step_ok E1; exact E2|]. split; [by eapply same_output_trans|]. split; [done|].
  eexists. split; [eapply windows_rep_ext; [done| |exact Hw2]; intros k _; symmetry; by apply live_accepted|].
  intros k. rewrite activate_all_spec, Hact, live_accepted by done. fold s. fold idx. rewrite insert_all_spec by apply range_NoDup.
  case_decide as Hd.
  - destruct Hd as [Hd1 Hd2]. rewrite Forall_forall in Hidx. destruct (Hidx _ Hd2) as [Hi _].
    split; [|tauto]. intros _. split; [by split; [rewrite Hd1|]|]. by destruct (live hist now k).
  - tauto.
Qed.

(** ** Timeouts *)

Lemma holds_windows_tenv c c' st f act now l :
  tenv c' = tenv c → holds_windows c st f act now l → holds_windows c' st f act now l.
Proof using Type. intros E []. split; unfold backend_of in *; by rewrite E. Qed.
(** What a window emits when it fires. *)
Definition emits (st : Z → option Z) (f : Contents IN) k (ev : ArconEvent OUT) : Prop :=
  ∃ x, window_value (window a) (f k) = Some x ∧ ev = Element (with_timestamp x (end_of st k)).

Lemma handle_timeout_ok c d st f act now l k ev :
  holds_windows c st f act now l → ki_wf k → emits st f k ev → output ev c = (Ok tt, d) →
  ∃ t, assigner_handle_timeout a (entry_of_window st k).2 c = (Ok tt, with_tenv t d) ∧
    holds_windows (with_tenv t d) st (<[k := []]> f) (delete k act) now l.
Proof.
  intros Hw Hk (x & Hx & ->) Hout.
  destruct (session_ok (expect_ok "window result error") _ c _ _ _ (result_spec _ _ _ k x (hw_window _ _ _ _ _ _ Hw) Hk Hx) eq_refl)
    as (b1 & E1 & Hc1 & Hf1). pose proof (holds_windows_window _ _ _ _ _ _ _ _ Hw Hc1 Hf1) as Hw1.
  destruct (session_ok (expect_ok "window clear error") _ _ _ _ _ (clear_spec (OUT:=OUT) _ _ _ k (hw_window _ _ _ _ _ _ Hw1) Hk) eq_refl)
    as (b2 & E2 & Hc2 & Hf2). pose proof (holds_windows_window _ _ _ _ _ _ _ _ Hw1 Hc2 Hf2) as Hw2.
  destruct (session_ok (expect_ok "active window remove error") _ _ _ _ _
    (map_remove_runs _ _ _ k (hw_active _ _ _ _ _ _ Hw2)) eq_refl) as (b3 & E3 & Hc3 & Ha3).
  pose proof (holds_windows_active _ _ _ _ _ _ _ _ Hw2 Hc3 Ha3) as Hw3.
  exists (set_sb b3 (tenv c)). split; [|by eapply holds_windows_tenv; [|exact Hw3]].
  unfold assigner_handle_timeout, entry_of_window. cbn [snd]. destruct k as [key index]. cbn [ki_key ki_index].
  unfold window_expect, expecting. step_ok E1. step_ok E2. step_ok E3.
  change (with_backend b3 _) with (with_tenv (set_sb b3 (tenv c)) c). rewrite output_tenv, Hout. done.
Qed.

Lemma emits_ext st f g ks evs : (∀ k, k ∈ ks → f k = g k) → Forall2 (emits st f) ks evs → Forall2 (emits st g) ks evs.
Proof using Type.
  intros Hfg He. induction He as [|k ev ks evs (x & Hx & Hev) He IH]; [done|]. constructor.
  - exists x. by rewrite <- Hfg by by left.
  - apply IH. intros k' Hk'. apply Hfg. by right.
Qed.
Definition cleared (ks : list KeyAndIndex) (f : Contents IN) : Contents IN := λ k, if decide (k ∈ ks) then [] else f k.
Lemma fire_ok ks evs c d st f act now l :
  holds_windows c st f act now l → NoDup ks → Forall ki_wf ks → Forall2 (emits st f) ks evs →
  for_each output evs c = (Ok tt, d) →
  ∃ t act', for_each (assigner_handle_timeout a) ((entry_of_window st <$> ks).*2) c = (Ok tt, with_tenv t d) ∧
    holds_windows (with_tenv t d) st (cleared ks f) act' now l ∧ ∀ k, k ∈ dom act' ↔ k ∈ dom act ∧ k ∉ ks.
Proof.
  intros Hw Hnd Hks. revert evs c d f act Hw. induction Hnd as [|k ks Hk Hnd IH]; intros evs c d f act Hw Hevs Hout.
  { inversion Hevs; subst. injection Hout as <-. exists (tenv c), act. split; [by destruct c|]. split; [|set_solver].
    apply (holds_windows_tenv c); [done|]. by destruct Hw. }
  apply Forall_cons in Hks as [Hwf' Hks]. apply Forall2_cons_inv_l in Hevs as (ev & evs' & He & Hevs & ->).
  cbn [for_each] in Hout. apply bind_inv_ok in Hout as ([] & d1 & Hout1 & Hout).
  destruct (handle_timeout_ok c d1 st f act now l k ev Hw Hwf' He Hout1) as (t1 & E1 & Hw1).
  destruct (IH Hks evs' (with_tenv t1 d1) (with_tenv t1 d) (<[k := []]> f) (delete k act) Hw1) as (t & act' & E & Hw' & Ha').
  - eapply emits_ext; [|exact Hevs]. intros k' Hk'. rewrite fn_lookup_insert_ne; [done|]. by intros ->.
  - by rewrite outputs_tenv, Hout.
  - exists t, act'. split; [|split].
    + cbn [fmap list_fmap for_each]. step_ok E1. exact E.
    + destruct Hw'. split; try done. eapply window_rep_ext; [done|]. intros k' _. unfold cleared.
      destruct (decide (k' = k)) as [->|Hne]; [rewrite decide_False, fn_lookup_insert by done; by rewrite decide_True by by left|].
      rewrite fn_lookup_insert_ne by done. apply decide_ext. set_solver.
    + intros k'. rewrite Ha', dom_delete. set_solver.
Qed.

(** ** Advancing the time *)

Abbreviation due hist k := (due_of (first_start hist) k).
Lemma live_content hist now k : live hist now k ≠ [] ↔ content hist k ≠ [] ∧ now < due hist k.
Proof using Type. unfold live. destruct (Z.ltb_spec now (due hist k)); naive_solver lia. Qed.
Lemma cleared_live hist now ts (act : gmap KeyAndIndex unit) ks k :
  (∀ k, k ∈ dom act ↔ ki_wf k ∧ live hist now k ≠ []) → now ≤ ts → ki_wf k →
  (∀ k, k ∈ ks → due hist k ≤ ts) → (∀ k, k ∈ dom act → k ∉ ks → ts < due hist k) →
  cleared ks (live hist now) k = live hist ts k.
Proof using Type.
  intros Hact Hle Hk Hfired Hrest. unfold cleared. case_decide as Hin.
  - unfold live. by rewrite (proj2 (Z.ltb_ge _ _) (Hfired k Hin)).
  - destruct (decide (k ∈ dom act)) as [Hd|Hd].
    + pose proof (Hrest k Hd Hin). unfold live. rewrite !(proj2 (Z.ltb_lt _ _)); [done|lia..].
    + assert (live hist now k = []) as Hn.
      { destruct (live hist now k) eqn:E; [done|]. exfalso. apply Hd, Hact. by rewrite E. }
      rewrite Hn. unfold live in *. destruct (Z.ltb_spec ts (due hist k)); [|done]. by rewrite (proj2 (Z.ltb_lt _ _)) in Hn by lia.
Qed.
Lemma sorted_fmap {X Y} (R : Y → Y → Prop) (g : X → Y) l :
  StronglySorted R (g <$> l) → StronglySorted (λ x y, R (g x) (g y)) l.
Proof using Type.
  induction l as [|x l IH]; cbn; [constructor|]. intros [Hs Hx]%StronglySorted_inv. constructor; [by apply IH|].
  by rewrite Forall_fmap in Hx.
Qed.
Lemma emits_all st f ks c act now l :
  holds_windows c st f act now l → Forall (λ k, f k ≠ []) ks → ∃ evs, Forall2 (emits st f) ks evs.
Proof.
  intros Hw. induction 1 as [|k ks Hk _ (evs & IH)]; [by exists []|].
  destruct (window_value_some (OUT:=OUT) _ _ _ (f k) (hw_window _ _ _ _ _ _ Hw) Hk) as [x Hx].
  exists (Element (with_timestamp x (end_of st k)) :: evs). constructor; [by exists x|done].
Qed.

Lemma elem_of_keys (act : gmap KeyAndIndex unit) k : k ∈ (map_to_list act).*1 ↔ k ∈ dom act.
Proof using Type.
  rewrite list_elem_of_fmap, elem_of_dom. split.
  - intros ([k' []] & -> & Hk%elem_of_map_to_list). by eexists.
  - intros [[] Hk]. exists (k, tt). by rewrite elem_of_map_to_list.
Qed.
(** The state once the windows [fired] have fired. *)
Lemma after_fire c hist now ts (act act' : gmap KeyAndIndex unit) fired rest :
  Forall in_range hist → now ≤ ts → (∀ k, k ∈ dom act ↔ ki_wf k ∧ live hist now k ≠ []) →
  (∀ k, k ∈ dom act ↔ k ∈ fired ∨ k ∈ rest) → (∀ k, k ∈ fired → k ∉ rest) → NoDup rest →
  (∀ k, k ∈ fired → due hist k ≤ ts) → (∀ k, k ∈ rest → ts < due hist k) →
  holds_windows c (first_start hist) (cleared fired (live hist now)) act' ts (entry_of_window (first_start hist) <$> rest) →
  (∀ k, k ∈ dom act' ↔ k ∈ dom act ∧ k ∉ fired) → assigner_rep c hist ts.
Proof.
  intros Hh Hle Hact Hdom Hdisj Hnr Hdue Hlater Hw Ha'. split; [done|].
  assert (Hcl : ∀ k, ki_wf k → cleared fired (live hist now) k = live hist ts k).
  { intros k Hk. eapply cleared_live; [exact Hact|done|done|done|]. intros k' [?|?]%Hdom Hnot; [done|by apply Hlater]. }
  exists act'. split.
  - eapply windows_rep_ext; [done|exact Hcl|]. eexists. split; [exact Hw|].
    apply fmap_Permutation, NoDup_Permutation; [done|apply NoDup_fst_map_to_list|]. intros k.
    rewrite elem_of_keys, Ha', Hdom. split; [intros Hk; split; [by right|by intros Hk'; apply (Hdisj k)]|tauto].
  - intros k. rewrite Ha', Hact. split.
    + intros [[Hk Hne] Hnf']. split; [done|]. rewrite <- Hcl by done. unfold cleared. by rewrite decide_False.
    + intros [Hk Hne]. rewrite <- Hcl in Hne by done. unfold cleared in Hne. case_decide; [done|]. tauto.
Qed.
Lemma advance_ok c hist now ts :
  assigner_rep c hist now → now ≤ ts < 2 ^ 64 →
  ∃ fired evs, NoDup fired ∧
    (∀ k, k ∈ fired ↔ ki_wf k ∧ content hist k ≠ [] ∧ now < due hist k ≤ ts) ∧
    StronglySorted (λ k k', due hist k ≤ due hist k') fired ∧
    Forall2 (emits (first_start hist) (content hist)) fired evs ∧
    ∀ d, for_each output evs c = (Ok tt, d) →
      ∃ c', (timeouts ← on_timer (advance_to ts); for_each (handle_timeout a) timeouts) c = (Ok tt, c') ∧
        same_output d c' ∧ assigner_rep c' hist ts.
Proof.
  intros (Hh & act & (l & Hw & Hl) & Hact) Hts.
  destruct (advance_to_spec _ _ _ ts (hw_timer _ _ _ _ _ _ Hw)) as (fl & rl & t & E & Ht & Hc & Hp & Hfl & Hrl & Hsort); [lia|].
  rewrite Hl in Hp. symmetry in Hp. apply Permutation_map_inv in Hp as (ks & Hks & Hperm).
  symmetry in Hks. apply fmap_app_inv in Hks as (fired & rest & -> & -> & ->).
  assert (Hnd : NoDup (fired ++ rest)) by (rewrite <- Hperm; apply NoDup_fst_map_to_list).
  apply NoDup_app in Hnd as (Hnf & Hdisj & Hnr).
  assert (Hdom : ∀ k, k ∈ dom act ↔ k ∈ fired ∨ k ∈ rest).
  { intros k. by rewrite <- elem_of_app, <- Hperm, elem_of_keys. }
  assert (Hdue : ∀ k, k ∈ fired → due hist k ≤ ts).
  { rewrite Forall_fmap, Forall_forall in Hfl. intros k Hk. by apply (Hfl k). }
  assert (Hlater : ∀ k, k ∈ rest → ts < due hist k).
  { rewrite Forall_fmap, Forall_forall in Hrl. intros k Hk. by apply (Hrl k). }
  assert (Hlive : ∀ k, k ∈ fired → live hist now k = content hist k).
  { intros k Hk. assert (k ∈ dom act) as [_ Hne]%Hact by (apply Hdom; by left). apply live_content in Hne as [_ Hlt].
    unfold live. by rewrite (proj2 (Z.ltb_lt _ _) Hlt). }
  destruct (emits_all _ (live hist now) fired _ _ _ _ Hw) as (evs & Hevs).
  { apply Forall_forall. intros k Hk. apply Hact, Hdom. by left. }
  exists fired, evs. split; [done|]. split; [|split; [|split]].
  - intros k. split.
    + intros Hk. assert (k ∈ dom act) as [Hkw Hne]%Hact by (apply Hdom; by left).
      apply live_content in Hne as [Hne Hlt]. split; [done|]. split; [done|]. split; [done|by apply Hdue].
    + intros (Hkw & Hne & Hlt & Hle). assert (k ∈ dom act) as [Hk|Hk]%Hdom by (by apply Hact; split; [|apply live_content]); [done|].
      apply Hlater in Hk. lia.
  - by apply (sorted_fmap (λ x y, x.1 ≤ y.1) (entry_of_window (first_start hist))).
  - by eapply emits_ext.
  - intros d Hout. assert (Hw1 : holds_windows (with_tenv t c) (first_start hist) (live hist now) act ts (entry_of_window (first_start hist) <$> rest))
      by by eapply holds_windows_timer.
    destruct (fire_ok fired evs (with_tenv t c) (with_tenv t d) _ _ _ _ _ Hw1 Hnf) as (t' & act' & E' & Hw' & Ha').
    + apply Forall_forall. intros k Hk. apply Hact, Hdom. by left.
    + done.
    + by rewrite outputs_tenv, Hout.
    + exists (with_tenv t' d). split; [step_ok (on_timer_ok _ c _ _ E); exact E'|]. split; [done|].
      eapply (after_fire _ hist now ts act act' fired rest); try done; lia.
Qed.
End assigner.
