(* ===== verification/EventTimeWindows.v ===== *)
(** The properties of event-time windows: runs of the assigner, its start over fresh and over stored
    state, and the agreement of the two kinds of windows. *)

From stdpp Require Import functions.
From S2P Require Import Prelude Error Allocator EventBuffer Pool Serialization StateBackend InMemory BackendLaws BackendClient Data Channel Timer TimerSpec Operator OperatorSpec Window WindowSpec AssignerSpec.
From Stdlib Require Import Sorting.Sorted.
#[local] Open Scope Z_scope.

Section runs.
#[local] Set Default Proof Using "All".
Context `{BuildProfile, Receivers, Fuel} {W IN OUT T B : Type} `{Transport OUT, ArconType IN, ArconType OUT}.
Context `{BackendSpec B, !TimerBackend T WindowEvent B, !TimerRep T WindowEvent B, !SchedulerSpec T WindowEvent B}.
Context `{!Window W IN OUT B, !WindowRep W IN OUT B, !WindowSpec W IN OUT B}.
Context `{Value u64, Key KeyAndIndex, !MessageLaws KeyAndIndex, Value unit, !MapSpec B KeyAndIndex unit unit unit}.
Context (a : EventTimeWindowAssigner W) (Hwf : assigner_wf (T:=T) (B:=B) a).
Implicit Types (c : OpEnv OUT T B) (hist : list (ArconElement IN)) (e : ArconElement IN) (k : KeyAndIndex).
Abbreviation late := (late_arrival_time a).
Abbreviation due hist k := (due_of a (first_start a hist) k).

(** ** Single steps *)

(** The bound below which an element is late. *)
Lemma handle_element_time c hist now e :
  assigner_rep a c hist now → in_range a e →
  ∃ c', same_output c c' ∧ assigner_rep a c' hist now ∧
    assigner_handle_element a e c =
      (if event_ts e + late <? now then mret tt
       else r ← window_range a (window_key a e) (event_ts e);
         for_each (insert_element a (window_key a e) e) (range_incl r.1 r.2)) c'.
Proof.
  intros (Hh & act & Hw & Hact) (_ & Hts & _). destruct (ctx_current_time_ok a Hwf _ _ _ _ _ Hw) as (c' & E & Ho & Hw').
  exists c'. split; [done|]. split; [by split; [|exists act]|]. unfold assigner_handle_element. step_ok E.
  fold (event_ts e). replace (event_ts e <? saturating_sub now late) with (event_ts e + late <? now); [done|].
  unfold saturating_sub. destruct (Z.ltb_spec (event_ts e + late) now); symmetry; [apply Z.ltb_lt|apply Z.ltb_ge]; lia.
Qed.

(** ** Runs *)

(** What happens to an assigner: an element arrives, or the clock advances and what is due fires. *)
Inductive input : Type := Arrive (e : ArconElement IN) | Advance (ts : Z).
Definition on_input (i : input) : M (OpEnv OUT T B) Error unit :=
  match i with
  | Arrive e => handle_element a e
  | Advance ts => timeouts ← on_timer (advance_to ts); for_each (handle_timeout a) timeouts
  end.
(** The elements that were accepted, and the time. *)
Definition track (s : list (ArconElement IN) * Z) (i : input) : list (ArconElement IN) * Z :=
  match i with
  | Arrive e => (if event_ts e + late <? s.2 then s.1 else s.1 ++ [e], s.2)
  | Advance ts => (s.1, ts)
  end.
Definition input_ok (s : list (ArconElement IN) * Z) (i : input) : Prop :=
  match i with
  | Arrive e => in_range a e ∧ vec_fits (s.1 ++ [e]) ∧ (s.2 ≤ event_ts e + late → start_with a s.1 e ≤ event_ts e)
  | Advance ts => s.2 ≤ ts < 2 ^ 64
  end.
Fixpoint inputs_ok (s : list (ArconElement IN) * Z) (l : list input) : Prop :=
  match l with
  | [] => True
  | i :: l' => input_ok s i ∧ inputs_ok (track s i) l'
  end.
Lemma track_time l s : inputs_ok s l → s.2 ≤ (foldl track s l).2.
Proof using Type.
  revert s. induction l as [|i l IH]; intros s; cbn; [done|]. intros [Hi Hl%IH].
  destruct i; cbn in *; lia.
Qed.

(** What is due at [now] no longer changes. *)
Definition is_due now hist k : Prop := content a hist k ≠ [] ∧ due hist k ≤ now.
Definition settled now hist hist' : Prop := ∀ k, is_due now hist k ∨ is_due now hist' k →
  content a hist' k = content a hist k ∧ first_start a hist' (ki_key k) = first_start a hist (ki_key k).
#[local] Instance settled_preorder now : PreOrder (settled now).
Proof using Type.
  split; [done|]. intros h1 h2 h3 H12 H23 k Hk.
  assert (is_due now h2 k) as Hk2.
  { unfold is_due, due_of, end_of. destruct Hk as [Hk|Hk].
    - destruct (H12 k) as [-> ->]; [by left|exact Hk].
    - destruct (H23 k) as [<- <-]; [by right|exact Hk]. }
  destruct (H12 k) as [<- <-]; [by right|]. apply H23. by left.
Qed.
Lemma settled_weaken now now' hist hist' : now ≤ now' → settled now' hist hist' → settled now hist hist'.
Proof using Type. intros Hle Hs k Hk. apply Hs. unfold is_due in *. naive_solver lia. Qed.
Lemma settled_is_due now hist hist' k : settled now hist hist' → is_due now hist k ↔ is_due now hist' k.
Proof using Type.
  intros Hs. split; intros Hk; unfold is_due, due_of, end_of.
  - destruct (Hs k) as [-> ->]; [by left|exact Hk].
  - destruct (Hs k) as [<- <-]; [by right|exact Hk].
Qed.
Lemma settled_accept now hist e :
  now ≤ event_ts e + late → settled now hist (hist ++ [e]).
Proof using Type.
  intros Hnow k. destruct (decide (window_key a e = ki_key k)) as [Hk|Hk].
  - rewrite first_start_app. destruct (first_start a hist (ki_key k)) as [s|] eqn:Hs.
    + intros Hd. split; [|done]. rewrite (content_app a hist e k s).
      * rewrite decide_False, app_nil_r; [done|]. intros [_ [_ Hin]].
        assert (Hdue : due_of a (first_start a hist) k ≤ now ∨ due_of a (first_start a (hist ++ [e])) k ≤ now)
          by (destruct Hd as [[_ ?]|[_ ?]]; [by left|by right]).
        unfold due_of, end_of in Hdue. rewrite first_start_app, Hs in Hdue. cbn [default id] in Hdue. lia.
      * by rewrite first_start_app, Hs.
      * intros s'. congruence.
      * intros; congruence.
    + rewrite decide_True by done. intros [[Hc _]|[Hc Hd]]; [unfold content in Hc; by rewrite Hs in Hc|]. exfalso.
      unfold due_of, end_of in Hd. unfold content in Hc. rewrite first_start_app, Hs, decide_True in Hc, Hd by done.
      rewrite filter_app, no_start_filter, filter_cons, filter_nil in Hc by done. case_decide as Hin; [|done].
      destruct Hin as [_ [_ Hin]]. cbn [default id] in Hd. lia.
  - intros _. assert (Hf : first_start a (hist ++ [e]) (ki_key k) = first_start a hist (ki_key k)).
    { rewrite first_start_app. case_match; [done|]. by rewrite decide_False. }
    split; [|done]. unfold content. rewrite Hf. case_match; [|done].
    rewrite filter_app, filter_cons, filter_nil, decide_False, app_nil_r; [done|]. by intros [? _].
Qed.

Lemma arrive_ok c hist now e :
  assigner_rep a c hist now → input_ok (hist, now) (Arrive e) →
  ∃ c', on_input (Arrive e) c = (Ok tt, c') ∧ same_output c c' ∧ assigner_rep a c' (track (hist, now) (Arrive e)).1 now.
Proof.
  intros Hr (He & Hfit & Hle). cbn [fst snd] in *. destruct (handle_element_time c hist now e Hr He) as (c1 & Ho1 & Hr1 & E1).
  cbn [on_input handle_element EventTimeWindowAssigner_Operator track fst snd]. rewrite E1.
  destruct (Z.ltb_spec (event_ts e + late) now) as [Hlt|Hge]; [by exists c1|].
  destruct (accept_ok a Hwf c1 hist now e Hr1 He) as (c2 & E2 & Ho2 & Hr2); [by apply Hle|done|done|].
  exists c2. split; [exact E2|]. split; [by eapply same_output_trans|done].
Qed.
Lemma settled_arrive hist now e : settled now hist (track (hist, now) (Arrive e)).1.
Proof using Type. cbn. destruct (Z.ltb_spec (event_ts e + late) now); [done|]. by apply settled_accept. Qed.
Lemma settled_run l s : inputs_ok s l → settled s.2 s.1 (foldl track s l).1.
Proof using Type.
  revert s. induction l as [|i l IH]; intros [hist now]; cbn; [done|]. intros [Hi Hl]. specialize (IH _ Hl).
  destruct i as [e|ts]; cbn in *.
  - etrans; [apply (settled_arrive hist now e)|exact IH].
  - eapply settled_weaken; [|exact IH]. lia.
Qed.
Lemma same_output_tenv c c' : same_output c c' → c' = with_tenv (tenv c') c.
Proof using Type. destruct c, c'. unfold same_output. cbn. by intros [-> ->]. Qed.
(** The windows that fire while the time goes from [now] to [ts], in the order of their deadlines. *)
Record firing hist now ts (fired : list KeyAndIndex) (evs : list (ArconEvent OUT)) : Prop := {
  firing_NoDup : NoDup fired;
  firing_due k : k ∈ fired ↔ ki_wf k ∧ content a hist k ≠ [] ∧ now < due hist k ≤ ts;
  firing_sorted : StronglySorted (λ k k', due hist k ≤ due hist k') fired;
  firing_emits : Forall2 (emits a (first_start a hist) (content a hist)) fired evs;
}.
Lemma firing_settled hist hist' now ts fired evs :
  settled ts hist hist' → firing hist now ts fired evs → firing hist' now ts fired evs.
Proof using Type.
  intros Hs [H1' H2' H3' H4'].
  assert (Heq : ∀ k, k ∈ fired → content a hist' k = content a hist k ∧ first_start a hist' (ki_key k) = first_start a hist (ki_key k)).
  { intros k (_ & Hc & Hd)%H2'. apply Hs. left. split; [done|lia]. }
  assert (Hdue : ∀ k, k ∈ fired → due hist' k = due hist k).
  { intros k [_ Hk]%Heq. unfold due_of, end_of. by rewrite Hk. }
  split; [done|..].
  - intros k. split.
    + intros Hk. rewrite (Hdue k Hk). destruct (Heq k Hk) as [-> _]. by apply H2'.
    + intros (Hw & Hc & Hd). destruct (Hs k) as [E1 E2]; [right; split; [done|lia]|]. apply H2'.
      unfold due_of, end_of in *. rewrite <- E1, <- E2. done.
  - clear H1' H2' Heq H4'. induction H3' as [|k l Hl IH Hk]; constructor.
    + apply IH. intros k' Hk'. apply Hdue. by right.
    + rewrite Forall_forall in *. intros k' Hk'. rewrite !Hdue by (by left || by right). by apply Hk.
  - clear H1' H2' H3' Hdue. induction H4' as [|k ev l evs' (x & Hx & ->) Hl IH]; constructor.
    + exists x. unfold end_of. destruct (Heq k) as [-> ->]; [by left|]. done.
    + apply IH. intros k' Hk'. apply Heq. by right.
Qed.
Lemma firing_app hist t1 t2 t3 f1 f2 evs1 evs2 :
  t1 ≤ t2 ≤ t3 → firing hist t1 t2 f1 evs1 → firing hist t2 t3 f2 evs2 → firing hist t1 t3 (f1 ++ f2) (evs1 ++ evs2).
Proof using Type.
  intros Ht [A1 A2 A3 A4] [B1 B2 B3 B4]. split.
  - apply NoDup_app. split; [done|]. split; [|done]. intros k Hk%A2 Hk'%B2. lia.
  - intros k. rewrite elem_of_app, A2, B2. destruct (decide (due hist k ≤ t2)); naive_solver lia.
  - apply sorted_app; [done..|]. intros k k' Hk%A2 Hk'%B2. lia.
  - by apply Forall2_app.
Qed.


(** States in which the output succeeds. *)
Class OutputReady (ready : ChannelStrategy → Net OUT → Prop) : Prop :=
  output_ready c ev : ready (strategy c) (net c) → ∃ d, output ev c = (Ok tt, d) ∧ ready (strategy d) (net d).
Lemma outputs_ready ready `{!OutputReady ready} evs c :
  ready (strategy c) (net c) → ∃ d, for_each output evs c = (Ok tt, d) ∧ ready (strategy d) (net d).
Proof using Type.
  revert c. induction evs as [|ev evs IH]; intros c Hc; [by exists c|].
  destruct (output_ready c ev Hc) as (c1 & E1 & Hc1). destruct (IH c1 Hc1) as (d & E & Hd).
  exists d. split; [|done]. cbn [for_each]. by step_ok E1.
Qed.

Lemma run_ok ready `{!OutputReady ready} l c s :
  assigner_rep a c s.1 s.2 → inputs_ok s l → ready (strategy c) (net c) →
  ∃ fired evs d c', firing (foldl track s l).1 s.2 (foldl track s l).2 fired evs ∧
    for_each output evs c = (Ok tt, d) ∧ for_each on_input l c = (Ok tt, c') ∧ same_output d c' ∧
    assigner_rep a c' (foldl track s l).1 (foldl track s l).2.
Proof.
  revert c s. induction l as [|i l IH]; intros c [hist now]; cbn [fst snd inputs_ok foldl].
  { intros Hr _ _. exists [], [], c, c. split; [|split; [done|split; [done|split; [done|exact Hr]]]].
    split; [constructor| |constructor|constructor]. intros k. rewrite elem_of_nil. split; [done|lia]. }
  intros Hr [Hi Hl] Hc. destruct i as [e|ts].
  - destruct (arrive_ok c hist now e Hr Hi) as (c1 & E1 & Ho1 & Hr1). pose proof Ho1 as [Hst Hnt].
    destruct (IH c1 _ Hr1 Hl) as (fired & evs & d & c' & Hf & Ed & E' & Ho' & Hr'); [by rewrite Hst, Hnt|].
    rewrite (same_output_tenv _ _ Ho1), outputs_tenv in Ed. destruct (for_each output evs c) as [o d0] eqn:Eo.
    injection Ed as -> <-. exists fired, evs, d0, c'. split; [exact Hf|]. split; [done|].
    split; [cbn [for_each]; by step_ok E1|]. by split.
  - destruct (advance_ok a Hwf c hist now ts Hr) as (f1 & evs1 & Hn & Hk & Hs & He & Hrun); [exact Hi|].
    assert (firing hist now ts f1 evs1) as Hf1 by by split.
    pose proof (settled_run l (hist, ts) Hl) as Hset. pose proof (track_time l (hist, ts) Hl) as Hle. cbn [fst snd] in Hset, Hle.
    destruct (outputs_ready ready evs1 c Hc) as (d1 & Ed1 & Hd1). destruct (Hrun d1 Ed1) as (c1 & E1 & Ho1 & Hr1).
    pose proof Ho1 as [Hst Hnt].
    destruct (IH c1 (hist, ts) Hr1 Hl) as (f2 & evs2 & d & c' & Hf2 & Ed & E' & Ho' & Hr'); [by rewrite Hst, Hnt|].
    rewrite (same_output_tenv _ _ Ho1), outputs_tenv in Ed. destruct (for_each output evs2 d1) as [o d0] eqn:Eo.
    injection Ed as -> <-. exists (f1 ++ f2), (evs1 ++ evs2), d0, c'.
    split; [eapply firing_app; [|by eapply firing_settled|exact Hf2]; cbn in *; lia|].
    split; [rewrite for_each_app; by step_ok Ed1|]. split; [cbn [for_each on_input]; by step_ok E1|]. by split.
Qed.
#[local] Instance in_window_decision start index e : Decision (in_window a start index e).
Proof. unfold in_window. apply _. Defined.

(** C7: Over a run in which elements arrive and the clock advances, the assigner emits exactly one result for
    every window that holds an accepted element and whose deadline passes: in the order of the deadlines,
    with the end of the window for timestamp, and computed from precisely the accepted elements of the
    key in the interval of the window, in the order of their arrival.  It does not fail, on the
    conditions that every element is late or not older than the first element of its key (otherwise it
    panics with overflow checks, see [assigner_handles_element]), that timestamps and the clock stay
    below 2^64, the clock never being turned back ([inputs_ok]), and that the strategy takes every result
    ([OutputReady]). *)
Theorem windows_fire_once ready `{!OutputReady ready} l c s :
  assigner_rep a c s.1 s.2 → inputs_ok s l → ready (strategy c) (net c) →
  ∃ fired evs d c', firing (foldl track s l).1 s.2 (foldl track s l).2 fired evs ∧
    for_each output evs c = (Ok tt, d) ∧ for_each on_input l c = (Ok tt, c') ∧ same_output d c' ∧
    assigner_rep a c' (foldl track s l).1 (foldl track s l).2.
Proof. by apply run_ok. Qed.

(** C23: An element whose lateness is over is ignored.  Any other joins the windows of its key whose interval
    it lies in, and no others, and a timeout is set for each of these that was inactive; an element that
    is not late, but older than the first element of its key, makes a build with overflow checks panic. *)
Theorem assigner_handles_element c hist now e :
  assigner_rep a c hist now → in_range a e → vec_fits (hist ++ [e]) →
  (event_ts e + late < now →
    ∃ c', handle_element a e c = (Ok tt, c') ∧ same_output c c' ∧ assigner_rep a c' hist now) ∧
  (now ≤ event_ts e + late → start_with a hist e ≤ event_ts e →
    (∃ c', handle_element a e c = (Ok tt, c') ∧ same_output c c' ∧ assigner_rep a c' (hist ++ [e]) now) ∧
    ∀ k, live a (hist ++ [e]) now k =
      if decide (ki_key k = window_key a e ∧ in_window a (start_with a hist e) (ki_index k) e)
      then live a hist now k ++ [data e] else live a hist now k) ∧
  (overflow_checks = true → now ≤ event_ts e + late → event_ts e < start_with a hist e →
    ∃ c', handle_element a e c = (Panic "attempt to subtract with overflow", c')).
Proof.
  intros Hr He Hfit. split; [|split].
  - intros Hlt. destruct (arrive_ok c hist now e Hr) as (c' & E & Ho & Hr'); [by split; [|split; [|cbn; lia]]|].
    exists c'. split; [exact E|]. split; [done|]. cbn in Hr'. by rewrite (proj2 (Z.ltb_lt _ _) Hlt) in Hr'.
  - intros Hge Hle. destruct (arrive_ok c hist now e Hr) as (c' & E & Ho & Hr'); [by split; [|split]|]. split.
    + exists c'. split; [exact E|]. split; [done|]. cbn in Hr'. by rewrite (proj2 (Z.ltb_ge _ _) Hge) in Hr'.
    + intros k. rewrite (live_app a Hwf hist e now (start_with a hist e) k); [|apply start_with_app| |done].
      * by apply decide_ext.
      * intros s Hs. unfold start_with. by rewrite Hs.
  - intros Hov Hge Hlt. destruct (handle_element_time c hist now e Hr He) as (c1 & _ & Hr1 & E1).
    cbn [handle_element EventTimeWindowAssigner_Operator]. rewrite E1, (proj2 (Z.ltb_ge _ _)) by done.
    unfold start_with in Hlt. destruct (first_start a hist (window_key a e)) as [s|] eqn:Hs; cbn in Hlt; [|unfold id in *; lia].
    destruct Hr1 as (Hh & act & (lt & Hw & _) & _). destruct He as (Hk & Hts & _).
    pose proof (first_start_range a Hwf hist _ s Hh Hs).
    destruct (start_get_ok a Hwf c1 _ _ _ _ _ (window_key a e) Hw Hk) as (b & E2 & _). rewrite Hs in E2.
    exists (with_backend b c1). apply bind_panic. unfold window_range. step_ok E2. cbn [fmap option_fmap option_map uint_val].
    apply bind_panic. unfold lift, u_sub, wrapping_or_panic, in_u in *. rewrite bool_decide_eq_false_2 by lia. by rewrite Hov.
Qed.
End runs.

(** ** The start of an assigner *)

Section start.
#[local] Set Default Proof Using "All".
Context `{BuildProfile, Receivers, Fuel} {W IN OUT T B : Type} `{Transport OUT, ArconType IN, ArconType OUT}.
Context `{BackendSpec B, !TimerBackend T WindowEvent B, !TimerRep T WindowEvent B, !SchedulerSpec T WindowEvent B}.
Context `{!Window W IN OUT B, !WindowRep W IN OUT B, !WindowSpec W IN OUT B}.
Context `{Value u64, Key KeyAndIndex, !MessageLaws KeyAndIndex, Value unit, !MapSpec B KeyAndIndex unit unit unit}.
Implicit Types (a : EventTimeWindowAssigner W) (hist : list (ArconElement IN)) (k : KeyAndIndex).

(** The parameters that [EventTimeWindowAssigner::new] accepts. *)
Record params_ok (length slide late : Z) : Prop := {
  po_slide : 0 < slide;
  po_length : ∃ n, 0 < n ∧ length = n * slide;
  po_late : 0 ≤ late;
}.
Lemma assigner_new_ok (w : W) length slide late keyed a :
  in_u 64 length → in_u 64 slide → in_u 64 late →
  EventTimeWindowAssigner_new w length slide late keyed = Ok a ↔
    params_ok length slide late ∧ a = MkAssigner length slide late keyed w EventTimeWindowAssignerState_new.
Proof using Type.
  intros [Hl _] [Hs _] [Ht _]. unfold EventTimeWindowAssigner_new, u_rem. split.
  - destruct (Z.ltb_spec length slide); [done|]. cbn. destruct (Z.eqb_spec slide 0) as [->|Hz]; [done|]. cbn.
    destruct (Z.eqb_spec (length mod slide) 0) as [Hm|]; [|done]. cbn. intros [= <-]. split; [|done].
    split; [lia| |done]. apply Z.mod_divide in Hm as [n Hn]; [|done]. exists n. split; [nia|done].
  - intros [[H1' (n & Hn & ->) _] ->]. rewrite (proj2 (Z.ltb_ge _ _)) by nia.
    rewrite (proj2 (Z.eqb_neq slide 0)) by lia. cbn. by rewrite Z.mod_mul by lia.
Qed.

(** What a backend stores of an assigner that accepted [hist] up to the time [now]; nothing, when both
    are initial and the backend is. *)
Record assigner_stored a (b : B) hist (now : Z) (act : gmap KeyAndIndex unit) : Prop := {
  as_start : stored_all ValRep None b (window_start (wa_state a)) (λ (k : u64) (_ : unit), UInt <$> first_start a hist (uint_val k));
  as_active : stored MapRep ∅ b (active_windows (wa_state a)) act;
  as_window : window_stored (window a) b (live a hist now);
  as_range : Forall (in_range a) hist;
  as_dom k : k ∈ dom act ↔ ki_wf k ∧ live a hist now k ≠ [];
}.
(** The assigner after its registration, whose window became [w]. *)
Definition assigner_registered a (w : W) : EventTimeWindowAssigner W :=
  MkAssigner (window_length a) (window_slide a) (late_arrival_time a) (is_keyed a) w
    (MkAssignerState (set_registered (window_start (wa_state a))) (set_registered (active_windows (wa_state a)))).
Lemma start_ok a b hist now act :
  params_ok (window_length a) (window_slide a) (late_arrival_time a) → wa_state a = EventTimeWindowAssignerState_new →
  window_regions (window a) ## {["window_start"; "active_windows"]} →
  timer_regions (T:=T) (E:=WindowEvent) (B:=B) ## assigner_regions (B:=B) a →
  backend_ok b → assigner_stored a b hist now act →
  ∃ w' b', op_register_states (T:=T) a b = (Ok (assigner_registered a w'), b') ∧
    window_value w' = (window_value (window a) : list IN → option OUT) ∧
    backend_ok b' ∧ changes (assigner_regions (B:=B) a) b b' ∧ assigner_wf (T:=T) (B:=B) (assigner_registered a w') ∧
    ∀ c ids, changes ids b' (backend_of c) → ids ## assigner_regions (B:=B) a →
      timer_rep (tenv c) now (entry_of_window a (first_start a hist) <$> (map_to_list act).*1) →
      assigner_rep (assigner_registered a w') c hist now.
Proof.
  intros Hp Hst Hwr Htr Hok [Hs1 Hs2 Hs3 Hh Hact]. destruct a as [L S late keyed w ?]. cbn in *. subst.
  unfold assigner_regions in Htr. cbn in Htr.
  destruct (registering_all ValRep ValRep None _ b _ _ (register_value_spec b _ Hok) Hs1) as (b1 & E1 & Hok1 & Hc1 & Hh1).
  cbn in Hc1. assert (stored MapRep ∅ b1 (map_handle KeyAndIndex unit "active_windows") act) as Hs2'
    by (eapply stored_frame; [exact Hc1|by apply not_elem_of_singleton|done]).
  destruct (register_map_holds (active_windows EventTimeWindowAssignerState_new) b1 act Hok1 Hs2') as (b2 & E2 & Hok2 & Hc2 & Hh2). cbn in Hc2.
  assert (window_stored w b2 (live (MkAssigner L S late keyed w EventTimeWindowAssignerState_new) hist now)) as Hs3'.
  { eapply window_stored_frame; [|etrans; [eapply changes_weaken; [|exact Hc1]|eapply changes_weaken; [|exact Hc2]]|exact Hwr]; [done|set_solver..]. }
  destruct (window_register_spec (OUT:=OUT) _ _ _ Hok2 Hs3') as (w' & b3 & E3 & Hok3 & Hc3 & Hr3 & Hv3 & Hh3).
  assert (changes ({["active_windows"]} ∪ window_regions w) b1 b3) as Hc13
    by (etrans; eapply changes_weaken; [|exact Hc2| |exact Hc3]; set_solver).
  exists w', b3. split.
  { step_ok E1. erewrite bind_ok; [|by unfold registering, on_outcome; rewrite E2]. by step_ok E3. }
  split; [done|]. split; [done|]. split; [|split].
  - unfold assigner_regions. cbn. etrans; [|eapply changes_weaken; [|exact Hc3]; set_solver].
    etrans; eapply changes_weaken; [|exact Hc1| |exact Hc2]; set_solver.
  - destruct Hp. split; cbn; [done..|by rewrite Hr3|by rewrite Hr3].
  - intros c ids Hids Hd Ht. unfold assigner_regions in Hd. cbn in Hd.
    split; [exact Hh|]. exists act. split; [|exact Hact]. eexists. split; [|done]. split; [| | |exact Ht]; cbn.
    + eapply holds_all_frame; [exact Hids|cbn; set_solver|]. eapply holds_all_frame; [exact Hc13|cbn; set_solver|exact Hh1].
    + eapply holds_frame; [exact Hids|cbn; set_solver|]. eapply holds_frame; [exact Hc3|cbn; set_solver|done].
    + eapply window_rep_frame; [exact Hh3|exact Hids|]. rewrite Hr3. set_solver.
Qed.

(** C24: Creating an assigner accepts exactly the lengths that are multiples of a slide that is not zero, and
    registering its states, over an initial backend or over what an earlier assigner with the same
    parameters stored, resumes with the starts, the active windows and the contents that are stored. *)
Theorem assigner_starts (w : W) length slide late keyed a :
  in_u 64 length → in_u 64 slide → in_u 64 late →
  window_regions w ## ({["window_start"; "active_windows"]} : gset string) →
  timer_regions (T:=T) (E:=WindowEvent) (B:=B) ## {["window_start"; "active_windows"]} ∪ window_regions w →
  (EventTimeWindowAssigner_new w length slide late keyed = Ok a ↔
    params_ok length slide late ∧ a = MkAssigner length slide late keyed w EventTimeWindowAssignerState_new) ∧
  ∀ b hist now act, EventTimeWindowAssigner_new w length slide late keyed = Ok a →
    backend_ok b → assigner_stored a b hist now act →
    ∃ w' b', op_register_states (T:=T) a b = (Ok (assigner_registered a w'), b') ∧
      window_value w' = (window_value (window a) : list IN → option OUT) ∧
      backend_ok b' ∧ changes (assigner_regions (B:=B) a) b b' ∧ assigner_wf (T:=T) (B:=B) (assigner_registered a w') ∧
      ∀ c ids, changes ids b' (backend_of c) → ids ## assigner_regions (B:=B) a →
        timer_rep (tenv c) now (entry_of_window a (first_start a hist) <$> (map_to_list act).*1) →
        assigner_rep (assigner_registered a w') c hist now.
Proof.
  intros Hl Hs Ht Hw Htr. split; [by apply assigner_new_ok|]. intros b hist now act [Hp ->]%assigner_new_ok Hok Hst; [|done..].
  by apply (start_ok _ b hist now act).
Qed.
End start.

(** ** The kinds of windows *)

Section kinds.
#[local] Set Default Proof Using "All".
Context {IN OUT B : Type} `{BackendSpec B, Value IN, Value (ProstOption OUT)}.

Inductive window_op : Type := AddTo (k : KeyAndIndex) (e : IN) | ClearOf (k : KeyAndIndex).
Definition op_key (o : window_op) : KeyAndIndex := match o with AddTo k _ => k | ClearOf k => k end.
Definition run_op {W} `{!Window W IN OUT B} (w : W) (o : window_op) : M B Error unit :=
  match o with
  | AddTo k e => on_element w e (context_of k)
  | ClearOf k => clear w (context_of k)
  end.
Definition track_op (f : Contents IN) (o : window_op) : Contents IN :=
  match o with
  | AddTo k e => <[k := f k ++ [e]]> f
  | ClearOf k => <[k := []]> f
  end.
Lemma run_ops_ok {W} `{!Window W IN OUT B, !WindowRep W IN OUT B, !WindowSpec W IN OUT B} (w : W) ops b f :
  window_rep w b f → Forall (λ o, ki_wf (op_key o)) ops → (∀ k, len (f k) + len ops < 2 ^ 64) →
  ∃ b', for_each (run_op w) ops b = (Ok tt, b') ∧ window_rep w b' (foldl track_op f ops).
Proof.
  intros Hw Hops. revert b f Hw. induction Hops as [|o ops Ho Hops IH]; intros b f Hw Hfit; [by exists b|].
  cbn [length] in Hfit.
  assert (∃ b1, run_op w o b = (Ok tt, b1) ∧ window_rep w b1 (track_op f o)) as (b1 & E1 & Hw1).
  { destruct o as [k e|k].
    - destruct (on_element_spec w b f k e Hw Ho) as (b1 & E1 & _ & Hw1); [|by exists b1].
      specialize (Hfit k). unfold vec_fits. rewrite length_app. cbn. lia.
    - destruct (clear_spec w b f k Hw Ho) as (b1 & E1 & _ & Hw1). by exists b1. }
  destruct (IH b1 _ Hw1) as (b' & E & Hw').
  { intros k. specialize (Hfit k). assert (length (track_op f o k) ≤ S (length (f k)))%nat; [|lia].
    destruct o as [k' e|k']; cbn; (destruct (decide (k' = k)) as [->|Hne];
      [rewrite fn_lookup_insert|rewrite fn_lookup_insert_ne by done; lia]); rewrite ?length_app; cbn; lia. }
  exists b'. split; [|done]. cbn [for_each]. by step_ok E1.
Qed.

(** C25: A window that keeps an accumulator and one that keeps its elements give the same results, when the
    function of the second folds the elements with the functions of the first: after any sequence of
    additions and removals, for every key and index whose window is not empty. *)
Theorem window_kinds_agree (appender : AppenderWindow IN OUT) (incr : IncrementalWindow IN OUT) init agg b1 b2 f ops k :
  extra_data (aggregator incr) = IncrementalWindowAggregator init agg →
  (∀ x l, materializer appender (x :: l) = foldl (λ acc v, agg v acc) (init x) l) →
  window_rep appender b1 f → window_rep incr b2 f →
  Forall (λ o, ki_wf (op_key o)) ops → (∀ k, len (f k) + len ops < 2 ^ 64) → ki_wf k → foldl track_op f ops k ≠ [] →
  ∃ x b1' b2', (for_each (run_op appender) ops ;; result appender (context_of k)) b1 = (Ok x, b1') ∧
    (for_each (run_op incr) ops ;; result incr (context_of k)) b2 = (Ok x, b2').
Proof.
  intros Hi Ha H1' H2' Hops Hfit Hk Hne.
  destruct (run_ops_ok appender ops b1 f H1' Hops Hfit) as (c1 & E1 & Hw1).
  destruct (run_ops_ok incr ops b2 f H2' Hops Hfit) as (c2 & E2 & Hw2).
  destruct (foldl track_op f ops k) as [|x l] eqn:Hf; [done|].
  destruct (result_spec (OUT:=OUT) appender c1 _ k (materializer appender (x :: l)) Hw1 Hk) as (d1 & D1 & _); [by rewrite Hf|].
  destruct (result_spec (OUT:=OUT) incr c2 _ k (materializer appender (x :: l)) Hw2 Hk) as (d2 & D2 & _).
  { rewrite Hf, Ha. cbn [window_value IncrementalWindow_Rep]. by rewrite (accumulate_some incr init agg) by done. }
  exists (materializer appender (x :: l)), d1, d2. split; [step_ok E1; exact D1|step_ok E2; exact D2].
Qed.
End kinds.

(** ** A concrete assigner: windows of length 4 and slide 2 that add numbers up, over the event timer, the
    in-memory backend and a muted output *)

#[local] Instance debug_profile : BuildProfile := true.
#[local] Instance eager_receivers : Receivers := λ _ _, true.
#[local] Instance patience : Fuel := 8%nat.
#[local] Instance reliable_network : Transport Z := λ _ _ _ _, None.
#[local] Instance Z_ArconType : ArconType Z :=
  {| arcon_value := countable_Value 1; arcon_drop _ := false; UNSAFE_SER_ID := 1; RELIABLE_SER_ID := 2; VERSION_ID := 1; get_key := λ x, x |}.
#[local] Instance example_u64 : Value u64 := countable_Value 2.
#[local] Instance example_key : Value KeyAndIndex := countable_Value 3.
#[local] Instance example_key_laws : MessageLaws KeyAndIndex := countable_MessageLaws.
#[local] Instance example_unit : Value unit := countable_Value 4.
#[local] Instance example_string : Value string := countable_Value 5.
#[local] Instance example_string_laws : MessageLaws string := countable_MessageLaws.
#[local] Instance option_eq_dec : EqDecision (ProstOption Z).
Proof. solve_decision. Defined.
#[local] Program Instance option_countable : Countable (ProstOption Z) := inj_countable' inner MkProstOption _.
Next Obligation. by intros []. Qed.
#[local] Instance example_option : Value (ProstOption Z) := countable_Value 6.
#[local] Instance timeout_eq_dec : EqDecision (EventTimerEvent WindowEvent).
Proof. solve_decision. Defined.
#[local] Program Instance timeout_countable : Countable (EventTimerEvent WindowEvent) :=
  inj_countable' (λ e, (time_when_scheduled e, timeout_millis e, payload e)) (λ p, MkEventTimerEvent p.1.1 p.1.2 p.2) _.
Next Obligation. by intros []. Qed.
#[local] Instance example_timeout : Value (EventTimerEvent WindowEvent) := countable_Value 7.

Abbreviation ExampleTimer := (EventTimer ListWheel WindowEvent).
Abbreviation ExampleEnv := (OpEnv Z ExampleTimer InMemory).
Definition adding : AppenderWindow Z Z := AppenderWindow_new (foldr Z.add 0).
Definition example_assigner : EventTimeWindowAssigner (AppenderWindow Z Z) :=
  MkAssigner 4 2 1 false adding EventTimeWindowAssignerState_new.
Definition muted (st : ChannelStrategy) (_ : Net Z) : Prop := st = Mute.
#[local] Instance muted_ready : OutputReady (T:=ExampleTimer) (B:=InMemory) muted.
Proof. intros [st nt te] ev Hst. cbn in *. unfold muted in *. subst. by eexists. Qed.
Lemma example_params : params_ok 4 2 1.
Proof. split; [done| |done]. by exists 2. Qed.
Lemma fresh_stored : assigner_stored (OUT:=Z) example_assigner (MkInMemory ∅) [] 0 ∅.
Proof.
  assert (∀ now k, live example_assigner [] now k = []) as Hlive by (intros; unfold live; by case_match).
  assert (∀ id, region (MkInMemory ∅) id = None) as Hnone by (intros; apply lookup_empty).
  split.
  - unfold stored_all. by rewrite Hnone.
  - unfold stored. by rewrite Hnone.
  - cbn. unfold stored_all. rewrite Hnone. intros k i _ _. apply Hlive.
  - constructor.
  - intros k. rewrite dom_empty, elem_of_empty. split; [done|]. rewrite Hlive. by intros [_ ?].
Qed.
Lemma example_started :
  ∃ w (c : ExampleEnv), strategy c = Mute ∧
    assigner_wf (T:=ExampleTimer) (B:=InMemory) (assigner_registered example_assigner w) ∧
    assigner_rep (assigner_registered example_assigner w) c [] 0.
Proof.
  destruct (start_ok (T:=ExampleTimer) example_assigner (MkInMemory ∅) [] 0 ∅) as (w & b & _ & _ & Hok & Hc & Hwf & Hrep).
  - exact example_params.
  - done.
  - set_solver.
  - unfold assigner_regions. cbn. set_solver.
  - done.
  - exact fresh_stored.
  - assert (∀ id, id ∈ (timer_regions (T:=ExampleTimer) (E:=WindowEvent) (B:=InMemory)) → region b id = None) as Hnone.
    { intros id Hid. rewrite Hc; [done|]. cbn in *. unfold assigner_regions. cbn. set_solver. }
    destruct (timer_start_ok (W:=ListWheel) (B:=InMemory) (MkTimerEnv EventTimer_new b 0) None ∅) as (t & _ & Ht & Hct).
    + done.
    + exact Hok.
    + unfold stored. rewrite Hnone; [done|]. cbn. set_solver.
    + unfold stored. rewrite Hnone; [done|]. cbn. set_solver.
    + done.
    + apply map_Forall_empty.
    + set_solver.
    + exists w, (MkOpEnv Mute (MkNet (MkWorld (MkHeap (Memory_new 4096) []) [] 0) []) t). split; [done|]. split; [done|].
      apply (Hrep _ timer_ids); [exact Hct|unfold assigner_regions; cbn; set_solver|]. cbn. 
      by rewrite !map_to_list_empty in *.
Qed.

Definition example_element (x ts : Z) : ArconElement Z := MkArconElement x (Some ts).
Definition example_run : list (input (IN:=Z)) :=
  [Arrive (example_element 7 10); Arrive (example_element 5 13); Advance 15; Arrive (example_element 1 9); Advance 30].
Example windows_fire_once_witness :
  ∃ (a : EventTimeWindowAssigner (AppenderWindow Z Z)) (c : ExampleEnv) fired evs d c', firing a (B:=InMemory) (foldl (track a) ([], 0) example_run).1 0 30 fired evs ∧
    for_each output evs c = (Ok tt, d) ∧ for_each (on_input a) example_run c = (Ok tt, c').
Proof.
  destruct example_started as (w & c & Hst & Hwf & Hr). exists (assigner_registered example_assigner w), c.
  destruct (windows_fire_once (assigner_registered example_assigner w) Hwf muted example_run c ([], 0) Hr)
    as (fired & evs & d & c' & Hf & Hd & Hc' & _).
  - vm_compute. intuition congruence.
  - done.
  - by exists fired, evs, d, c'.
Defined.

(** An element at time 10 was accepted and the clock stands at 12: an element of time 9 is late, one of time
    12 is not, and one of time 11 would not be late for a key that started later. *)
Lemma example_running (l : list input) :
  (∀ w, inputs_ok (assigner_registered example_assigner w) ([], 0) l) →
  ∃ w (c : ExampleEnv), assigner_wf (T:=ExampleTimer) (B:=InMemory) (assigner_registered example_assigner w) ∧
    assigner_rep (assigner_registered example_assigner w) c
      (foldl (track (assigner_registered example_assigner w)) ([], 0) l).1
      (foldl (track (assigner_registered example_assigner w)) ([], 0) l).2.
Proof.
  intros Hl. destruct example_started as (w & c & Hst & Hwf & Hr).
  destruct (run_ok (assigner_registered example_assigner w) Hwf muted l c ([], 0) Hr (Hl w) Hst)
    as (_ & _ & _ & c' & _ & _ & _ & _ & Hr').
  by exists w, c'.
Qed.
Example assigner_handles_element_witness :
  ∃ (a : EventTimeWindowAssigner (AppenderWindow Z Z)) (c c1 c2 c3 : ExampleEnv),
    handle_element a (example_element 1 10) c = (Ok tt, c1) ∧
    handle_element a (example_element 2 13) c = (Ok tt, c2) ∧
    handle_element a (example_element 3 11) c = (Panic "attempt to subtract with overflow", c3).
Proof.
  destruct (example_running [Advance 12; Arrive (example_element 7 12)]) as (w & c & Hwf & Hr).
  { intros w. vm_compute. intuition congruence. }
  exists (assigner_registered example_assigner w), c.
  destruct (assigner_handles_element _ Hwf c _ _ (example_element 1 10) Hr) as [(c1 & E1 & _) _]; [by vm_compute; intuition congruence..|].
  destruct (assigner_handles_element _ Hwf c _ _ (example_element 2 13) Hr) as (_ & [(c2 & E2 & _) _] & _);
    [by vm_compute; intuition congruence..|].
  destruct (assigner_handles_element _ Hwf c _ _ (example_element 3 11) Hr) as (_ & _ & (c3 & E3));
    [by vm_compute; intuition congruence..|].
  by exists c1, c2, c3.
Defined.

Example assigner_starts_witness :
  ∃ (w : AppenderWindow Z Z) (b : InMemory),
    op_register_states (T:=ExampleTimer) example_assigner (MkInMemory ∅) = (Ok (assigner_registered example_assigner w), b).
Proof.
  destruct (assigner_starts (T:=ExampleTimer) (B:=InMemory) adding 4 2 1 false example_assigner) as [_ Hstart].
  - done.
  - done.
  - done.
  - cbn. set_solver.
  - cbn. set_solver.
  - destruct (Hstart (MkInMemory ∅) [] 0 ∅) as (w & b & E & _); [reflexivity|done|exact fresh_stored|]. by exists w, b.
Defined.

Definition counting : IncrementalWindow Z Z := IncrementalWindow_new id Z.add.
Definition folding : AppenderWindow Z Z :=
  AppenderWindow_new (λ l, match l with [] => 0 | x :: l' => foldl (λ acc v, v + acc) x l' end).
Example window_kinds_agree_witness :
  ∃ (appender : AppenderWindow Z Z) (incr : IncrementalWindow Z Z) (b1 b2 : InMemory) x b1' b2',
    let k := MkKeyAndIndex 1 2 in let ops := [AddTo k 5; ClearOf k; AddTo k 3; AddTo k 4] in
    (for_each (run_op appender) ops ;; result appender (context_of k)) b1 = (Ok x, b1') ∧
    (for_each (run_op incr) ops ;; result incr (context_of k)) b2 = (Ok x, b2').
Proof.
  assert (backend_ok (MkInMemory ∅)) as Hok by done.
  assert (∀ id, region (MkInMemory ∅) id = None) as Hnone by (intros; apply lookup_empty).
  destruct (registering_all (VecStored (T:=Z)) VecRep [] _ (MkInMemory ∅) (buffer folding) (contents_at (IN:=Z) id (λ _, []))
    (register_vec_spec (MkInMemory ∅) _ Hok)) as (b1 & _ & _ & _ & H1'); [by unfold stored_all; rewrite Hnone|].
  destruct (registering_all (AggStored (extra_data (aggregator counting))) _ None _ (MkInMemory ∅) (aggregator counting) (contents_at (stored_acc counting) (λ _, []))
    (register_aggregator_spec (MkInMemory ∅) _ Hok I)) as (b2 & _ & _ & _ & H2'); [by unfold stored_all; rewrite Hnone|].
  exists (MkAppenderWindow (set_registered (buffer folding)) (materializer folding)),
    (MkIncrementalWindow (set_registered (aggregator counting))), b1, b2.
  apply (window_kinds_agree _ _ id Z.add b1 b2 (λ _, [])).
  - done.
  - done.
  - exact H1'.
  - split; [split; [by exists id, Z.add|done]|exact H2'].
  - by repeat constructor.
  - done.
  - by repeat constructor.
  - done.
Defined.
