(* ===== verification/Node.v ===== *)
(** [arcon/src/stream/node]: nodes, which drive an operator with the events of their channels, align
    epochs and persist their state, and the debug node. *)

From S2P Require Import Prelude Error Allocator EventBuffer Pool Serialization StateBackend BackendClient Data Channel Timer Metrics Operator.

(** ** State *)

Record NodeMetrics : Type := MkNodeMetrics {
  inbound_throughput : Meter.Meter;
  epoch_counter : Counter.Counter;
  watermark_counter : Counter.Counter;
  nm_watermark : Watermark;
  nm_epoch : Epoch;
  outbound_channels : Gauge.Gauge;
  inbound_channels : Gauge.Gauge;
}.
Definition NodeMetrics_new `{SystemTime} : M (Timed ()) Error NodeMetrics :=
  meter ← Meter.new;
  mret (MkNodeMetrics meter Counter.new Counter.new (MkWatermark 0) (MkEpoch 0) Gauge.new Gauge.new).

(** A [RefCell] and whether it is mutably borrowed. *)
Record RefCell (A : Type) : Type := MkRefCell { cell : A; borrowed : bool }.
Arguments MkRefCell {A}.
Arguments cell {A}.
Arguments borrowed {A}.

(** The states of a node. *)
Record NodeState (IN : Type) : Type := MkNodeState {
  watermarks : Handle (MapState NodeID Watermark) unit unit;
  current_watermark : Handle (ValueState Watermark) unit unit;
  current_epoch : Handle (ValueState Epoch) unit unit;
  blocked_channels : Handle (MapState NodeID unit) unit unit;
  message_buffer : Handle (VecState (RawArconMessage IN)) unit unit;
}.
Arguments MkNodeState {IN}.
Arguments watermarks {IN}.
Arguments current_watermark {IN}.
Arguments current_epoch {IN}.
Arguments blocked_channels {IN}.
Arguments message_buffer {IN}.
Definition NodeState_new IN : NodeState IN :=
  MkNodeState (map_handle NodeID Watermark "__node_watermarks")
    (value_handle Watermark "__node_current_watermark")
    (value_handle Epoch "__node_current_epoch")
    (map_handle NodeID unit "__node_blocked_channels")
    (vec_handle (RawArconMessage IN) "__node_message_buffer").

(** The fields of a node that handling messages does not change. *)
Record Node (OP IN : Type) : Type := MkNode {
  descriptor : string;
  id : NodeID;
  in_channels : list NodeID;
  operator : OP;
  state : NodeState IN;
}.
Arguments MkNode {OP IN}.
Arguments descriptor {OP IN}.
Arguments id {OP IN}.
Arguments in_channels {OP IN}.
Arguments operator {OP IN}.
Arguments state {OP IN}.

(** The fields behind a [RefCell] and the effects of a node on its component: the readings of the system
    clock, whether it asked to be killed, the errors it logged, the interval of its periodic timer, and
    the metrics it sent to its manager. *)
Record NodeEnv (OUT T B : Type) : Type := MkNodeEnv {
  env : OpEnv OUT T B;
  metrics : RefCell NodeMetrics;
  clock : nat;
  killed : bool;
  errors : list Error;
  periodic : option Z;
  reported : list (NodeID * NodeMetrics);
}.
Arguments MkNodeEnv {OUT T B}.
Arguments env {OUT T B}.
Arguments metrics {OUT T B}.
Arguments clock {OUT T B}.
Arguments killed {OUT T B}.
Arguments errors {OUT T B}.
Arguments periodic {OUT T B}.
Arguments reported {OUT T B}.

(** The keys the code reads in the configuration of its component. *)
Class NodeConfig := { checkpoint_dir : option string; node_metrics_interval : option Z }.

(** A message from the network: its serialiser, and what deserialising gives, an error as its text. *)
Record NetMessage (IN : Type) : Type := MkNetMessage {
  ser_id : Z;
  try_deserialise : FlightSerde → outcome string (RawArconMessage IN);
}.
Arguments MkNetMessage {IN}.
Arguments ser_id {IN}.
Arguments try_deserialise {IN}.

Section env.
Context {OUT T B : Type}.
Abbreviation NodeM := (M (NodeEnv OUT T B) Error).

Definition set_env (c : OpEnv OUT T B) (s : NodeEnv OUT T B) : NodeEnv OUT T B :=
  MkNodeEnv c (metrics s) (clock s) (killed s) (errors s) (periodic s) (reported s).
Definition set_metrics (m : RefCell NodeMetrics) (s : NodeEnv OUT T B) : NodeEnv OUT T B :=
  MkNodeEnv (env s) m (clock s) (killed s) (errors s) (periodic s) (reported s).
Definition suicide : NodeM unit :=
  modify (λ s, MkNodeEnv (env s) (metrics s) (clock s) true (errors s) (periodic s) (reported s)).
Definition log_error (e : Error) : NodeM unit :=
  modify (λ s, MkNodeEnv (env s) (metrics s) (clock s) (killed s) (errors s ++ [e]) (periodic s) (reported s)).
Definition schedule_periodic (ms : Z) : NodeM unit :=
  modify (λ s, MkNodeEnv (env s) (metrics s) (clock s) (killed s) (errors s) (Some ms) (reported s)).

Definition on_env {A} (m : M (OpEnv OUT T B) Error A) : NodeM A := zoom env set_env m.
(** An operation on a state, whose error [?] converts. *)
Definition on_state {A} (m : StateM B A) : NodeM A := on_env (on_session (state_try m)).

Definition map_backend (f : B → B) (s : NodeEnv OUT T B) : NodeEnv OUT T B :=
  let c := env s in set_env (MkOpEnv (strategy c) (net c) (set_sb (f (sb (tenv c))) (tenv c))) s.
(** The session that a block opens is dropped on every way out of the block. *)
Definition with_session `{Backend B} {A} (m : NodeM A) : NodeM A := λ s,
  let '(o, s') := m (map_backend session s) in (o, map_backend drop_session s').

(** [self.metrics.borrow_mut()] and the block in which the [RefMut] lives. *)
Definition with_metrics {A} (m : NodeM A) : NodeM A := λ s,
  if borrowed (metrics s) then (Panic "already borrowed: BorrowMutError", s)
  else
    let '(o, s') := m (set_metrics (MkRefCell (cell (metrics s)) true) s) in
    (o, set_metrics (MkRefCell (cell (metrics s')) false) s').
(** An assignment through the [RefMut]. *)
Definition update_metrics (f : NodeMetrics → outcome Error NodeMetrics) : NodeM unit := λ s,
  match f (cell (metrics s)) with
  | Ok m => (Ok tt, set_metrics (MkRefCell m (borrowed (metrics s))) s)
  | Err e => (Err e, s)
  | Panic msg => (Panic msg, s)
  | Diverge => (Diverge, s)
  end.

Definition set_nm_watermark (w : Watermark) (m : NodeMetrics) : outcome Error NodeMetrics :=
  Ok (MkNodeMetrics (inbound_throughput m) (epoch_counter m) (watermark_counter m) w (nm_epoch m)
    (outbound_channels m) (inbound_channels m)).
Definition set_nm_epoch (e : Epoch) (m : NodeMetrics) : outcome Error NodeMetrics :=
  Ok (MkNodeMetrics (inbound_throughput m) (epoch_counter m) (watermark_counter m) (nm_watermark m) e
    (outbound_channels m) (inbound_channels m)).
Definition inc_watermark_counter `{BuildProfile} (m : NodeMetrics) : outcome Error NodeMetrics :=
  c ← Counter.inc (watermark_counter m);
  Ok (MkNodeMetrics (inbound_throughput m) (epoch_counter m) c (nm_watermark m) (nm_epoch m)
    (outbound_channels m) (inbound_channels m)).
Definition inc_epoch_counter `{BuildProfile} (m : NodeMetrics) : outcome Error NodeMetrics :=
  c ← Counter.inc (epoch_counter m);
  Ok (MkNodeMetrics (inbound_throughput m) c (watermark_counter m) (nm_watermark m) (nm_epoch m)
    (outbound_channels m) (inbound_channels m)).

(** The meter of the metrics, on the system clock. *)
Definition on_throughput {A} (m : M (Timed Meter.Meter) Error A) : NodeM A :=
  zoom (λ s, MkTimed (inbound_throughput (cell (metrics s))) (clock s))
    (λ t s,
      let x := cell (metrics s) in
      MkNodeEnv (env s)
        (MkRefCell (MkNodeMetrics (item t) (epoch_counter x) (watermark_counter x) (nm_watermark x)
          (nm_epoch x) (outbound_channels x) (inbound_channels x)) (borrowed (metrics s)))
        (readings t) (killed s) (errors s) (periodic s) (reported s)) m.
End env.

(** ** Handling messages *)

Section node.
Context `{BuildProfile, SystemTime, Receivers, Fuel, NodeConfig} {OP IN OUT TS T B : Type}.
Context `{Transport OUT, ArconType IN, ArconType OUT, Backend B, TimerBackend T TS B}.
Context `{!Operator OP IN OUT TS T B}.
Context `{Key NodeID, Value Watermark, Value Epoch, Value unit, Value (RawArconMessage IN)}.
Abbreviation NodeM := (M (NodeEnv OUT T B) Error).
Implicit Type n : Node OP IN.

(** [self.channel_strategy.borrow_mut().add(event, self)] *)
Definition forward (event : ArconEvent OUT) : NodeM unit := on_env (output event).

Definition record_incoming_events (total : Z) : NodeM unit :=
  with_metrics (on_throughput (Meter.mark_n total)).

(** The watermark of a sender; [ok_or_else(..)?] on an option. *)
Definition sender_watermark n (sender : NodeID) : NodeM Watermark :=
  o ← on_state (ActiveMap.get (watermarks (state n)) sender);
  lift (ok_or (new_arcon "uninitialized watermark") o).
Definition get_current_watermark n : NodeM Watermark :=
  o ← on_state (ActiveValue.get (current_watermark (state n)));
  lift (ok_or (new_arcon "current watermark uninitialized") o).
Definition get_current_epoch (msg : string) n : NodeM Epoch :=
  o ← on_state (ActiveValue.get (current_epoch (state n)));
  lift (ok_or (new_arcon msg) o).

(** [Iterator::min_by] with the comparison of the code: errors are preferred. *)
Definition pick_min (x y : StateResult Watermark) : StateResult Watermark :=
  match x, y with
  | Ok a, Ok b => if Watermark_lt b a then y else x
  | Ok _, _ => y
  | _, _ => x
  end.
Definition min_by (l : list (StateResult Watermark)) (w : Watermark) : StateResult Watermark :=
  match l ++ [Ok w] with
  | x :: l' => foldl pick_min x l'
  | [] => Panic "this cannot fail, because the iterator contains at least `Ok(w)`"
  end.

(** [arcon_err!] for an unset directory, and the error of the backend, end the handling of the batch. *)
Definition save_state n : NodeM unit :=
  match checkpoint_dir with
  | Some base_dir =>
      e ← get_current_epoch "current epoch uninitialized" n;
      on_state (checkpoint (base_dir +:+ "/checkpoint_" +:+ display_unsigned (node_id (id n)) +:+ "_"
        +:+ display_unsigned (epoch e)))
  | None => fail (new_arcon "Failed to fetch checkpoint_dir from Config")
  end.

(** The first part of [after_state_save], given how the events of a message are handled. *)
Definition after_state_save_with n (handle_events : NodeID → list (ArconEventWrapper IN) → NodeM unit)
  : NodeM unit :=
  on_state (ActiveMap.clear (blocked_channels (state n))) ;;
  is_empty ← on_state (ActiveVec.is_empty (message_buffer (state n)));
  if is_empty : bool then mret tt
  else
    local_buffer ← on_state (ActiveVec.get (message_buffer (state n)));
    on_state (ActiveVec.clear (message_buffer (state n))) ;;
    for_each (λ message, handle_events (raw_sender message) (raw_events message)) local_buffer.

Definition handle_element_event n (sender : NodeID) (e : ArconElement IN) : NodeM unit :=
  w ← sender_watermark n sender;
  if default u64_max (timestamp e) <=? wm_timestamp w then mret tt
  else on_env (handle_element (operator n) e).

(** The timers that are due, and what the operator does with them. *)
Definition advance_timers n (ts : Z) : NodeM unit :=
  timeouts ← on_env (on_timer (advance_to ts));
  for_each (λ timeout, on_env (handle_timeout (operator n) timeout)) timeouts.
Definition advance_watermark n (new_watermark : Watermark) : NodeM unit :=
  on_state (ActiveValue.set (current_watermark (state n)) new_watermark) ;;
  on_env (handle_watermark (operator n) new_watermark) ;;
  advance_timers n (wm_timestamp new_watermark) ;;
  with_metrics (
    update_metrics (set_nm_watermark new_watermark) ;;
    forward (EvWatermark new_watermark) ;;
    update_metrics inc_watermark_counter).
Definition handle_watermark_event n (sender : NodeID) (w : Watermark) : NodeM unit :=
  sender_w ← sender_watermark n sender;
  if Watermark_le w sender_w then mret tt
  else
    current ← get_current_watermark n;
    old ← on_state (ActiveMap.insert (watermarks (state n)) sender w);
    if match old with Some old => Watermark_lt current old | None => false end then mret tt
    else if Watermark_le w current then mret tt
    else
      l ← on_state (ActiveMap.values (watermarks (state n)));
      new_watermark ← lift (map_err from_state_error (min_by l w));
      if Watermark_lt current new_watermark then advance_watermark n new_watermark else mret tt.

(** The metrics stay borrowed while the buffered messages are handled. *)
Definition complete_epoch n (e : Epoch) (after_state_save : NodeM unit) : NodeM unit :=
  on_state (ActiveValue.set (current_epoch (state n)) e) ;;
  on_env (handle_epoch (operator n) e) ;;
  on_env (on_timer (timer_handle_epoch e)) ;;
  save_state n ;;
  with_metrics (
    update_metrics (set_nm_epoch e) ;;
    forward (EvEpoch e) ;;
    update_metrics inc_epoch_counter ;;
    after_state_save).
Definition handle_epoch_event n (sender : NodeID) (e : Epoch) (after_state_save : NodeM unit) : NodeM unit :=
  cur ← get_current_epoch "uninitialized epoch" n;
  if epoch e <=? epoch cur then mret tt
  else
    on_state (ActiveMap.fast_insert (blocked_channels (state n)) sender tt) ;;
    blocked ← on_state (ActiveMap.len (blocked_channels (state n)));
    if blocked =? len (in_channels n) then complete_epoch n e after_state_save else mret tt.

(** One iteration of the loop of [handle_events]. *)
Definition handle_event n (after_state_save : NodeM unit) (sender : NodeID) (event : ArconEventWrapper IN)
  : NodeM unit :=
  event ← lift (unwrap event);
  match event with
  | Element e => handle_element_event n sender e
  | EvWatermark w => handle_watermark_event n sender w
  | EvEpoch e => handle_epoch_event n sender e after_state_save
  | Death s => forward (Death s) ;; suicide
  end.

(** [handle_events] and [after_state_save] call each other; [depth] bounds the nesting. *)
Fixpoint handle_events (depth : nat) n (sender : NodeID) (events : list (ArconEventWrapper IN)) : NodeM unit :=
  match depth with
  | O => lift Diverge
  | S depth' => for_each (handle_event n (after_state_save_with n (handle_events depth' n)) sender) events
  end.
(** The buffer is emptied before it is handled and never filled meanwhile, so that two levels of
    messages are all there is. *)
Definition nesting : nat := 3.
Definition after_state_save n : NodeM unit := after_state_save_with n (handle_events nesting n).

(** What both kinds of messages have in common; a local message is its sender and the events its reader
    gives. *)
Definition handle_message n (message : RawArconMessage IN) : NodeM unit :=
  if bool_decide (raw_sender message ∈ in_channels n) then
    record_incoming_events (len (raw_events message)) ;;
    with_session (
      blocked ← on_state (ActiveMap.contains (blocked_channels (state n)) (raw_sender message));
      if blocked : bool then on_state (ActiveVec.append (message_buffer (state n)) message)
      else handle_events nesting n (raw_sender message) (raw_events message))
  else fail (new_arcon "Message from invalid sender").
Definition handle_raw_msg n (message : RawArconMessage IN) : NodeM unit :=
  if bool_decide (raw_sender message ∈ in_channels n) then
    record_incoming_events (len (raw_events message)) ;;
    with_session (
      blocked ← on_state (ActiveMap.contains (blocked_channels (state n)) (raw_sender message));
      if blocked : bool then on_state (ActiveVec.append (message_buffer (state n)) message)
      else handle_events nesting n (raw_sender message) (raw_events message))
  else fail (new_arcon "Message from invalid sender").

(** [if let Err(err) = m { error!(..) }] *)
Definition logged (m : NodeM unit) : NodeM unit := λ s,
  match m s with
  | (Err e, s') => log_error e s'
  | r => r
  end.
Definition receive_local n (msg : RawArconMessage IN) : NodeM unit := logged (handle_message n msg).
(** [map_err] with an error that is logged and not returned. *)
Definition unpack (text : string) (o : outcome string (RawArconMessage IN)) : outcome Error (Error + RawArconMessage IN) :=
  match o with
  | Ok m => Ok (inr m)
  | Err e => Ok (inl (new_arcon (text +:+ e)))
  | Panic msg => Panic msg
  | Diverge => Diverge
  end.
Definition receive_network n (msg : NetMessage IN) : NodeM unit :=
  arcon_msg ←
    (if ser_id msg =? RELIABLE_SER_ID (A:=IN) then
       lift (unpack "Failed to unpack reliable ArconMessage with err " (try_deserialise msg Reliable))
     else if ser_id msg =? UNSAFE_SER_ID (A:=IN) then
       lift (unpack "Failed to unpack unreliable ArconMessage with err " (try_deserialise msg Unsafe))
     else panic "Unexpected deserialiser");
  match arcon_msg with
  | inr m => logged (handle_raw_msg n m)
  | inl e => log_error e
  end.

(** [on_start]; what the periodic timer runs. *)
Definition report_metrics n : NodeM unit := λ s,
  if borrowed (metrics s) then (Panic "already mutably borrowed: BorrowError", s)
  else (Ok tt, MkNodeEnv (env s) (metrics s) (clock s) (killed s) (errors s) (periodic s)
    (reported s ++ [(id n, cell (metrics s))])).
Definition on_start n : NodeM unit :=
  match node_metrics_interval with
  | Some interval => schedule_periodic (interval mod 2 ^ 64)
  | None => mret tt
  end ;;
  restored ← gets (λ s, was_restored (sb (tenv (env s))));
  if restored : bool then logged (with_session (after_state_save n)) else mret tt.
End node.

(** ** Creating a node ([Node::new]) *)

Section new.
Context `{BuildProfile, SystemTime} {OP IN OUT TS T B : Type} `{Backend B, TimerBackend T TS B}.
Context `{!Operator OP IN OUT TS T B}.
Context `{Key NodeID, Value Watermark, Value Epoch, Value unit, Value (RawArconMessage IN)}.
(** The strategy, the backend and the timer that the node is given, and the system clock. *)
Abbreviation NewM := (M (Timed (OpEnv OUT T B)) Error).

Definition on_parts {A} (m : M (OpEnv OUT T B) Error A) : NewM A :=
  zoom item (λ c s, MkTimed c (readings s)) m.
Definition new_expect {A} (msg : string) (m : StateM B A) : NewM A := on_parts (on_timer (sb_expect msg m)).
Definition new_session {A} (m : NewM A) : NewM A := λ s,
  let map_sb (f : B → B) s :=
    MkTimed (MkOpEnv (strategy (item s)) (net (item s)) (set_sb (f (sb (tenv (item s)))) (tenv (item s))))
      (readings s) in
  let '(o, s') := m (map_sb session s) in (o, map_sb drop_session s').

Definition register_node_states (st : NodeState IN) : NewM (NodeState IN) :=
  on_parts (on_timer (
    w ← sb_register (register_map_handle (watermarks st));
    cw ← sb_register (register_value_handle (current_watermark st));
    ce ← sb_register (register_value_handle (current_epoch st));
    bc ← sb_register (register_map_handle (blocked_channels st));
    mb ← sb_register (register_vec_handle (message_buffer st));
    mret (MkNodeState w cw ce bc mb))).

Definition init_channel (st : NodeState IN) (channel : NodeID) : NewM unit :=
  present ← new_expect "Could not check watermarks" (ActiveMap.contains (watermarks st) channel);
  if present : bool then mret tt
  else new_expect "Could not initialize watermarks" (ActiveMap.fast_insert (watermarks st) channel (MkWatermark 0)).
Definition init_watermark (st : NodeState IN) : NewM unit :=
  o ← new_expect "watermark get error" (ActiveValue.get (current_watermark st));
  match o with
  | None => new_expect "watermark set error" (ActiveValue.set (current_watermark st) (MkWatermark 0)) ;; mret tt
  | Some _ => mret tt
  end.
Definition init_epoch (st : NodeState IN) : NewM unit :=
  o ← new_expect "current epoch get error" (ActiveValue.get (current_epoch st));
  match o with
  | None => new_expect "current epoch set error" (ActiveValue.set (current_epoch st) (MkEpoch 0)) ;; mret tt
  | Some _ => mret tt
  end.
(** [NodeMetrics::new] and the gauges. *)
Definition init_metrics (channels : list NodeID) : NewM NodeMetrics :=
  c ← get_st;
  m ← zoom (λ s : Timed (OpEnv OUT T B), MkTimed tt (readings s)) (λ t s, MkTimed (item s) (readings t)) NodeMetrics_new;
  i ← lift (Gauge.inc_n (len channels) (inbound_channels m));
  o ← lift (Gauge.inc_n (strategy_num_channels (strategy (item c))) (outbound_channels m));
  mret (MkNodeMetrics (inbound_throughput m) (epoch_counter m) (watermark_counter m) (nm_watermark m)
    (nm_epoch m) o i).

Definition Node_new (descriptor : string) (id : NodeID) (in_channels : list NodeID) (op : OP)
  : NewM (Node OP IN * RefCell NodeMetrics) :=
  new_session (
    st ← register_node_states (NodeState_new IN);
    op ← on_parts (on_session (op_register_states op));
    on_parts (on_timer timer_register_states) ;;
    on_parts (on_timer timer_init) ;;
    for_each (init_channel st) in_channels ;;
    init_watermark st ;;
    init_epoch st ;;
    op ← on_parts (on_session (op_init op));
    m ← init_metrics in_channels;
    mret (MkNode descriptor id in_channels op st, MkRefCell m false)).

(** The component that starts with the node. *)
Definition spawn (m : RefCell NodeMetrics) (s : Timed (OpEnv OUT T B)) : NodeEnv OUT T B :=
  MkNodeEnv (item s) m (readings s) false [] None [].
End new.

(** ** The debug node ([debug.rs]) *)

Module DebugNode.
Record DebugNode (IN : Type) : Type := MkDebugNode {
  data : list (ArconElement IN);
  watermarks : list Watermark;
  epochs : list Epoch;
}.
Arguments MkDebugNode {IN}.
Arguments data {IN}.
Arguments watermarks {IN}.
Arguments epochs {IN}.
Definition new IN : DebugNode IN := MkDebugNode [] [] [].

Section debug.
Context {IN : Type} `{ArconType IN}.
Abbreviation DebugM := (M (DebugNode IN) Error).

Definition handle_event (event : ArconEventWrapper IN) : DebugM unit :=
  event ← lift (unwrap event);
  match event with
  | Element e => modify (λ d, MkDebugNode (data d ++ [e]) (watermarks d) (epochs d))
  | EvWatermark w => modify (λ d, MkDebugNode (data d) (watermarks d ++ [w]) (epochs d))
  | EvEpoch e => modify (λ d, MkDebugNode (data d) (watermarks d) (epochs d ++ [e]))
  | Death _ => mret tt
  end.
Definition handle_events (events : list (ArconEventWrapper IN)) : DebugM unit := for_each handle_event events.
Definition receive_local (msg : RawArconMessage IN) : DebugM unit := handle_events (raw_events msg).
(** An error of deserialisation is logged only. *)
Definition receive_network (msg : NetMessage IN) : DebugM unit :=
  let handle (r : outcome string (RawArconMessage IN)) :=
    match r with
    | Ok m => handle_events (raw_events m)
    | Err _ => mret tt
    | Panic msg => panic msg
    | Diverge => lift Diverge
    end in
  if ser_id msg =? RELIABLE_SER_ID (A:=IN) then handle (try_deserialise msg Reliable)
  else if ser_id msg =? UNSAFE_SER_ID (A:=IN) then handle (try_deserialise msg Unsafe)
  else panic "Unexpected deserialiser".
End debug.
End DebugNode.
