(* ===== verification/NodeAbs.v ===== *)
(** What a node promises, without its state backend: a state machine on the watermarks and the epoch of
    its channels that answers every event with a list of actions. *)

From S2P Require Import Prelude Error Serialization StateBackend Data.
From Stdlib Require Import Sorting.Sorted.

(** ** States, actions and verdicts *)

Section machine.
Context {IN OUT : Type}.

(** A buffered message is its sender and its events. *)
Abbreviation Batch := (NodeID * list (ArconEvent IN))%type.
Record NodeAbs : Type := MkNodeAbs {
  a_watermarks : gmap NodeID Watermark;
  a_watermark : Watermark;
  a_epoch : Epoch;
  a_blocked : gmap NodeID unit;
  a_buffer : list Batch;
}.

Inductive Action : Type :=
| ActElement (e : ArconElement IN)
| ActWatermark (w : Watermark)
| ActTimers (w : Watermark)
| ActEpoch (e : Epoch)
| ActTimerEpoch (e : Epoch)
| ActCheckpoint (e : Epoch)
| ActForwardWatermark (w : Watermark)
| ActForwardEpoch (e : Epoch)
| ActForwardDeath (msg : string)
| ActKill.

(** How handling ends: normally, with an error because a checkpoint failed, or in a panic. *)
Inductive Verdict : Type := Done | Failed | Crashed.
Definition Step : Type := (list Action * Verdict * NodeAbs)%type.

(** ** One event *)

(** What the node does about an event, once its own state is updated. *)
Inductive Reaction : Type :=
| Ignore
| Process (e : ArconElement IN)
| Advance (w : Watermark)
| Complete (e : Epoch)
| Die (msg : string).

Definition values_of (m : gmap NodeID Watermark) : list Watermark := (map_to_list m).*2.
Definition lowest (m : gmap NodeID Watermark) (w : Watermark) : Watermark :=
  MkWatermark (foldr Z.min (wm_timestamp w) (wm_timestamp <$> values_of m)).
Definition sender_wm (a : NodeAbs) (sender : NodeID) : Watermark :=
  default (MkWatermark 0) (a_watermarks a !! sender).

Definition set_watermarks (m : gmap NodeID Watermark) (a : NodeAbs) : NodeAbs :=
  MkNodeAbs m (a_watermark a) (a_epoch a) (a_blocked a) (a_buffer a).
Definition set_watermark (w : Watermark) (a : NodeAbs) : NodeAbs :=
  MkNodeAbs (a_watermarks a) w (a_epoch a) (a_blocked a) (a_buffer a).
Definition set_epoch (e : Epoch) (a : NodeAbs) : NodeAbs :=
  MkNodeAbs (a_watermarks a) (a_watermark a) e (a_blocked a) (a_buffer a).
Definition set_blocked (m : gmap NodeID unit) (a : NodeAbs) : NodeAbs :=
  MkNodeAbs (a_watermarks a) (a_watermark a) (a_epoch a) m (a_buffer a).
Definition set_buffer (l : list Batch) (a : NodeAbs) : NodeAbs :=
  MkNodeAbs (a_watermarks a) (a_watermark a) (a_epoch a) (a_blocked a) l.
(** The state once an epoch is saved. *)
Definition unblock (a : NodeAbs) : NodeAbs := set_buffer [] (set_blocked ∅ a).

Context (channels : list NodeID).

Definition react (sender : NodeID) (event : ArconEvent IN) (a : NodeAbs) : NodeAbs * Reaction :=
  match event with
  | Element e =>
      if default u64_max (timestamp e) <=? wm_timestamp (sender_wm a sender) then (a, Ignore)
      else (a, Process e)
  | EvWatermark w =>
      let old := sender_wm a sender in
      if wm_timestamp w <=? wm_timestamp old then (a, Ignore)
      else
        let a1 := set_watermarks (<[sender := w]> (a_watermarks a)) a in
        if wm_timestamp (a_watermark a) <? wm_timestamp old then (a1, Ignore)
        else if wm_timestamp w <=? wm_timestamp (a_watermark a) then (a1, Ignore)
        else
          let new := lowest (a_watermarks a1) w in
          if wm_timestamp (a_watermark a) <? wm_timestamp new
          then (set_watermark new a1, Advance new) else (a1, Ignore)
  | EvEpoch e =>
      if epoch e <=? epoch (a_epoch a) then (a, Ignore)
      else
        let a1 := set_blocked (<[sender := tt]> (a_blocked a)) a in
        if Z.of_nat (size (a_blocked a1)) =? len channels
        then (set_epoch e a1, Complete e) else (a1, Ignore)
  | Death msg => (a, Die msg)
  end.

(** ** Messages *)

Definition ret (a : NodeAbs) : Step := ([], Done, a).
(** Go on with [k] if all went well. *)
Definition andthen (s : Step) (k : NodeAbs → Step) : Step :=
  match s with
  | (acts, Done, a) => let '(acts', v, a') := k a in (acts ++ acts', v, a')
  | s => s
  end.
Fixpoint each {X} (f : X → NodeAbs → Step) (l : list X) (a : NodeAbs) : Step :=
  match l with
  | [] => ret a
  | x :: l' => andthen (f x a) (each f l')
  end.

(** Whether the checkpoint of an epoch succeeds. *)
Context (saved : Epoch → bool).

(** An event that is handled while the metrics are borrowed panics where it borrows them again. *)
Definition act_on (busy : bool) (replay : NodeAbs → Step) (a : NodeAbs) (r : Reaction) : Step :=
  match r with
  | Ignore => ret a
  | Process e => ([ActElement e], Done, a)
  | Advance w =>
      if busy then ([ActWatermark w; ActTimers w], Crashed, a)
      else ([ActWatermark w; ActTimers w; ActForwardWatermark w], Done, a)
  | Complete e =>
      if saved e then
        if busy then ([ActEpoch e; ActTimerEpoch e; ActCheckpoint e], Crashed, a)
        else
          let '(acts, v, a') := replay a in
          ([ActEpoch e; ActTimerEpoch e; ActCheckpoint e; ActForwardEpoch e] ++ acts, v, a')
      else ([ActEpoch e; ActTimerEpoch e], Failed, a)
  | Die msg => ([ActForwardDeath msg; ActKill], Done, a)
  end.
Definition on_event (busy : bool) (replay : NodeAbs → Step) (sender : NodeID) (event : ArconEvent IN)
    (a : NodeAbs) : Step :=
  let '(a1, r) := react sender event a in act_on busy replay a1 r.

(** Handling the messages that were buffered during the alignment of an epoch: whether their senders are
    blocked again is not looked at. *)
Definition on_batch (busy : bool) (replay : NodeAbs → Step) (m : Batch) : NodeAbs → Step :=
  each (on_event busy replay m.1) m.2.
Definition replay_buffer (busy : bool) (replay : NodeAbs → Step) (a : NodeAbs) : Step :=
  each (on_batch busy replay) (a_buffer a) (unblock a).
(** An epoch that completes while buffered messages are handled finds an empty buffer. *)
Definition replay_nested (a : NodeAbs) : Step := ret (unblock a).
Definition replay (busy : bool) : NodeAbs → Step := replay_buffer busy replay_nested.

Definition on_message (m : Batch) (a : NodeAbs) : Step :=
  match a_blocked a !! m.1 with
  | Some _ => ret (set_buffer (a_buffer a ++ [m]) a)
  | None => on_batch false (replay true) m a
  end.
(** What a node does when it starts on a restored backend: no metrics are borrowed then. *)
Definition on_restart (a : NodeAbs) : Step := replay false a.
End machine.
#[global] Arguments lowest : simpl never.
Arguments NodeAbs : clear implicits.
Arguments Action : clear implicits.
Arguments Reaction : clear implicits.
Arguments Step : clear implicits.

(** ** The lowest watermark *)

Lemma foldr_min_le d (l : list Z) x : x ∈ d :: l → foldr Z.min d l ≤ x.
Proof.
  induction l as [|y l IH]; cbn.
  - intros [->|[]%elem_of_nil]%elem_of_cons. done.
  - intros [->|[->|Hx]%elem_of_cons]%elem_of_cons; [|lia|].
    + specialize (IH ltac:(by left)). lia.
    + specialize (IH ltac:(by right)). lia.
Qed.
Lemma foldr_min_in d (l : list Z) : foldr Z.min d l ∈ d :: l.
Proof.
  induction l as [|y l IH]; cbn; [by left|].
  destruct (Z.min_spec y (foldr Z.min d l)) as [[_ ->]|[_ ->]]; [right; by left|].
  apply elem_of_cons in IH as [->|?]; [by left|]. by do 2 right.
Qed.
Lemma elem_of_values m w : w ∈ values_of m ↔ ∃ c, m !! c = Some w.
Proof.
  unfold values_of. rewrite list_elem_of_fmap. split.
  - intros ([c w'] & -> & Hc%elem_of_map_to_list). by exists c.
  - intros [c Hc]. exists (c, w). by rewrite elem_of_map_to_list.
Qed.
Lemma lowest_le m w c x : m !! c = Some x → wm_timestamp (lowest m w) ≤ wm_timestamp x.
Proof.
  intros Hc. apply foldr_min_le. right. apply list_elem_of_fmap. exists x. split; [done|]. apply elem_of_values. by exists c.
Qed.
Lemma lowest_in m w c : m !! c = Some w → ∃ c' x, m !! c' = Some x ∧ wm_timestamp x = wm_timestamp (lowest m w).
Proof.
  intros Hc. unfold lowest; cbn. pose proof (foldr_min_in (wm_timestamp w) (wm_timestamp <$> values_of m)) as Hin.
  apply elem_of_cons in Hin as [->|Hin]; [by exists c, w|].
  apply list_elem_of_fmap in Hin as (x & -> & [c' Hx]%elem_of_values). by exists c', x.
Qed.

(** ** The invariant *)

Section invariant.
Context {IN : Type} (channels : list NodeID).
Implicit Types (a : NodeAbs IN) (acts : list (Action IN)).

(** The watermark of the node is the lowest of its channels. *)
Record lowest_inv a : Prop := {
  li_le c w : a_watermarks a !! c = Some w → wm_timestamp (a_watermark a) ≤ wm_timestamp w;
  li_in : ∃ c w, a_watermarks a !! c = Some w ∧ wm_timestamp w = wm_timestamp (a_watermark a);
  li_channels c : c ∈ channels → is_Some (a_watermarks a !! c);
  li_blocked : dom (a_blocked a) ⊆ list_to_set channels;
  li_buffer : Forall (λ m, m.1 ∈ channels) (a_buffer a);
}.

Definition initial : NodeAbs IN :=
  MkNodeAbs (list_to_map ((λ c, (c, MkWatermark 0)) <$> channels)) (MkWatermark 0) (MkEpoch 0) ∅ [].

Lemma initial_wm_lookup c w : a_watermarks initial !! c = Some w ↔ c ∈ channels ∧ w = MkWatermark 0.
Proof.
  cbn. induction channels as [|d l IH]; cbn; [by rewrite elem_of_nil, lookup_empty; naive_solver|].
  rewrite elem_of_cons. destruct (decide (c = d)) as [->|Hne].
  - rewrite lookup_insert_eq. naive_solver.
  - rewrite lookup_insert_ne by done. rewrite IH. naive_solver.
Qed.
Lemma initial_inv : channels ≠ [] → lowest_inv initial.
Proof.
  intros Hne. split.
  - intros c w [_ ->]%initial_wm_lookup. done.
  - destruct channels as [|c l] eqn:Hc; [done|]. exists c, (MkWatermark 0). split; [|done].
    apply initial_wm_lookup. rewrite Hc. split; [by left|done].
  - intros c Hc. exists (MkWatermark 0). by apply initial_wm_lookup.
  - cbn. set_solver.
  - constructor.
Qed.

(** Messages beyond those in hand only join the buffer, one at a time. *)
Definition shrinks (f : NodeAbs IN → Step IN) : Prop := ∀ a, (length (a_buffer (f a).2) ≤ length (a_buffer a))%nat.
Lemma shrinks_each {X} (f : X → NodeAbs IN → Step IN) l : (∀ x, shrinks (f x)) → shrinks (each f l).
Proof.
  intros Hf. induction l as [|x l IH]; intros a; cbn; [done|]. specialize (Hf x a).
  destruct (f x a) as [[acts []] a1]; cbn; [|done..]. specialize (IH a1). destruct (each f l a1) as [[] ?]. cbn in *. lia.
Qed.
Lemma shrinks_event saved busy rep sender ev : shrinks rep → shrinks (on_event channels saved busy rep sender ev).
Proof.
  intros Hrep a. unfold on_event. destruct (react channels sender ev a) as [a1 r] eqn:E.
  assert (a_buffer a1 = a_buffer a) as <-.
  { destruct ev; cbn in E; repeat case_match; by simplify_eq. }
  destruct r; cbn; repeat case_match; simplify_eq; cbn; try done. pose proof (Hrep a1) as Hr. by destruct (rep a1) as [[] ?]; simplify_eq.
Qed.
Lemma shrinks_batch saved busy rep m : shrinks rep → shrinks (on_batch channels saved busy rep m).
Proof. intros Hrep. apply shrinks_each. intros ev. by apply shrinks_event. Qed.
Lemma shrinks_replay saved busy rep : shrinks rep → shrinks (replay_buffer channels saved busy rep).
Proof.
  intros Hrep a. unfold replay_buffer. pose proof (shrinks_each _ (a_buffer a) (λ m, shrinks_batch saved busy rep m Hrep) (unblock a)) as Hs.
  cbn in Hs. lia.
Qed.
Lemma on_message_length saved m a : (length (a_buffer (on_message channels saved m a).2) ≤ S (length (a_buffer a)))%nat.
Proof.
  unfold on_message. destruct (a_blocked a !! m.1).
  - cbn. rewrite length_app. cbn. lia.
  - etrans; [apply shrinks_batch|lia]. apply shrinks_replay. intros a1. cbn. lia.
Qed.

(** What a reaction means in the state that follows it. *)
Definition reaction_ok a a1 (sender : NodeID) (r : Reaction IN) : Prop :=
  match r with
  | Ignore => a_watermark a1 = a_watermark a ∧ a_epoch a1 = a_epoch a
  | Process e => a1 = a ∧ wm_timestamp (a_watermark a) < default u64_max (timestamp e)
  | Advance w => a_watermark a1 = w ∧ wm_timestamp (a_watermark a) < wm_timestamp w ∧ a_epoch a1 = a_epoch a
  | Complete e => a_epoch a1 = e ∧ epoch (a_epoch a) < epoch e ∧ a_watermark a1 = a_watermark a ∧
      Z.of_nat (size (a_blocked a1)) = len channels
  | Die _ => a1 = a
  end.

Lemma react_inv a sender ev a1 r :
  lowest_inv a → sender ∈ channels → react channels sender ev a = (a1, r) →
  lowest_inv a1 ∧ a_buffer a1 = a_buffer a ∧ reaction_ok a a1 sender r.
Proof.
  intros Hi Hs Hr. destruct (li_channels _ Hi sender Hs) as [old Hold].
  assert (Hsw : sender_wm a sender = old) by (unfold sender_wm; by rewrite Hold).
  pose proof (li_le _ Hi _ _ Hold) as Hle. destruct ev as [e|w|e|msg]; cbn in Hr.
  - rewrite Hsw in Hr. destruct (Z.leb_spec (default u64_max (timestamp e)) (wm_timestamp old)); simplify_eq;
      (split; [done|]); (split; [done|]); cbn; [done|]. split; [done|lia].
  - rewrite Hsw in Hr. destruct (Z.leb_spec (wm_timestamp w) (wm_timestamp old)) as [|Hlt]; [by simplify_eq|].
    set (m := <[sender := w]> (a_watermarks a)) in *.
    assert (Hm : ∀ c x, m !! c = Some x → wm_timestamp (a_watermark a) ≤ wm_timestamp x).
    { intros c x. unfold m. destruct (decide (c = sender)) as [->|Hne].
      - rewrite lookup_insert_eq. intros [= <-]. lia.
      - rewrite lookup_insert_ne by done. apply Hi. }
    assert (Hch : ∀ c, c ∈ channels → is_Some (m !! c)).
    { intros c Hc. unfold m. destruct (decide (c = sender)) as [->|Hne]; [by rewrite lookup_insert_eq|].
      rewrite lookup_insert_ne by done. by apply Hi. }
    assert (Hkeep : (∃ c x, m !! c = Some x ∧ wm_timestamp x = wm_timestamp (a_watermark a)) →
      lowest_inv (set_watermarks m a)) by (intros; destruct Hi; by split).
    assert (Hother : wm_timestamp (a_watermark a) < wm_timestamp old →
      ∃ c x, m !! c = Some x ∧ wm_timestamp x = wm_timestamp (a_watermark a)).
    { intros Hgt. destruct (li_in _ Hi) as (c & x & Hc & Hx). exists c, x. split; [|done].
      unfold m. rewrite lookup_insert_ne; [done|]. intros ->. simplify_eq. lia. }
    destruct (Z.ltb_spec (wm_timestamp (a_watermark a)) (wm_timestamp old)) as [Hgt|Hge].
    { simplify_eq. split; [by apply Hkeep, Hother|done]. }
    destruct (Z.leb_spec (wm_timestamp w) (wm_timestamp (a_watermark a))); [lia|].
    assert (Hin : m !! sender = Some w) by apply lookup_insert_eq.
    destruct (lowest_in m w sender Hin) as (c & x & Hc & Hx).
    destruct (Z.ltb_spec (wm_timestamp (a_watermark a)) (wm_timestamp (lowest m w))); simplify_eq.
    + split; [|done]. split; cbn; [|by exists c, x|done|apply Hi|apply Hi]. intros c' x' Hc'. by eapply lowest_le.
    + split; [|done]. apply Hkeep. exists c, x. split; [done|]. specialize (Hm c x Hc). lia.
  - destruct (Z.leb_spec (epoch e) (epoch (a_epoch a))); [by simplify_eq|].
    assert (Hb : lowest_inv (set_blocked (<[sender := tt]> (a_blocked a)) a)).
    { destruct Hi. split; try done. cbn. rewrite dom_insert. set_solver. }
    destruct (Z.eqb_spec (Z.of_nat (size (<[sender := tt]> (a_blocked a)))) (len channels)); simplify_eq.
    + split; [by destruct Hb|]. cbn. repeat (split; [done|]). lia.
    + by split.
  - by simplify_eq.
Qed.

(** ** The trace of actions *)

Definition forwarded_watermarks acts : list Watermark :=
  omap (λ x, match x with ActForwardWatermark w => Some w | _ => None end) acts.
Definition forwarded_epochs acts : list Epoch :=
  omap (λ x, match x with ActForwardEpoch e => Some e | _ => None end) acts.
Definition checkpoints acts : list Epoch :=
  omap (λ x, match x with ActCheckpoint e => Some e | _ => None end) acts.
Lemma forwarded_watermarks_app l1 l2 :
  forwarded_watermarks (l1 ++ l2) = forwarded_watermarks l1 ++ forwarded_watermarks l2.
Proof. apply omap_app. Qed.
Lemma forwarded_epochs_app l1 l2 : forwarded_epochs (l1 ++ l2) = forwarded_epochs l1 ++ forwarded_epochs l2.
Proof. apply omap_app. Qed.
Definition event_time (e : ArconElement IN) : Z := default u64_max (timestamp e).

Record advances a acts a' : Prop := {
  ad_watermark : wm_timestamp (a_watermark a) ≤ wm_timestamp (a_watermark a');
  ad_epoch : epoch (a_epoch a) ≤ epoch (a_epoch a');
  ad_watermarks : StronglySorted (λ x y, wm_timestamp x < wm_timestamp y) (forwarded_watermarks acts);
  ad_bounds : Forall (λ w, wm_timestamp (a_watermark a) < wm_timestamp w ≤ wm_timestamp (a_watermark a'))
    (forwarded_watermarks acts);
  ad_epochs : StronglySorted (λ x y, epoch x < epoch y) (forwarded_epochs acts);
  ad_epoch_bounds : Forall (λ e, epoch (a_epoch a) < epoch e ≤ epoch (a_epoch a')) (forwarded_epochs acts);
  ad_elements pre e post : acts = pre ++ ActElement e :: post →
    wm_timestamp (a_watermark a) < event_time e ∧
    Forall (λ w, wm_timestamp w < event_time e) (forwarded_watermarks pre);
}.

Lemma sorted_app_lt {X} (f : X → Z) l1 l2 m :
  StronglySorted (λ x y, f x < f y) l1 → StronglySorted (λ x y, f x < f y) l2 →
  Forall (λ x, f x ≤ m) l1 → Forall (λ x, m < f x) l2 → StronglySorted (λ x y, f x < f y) (l1 ++ l2).
Proof.
  induction 1 as [|x l1 Hs IH Hx]; intros H2 Hl1 Hl2; [done|]. cbn.
  apply Forall_cons in Hl1 as [Hxm Hl1]. constructor; [by apply IH|]. apply Forall_app. split; [done|].
  eapply Forall_impl; [exact Hl2|]. cbn. intros. lia.
Qed.
Lemma app_split {X} (l1 l2 pre post : list X) x :
  l1 ++ l2 = pre ++ x :: post →
  (∃ post1, l1 = pre ++ x :: post1) ∨ ∃ pre2, pre = l1 ++ pre2 ∧ l2 = pre2 ++ x :: post.
Proof.
  intros Heq. apply app_eq_app in Heq as (k & [[-> E2]|[-> E2]]).
  - destruct k as [|y k]; cbn in E2; [right; exists []; by rewrite !app_nil_r|].
    injection E2 as -> ->. left. by exists k.
  - right. by exists k.
Qed.
Lemma forall_le {X} (f : X → Z) (l : list X) (x y m m' : Z) :
  m' ≤ x → y ≤ m → Forall (λ z, x < f z ≤ y) l → Forall (λ z, m' < f z ≤ m) l.
Proof. intros ?? Hl. eapply Forall_impl; [exact Hl|]. cbn. intros. lia. Qed.

Lemma advances_refl a : advances a [] a.
Proof. split; [lia|lia|constructor..|]. by intros [|??] ???. Qed.
Lemma advances_trans a acts1 a1 acts2 a2 :
  advances a acts1 a1 → advances a1 acts2 a2 → advances a (acts1 ++ acts2) a2.
Proof.
  intros [W1 E1 S1 B1 T1 C1 L1] [W2 E2 S2 B2 T2 C2 L2].
  split; rewrite ?forwarded_watermarks_app, ?forwarded_epochs_app; try lia.
  - eapply (sorted_app_lt _ _ _ (wm_timestamp (a_watermark a1))); [done..| |].
    + eapply Forall_impl; [exact B1|]. cbn. intros. lia.
    + eapply Forall_impl; [exact B2|]. cbn. intros. lia.
  - apply Forall_app. split; [eapply (forall_le wm_timestamp); [| |exact B1]|eapply (forall_le wm_timestamp); [| |exact B2]]; lia.
  - eapply (sorted_app_lt _ _ _ (epoch (a_epoch a1))); [done..| |].
    + eapply Forall_impl; [exact C1|]. cbn. intros. lia.
    + eapply Forall_impl; [exact C2|]. cbn. intros. lia.
  - apply Forall_app. split; [eapply (forall_le epoch); [| |exact C1]|eapply (forall_le epoch); [| |exact C2]]; lia.
  - intros pre e post [[post1 ->]|(pre2 & -> & ->)]%app_split; [by eapply L1|].
    destruct (L2 _ _ _ eq_refl) as [Hlt Hw]. split; [lia|]. rewrite forwarded_watermarks_app. apply Forall_app. split; [|done].
    eapply Forall_impl; [exact B1|]. cbn. intros. lia.
Qed.

Definition step_inv a (s : Step IN) : Prop := advances a s.1.1 s.2 ∧ lowest_inv s.2.
Lemma ret_inv a : lowest_inv a → step_inv a (ret a).
Proof. intros. split; [apply advances_refl|done]. Qed.
Lemma andthen_inv a (s : Step IN) k :
  step_inv a s → (∀ a1, lowest_inv a1 → step_inv a1 (k a1)) → step_inv a (andthen s k).
Proof.
  destruct s as [[acts []] a1]; [|done..]. intros [Ha Hi] Hk. destruct (Hk _ Hi) as [Ha' Hi'].
  cbn in *. destruct (k a1) as [[acts' v] a2]. split; [by eapply advances_trans|done].
Qed.
Lemma each_inv {X} (f : X → NodeAbs IN → Step IN) l a :
  Forall (λ x, ∀ a, lowest_inv a → step_inv a (f x a)) l → lowest_inv a → step_inv a (each f l a).
Proof.
  intros Hl. revert a. induction Hl as [|x l Hx Hl IH]; intros a Ha; [by apply ret_inv|].
  apply andthen_inv; auto.
Qed.
Lemma unblock_inv a : lowest_inv a → lowest_inv (unblock a).
Proof. intros []. by split. Qed.

(** What the handling of an event contributes, whatever the metrics are borrowed or not. *)
Lemma advances_one a x a1 :
  a_watermark a1 = a_watermark a → a_epoch a1 = a_epoch a →
  (∀ w, x ≠ ActForwardWatermark w) → (∀ e, x ≠ ActForwardEpoch e) →
  (∀ e, x = ActElement e → wm_timestamp (a_watermark a) < event_time e) → advances a [x] a1.
Proof.
  intros Hw He H1 H2 H3. split; rewrite ?Hw, ?He; try lia; try (destruct x; cbn; constructor; fail);
    try (destruct x; cbn; try constructor; naive_solver).
  intros [|y [|??]] e post Heq; simplify_eq/=. split; [by apply H3|constructor].
Qed.
Lemma advances_frame a acts a1 b b1 :
  a_watermark b = a_watermark a → a_epoch b = a_epoch a → a_watermark b1 = a_watermark a1 →
  a_epoch b1 = a_epoch a1 → advances a acts a1 → advances b acts b1.
Proof. intros H1 H2 H3 H4 []. split; rewrite ?H1, ?H2, ?H3, ?H4; done. Qed.

Context (saved : Epoch → bool).

Definition no_element acts : Prop := Forall (λ x, match x with ActElement _ => False | _ => True end) acts.
Lemma sorted_short {X} (R : X → X → Prop) (l : list X) : (length l ≤ 1)%nat → StronglySorted R l.
Proof. destruct l as [|x [|??]]; cbn; [constructor| |lia]. intros. by repeat constructor. Qed.
Lemma advances_acts a acts a1 :
  no_element acts → (length (forwarded_watermarks acts) ≤ 1)%nat → (length (forwarded_epochs acts) ≤ 1)%nat →
  wm_timestamp (a_watermark a) ≤ wm_timestamp (a_watermark a1) → epoch (a_epoch a) ≤ epoch (a_epoch a1) →
  Forall (λ w, wm_timestamp (a_watermark a) < wm_timestamp w ≤ wm_timestamp (a_watermark a1)) (forwarded_watermarks acts) →
  Forall (λ e, epoch (a_epoch a) < epoch e ≤ epoch (a_epoch a1)) (forwarded_epochs acts) →
  advances a acts a1.
Proof.
  intros Hne Hw He ????. split; try done; try by apply sorted_short.
  intros pre e post ->. unfold no_element in Hne. by rewrite Forall_app, Forall_cons in Hne; destruct Hne as (_ & [] & _).
Qed.

Lemma act_on_inv busy rep a a1 sender r :
  lowest_inv a → lowest_inv a1 → reaction_ok a a1 sender r →
  (∀ a, lowest_inv a → step_inv a (rep a)) → step_inv a (act_on saved busy rep a1 r).
Proof.
  intros Hi Hi1 Hr Hrep. destruct r as [|e|w|e|msg]; cbn in Hr |- *.
  - destruct Hr as [Hw He]. split; [|done]. by eapply advances_frame; [..|apply (advances_refl a)].
  - destruct Hr as [-> Ht]. split; [|done]. apply advances_one; try done. by intros ? [= <-].
  - destruct Hr as (Hw & Hlt & He). destruct busy; (split; [|done]); apply advances_acts; cbn;
      rewrite ?Hw, ?He; try lia; repeat (apply Forall_cons || apply Forall_nil || split); lia || done.
  - destruct Hr as (He & Hlt & Hw & _). destruct (saved e); [destruct busy|].
    + split; [|done]. apply advances_acts; cbn; rewrite ?Hw, ?He; try lia; by repeat constructor.
    + destruct (Hrep a1 Hi1) as [Ha Hi2]. destruct (rep a1) as [[acts v] a2]. split; [|done]. cbn in Ha |- *.
      apply (advances_trans a [ActEpoch e; ActTimerEpoch e; ActCheckpoint e; ActForwardEpoch e] a1); [|done].
      apply advances_acts; cbn; rewrite ?Hw, ?He; try lia;
        repeat (apply Forall_cons || apply Forall_nil || split); lia || done.
    + split; [|done]. apply advances_acts; cbn; rewrite ?Hw, ?He; try lia; by repeat constructor.
  - subst. split; [|done]. apply advances_acts; cbn; try lia; by repeat constructor.
Qed.
Lemma on_event_inv busy rep sender ev a :
  lowest_inv a → sender ∈ channels → (∀ a, lowest_inv a → step_inv a (rep a)) →
  step_inv a (on_event channels saved busy rep sender ev a).
Proof.
  intros Hi Hs Hrep. unfold on_event. destruct (react channels sender ev a) as [a1 r] eqn:Hr.
  destruct (react_inv a sender ev a1 r Hi Hs Hr) as (Hi1 & _ & Hok). by eapply act_on_inv.
Qed.
Lemma on_batch_inv busy rep m a :
  lowest_inv a → m.1 ∈ channels → (∀ a, lowest_inv a → step_inv a (rep a)) →
  step_inv a (on_batch channels saved busy rep m a).
Proof.
  intros Hi Hm Hrep. apply each_inv; [|done]. apply Forall_forall. intros. by apply on_event_inv.
Qed.
Lemma step_inv_frame a b s :
  a_watermark b = a_watermark a → a_epoch b = a_epoch a → step_inv a s → step_inv b s.
Proof. intros Hw He [Ha Hi]. split; [|done]. by eapply advances_frame; [..|exact Ha]. Qed.
Lemma replay_inv busy a : lowest_inv a → step_inv a (replay channels saved busy a).
Proof.
  intros Hi. apply (step_inv_frame (unblock a)); [done..|]. apply each_inv; [|by apply unblock_inv].
  eapply Forall_impl; [apply (li_buffer _ Hi)|]. cbn. intros m Hm a1 Hi1. apply on_batch_inv; [done..|].
  intros a2 Hi2. apply (step_inv_frame (unblock a2)); [done..|]. by apply ret_inv, unblock_inv.
Qed.
Lemma on_message_inv m a :
  lowest_inv a → m.1 ∈ channels → step_inv a (on_message channels saved m a).
Proof.
  intros Hi Hm. unfold on_message. destruct (a_blocked a !! m.1).
  - apply (step_inv_frame (set_buffer (a_buffer a ++ [m]) a)); [done..|]. apply ret_inv.
    destruct Hi. split; try done. cbn. apply Forall_app. split; [done|]. by constructor.
  - apply on_batch_inv; [done..|]. apply replay_inv.
Qed.

(** ** Reachable states *)

Inductive reachable : list (Action IN) → NodeAbs IN → Prop :=
| reach_initial : reachable [] initial
| reach_message acts a m acts' v a' :
    reachable acts a → m.1 ∈ channels → on_message channels saved m a = (acts', v, a') →
    reachable (acts ++ acts') a'
| reach_restart acts a acts' v a' :
    reachable acts a → on_restart channels saved a = (acts', v, a') → reachable (acts ++ acts') a'.

Lemma reachable_inv acts a :
  channels ≠ [] → reachable acts a → advances initial acts a ∧ lowest_inv a.
Proof.
  intros Hne. induction 1 as [|acts a m acts' v a' _ [Ha Hi] Hm Heq|acts a acts' v a' _ [Ha Hi] Heq].
  - split; [apply advances_refl|by apply initial_inv].
  - pose proof (on_message_inv m a Hi Hm) as [Ha' Hi']. rewrite Heq in Ha', Hi'.
    split; [by eapply advances_trans|done].
  - pose proof (replay_inv false a Hi) as [Ha' Hi']. unfold on_restart in Heq. rewrite Heq in Ha', Hi'.
    split; [by eapply advances_trans|done].
Qed.

End invariant.
