(* ===== verification/NodeEpochs.v ===== *)
(** The alignment of epochs in the state machine of a node: what is held back until an epoch completes,
    that epochs complete, and the two ways in which they do not. *)

From S2P Require Import Prelude Error Serialization StateBackend Data NodeAbs.

Section epochs.
Context {IN : Type} (channels : list NodeID) (saved : Epoch → bool).
Abbreviation Batch := (NodeID * list (ArconEvent IN))%type.
Abbreviation message := (on_message channels saved).
Abbreviation batch := (on_batch channels saved false (replay channels saved true)).
Implicit Types (a : NodeAbs IN) (acts : list (Action IN)) (m : Batch) (ms : list Batch).

(** ** A failed checkpoint *)

Definition all_blocked a : Prop := Z.of_nat (size (a_blocked a)) = len channels.

Lemma react_complete sender (ev : ArconEvent IN) a a1 e :
  react channels sender ev a = (a1, Complete e) → all_blocked a1 ∧ epoch (a_epoch a) < epoch e ∧ a_epoch a1 = e ∧ ev = EvEpoch e.
Proof.
  destruct ev as [x|w|e'|msg]; cbn; [by case_match| |case_match; [done|]|done].
  - by repeat case_match.
  - case_match eqn:Hsz; [|done]. intros [= <- <-]. apply Z.eqb_eq in Hsz. split; [done|]. split; [lia|done].
Qed.
Lemma andthen_failed (s : Step IN) k acts a' :
  andthen s k = (acts, Failed, a') →
  (∃ acts1, s = (acts1, Failed, a')) ∨ ∃ acts1 a1 acts2, s = (acts1, Done, a1) ∧ k a1 = (acts2, Failed, a').
Proof.
  destruct s as [[acts1 []] a1]; cbn; [|intros [= <- <-]; left; by eexists|done].
  destruct (k a1) as [[acts2 v] a2] eqn:Hk. intros [= <- -> ->]. right. by eexists _, _, _.
Qed.
Lemma each_failed {X} (f : X → NodeAbs IN → Step IN) (P : NodeAbs IN → Prop) l a acts a' :
  (∀ x a acts a', f x a = (acts, Failed, a') → P a') → each f l a = (acts, Failed, a') → P a'.
Proof.
  intros Hf. revert a acts. induction l as [|x l IH]; intros a acts; [done|].
  intros [[acts1 Hx]|(acts1 & a1 & acts2 & _ & Hl)]%andthen_failed; eauto.
Qed.
Lemma event_failed busy rep sender (ev : ArconEvent IN) a acts a' :
  (∀ a acts a', rep a = (acts, Failed, a') → all_blocked a') →
  on_event channels saved busy rep sender ev a = (acts, Failed, a') → all_blocked a'.
Proof.
  intros Hrep. unfold on_event. destruct (react channels sender ev a) as [a1 r] eqn:Hr.
  destruct r as [|x|w|e|msg]; cbn; [done|done|by destruct busy| |done].
  apply react_complete in Hr as [Hb _]. destruct (saved e); [destruct busy; [done|]|by intros [= <- <-]].
  destruct (rep a1) as [[acts2 v] a2] eqn:Hrep1. intros [= <- -> ->]. by eapply Hrep.
Qed.
Lemma replay_failed busy a acts a' : replay channels saved busy a = (acts, Failed, a') → all_blocked a'.
Proof.
  apply each_failed. intros m a1 acts1 a2. apply each_failed. intros ev a3 acts3 a4. by apply event_failed.
Qed.
Lemma message_failed m a acts a' : message m a = (acts, Failed, a') → all_blocked a'.
Proof.
  unfold on_message. destruct (a_blocked a !! m.1); [done|]. apply each_failed.
  intros ev a1 acts1 a2. apply event_failed. apply replay_failed.
Qed.

Lemma all_blocked_lookup a c :
  NoDup channels → lowest_inv channels a → all_blocked a → c ∈ channels → is_Some (a_blocked a !! c).
Proof.
  intros Hnd Hi Hb Hc. apply elem_of_dom.
  assert (dom (a_blocked a) ≡ list_to_set channels) as Heq.
  { apply set_subseteq_size_equiv; [apply Hi|]. rewrite size_list_to_set, size_dom by done.
    unfold all_blocked in Hb. lia. }
  rewrite Heq. by apply elem_of_list_to_set.
Qed.
Lemma each_blocked ms a :
  Forall (λ m, is_Some (a_blocked a !! m.1)) ms →
  each message ms a = ([], Done, set_buffer (a_buffer a ++ ms) a).
Proof.
  revert a. induction ms as [|m ms IH]; intros a Hms; [cbn; rewrite app_nil_r; by destruct a|].
  apply Forall_cons in Hms as [[[] Hm] Hms]. cbn [each]. unfold on_message at 1. rewrite Hm. cbn.
  rewrite IH by done. cbn. by rewrite <- (assoc_L (++)).
Qed.

(** A node whose checkpoint failed never handles an event again: it only buffers. *)
Lemma failed_wedges m a acts a' ms :
  NoDup channels → lowest_inv channels a → m.1 ∈ channels → message m a = (acts, Failed, a') →
  Forall (λ m, m.1 ∈ channels) ms → each message ms a' = ([], Done, set_buffer (a_buffer a' ++ ms) a').
Proof.
  intros Hnd Hi Hm Hf Hms. apply each_blocked. eapply Forall_impl; [exact Hms|]. cbn. intros m' Hm'.
  pose proof (on_message_inv channels saved m a Hi Hm) as [_ Hi']. rewrite Hf in Hi'.
  apply all_blocked_lookup; [done..| |done]. by eapply message_failed.
Qed.

(** ** A watermark that is buffered *)

(** A buffered watermark that advances the node panics when the epoch completes, since the metrics are
    still borrowed. *)
Lemma buffered_watermark_crashes a c e s w w' evs rest :
  a_blocked a !! c = None → epoch (a_epoch a) < epoch e →
  Z.of_nat (size (<[c := tt]> (a_blocked a))) = len channels → saved e = true →
  a_buffer a = (s, EvWatermark w :: evs) :: rest →
  (react channels s (EvWatermark (A:=IN) w) a).2 = Advance w' →
  ∃ acts a', message (c, [EvEpoch e]) a = (acts, Crashed, a').
Proof.
  intros Hc He Hsz Hs Hbuf Hadv. unfold on_message. cbn [fst snd]. rewrite Hc. unfold on_batch.
  cbn [fst snd each]. unfold on_event at 1, react at 1. rewrite (proj2 (Z.leb_gt _ _)) by done. cbn [a_blocked set_blocked].
  rewrite (proj2 (Z.eqb_eq _ _)) by done. cbn [act_on]. rewrite Hs. unfold replay, replay_buffer.
  cbn [a_buffer set_epoch set_blocked]. rewrite Hbuf. cbn [each]. unfold on_batch at 1. cbn [each fst snd].
  set (a1 := unblock _).
  assert (Hr : (react channels s (EvWatermark (A:=IN) w) a1).2 = Advance w').
  { cbn in Hadv |- *. unfold sender_wm in *. cbn. by repeat case_match. }
  assert (∃ acts a2, on_event channels saved true (replay_nested (IN:=IN)) s (EvWatermark w) a1 = (acts, Crashed, a2)) as (acts & a2 & ->).
  { unfold on_event. destruct (react channels s (EvWatermark (A:=IN) w) a1) as [a2 r]. cbn in Hr. subst r. cbn. by eexists _, _. }
  cbn. by eexists _, _.
Qed.

(** ** What is held back *)

(** A message that ends the epoch of its sender. *)
Definition is_barrier (cur : Epoch) (ev : ArconEvent IN) : bool :=
  match ev with EvEpoch e => epoch cur <? epoch e | _ => false end.
Definition barrier (cur : Epoch) m : bool := existsb (is_barrier cur) m.2.
(** The messages that come before the barriers of their senders, and those that come after. *)
Fixpoint split_barriers (cur : Epoch) (blocked : gset NodeID) ms : list Batch * list Batch :=
  match ms with
  | [] => ([], [])
  | m :: ms' =>
      if decide (m.1 ∈ blocked) then prod_map id (cons m) (split_barriers cur blocked ms')
      else prod_map (cons m) id
        (split_barriers cur (if barrier cur m then {[m.1]} ∪ blocked else blocked) ms')
  end.

Lemma react_set_buffer sender (ev : ArconEvent IN) l a :
  react channels sender ev (set_buffer l a) =
  prod_map (set_buffer l) id (react channels sender ev a).
Proof. destruct ev; cbn; unfold sender_wm; cbn; by repeat case_match. Qed.

(** The epoch of the node only grows, and a completed one makes it grow. *)
Lemma event_no_complete rep sender (ev : ArconEvent IN) l a acts a' :
  lowest_inv channels a → sender ∈ channels → (∀ a, lowest_inv channels a → step_inv channels a (rep a)) →
  on_event channels saved false rep sender ev a = (acts, Done, a') → a_epoch a' = a_epoch a →
  on_event channels saved false rep sender ev (set_buffer l a) = (acts, Done, set_buffer l a') ∧
  a_buffer a' = a_buffer a ∧
  dom (a_blocked a') = if is_barrier (a_epoch a) ev then {[sender]} ∪ dom (a_blocked a) else dom (a_blocked a).
Proof.
  intros Hi Hs Hrep. unfold on_event. rewrite react_set_buffer.
  destruct (react channels sender ev a) as [a1 r] eqn:Hr. cbn [prod_map fst snd].
  destruct (react_inv channels a sender ev a1 r Hi Hs Hr) as (Hi1 & Hbuf & Hok).
  assert (Hdom : (∀ e, r ≠ Complete e) → dom (a_blocked a1) =
    if is_barrier (a_epoch a) ev then {[sender]} ∪ dom (a_blocked a) else dom (a_blocked a)).
  { intros Hne. destruct ev as [x|w|e|msg]; cbn in Hr |- *.
    - by case_match; simplify_eq.
    - by repeat case_match; simplify_eq.
    - rewrite Z.ltb_antisym. destruct (epoch e <=? epoch (a_epoch a)); [by simplify_eq|].
      case_match; simplify_eq; [by edestruct Hne|]. cbn. by rewrite dom_insert_L.
    - by simplify_eq. }
  destruct r as [|x|w|e|msg]; cbn in Hok |- *.
  - intros [= <- <-] _. by split; [|split; [|apply Hdom]].
  - intros [= <- <-] _. by split; [|split; [|apply Hdom]].
  - intros [= <- <-] _. by split; [|split; [|apply Hdom]].
  - destruct Hok as (He & Hlt & _). destruct (saved e); [|done].
    destruct (Hrep a1 Hi1) as [Ha _]. destruct (rep a1) as [[acts2 v] a2]. intros [= <- -> ->] Hep.
    apply ad_epoch in Ha. cbn in Ha. rewrite Hep, He in Ha. lia.
  - intros [= <- <-] _. by split; [|split; [|apply Hdom]].
Qed.

Lemma andthen_done (s : Step IN) k acts a' :
  andthen s k = (acts, Done, a') →
  ∃ acts1 a1 acts2, s = (acts1, Done, a1) ∧ k a1 = (acts2, Done, a') ∧ acts = acts1 ++ acts2.
Proof.
  destruct s as [[acts1 []] a1]; cbn; [|done..]. destruct (k a1) as [[acts2 v] a2] eqn:Hk.
  intros [= <- -> ->]. by eexists _, _, _.
Qed.
(** Between two states of the same epoch, every state in between is of that epoch. *)
Lemma each_same_epoch {X} (f : X → NodeAbs IN → Step IN) x l a acts1 a1 acts2 a' :
  lowest_inv channels a → (∀ x a, x ∈ l → lowest_inv channels a → step_inv channels a (f x a)) →
  step_inv channels a (f x a) → f x a = (acts1, Done, a1) → each f l a1 = (acts2, Done, a') →
  a_epoch a' = a_epoch a → a_epoch a1 = a_epoch a ∧ a_epoch a' = a_epoch a1 ∧ lowest_inv channels a1.
Proof.
  intros Hi Hf Hx E1 E2 Hep. destruct Hx as [Ha1 Hi1]. rewrite E1 in Ha1, Hi1.
  pose proof (each_inv channels f l a1) as [Ha2 _]; [|exact Hi1|].
  { apply Forall_forall. intros y Hy b Hb. by apply Hf. }
  rewrite E2 in Ha2. apply ad_epoch in Ha1, Ha2. cbn in Ha1, Ha2.
  assert (a_epoch a1 = a_epoch a); [|split; [done|split; [congruence|done]]].
  destruct (a_epoch a1) as [x1] eqn:H1, (a_epoch a) as [x2] eqn:H2. rewrite Hep in Ha2. cbn in *. f_equal. lia.
Qed.

Lemma batch_no_complete rep m l a acts a' :
  lowest_inv channels a → m.1 ∈ channels → (∀ a, lowest_inv channels a → step_inv channels a (rep a)) →
  on_batch channels saved false rep m a = (acts, Done, a') → a_epoch a' = a_epoch a →
  on_batch channels saved false rep m (set_buffer l a) = (acts, Done, set_buffer l a') ∧
  a_buffer a' = a_buffer a ∧
  dom (a_blocked a') = if barrier (a_epoch a) m then {[m.1]} ∪ dom (a_blocked a) else dom (a_blocked a).
Proof.
  destruct m as [s evs]. unfold on_batch, barrier. cbn [fst snd]. intros Hi Hs Hrep. revert a acts Hi.
  induction evs as [|ev evs IH]; intros a acts Hi.
  { intros [= <- <-] _. done. }
  cbn [each]. intros (acts1 & a1 & acts2 & E1 & E2 & ->)%andthen_done Hep.
  assert (Hf : ∀ x b, x ∈ evs → lowest_inv channels b → step_inv channels b (on_event channels saved false rep s x b)).
  { intros. by apply on_event_inv. }
  destruct (each_same_epoch _ ev evs a acts1 a1 acts2 a' Hi Hf) as (He1 & He2 & Hi1); try done.
  { by apply on_event_inv. }
  destruct (event_no_complete rep s ev l a acts1 a1 Hi Hs Hrep E1 He1) as (F1 & B1 & D1).
  destruct (IH a1 acts2 Hi1 E2 He2) as (F2 & B2 & D2). split; [|split].
  - rewrite F1. cbn. by rewrite F2.
  - congruence.
  - rewrite D2, He1. cbn [existsb]. rewrite D1.
    destruct (is_barrier (a_epoch a) ev), (existsb (is_barrier (a_epoch a)) evs); cbn; set_solver.
Qed.

(** While no epoch completes, the node handles the messages before the barriers of their senders as if
    there were no others, and holds the rest back in order. *)
Lemma aligns ms a acts a' :
  lowest_inv channels a → Forall (λ m, m.1 ∈ channels) ms →
  each message ms a = (acts, Done, a') → a_epoch a' = a_epoch a →
  let direct_held := split_barriers (a_epoch a) (dom (a_blocked a)) ms in
  each batch direct_held.1 (set_buffer [] a) = (acts, Done, set_buffer [] a') ∧
  a_buffer a' = a_buffer a ++ direct_held.2.
Proof.
  intros Hi Hms. revert a acts Hi. induction Hms as [|m ms Hm Hms IH]; intros a acts Hi.
  { intros [= <- <-] _. cbn. by rewrite app_nil_r. }
  cbn [each]. intros (acts1 & a1 & acts2 & E1 & E2 & ->)%andthen_done Hep.
  assert (Hf : ∀ x b, x ∈ ms → lowest_inv channels b → step_inv channels b (message x b)).
  { intros x b Hx Hb. apply on_message_inv; [done|]. rewrite Forall_forall in Hms. by apply Hms. }
  destruct (each_same_epoch _ m ms a acts1 a1 acts2 a' Hi Hf) as (He1 & He2 & Hi1); try done.
  { by apply on_message_inv. }
  destruct (IH a1 acts2 Hi1 E2 He2) as [F2 B2]. rewrite He1 in F2, B2. unfold on_message in E1.
  cbn [split_barriers]. case_decide as Hd.
  - apply elem_of_dom in Hd as [x Hx]. rewrite Hx in E1. unfold ret in E1. injection E1 as <- <-.
    cbn in F2, B2 |- *. split; [exact F2|]. by rewrite B2, <- (assoc_L (++)).
  - apply not_elem_of_dom in Hd. rewrite Hd in E1.
    destruct (batch_no_complete _ m [] a acts1 a1 Hi Hm (replay_inv channels saved true) E1 He1) as (F1 & B1 & D1).
    rewrite D1 in F2, B2. destruct (split_barriers _ _ ms) as [direct held]. cbn in F2, B2 |- *.
    rewrite F1. cbn. rewrite F2. split; [done|]. by rewrite B2, B1.
Qed.

(** ** Epochs complete *)

Section complete.
Context (e : Epoch).
(** The messages of an epoch without watermarks: elements, and the barriers of [e]. *)
Definition benign m : Prop := m.2 = [EvEpoch e] ∨ Forall (λ ev, is_element ev = true) m.2.
Definition quiet acts : Prop := forwarded_epochs acts = [] ∧ checkpoints acts = [].

Lemma quiet_app acts1 acts2 : quiet acts1 → quiet acts2 → quiet (acts1 ++ acts2).
Proof.
  unfold quiet, forwarded_epochs, checkpoints. rewrite !omap_app. intros [-> ->] [-> ->]. done.
Qed.
Lemma each_quiet {X} (f : X → NodeAbs IN → Step IN) l a :
  Forall (λ x, ∃ acts, f x a = (acts, Done, a) ∧ quiet acts) l → ∃ acts, each f l a = (acts, Done, a) ∧ quiet acts.
Proof.
  induction 1 as [|x l (acts1 & E1 & Q1) _ (acts2 & E2 & Q2)]; [by exists []|].
  exists (acts1 ++ acts2). split; [cbn; rewrite E1; cbn; by rewrite E2|by apply quiet_app].
Qed.
Lemma elements_quiet busy rep m a :
  Forall (λ ev, is_element ev = true) m.2 →
  ∃ acts, on_batch channels saved busy rep m a = (acts, Done, a) ∧ quiet acts.
Proof.
  intros Hm. apply each_quiet. eapply Forall_impl; [exact Hm|]. cbn. intros [x| | |] Hx; try done.
  unfold on_event, react. destruct (_ <=? _); eexists; (split; [reflexivity|by split]).
Qed.
(** Once the node is in the epoch, such messages do not change its state. *)
Lemma benign_quiet busy rep m a :
  benign m → a_epoch a = e → ∃ acts, on_batch channels saved busy rep m a = (acts, Done, a) ∧ quiet acts.
Proof.
  intros [Hm|Hm] He; [|by apply elements_quiet]. unfold on_batch. rewrite Hm. apply each_quiet.
  constructor; [|constructor]. unfold on_event. cbn. rewrite He, (proj2 (Z.leb_le _ _)) by done. by exists [].
Qed.
Lemma after_quiet ms a :
  Forall benign ms → a_epoch a = e → a_blocked a = ∅ → ∃ acts, each message ms a = (acts, Done, a) ∧ quiet acts.
Proof.
  intros Hms He Hb. apply each_quiet. eapply Forall_impl; [exact Hms|]. cbn. intros m Hm.
  unfold on_message. rewrite Hb, lookup_empty. by apply benign_quiet.
Qed.

Definition aligning a : Prop :=
  epoch (a_epoch a) < epoch e ∧ (size (a_blocked a) < length channels)%nat ∧ Forall benign (a_buffer a).
Definition completed acts a : Prop :=
  forwarded_epochs acts = [e] ∧ checkpoints acts = [e] ∧ a_epoch a = e ∧ a_blocked a = ∅ ∧ a_buffer a = [].

Lemma message_aligning m a :
  saved e = true → aligning a → benign m →
  ∃ acts a', message m a = (acts, Done, a') ∧
    ((quiet acts ∧ aligning a' ∧ dom (a_blocked a) ⊆ dom (a_blocked a') ∧
      (m.2 = [EvEpoch e] → m.1 ∈ dom (a_blocked a'))) ∨ completed acts a').
Proof.
  intros Hs (He & Hsz & Hbuf) Hm. unfold on_message. destruct (a_blocked a !! m.1) as [x|] eqn:Hb.
  { eexists _, _. split; [done|]. left. split; [done|]. split; [|split; [done|]].
    - split; [done|]. split; [done|]. cbn. apply Forall_app. split; [done|]. by constructor.
    - intros _. apply elem_of_dom. by exists x. }
  destruct Hm as [Hm|Hm].
  - unfold on_batch. rewrite Hm. cbn [each]. unfold on_event, react.
    rewrite (proj2 (Z.leb_gt _ _)) by done. cbn [a_blocked set_blocked].
    assert (Hsz' : size (<[m.1 := tt]> (a_blocked a)) = S (size (a_blocked a))) by by apply map_size_insert_None.
    destruct (Z.eqb_spec (Z.of_nat (size (<[m.1 := tt]> (a_blocked a)))) (len channels)) as [Heq|Hne].
    + cbn [act_on]. rewrite Hs. unfold replay, replay_buffer. cbn [a_buffer set_epoch set_blocked].
      set (a1 := unblock _). destruct (each_quiet (on_batch channels saved true (replay_nested (IN:=IN))) (a_buffer a) a1) as (acts & -> & Q1 & Q2).
      { eapply Forall_impl; [exact Hbuf|]. cbn. intros m' Hm'. by apply benign_quiet. }
      cbn. eexists _, a1. split; [done|]. right. unfold completed, forwarded_epochs, checkpoints in *.
      cbn. rewrite !omap_app. cbn. by rewrite Q1, Q2.
    + cbn. eexists _, _. split; [done|]. left. split; [done|]. split; [|split].
      * split; [done|]. split; [cbn; lia|done].
      * cbn. rewrite dom_insert. set_solver.
      * intros _. cbn. rewrite dom_insert. set_solver.
  - destruct (elements_quiet false (replay channels saved true) m a Hm) as (acts & E & Q). exists acts, a.
    split; [done|]. left. split; [done|]. split; [done|]. split; [done|]. intros Hm'. rewrite Hm' in Hm.
    by inversion Hm.
Qed.

(** When every channel sends its barrier of the epoch, among elements, the epoch is saved and forwarded
    exactly once. *)
Lemma epoch_completes ms a :
  NoDup channels → saved e = true → aligning a → Forall benign ms →
  (∀ c, c ∈ channels → (c, [EvEpoch e]) ∈ ms) →
  ∃ acts a', each message ms a = (acts, Done, a') ∧ completed acts a'.
Proof.
  intros Hnd Hs Ha Hms Hall.
  assert (∃ acts a', each message ms a = (acts, Done, a') ∧
    ((quiet acts ∧ aligning a' ∧ ∀ c, c ∈ dom (a_blocked a) ∨ (c, [EvEpoch e]) ∈ ms → c ∈ dom (a_blocked a')) ∨
      completed acts a')) as (acts & a' & E & [(Q & (_ & Hsz & _) & Hb)|Hc]); [| |by exists acts, a'].
  { clear Hall. revert a Ha. induction Hms as [|m ms Hm Hms IH]; intros a Ha.
    { exists [], a. split; [done|]. left. split; [done|]. split; [done|]. by intros c [?|?%elem_of_nil]. }
    destruct (message_aligning m a Hs Ha Hm) as (acts1 & a1 & E1 & [(Q1 & Ha1 & Hd1 & Hm1)|Hc1]).
    - destruct (IH a1 Ha1) as (acts2 & a2 & E2 & [(Q2 & Ha2 & Hd2)|(Hf & Hk & Hc2)]).
      + exists (acts1 ++ acts2), a2. split; [cbn; rewrite E1; cbn; by rewrite E2|]. left.
        split; [by apply quiet_app|]. split; [done|]. intros c Hc. apply Hd2.
        rewrite elem_of_cons in Hc. destruct Hc as [Hc|[<-|Hc]]; [left; by apply Hd1|left; by apply Hm1|by right].
      + exists (acts1 ++ acts2), a2. split; [cbn; rewrite E1; cbn; by rewrite E2|]. right.
        destruct Q1 as [Q1 Q1']. unfold completed, forwarded_epochs, checkpoints in *. rewrite !omap_app, Q1, Q1'. done.
    - destruct Hc1 as (Hf & Hk & He & Hb & Hl). destruct (after_quiet ms a1 Hms He Hb) as (acts2 & E2 & Q2 & Q2').
      exists (acts1 ++ acts2), a1. split; [cbn; rewrite E1; cbn; by rewrite E2|]. right.
      unfold completed, forwarded_epochs, checkpoints in *. rewrite !omap_app, Hf, Hk, Q2, Q2'. done. }
  exfalso. assert (list_to_set channels ⊆ dom (a_blocked a')) as Hsub.
  { intros c Hc%elem_of_list_to_set. apply Hb. right. by apply Hall. }
  apply subseteq_size in Hsub. rewrite size_list_to_set, size_dom in Hsub by done. lia.
Qed.
End complete.
End epochs.
