(* ===== verification/NodeSpec.v ===== *)
(** The node over its state backend implements the state machine of [NodeAbs.v], whatever operator, timer
    and channel strategy it is given, as long as these return and keep to their own states. *)

From S2P Require Import Prelude Error Allocator EventBuffer Pool Serialization StateBackend BackendClient Data Channel Timer Metrics Operator OperatorSpec Node NodeAbs NodeEpochs.
From Stdlib Require Import Sorting.Sorted.

(** ** The regions of a node, and computations on its parts *)

Definition node_ids : gset string :=
  {["__node_watermarks"; "__node_current_watermark"; "__node_current_epoch"; "__node_blocked_channels";
    "__node_message_buffer"]}.
(** A second [borrow_mut]. *)
Definition borrow_panic : string := "already borrowed: BorrowMutError".
(** The regions of [ids] are as before. *)
Definition untouched {B} `{BackendRep B} (ids : gset string) (b b' : B) : Prop :=
  ∀ id, id ∈ ids → region b' id = region b id.

Section parts.
Context {OUT T B : Type}.

(** [m] returns from [c], leaves the regions of nodes alone and ends in a state with [Q]. *)
Definition works `{BackendRep B} (m : M (OpEnv OUT T B) Error unit) (c : OpEnv OUT T B)
    (Q : OpEnv OUT T B → Prop) : Prop :=
  ∃ c', m c = (Ok tt, c') ∧ untouched node_ids (backend_of c) (backend_of c') ∧ Q c'.
End parts.

Section spec.
#[local] Set Default Proof Using "All".
Context `{BuildProfile, SystemTime, Receivers, Fuel, NodeConfig} {OP IN OUT TS T B : Type}.
Context `{Transport OUT, ArconType IN, ArconType OUT, BackendSpec B, TimerBackend T TS B}.
Context `{!Operator OP IN OUT TS T B}.
Context `{Key NodeID, !MessageLaws NodeID, Value Watermark, Value Epoch, Value unit, Value (RawArconMessage IN)}.
Context `{!MapSpec B NodeID Watermark unit unit, !MapSpec B NodeID unit unit unit}.
Implicit Types (n : Node OP IN) (s : NodeEnv OUT T B) (a : NodeAbs IN) (c : OpEnv OUT T B).

Definition checkpoint_path n (e : Epoch) : option string :=
  (λ base_dir, base_dir +:+ "/checkpoint_" +:+ display_unsigned (node_id (id n)) +:+ "_"
    +:+ display_unsigned (epoch e)) <$> checkpoint_dir.

(** What a node relies on: its operator, timer, strategy and backend return, in states that [parts]
    describes at the time the timer has reached; [saved] says which checkpoints succeed. *)
Class NodeParts n (saved : Epoch → bool) (parts : Z → OpEnv OUT T B → Prop) : Prop := {
  parts_frame t c b : parts t c → changes node_ids (backend_of c) b → parts t (with_backend b c);
  parts_element t c e : parts t c → works (handle_element (operator n) e) c (parts t);
  parts_watermark t c w : parts t c → works (handle_watermark (operator n) w) c (parts t);
  parts_timers t c ts : parts t c → t < ts < 2 ^ 64 →
    works (timeouts ← on_timer (advance_to ts); for_each (handle_timeout (operator n)) timeouts) c (parts ts);
  parts_epoch t c e : parts t c → works (handle_epoch (operator n) e) c (parts t);
  parts_timer_epoch t c e : parts t c → works (on_timer (timer_handle_epoch e)) c (parts t);
  parts_output t c ev : parts t c → works (output ev) c (parts t);
  parts_save t c e : parts t c →
    match checkpoint_path n e with
    | Some path => ∃ o b, on_session (state_try (checkpoint path)) c = (o, with_backend b c) ∧
        same_data (backend_of c) b ∧ if saved e then o = Ok tt else ∃ err, o = Err err
    | None => saved e = false
    end;
}.

(** The states of a node after registration. *)
Definition registered_state : NodeState IN :=
  let st := NodeState_new IN in
  MkNodeState (set_registered (watermarks st)) (set_registered (current_watermark st))
    (set_registered (current_epoch st)) (set_registered (blocked_channels st)) (set_registered (message_buffer st)).

(** ** What a node stores, and the actions it performs *)

Definition bk s : B := backend_of (env s).
Definition set_bk (b : B) s : NodeEnv OUT T B := set_env (with_backend b (env s)) s.

Definition raw_message (m : NodeID * list (ArconEvent IN)) : RawArconMessage IN :=
  MkRawArconMessage (wrap <$> m.2) m.1.
Record stores n s a : Prop := {
  st_state : state n = registered_state;
  st_watermarks : holds_map (bk s) (watermarks (state n)) (a_watermarks a);
  st_watermark : holds_value (bk s) (current_watermark (state n)) (Some (a_watermark a));
  st_epoch : holds_value (bk s) (current_epoch (state n)) (Some (a_epoch a));
  st_blocked : holds_map (bk s) (blocked_channels (state n)) (a_blocked a);
  st_buffer : holds_vec (bk s) (message_buffer (state n)) (raw_message <$> a_buffer a);
}.

(** A step of bookkeeping: only what the node stores for itself, its metrics and its log change. *)
Record silent s s' : Prop := {
  sl_strategy : strategy (env s') = strategy (env s);
  sl_net : net (env s') = net (env s);
  sl_timer : timer (tenv (env s')) = timer (tenv (env s));
  sl_drawn : drawn (tenv (env s')) = drawn (tenv (env s));
  sl_backend : changes node_ids (bk s) (bk s');
  sl_killed : killed s' = killed s;
  sl_periodic : periodic s' = periodic s;
  sl_reported : reported s' = reported s;
}.
#[export] Instance silent_preorder : PreOrder silent.
Proof.
  split; [by split|]. intros s1 s2 s3 [] []. split; try congruence. by etrans.
Qed.

Definition act n (x : Action IN) : M (NodeEnv OUT T B) Error unit :=
  match x with
  | ActElement e => on_env (handle_element (operator n) e)
  | ActWatermark w => on_env (handle_watermark (operator n) w)
  | ActTimers w => advance_timers n (wm_timestamp w)
  | ActEpoch e => on_env (handle_epoch (operator n) e)
  | ActTimerEpoch e => on_env (on_timer (timer_handle_epoch e))
  | ActCheckpoint e =>
      match checkpoint_path n e with
      | Some path => on_state (checkpoint path)
      | None => mret tt
      end
  | ActForwardWatermark w => forward (EvWatermark w)
  | ActForwardEpoch e => forward (EvEpoch e)
  | ActForwardDeath msg => forward (Death msg)
  | ActKill => suicide
  end.
(** From [s] to [s'] exactly the given actions are performed, in order, with bookkeeping in between. *)
Inductive performs n : list (Action IN) → NodeEnv OUT T B → NodeEnv OUT T B → Prop :=
| performs_silent s s' : silent s s' → performs n [] s s'
| performs_act x s s' : act n x s = (Ok tt, s') → performs n [x] s s'
| performs_app acts1 acts2 s1 s2 s3 :
    performs n acts1 s1 s2 → performs n acts2 s2 s3 → performs n (acts1 ++ acts2) s1 s3.

Lemma performs_cons n x acts s1 s2 s3 :
  act n x s1 = (Ok tt, s2) → performs n acts s2 s3 → performs n (x :: acts) s1 s3.
Proof. intros. apply (performs_app n [x] acts s1 s2); [by apply performs_act|done]. Qed.
Lemma performs_silent_l n acts s1 s2 s3 : silent s1 s2 → performs n acts s2 s3 → performs n acts s1 s3.
Proof. intros. apply (performs_app n [] acts s1 s2); [by apply performs_silent|done]. Qed.
Lemma performs_silent_r n acts s1 s2 s3 : performs n acts s1 s2 → silent s2 s3 → performs n acts s1 s3.
Proof.
  intros. rewrite <- (app_nil_r acts). apply (performs_app n acts [] s1 s2); [done|by apply performs_silent].
Qed.

(** ** Operations on the stored state *)

Lemma on_state_ok {A} (op : StateM B A) s x ids Q :
  runs op (bk s) x ids Q → ∃ b, on_state op s = (Ok x, set_bk b s) ∧ changes ids (bk s) b ∧ Q b.
Proof.
  intros (b & E & Hc & HQ). exists b. split; [|done].
  unfold on_state, on_env, on_session, on_timer, zoom, state_try, on_outcome.
  unfold bk, backend_of in E. rewrite E. done.
Qed.
Lemma set_bk_silent ids s b : changes ids (bk s) b → ids ⊆ node_ids → silent s (set_bk b s).
Proof. intros Hc Hs. split; try done. by eapply changes_weaken. Qed.

(** Reading leaves everything as it is. *)
Lemma stores_read n s a b : stores n s a → changes ∅ (bk s) b → stores n (set_bk b s) a.
Proof. intros [] Hc. split; [done|by eapply holds_frame..]. Qed.
Lemma read_ok {A} n s a (op : StateM B A) x :
  stores n s a → runs op (bk s) x ∅ (λ _, True) →
  ∃ b, on_state op s = (Ok x, set_bk b s) ∧ changes ∅ (bk s) b ∧ stores n (set_bk b s) a.
Proof.
  intros Hs Hop. destruct (on_state_ok op s x ∅ _ Hop) as (b & E & Hc & _). exists b.
  split; [done|]. split; [done|]. by apply stores_read.
Qed.

(** Writing one state leaves the others as they are. *)
Lemma id_neq (x y : string) : x ≠ y → x ∉ ({[y]} : gset string).
Proof using Type. by rewrite not_elem_of_singleton. Qed.
Ltac other_states Hs Hc :=
  let E := fresh in pose proof (st_state _ _ _ Hs) as E;
  destruct Hs; split; cbn; [done|..];
  try (eapply holds_frame; [exact Hc|rewrite E; by apply id_neq|done]); try done.
Lemma write_watermarks n s a b m :
  stores n s a → changes {[h_id (watermarks (state n))]} (bk s) b → holds_map b (watermarks (state n)) m →
  stores n (set_bk b s) (set_watermarks m a).
Proof. intros Hs Hc Hb. other_states Hs Hc. Qed.
Lemma write_watermark n s a b w :
  stores n s a → changes {[h_id (current_watermark (state n))]} (bk s) b →
  holds_value b (current_watermark (state n)) (Some w) → stores n (set_bk b s) (set_watermark w a).
Proof. intros Hs Hc Hb. other_states Hs Hc. Qed.
Lemma write_epoch n s a b e :
  stores n s a → changes {[h_id (current_epoch (state n))]} (bk s) b →
  holds_value b (current_epoch (state n)) (Some e) → stores n (set_bk b s) (set_epoch e a).
Proof. intros Hs Hc Hb. other_states Hs Hc. Qed.
Lemma write_blocked n s a b m :
  stores n s a → changes {[h_id (blocked_channels (state n))]} (bk s) b →
  holds_map b (blocked_channels (state n)) m → stores n (set_bk b s) (set_blocked m a).
Proof. intros Hs Hc Hb. other_states Hs Hc. Qed.
Lemma write_buffer n s a b l :
  stores n s a → changes {[h_id (message_buffer (state n))]} (bk s) b →
  holds_vec b (message_buffer (state n)) (raw_message <$> l) → stores n (set_bk b s) (set_buffer l a).
Proof. intros Hs Hc Hb. other_states Hs Hc. Qed.

Lemma own_ids n s a :
  stores n s a →
  {[h_id (watermarks (state n))]} ⊆ node_ids ∧ {[h_id (current_watermark (state n))]} ⊆ node_ids ∧
  {[h_id (current_epoch (state n))]} ⊆ node_ids ∧ {[h_id (blocked_channels (state n))]} ⊆ node_ids ∧
  {[h_id (message_buffer (state n))]} ⊆ node_ids.
Proof. intros Hs. rewrite (st_state _ _ _ Hs). unfold node_ids. cbn. set_solver. Qed.

(** The operations of the handlers, one by one. *)
Definition wrote n s a s' a' : Prop := silent s s' ∧ stores n s' a' ∧ metrics s' = metrics s ∧
  ∃ b, changes node_ids (bk s) b ∧ s' = set_bk b s.
Lemma wrote_bk n s a b ids a' :
  changes ids (bk s) b → ids ⊆ node_ids → stores n (set_bk b s) a' → wrote n s a (set_bk b s) a'.
Proof.
  intros Hc Hi Hs. split; [by eapply set_bk_silent|]. split; [done|]. split; [done|]. exists b.
  split; [by eapply changes_weaken|done].
Qed.
Lemma read_wrote {A} n s a (op : StateM B A) x :
  stores n s a → runs op (bk s) x ∅ (λ _, True) → ∃ s', on_state op s = (Ok x, s') ∧ wrote n s a s' a.
Proof.
  intros Hs Hop. destruct (read_ok n s a op x Hs Hop) as (b & E & Hc & Hs'). exists (set_bk b s).
  split; [done|]. eapply wrote_bk; [done|set_solver|done].
Qed.

Lemma sender_watermark_ok n s a sender w :
  stores n s a → a_watermarks a !! sender = Some w →
  ∃ s', sender_watermark n sender s = (Ok w, s') ∧ wrote n s a s' a.
Proof.
  intros Hs Hw. destruct (read_wrote n s a _ _ Hs (map_get_runs _ _ _ sender (st_watermarks _ _ _ Hs))) as (s' & E & Hwr).
  exists s'. split; [|done]. unfold sender_watermark. step_ok E. by rewrite Hw.
Qed.
Lemma get_current_watermark_ok n s a :
  stores n s a → ∃ s', get_current_watermark n s = (Ok (a_watermark a), s') ∧ wrote n s a s' a.
Proof.
  intros Hs. destruct (read_wrote n s a _ _ Hs (value_get_runs _ _ _ (st_watermark _ _ _ Hs))) as (s' & E & Hwr).
  exists s'. split; [|done]. unfold get_current_watermark. by step_ok E.
Qed.
Lemma get_current_epoch_ok msg n s a :
  stores n s a → ∃ s', get_current_epoch msg n s = (Ok (a_epoch a), s') ∧ wrote n s a s' a.
Proof.
  intros Hs. destruct (read_wrote n s a _ _ Hs (value_get_runs _ _ _ (st_epoch _ _ _ Hs))) as (s' & E & Hwr).
  exists s'. split; [|done]. unfold get_current_epoch. by step_ok E.
Qed.
Lemma insert_watermark_ok n s a sender w :
  stores n s a → ∃ s', on_state (ActiveMap.insert (watermarks (state n)) sender w) s =
      (Ok (a_watermarks a !! sender), s') ∧
    wrote n s a s' (set_watermarks (<[sender := w]> (a_watermarks a)) a).
Proof.
  intros Hs. destruct (on_state_ok _ s _ _ _ (map_insert_runs _ _ _ sender w (st_watermarks _ _ _ Hs))) as (b & E & Hc & Hb).
  eexists. split; [exact E|]. eapply wrote_bk; [exact Hc|by apply (own_ids n s a Hs)|by apply write_watermarks].
Qed.
Lemma set_watermark_ok n s a w :
  stores n s a → ∃ o s', on_state (ActiveValue.set (current_watermark (state n)) w) s = (Ok o, s') ∧
    wrote n s a s' (set_watermark w a).
Proof.
  intros Hs. destruct (on_state_ok _ s _ _ _ (value_set_runs _ _ _ w (st_watermark _ _ _ Hs))) as (b & E & Hc & Hb).
  eexists _, _. split; [exact E|]. eapply wrote_bk; [exact Hc|by apply (own_ids n s a Hs)|by apply write_watermark].
Qed.
Lemma set_epoch_ok n s a e :
  stores n s a → ∃ o s', on_state (ActiveValue.set (current_epoch (state n)) e) s = (Ok o, s') ∧
    wrote n s a s' (set_epoch e a).
Proof.
  intros Hs. destruct (on_state_ok _ s _ _ _ (value_set_runs _ _ _ e (st_epoch _ _ _ Hs))) as (b & E & Hc & Hb).
  eexists _, _. split; [exact E|]. eapply wrote_bk; [exact Hc|by apply (own_ids n s a Hs)|by apply write_epoch].
Qed.
Lemma block_ok n s a sender :
  stores n s a → ∃ s', on_state (ActiveMap.fast_insert (blocked_channels (state n)) sender tt) s = (Ok tt, s') ∧
    wrote n s a s' (set_blocked (<[sender := tt]> (a_blocked a)) a).
Proof.
  intros Hs. destruct (on_state_ok _ s _ _ _ (map_fast_insert_runs _ _ _ sender tt (st_blocked _ _ _ Hs))) as (b & E & Hc & Hb).
  eexists. split; [exact E|]. eapply wrote_bk; [exact Hc|by apply (own_ids n s a Hs)|by apply write_blocked].
Qed.
Lemma unblock_ok n s a :
  stores n s a → ∃ s', on_state (ActiveMap.clear (blocked_channels (state n))) s = (Ok tt, s') ∧
    wrote n s a s' (set_blocked ∅ a).
Proof.
  intros Hs. destruct (on_state_ok _ s _ _ _ (map_clear_runs _ _ _ (st_blocked _ _ _ Hs))) as (b & E & Hc & Hb).
  eexists. split; [exact E|]. eapply wrote_bk; [exact Hc|by apply (own_ids n s a Hs)|by apply write_blocked].
Qed.
Lemma buffer_append_ok n s a m :
  stores n s a → vec_fits (a_buffer a ++ [m]) → ∃ s', on_state (ActiveVec.append (message_buffer (state n)) (raw_message m)) s = (Ok tt, s') ∧
    wrote n s a s' (set_buffer (a_buffer a ++ [m]) a).
Proof.
  intros Hs Hfit. assert (vec_fits ((raw_message <$> a_buffer a) ++ [raw_message m])) as Hfit'
    by (unfold vec_fits in *; by rewrite length_app, length_fmap in *).
  destruct (on_state_ok _ s _ _ _ (vec_append_runs _ _ _ (raw_message m) (st_buffer _ _ _ Hs) Hfit')) as (b & E & Hc & Hb).
  eexists. split; [exact E|]. eapply wrote_bk; [exact Hc|by apply (own_ids n s a Hs)|].
  apply write_buffer; [done..|]. by rewrite fmap_app.
Qed.
Lemma buffer_clear_ok n s a :
  stores n s a → ∃ s', on_state (ActiveVec.clear (message_buffer (state n))) s = (Ok tt, s') ∧
    wrote n s a s' (set_buffer [] a).
Proof.
  intros Hs. destruct (on_state_ok _ s _ _ _ (vec_clear_runs _ _ _ (st_buffer _ _ _ Hs))) as (b & E & Hc & Hb).
  eexists. split; [exact E|]. eapply wrote_bk; [exact Hc|by apply (own_ids n s a Hs)|by apply write_buffer].
Qed.

(** ** Operators, timers and strategies *)

Lemma on_env_bind {A A'} (m : M (OpEnv OUT T B) Error A) (k : A → M (OpEnv OUT T B) Error A') s :
  (on_env m ≫= λ x, on_env (k x)) s = on_env (m ≫= k) s.
Proof using Type.
  unfold on_env, zoom, mbind, M_bind. destruct (m (env s)) as [[x| | |] c]; [|done..]. cbn. by destruct (k x c).
Qed.
Lemma on_env_for_each {A} (f : A → M (OpEnv OUT T B) Error unit) l s :
  for_each (λ x, on_env (f x)) l s = on_env (for_each f l) s.
Proof using Type.
  revert s. induction l as [|x l IH]; intros s; [by destruct s|]. cbn [for_each]. rewrite <- on_env_bind.
  unfold mbind, M_bind. destruct (on_env (f x) s) as [[] s']; [apply IH|done..].
Qed.
Lemma advance_timers_env n ts s :
  advance_timers n ts s =
  on_env (timeouts ← on_timer (advance_to ts); for_each (handle_timeout (operator n)) timeouts) s.
Proof using Type.
  unfold advance_timers. rewrite <- on_env_bind. unfold mbind, M_bind.
  destruct (on_env (on_timer (advance_to ts)) s) as [[] ?]; [by rewrite on_env_for_each|done..].
Qed.

Lemma stores_untouched n s s' a : untouched node_ids (bk s) (bk s') → stores n s a → stores n s' a.
Proof.
  intros Hu Hs. pose proof (st_state _ _ _ Hs) as E.
  assert (Hf : ∀ {S X} (Rep : Region → bytes → X → Prop) (h : Handle S unit unit) x,
    h_id h ∈ node_ids → holds Rep (bk s) h x → holds Rep (bk s') h x).
  { intros S X Rep h x Hid [Hreg (r & Hr & Hx)]. split; [done|]. exists r. by rewrite Hu. }
  destruct Hs. split; [done|apply Hf; [rewrite E; unfold node_ids; cbn; set_solver|done]..].
Qed.
Lemma on_env_ok n m s a Q :
  works m (env s) Q → stores n s a →
  ∃ s', on_env m s = (Ok tt, s') ∧ stores n s' a ∧ Q (env s') ∧ metrics s' = metrics s.
Proof.
  intros (c & E & Hu & HQ) Hs. exists (set_env c s). unfold on_env, zoom. rewrite E. split; [done|].
  split; [by eapply stores_untouched|done].
Qed.

(** ** The metrics *)

Lemma set_metrics_silent x s : silent s (set_metrics x s).
Proof using Type. split; try done. Qed.
Lemma stores_metrics n s a x : stores n s a → stores n (set_metrics x s) a.
Proof using Type. intros []. by split. Qed.
Lemma with_metrics_busy {A} (m : M (NodeEnv OUT T B) Error A) s :
  borrowed (metrics s) = true → with_metrics m s = (Panic borrow_panic, s).
Proof using Type. intros Hb. unfold with_metrics. by rewrite Hb. Qed.
Lemma with_metrics_free {A} (m : M (NodeEnv OUT T B) Error A) s o s' :
  borrowed (metrics s) = false → m (set_metrics (MkRefCell (cell (metrics s)) true) s) = (o, s') →
  with_metrics m s = (o, set_metrics (MkRefCell (cell (metrics s')) false) s').
Proof using Type. intros Hb E. unfold with_metrics. rewrite Hb. by rewrite E. Qed.
Lemma update_metrics_ok f s x :
  f (cell (metrics s)) = Ok x → update_metrics f s = (Ok tt, set_metrics (MkRefCell x (borrowed (metrics s))) s).
Proof using Type. intros E. unfold update_metrics. by rewrite E. Qed.

Definition wm_count s : Z := Counter.counter (watermark_counter (cell (metrics s))).
Definition ep_count s : Z := Counter.counter (epoch_counter (cell (metrics s))).
Lemma inc_watermark_counter_ok s :
  0 ≤ wm_count s < 2 ^ 64 → ∃ s', update_metrics inc_watermark_counter s = (Ok tt, s') ∧
    (∃ x, s' = set_metrics x s ∧ borrowed x = borrowed (metrics s)) ∧ wm_count s' = wm_count s + 1 ∧ ep_count s' = ep_count s.
Proof using Type.
  intros Hc. eexists. split; [apply update_metrics_ok; unfold inc_watermark_counter, Counter.inc, Counter.inc_n|].
  { rewrite u_add_ok; [done|]. unfold in_u, wm_count in *. lia. }
  split; [by eexists|done].
Qed.
Lemma inc_epoch_counter_ok s :
  0 ≤ ep_count s < 2 ^ 64 → ∃ s', update_metrics inc_epoch_counter s = (Ok tt, s') ∧
    (∃ x, s' = set_metrics x s ∧ borrowed x = borrowed (metrics s)) ∧ ep_count s' = ep_count s + 1 ∧ wm_count s' = wm_count s.
Proof using Type.
  intros Hc. eexists. split; [apply update_metrics_ok; unfold inc_epoch_counter, Counter.inc, Counter.inc_n|].
  { rewrite u_add_ok; [done|]. unfold in_u, ep_count in *. lia. }
  split; [by eexists|done].
Qed.

(** ** Reactions *)

Section reactions.
Context n (saved : Epoch → bool) (parts : Z → OpEnv OUT T B → Prop) `{!NodeParts n saved parts}.

Lemma wrote_parts t s a s' a' : parts t (env s) → wrote n s a s' a' → parts t (env s').
Proof. intros Hp (_ & _ & _ & b & Hc & ->). cbn. by apply parts_frame. Qed.
Lemma forward_ok t s a ev :
  parts t (env s) → stores n s a →
  ∃ s', forward ev s = (Ok tt, s') ∧ stores n s' a ∧ parts t (env s') ∧ metrics s' = metrics s.
Proof. intros Hp Hs. by apply on_env_ok; [apply parts_output|]. Qed.

(** The operator and the timers handle a new watermark. *)
Lemma advance_handlers_ok t s a w :
  parts t (env s) → stores n s a → t < wm_timestamp w < 2 ^ 64 →
  ∃ s1 s2, on_env (handle_watermark (operator n) w) s = (Ok tt, s1) ∧
    advance_timers n (wm_timestamp w) s1 = (Ok tt, s2) ∧
    performs n [ActWatermark w; ActTimers w] s s2 ∧ stores n s2 a ∧ parts (wm_timestamp w) (env s2) ∧
    metrics s2 = metrics s.
Proof.
  intros Hp Hs Ht. destruct (on_env_ok n _ s a _ (parts_watermark t _ w Hp) Hs) as (s1 & E1 & Hs1 & Hp1 & Hm1).
  destruct (on_env_ok n _ s1 a _ (parts_timers t _ _ Hp1 Ht) Hs1) as (s2 & E2 & Hs2 & Hp2 & Hm2).
  rewrite <- advance_timers_env in E2. exists s1, s2. split; [done|]. split; [done|]. split; [|split; [done|split; [done|congruence]]].
  eapply performs_cons; [exact E1|]. eapply performs_cons; [exact E2|]. by apply performs_silent.
Qed.
Lemma advance_watermark_busy t s a w :
  parts t (env s) → stores n s a → t < wm_timestamp w < 2 ^ 64 → borrowed (metrics s) = true →
  ∃ s', advance_watermark n w s = (Panic borrow_panic, s') ∧ performs n [ActWatermark w; ActTimers w] s s'.
Proof.
  intros Hp Hs Ht Hb. destruct (set_watermark_ok n s a w Hs) as (o & s1 & E1 & Hw1).
  pose proof (wrote_parts t _ _ _ _ Hp Hw1) as Hp1. destruct Hw1 as (Hsl1 & Hs1 & Hm1 & _).
  destruct (advance_handlers_ok t s1 _ w Hp1 Hs1 Ht) as (s2 & s3 & E2 & E3 & Hperf & _ & _ & Hm3).
  exists s3. split; [|by eapply performs_silent_l].
  unfold advance_watermark. step_ok E1. step_ok E2. step_ok E3. apply with_metrics_busy. congruence.
Qed.
(** The metrics are borrowed, assigned to, and an event is forwarded. *)
Lemma guard_open t s a f x ev :
  parts t (env s) → stores n s a → f (cell (metrics s)) = Ok x →
  ∃ s1 s2, update_metrics f (set_metrics (MkRefCell (cell (metrics s)) true) s) = (Ok tt, s1) ∧
    forward ev s1 = (Ok tt, s2) ∧ silent s s1 ∧ stores n s2 a ∧ parts t (env s2) ∧ metrics s2 = MkRefCell x true.
Proof.
  intros Hp Hs Hf. set (s1 := set_metrics (MkRefCell x true) s).
  destruct (forward_ok t s1 a ev) as (s2 & E & Hs2 & Hp2 & Hm2); [done|by apply stores_metrics|].
  exists s1, s2. split; [|done].
  by rewrite (update_metrics_ok f (set_metrics (MkRefCell (cell (metrics s)) true) s) x Hf).
Qed.
Lemma advance_watermark_free t s a w :
  parts t (env s) → stores n s a → t < wm_timestamp w < 2 ^ 64 → borrowed (metrics s) = false →
  0 ≤ wm_count s < 2 ^ 64 →
  ∃ s', advance_watermark n w s = (Ok tt, s') ∧
    performs n [ActWatermark w; ActTimers w; ActForwardWatermark w] s s' ∧ stores n s' (set_watermark w a) ∧
    parts (wm_timestamp w) (env s') ∧ borrowed (metrics s') = false ∧ wm_count s' = wm_count s + 1 ∧
    ep_count s' = ep_count s.
Proof.
  intros Hp Hs Ht Hb Hc. destruct (set_watermark_ok n s a w Hs) as (o & s1 & E1 & Hw1).
  pose proof (wrote_parts t _ _ _ _ Hp Hw1) as Hp1. destruct Hw1 as (Hsl1 & Hs1 & Hm1 & _).
  destruct (advance_handlers_ok t s1 _ w Hp1 Hs1 Ht) as (s2 & s3 & E2 & E3 & Hperf & Hs3 & Hp3 & Hm3).
  destruct (guard_open _ s3 _ (set_nm_watermark w) _ (EvWatermark w) Hp3 Hs3 eq_refl)
    as (s4 & s5 & E4 & E5 & Hsl4 & Hs5 & Hp5 & Hm5).
  assert (Hc5 : wm_count s5 = wm_count s ∧ ep_count s5 = ep_count s).
  { unfold wm_count, ep_count. rewrite Hm5. cbn. by rewrite Hm3, Hm1. }
  destruct (inc_watermark_counter_ok s5) as (s6 & E6 & (x & -> & _) & Hwc & Hec); [lia|].
  exists (set_metrics (MkRefCell (cell x) false) (set_metrics x s5)).
  split; [|split; [|split; [|split; [|split; [done|]]]]].
  - unfold advance_watermark. step_ok E1. step_ok E2. step_ok E3.
    eapply with_metrics_free; [congruence|]. step_ok E4. step_ok E5. exact E6.
  - apply (performs_silent_l n _ s s1); [done|].
    apply (performs_app n [ActWatermark w; ActTimers w] [ActForwardWatermark w] s1 s3); [done|].
    eapply performs_silent_l; [exact Hsl4|]. eapply performs_cons; [exact E5|].
    apply performs_silent. etrans; apply set_metrics_silent.
  - by do 2 apply stores_metrics.
  - done.
  - unfold wm_count, ep_count in *. cbn in *. lia.
Qed.

(** The checkpoint of an epoch. *)
Lemma save_state_ok t s a :
  parts t (env s) → stores n s a →
  ∃ o s', save_state n s = (o, s') ∧ stores n s' a ∧ parts t (env s') ∧ metrics s' = metrics s ∧
    if saved (a_epoch a) then o = Ok tt ∧ performs n [ActCheckpoint (a_epoch a)] s s'
    else (∃ err, o = Err err) ∧ silent s s'.
Proof.
  intros Hp Hs. unfold save_state. pose proof (parts_save t (env s) (a_epoch a) Hp) as Hsave.
  unfold checkpoint_path in Hsave. destruct checkpoint_dir as [dir|] eqn:Hdir; cbn [fmap option_fmap option_map] in Hsave.
  2:{ rewrite Hsave. eexists _, s. split; [done|]. repeat (split; [done|]). split; [by eexists|done]. }
  clear Hsave. destruct (get_current_epoch_ok "current epoch uninitialized" n s a Hs) as (s1 & E1 & Hw1).
  pose proof (wrote_parts t _ _ _ _ Hp Hw1) as Hp1. destruct Hw1 as (Hsl1 & Hs1 & Hm1 & _). step_ok E1.
  pose proof (parts_save t (env s1) (a_epoch a) Hp1) as Hsave. unfold checkpoint_path in Hsave. rewrite Hdir in Hsave.
  cbn [fmap option_fmap option_map] in Hsave. destruct Hsave as (o & b & E2 & Hb & Ho).
  set (s2 := set_bk b s1).
  assert (E : on_state (checkpoint (dir +:+ "/checkpoint_" +:+ display_unsigned (node_id (id n)) +:+ "_" +:+
    display_unsigned (epoch (a_epoch a)))) s1 = (o, s2)).
  { unfold on_state, on_env, zoom. by rewrite E2. }
  assert (Hc : changes ∅ (bk s1) b) by by apply same_data_changes.
  exists o, s2. split; [exact E|]. split; [by apply stores_read|]. split; [|split; [done|]].
  { cbn. apply parts_frame; [done|]. eapply changes_weaken; [|exact Hc]. set_solver. }
  destruct (saved (a_epoch a)).
  - subst o. split; [done|]. eapply performs_silent_l; [exact Hsl1|]. apply performs_act. cbn [act].
    unfold checkpoint_path. by rewrite Hdir.
  - split; [done|]. etrans; [exact Hsl1|]. eapply set_bk_silent; [exact Hc|set_solver].
Qed.

(** ** Events *)

Abbreviation channels := (in_channels n).
Definition ev_ok (ev : ArconEvent IN) : Prop :=
  match ev with
  | EvWatermark w => 0 ≤ wm_timestamp w < 2 ^ 64
  | EvEpoch e => 0 ≤ epoch e < 2 ^ 64
  | _ => True
  end.
Record in_range a : Prop := {
  ir_watermarks k w : a_watermarks a !! k = Some w → 0 ≤ wm_timestamp w < 2 ^ 64;
  ir_watermark : 0 ≤ wm_timestamp (a_watermark a) < 2 ^ 64;
  ir_epoch : 0 ≤ epoch (a_epoch a) < 2 ^ 64;
  ir_buffer : Forall (λ m, Forall ev_ok m.2) (a_buffer a);
}.
(** The state of the node is [a]; [gate] is what is known of the buffer, [busy] whether the metrics are
    borrowed. *)
Record node_rep (gate : list (NodeID * list (ArconEvent IN)) → Prop) (busy : bool) s a : Prop := {
  nr_stores : stores n s a;
  nr_parts : parts (wm_timestamp (a_watermark a)) (env s);
  nr_busy : borrowed (metrics s) = busy;
  nr_wm_count : 0 ≤ wm_count s ≤ wm_timestamp (a_watermark a);
  nr_ep_count : 0 ≤ ep_count s ≤ epoch (a_epoch a);
  nr_inv : lowest_inv channels a;
  nr_range : in_range a;
  nr_gate : gate (a_buffer a);
}.
Definition refines gate busy (m : M (NodeEnv OUT T B) Error unit) s (st : Step IN) : Prop :=
  ∃ o s', m s = (o, s') ∧ performs n st.1.1 s s' ∧
    match st.1.2 with
    | Done => o = Ok tt ∧ node_rep gate busy s' st.2
    | Failed => (∃ e, o = Err e) ∧ node_rep gate busy s' st.2
    | Crashed => o = Panic borrow_panic
    end.

Lemma foldr_min_base x y l : foldr Z.min (Z.min x y) l = Z.min x (foldr Z.min y l).
Proof using Type. induction l as [|z l IH]; cbn; [done|]. rewrite IH. lia. Qed.
Lemma foldl_pick_min (l : list Watermark) x :
  foldl pick_min (Ok x) (Ok <$> l) = Ok (MkWatermark (foldr Z.min (wm_timestamp x) (wm_timestamp <$> l))).
Proof using Type.
  revert x. induction l as [|y l IH]; intros x; [by destruct x|]. cbn [fmap list_fmap foldl foldr].
  unfold pick_min at 2, Watermark_lt. rewrite <- foldr_min_base.
  destruct (Z.ltb_spec (wm_timestamp y) (wm_timestamp x)); rewrite IH; do 3 f_equal; lia.
Qed.
Lemma min_by_lowest l m w : l ≡ₚ values_of m → min_by (Ok <$> l) w = Ok (lowest m w).
Proof using Type.
  intros Hl. unfold lowest. assert (min_by (Ok <$> l) w = Ok (MkWatermark (foldr Z.min (wm_timestamp w) (wm_timestamp <$> l)))) as ->.
  { unfold min_by. change [Ok w] with (Ok <$> [w] : list (StateResult Watermark)). rewrite <- fmap_app.
    destruct l as [|y l]; cbn [app fmap list_fmap]; [cbn; by destruct w|].
    change (list_fmap _ _ Ok (l ++ [w])) with (Ok (E:=ArconStateError) <$> (l ++ [w])).
    rewrite foldl_pick_min, fmap_app, foldr_app. cbn.
    rewrite <- foldr_min_base. do 3 f_equal. apply Z.min_comm. }
  do 2 f_equal. generalize dependent (values_of m). clear. induction 1; cbn; lia.
Qed.

(** The bookkeeping before the reaction, which the handlers and [react] share. *)
Lemma react_range sender ev a a1 r :
  lowest_inv channels a → sender ∈ channels → in_range a → ev_ok ev →
  react channels sender ev a = (a1, r) → in_range a1 ∧ ∀ w, r = Advance w → wm_timestamp w < 2 ^ 64.
Proof using Type.
  intros Hi Hs Hr Hev Hre. destruct ev as [e|w|e|msg]; cbn in Hre.
  - case_match; by simplify_eq.
  - case_match; [by simplify_eq|].
    assert (Hin : ∀ b, a_watermark b = a_watermark a → a_epoch b = a_epoch a → a_buffer b = a_buffer a →
      a_watermarks b = <[sender := w]> (a_watermarks a) → in_range b).
    { intros b H1' H2' H3' H4'. split; rewrite ?H1', ?H2', ?H3', ?H4'; try apply Hr. intros k x.
      destruct (decide (k = sender)) as [->|Hne]; [rewrite lookup_insert_eq; by intros [= <-]|].
      rewrite lookup_insert_ne by done. apply Hr. }
    case_match; [simplify_eq; split; [by apply Hin|done]|].
    case_match; [simplify_eq; split; [by apply Hin|done]|].
    case_match; simplify_eq; [|split; [by apply Hin|done]].
    destruct (lowest_in (<[sender := w]> (a_watermarks a)) w sender) as (k & x & Hk & Hx); [apply lookup_insert_eq|].
    assert (0 ≤ wm_timestamp x < 2 ^ 64) as Hxr.
    { destruct (decide (k = sender)) as [->|Hne]; [rewrite lookup_insert_eq in Hk; by simplify_eq|].
      rewrite lookup_insert_ne in Hk by done. by apply (ir_watermarks _ Hr k). }
    split; [|intros ? [= <-]; lia]. destruct (Hin (set_watermarks (<[sender := w]> (a_watermarks a)) a)) as []; try done.
    split; try done. cbn. lia.
  - case_match; [by simplify_eq|]. case_match; simplify_eq; (split; [|done]); destruct Hr; split; try done.
  - by simplify_eq.
Qed.

(** An ignored event leaves the handler with nothing more to do. *)
Lemma ignored_refines gate busy m s s' a' :
  m s = (Ok tt, s') → silent s s' → node_rep gate busy s' a' → refines gate busy m s ([], Done, a').
Proof using Type. intros E Hsl Hr. exists (Ok tt), s'. split; [done|]. split; [by apply performs_silent|done]. Qed.
Lemma node_rep_wrote gate busy s a s' a' :
  node_rep gate busy s a → wrote n s a s' a' → a_watermark a' = a_watermark a → a_epoch a' = a_epoch a →
  lowest_inv channels a' → in_range a' → gate (a_buffer a') → node_rep gate busy s' a'.
Proof.
  intros Hr Hw Hwm Hep Hi Hin Hg. pose proof (wrote_parts _ _ _ _ _ (nr_parts _ _ _ _ Hr) Hw) as Hp.
  destruct Hw as (_ & Hs & Hm & _). destruct Hr. split; try done.
  - by rewrite Hwm.
  - by rewrite Hm.
  - unfold wm_count in *. by rewrite Hm, Hwm.
  - unfold ep_count in *. by rewrite Hm, Hep.
Qed.
Lemma wrote_trans s a s1 a1 s2 a2 : wrote n s a s1 a1 → wrote n s1 a1 s2 a2 → wrote n s a s2 a2.
Proof.
  intros (A1 & _ & M1 & b1 & C1 & ->) (A2 & S2 & M2 & b2 & C2 & ->). split; [by etrans|]. split; [done|].
  split; [done|]. exists b2. split; [|done]. by etrans.
Qed.

Lemma element_refines gate busy rep after sender e s a :
  node_rep gate busy s a → sender ∈ channels →
  refines gate busy (handle_event n after sender (wrap (Element e))) s
    (on_event channels saved busy rep sender (Element e) a).
Proof.
  intros Hr Hs. destruct (li_channels _ _ (nr_inv _ _ _ _ Hr) sender Hs) as [w Hw].
  destruct (sender_watermark_ok n s a sender w (nr_stores _ _ _ _ Hr) Hw) as (s1 & E1 & Hw1).
  assert (Hr1 : node_rep gate busy s1 a).
  { eapply node_rep_wrote; [exact Hr|exact Hw1|done|done|apply Hr..]. }
  assert (Hsw : sender_wm a sender = w) by (unfold sender_wm; by rewrite Hw).
  unfold on_event, react. rewrite Hsw.
  assert (E : handle_event n after sender (wrap (Element e)) s =
    (if default u64_max (timestamp e) <=? wm_timestamp w then mret tt else on_env (handle_element (operator n) e)) s1).
  { unfold handle_event. erewrite bind_ok by done. cbv beta. unfold handle_element_event. by step_ok E1. }
  destruct (default u64_max (timestamp e) <=? wm_timestamp w).
  - eapply ignored_refines; [exact E|apply Hw1|done].
  - destruct (on_env_ok n _ s1 a _ (parts_element _ _ e (nr_parts _ _ _ _ Hr1)) (nr_stores _ _ _ _ Hr1)) as (s2 & E2 & Hs2 & Hp2 & Hm2).
    exists (Ok tt), s2. split; [by rewrite E|]. split.
    + cbn. eapply performs_silent_l; [apply Hw1|]. by apply performs_act.
    + split; [done|]. cbn. destruct Hr1. split; try done; unfold wm_count, ep_count in *; by rewrite Hm2.
Qed.

Lemma values_ok s a :
  stores n s a → ∃ l s', on_state (ActiveMap.values (watermarks (state n))) s = (Ok (Ok <$> l), s') ∧
    l ≡ₚ values_of (a_watermarks a) ∧ wrote n s a s' a.
Proof.
  intros Hs. destruct (map_values_runs _ _ _ (st_watermarks _ _ _ Hs)) as (l & Hl & Hp).
  destruct (read_wrote n s a _ _ Hs Hl) as (s' & E & Hw). by exists l, s'.
Qed.
Lemma blocked_len_ok s a :
  stores n s a → ∃ s', on_state (ActiveMap.len (blocked_channels (state n))) s =
    (Ok (Z.of_nat (size (a_blocked a))), s') ∧ wrote n s a s' a.
Proof. intros Hs. apply read_wrote; [done|]. apply map_len_runs, (st_blocked _ _ _ Hs). Qed.

Lemma advance_refines gate busy rep m s0 s a0 a w :
  m s0 = advance_watermark n w s → silent s0 s → stores n s a0 → set_watermark w a0 = a →
  parts (wm_timestamp (a_watermark a0)) (env s) → borrowed (metrics s) = busy →
  0 ≤ wm_count s ≤ wm_timestamp (a_watermark a0) → 0 ≤ ep_count s ≤ epoch (a_epoch a0) →
  wm_timestamp (a_watermark a0) < wm_timestamp w < 2 ^ 64 →
  lowest_inv channels a → in_range a → gate (a_buffer a) →
  refines gate busy m s0 (act_on saved busy rep a (Advance w)).
Proof.
  intros E Hsl Hs <- Hp Hb Hwc Hec Hw Hi Hr Hg. cbn [act_on]. destruct busy.
  - destruct (advance_watermark_busy _ s a0 w Hp Hs Hw Hb) as (s' & E' & Hperf).
    exists (Panic borrow_panic), s'. split; [by rewrite E|]. split; [by eapply performs_silent_l|done].
  - destruct (advance_watermark_free _ s a0 w Hp Hs Hw Hb) as (s' & E' & Hperf & Hs' & Hp' & Hb' & Hwc' & Hec'); [lia|].
    exists (Ok tt), s'. split; [by rewrite E|]. split; [by eapply performs_silent_l|]. split; [done|].
    split; try done; cbn; lia.
Qed.
Lemma watermark_refines gate busy rep after sender w s a :
  node_rep gate busy s a → sender ∈ channels → 0 ≤ wm_timestamp w < 2 ^ 64 →
  refines gate busy (handle_event n after sender (wrap (EvWatermark w))) s
    (on_event channels saved busy rep sender (EvWatermark w) a).
Proof.
  intros Hr Hsd Hwr. destruct (li_channels _ _ (nr_inv _ _ _ _ Hr) sender Hsd) as [old Hold].
  assert (Hsw : sender_wm a sender = old) by (unfold sender_wm; by rewrite Hold).
  unfold on_event. destruct (react channels sender (EvWatermark w) a) as [a' r] eqn:Hre.
  destruct (react_inv channels a sender (EvWatermark w) a' r (nr_inv _ _ _ _ Hr) Hsd Hre) as (Hi' & Hbuf & Hok).
  destruct (react_range sender (EvWatermark w) a a' r (nr_inv _ _ _ _ Hr) Hsd (nr_range _ _ _ _ Hr) Hwr Hre) as [Hin' Hadv].
  assert (Hg' : gate (a_buffer a')) by (rewrite Hbuf; apply Hr).
  destruct (sender_watermark_ok n s a sender old (nr_stores _ _ _ _ Hr) Hold) as (s1 & E1 & W1).
  unfold react in Hre. rewrite Hsw in Hre.
  assert (E : handle_event n after sender (wrap (EvWatermark w)) s =
    (if Watermark_le w old then mret tt else
      current ← get_current_watermark n;
      old ← on_state (ActiveMap.insert (watermarks (state n)) sender w);
      if match old with Some old => Watermark_lt current old | None => false end then mret tt
      else if Watermark_le w current then mret tt
      else
        l ← on_state (ActiveMap.values (watermarks (state n)));
        new_watermark ← lift (map_err from_state_error (min_by l w));
        if Watermark_lt current new_watermark then advance_watermark n new_watermark else mret tt) s1).
  { unfold handle_event. erewrite bind_ok by done. cbv beta. unfold handle_watermark_event. by step_ok E1. }
  unfold Watermark_le at 1 in E. destruct (wm_timestamp w <=? wm_timestamp old).
  { simplify_eq. eapply ignored_refines; [exact E|apply W1|]. eapply node_rep_wrote; [exact Hr|exact W1|done..]. }
  destruct (get_current_watermark_ok n s1 a) as (s2 & E2 & W2); [apply W1|]. erewrite bind_ok in E by exact E2. cbv beta in E.
  destruct (insert_watermark_ok n s2 a sender w) as (s3 & E3 & W3); [apply W2|]. erewrite bind_ok in E by exact E3. cbv beta in E.
  rewrite Hold in E. unfold Watermark_lt at 1, Watermark_le at 1 in E.
  pose proof (wrote_trans _ _ _ _ _ _ (wrote_trans _ _ _ _ _ _ W1 W2) W3) as W.
  set (a1 := set_watermarks (<[sender := w]> (a_watermarks a)) a) in *.
  destruct (wm_timestamp (a_watermark a) <? wm_timestamp old).
  { simplify_eq. eapply ignored_refines; [exact E|apply W|]. eapply node_rep_wrote; [exact Hr|exact W|done..]. }
  destruct (wm_timestamp w <=? wm_timestamp (a_watermark a)).
  { simplify_eq. eapply ignored_refines; [exact E|apply W|]. eapply node_rep_wrote; [exact Hr|exact W|done..]. }
  destruct (values_ok s3 a1) as (l & s4 & E4 & Hl & W4); [apply W|]. erewrite bind_ok in E by exact E4. cbv beta in E.
  rewrite (min_by_lowest l (a_watermarks a1) w Hl) in E. unfold map_err, lift in E. erewrite bind_ok in E by done. cbv beta in E.
  pose proof (wrote_trans _ _ _ _ _ _ W W4) as W'. unfold Watermark_lt in E.
  destruct (wm_timestamp (a_watermark a) <? wm_timestamp (lowest (a_watermarks a1) w)) eqn:Hlt.
  2:{ simplify_eq. eapply ignored_refines; [exact E|apply W'|]. eapply node_rep_wrote; [exact Hr|exact W'|done..]. }
  apply Z.ltb_lt in Hlt. injection Hre as <- <-. pose proof W' as (Hsl & Hs4 & Hm4 & _).
  eapply (advance_refines gate busy rep _ s s4 a1); [exact E|done|done|done| | | | | |done|done|done].
  - cbn. eapply wrote_parts; [apply Hr|exact W'].
  - rewrite Hm4. apply Hr.
  - unfold wm_count. rewrite Hm4. apply Hr.
  - unfold ep_count. rewrite Hm4. apply Hr.
  - split; [done|by apply Hadv].
Qed.

(** What happens when an epoch completes, up to the saving of the state. *)
Lemma epoch_handlers_ok s a e :
  parts (wm_timestamp (a_watermark a)) (env s) → stores n s a →
  ∃ o s1 s2 s3 r s4, on_state (ActiveValue.set (current_epoch (state n)) e) s = (Ok o, s1) ∧
    on_env (handle_epoch (operator n) e) s1 = (Ok tt, s2) ∧
    on_env (on_timer (timer_handle_epoch e)) s2 = (Ok tt, s3) ∧ save_state n s3 = (r, s4) ∧
    stores n s4 (set_epoch e a) ∧ parts (wm_timestamp (a_watermark a)) (env s4) ∧ metrics s4 = metrics s ∧
    if saved e then r = Ok tt ∧ performs n [ActEpoch e; ActTimerEpoch e; ActCheckpoint e] s s4
    else (∃ err, r = Err err) ∧ performs n [ActEpoch e; ActTimerEpoch e] s s4.
Proof.
  intros Hp Hs. destruct (set_epoch_ok n s a e Hs) as (o & s1 & E1 & W1).
  pose proof (wrote_parts _ _ _ _ _ Hp W1) as Hp1. destruct W1 as (Hsl1 & Hs1 & Hm1 & _).
  destruct (on_env_ok n _ s1 _ _ (parts_epoch _ _ e Hp1) Hs1) as (s2 & E2 & Hs2 & Hp2 & Hm2).
  destruct (on_env_ok n _ s2 _ _ (parts_timer_epoch _ _ e Hp2) Hs2) as (s3 & E3 & Hs3 & Hp3 & Hm3).
  destruct (save_state_ok _ s3 _ Hp3 Hs3) as (r & s4 & E4 & Hs4 & Hp4 & Hm4 & Hr).
  exists o, s1, s2, s3, r, s4. repeat (split; [done|]). split; [congruence|]. cbn in Hr.
  assert (Hperf : ∀ acts, performs n acts s3 s4 → performs n (ActEpoch e :: ActTimerEpoch e :: acts) s s4).
  { intros acts Ha. eapply performs_silent_l; [exact Hsl1|]. eapply performs_cons; [exact E2|].
    by eapply performs_cons; [exact E3|]. }
  destruct (saved e); destruct Hr as [Hr Ha]; (split; [done|]); apply Hperf; [done|by apply performs_silent].
Qed.

Lemma complete_refines gate busy rep after m s0 s a0 a e :
  m s0 = complete_epoch n e after s → silent s0 s → stores n s a0 → set_epoch e a0 = a →
  parts (wm_timestamp (a_watermark a0)) (env s) → borrowed (metrics s) = busy →
  0 ≤ wm_count s ≤ wm_timestamp (a_watermark a0) → 0 ≤ ep_count s ≤ epoch (a_epoch a0) →
  epoch (a_epoch a0) < epoch e < 2 ^ 64 →
  lowest_inv channels a → in_range a → gate (a_buffer a) →
  (busy = false → ∀ s a, node_rep gate true s a → refines gate true after s (rep a)) →
  refines gate busy m s0 (act_on saved busy rep a (Complete e)).
Proof.
  intros E Hsl Hs <- Hp Hb Hwc Hec He Hi Hr Hg Hafter.
  destruct (epoch_handlers_ok s a0 e Hp Hs) as (o & s1 & s2 & s3 & r & s4 & E1 & E2 & E3 & E4 & Hs4 & Hp4 & Hm4 & Ho).
  assert (Em : m s0 = (save_state n ;; with_metrics (
    update_metrics (set_nm_epoch e) ;; forward (EvEpoch e) ;; update_metrics inc_epoch_counter ;; after)) s3).
  { rewrite E. unfold complete_epoch. step_ok E1. step_ok E2. by step_ok E3. }
  assert (Hrep4 : node_rep gate busy s4 (set_epoch e a0)).
  { split; try done; [by rewrite Hm4|unfold wm_count in *; rewrite Hm4; cbn; lia|unfold ep_count in *; rewrite Hm4; cbn; lia]. }
  cbn [act_on]. destruct (saved e) eqn:Hsv.
  2:{ destruct Ho as [(err & ->) Hperf]. exists (Err err), s4. split; [rewrite Em; by erewrite bind_err by exact E4|].
    split; [by eapply performs_silent_l|]. split; [by exists err|done]. }
  destruct Ho as [-> Hperf]. erewrite bind_ok in Em by exact E4. cbv beta in Em. destruct busy.
  { exists (Panic borrow_panic), s4.
    split; [rewrite Em; apply with_metrics_busy; by rewrite Hm4|]. by split; [eapply performs_silent_l|]. }
  destruct (guard_open _ s4 _ (set_nm_epoch e) _ (EvEpoch e) Hp4 Hs4 eq_refl) as (s5 & s6 & E5 & E6 & Hsl5 & Hs6 & Hp6 & Hm6).
  assert (Hc6 : wm_count s6 = wm_count s ∧ ep_count s6 = ep_count s).
  { unfold wm_count, ep_count. rewrite Hm6. cbn. by rewrite Hm4. }
  destruct (inc_epoch_counter_ok s6) as (s7 & E7 & (x & -> & Hx) & Hec7 & Hwc7); [lia|].
  assert (Hrep7 : node_rep gate true (set_metrics x s6) (set_epoch e a0)).
  { split; try done; [by apply stores_metrics|cbn; by rewrite Hx, Hm6|cbn; lia|cbn; lia]. }
  destruct (Hafter eq_refl _ _ Hrep7) as (o8 & s8 & E8 & Hperf8 & Hv).
  exists o8, (set_metrics (MkRefCell (cell (metrics s8)) false) s8).
  assert (Hfree : node_rep gate true s8 (rep (set_epoch e a0)).2 →
    node_rep gate false (set_metrics (MkRefCell (cell (metrics s8)) false) s8) (rep (set_epoch e a0)).2).
  { intros []. split; try done. by apply stores_metrics. }
  destruct (rep (set_epoch e a0)) as [[acts v] a'] eqn:Hrepa. cbn in Hperf8, Hv, Hfree |- *. split; [|split].
  - rewrite Em. eapply with_metrics_free; [by rewrite Hm4|]. step_ok E5. step_ok E6. by step_ok E7.
  - eapply performs_silent_l; [exact Hsl|].
    apply (performs_app n [ActEpoch e; ActTimerEpoch e; ActCheckpoint e] (ActForwardEpoch e :: acts) s s4); [done|].
    eapply performs_silent_l; [exact Hsl5|]. eapply performs_cons; [exact E6|].
    eapply performs_silent_l; [apply (set_metrics_silent x)|]. eapply performs_silent_r; [exact Hperf8|].
    apply set_metrics_silent.
  - destruct v; [destruct Hv; split; [done|by apply Hfree]..|done].
Qed.

Lemma epoch_refines gate busy rep after sender e s a :
  node_rep gate busy s a → sender ∈ channels → 0 ≤ epoch e < 2 ^ 64 →
  (busy = false → ∀ s a, node_rep gate true s a → refines gate true after s (rep a)) →
  refines gate busy (handle_event n after sender (wrap (EvEpoch e))) s
    (on_event channels saved busy rep sender (EvEpoch e) a).
Proof.
  intros Hr Hsd Her Hafter.
  unfold on_event. destruct (react channels sender (EvEpoch e) a) as [a' r] eqn:Hre.
  destruct (react_inv channels a sender (EvEpoch e) a' r (nr_inv _ _ _ _ Hr) Hsd Hre) as (Hi' & Hbuf & Hok).
  destruct (react_range sender (EvEpoch e) a a' r (nr_inv _ _ _ _ Hr) Hsd (nr_range _ _ _ _ Hr) Her Hre) as [Hin' _].
  assert (Hg' : gate (a_buffer a')) by (rewrite Hbuf; apply Hr).
  destruct (get_current_epoch_ok "uninitialized epoch" n s a (nr_stores _ _ _ _ Hr)) as (s1 & E1 & W1).
  assert (E : handle_event n after sender (wrap (EvEpoch e)) s =
    (if epoch e <=? epoch (a_epoch a) then mret tt
    else
      on_state (ActiveMap.fast_insert (blocked_channels (state n)) sender tt) ;;
      blocked ← on_state (ActiveMap.len (blocked_channels (state n)));
      if blocked =? len (in_channels n) then complete_epoch n e after else mret tt) s1).
  { unfold handle_event. erewrite bind_ok by done. cbv beta. unfold handle_epoch_event. by step_ok E1. }
  unfold react in Hre. destruct (epoch e <=? epoch (a_epoch a)) eqn:Hle.
  { simplify_eq. eapply ignored_refines; [exact E|apply W1|]. eapply node_rep_wrote; [exact Hr|exact W1|done..]. }
  destruct (block_ok n s1 a sender) as (s2 & E2 & W2); [apply W1|]. erewrite bind_ok in E by exact E2. cbv beta in E.
  set (a1 := set_blocked (<[sender := tt]> (a_blocked a)) a) in *.
  destruct (blocked_len_ok s2 a1) as (s3 & E3 & W3); [apply W2|]. erewrite bind_ok in E by exact E3. cbv beta in E.
  pose proof (wrote_trans _ _ _ _ _ _ (wrote_trans _ _ _ _ _ _ W1 W2) W3) as W.
  destruct (Z.of_nat (size (a_blocked a1)) =? len channels).
  2:{ simplify_eq. eapply ignored_refines; [exact E|apply W|]. eapply node_rep_wrote; [exact Hr|exact W|done..]. }
  injection Hre as <- <-. pose proof W as (Hsl & Hs3 & Hm3 & _). apply Z.leb_gt in Hle.
  eapply (complete_refines gate busy rep after _ s s3 a1); [exact E|done|done|done| | | | | |done|done|done|done].
  - cbn. eapply wrote_parts; [apply Hr|exact W].
  - rewrite Hm3. apply Hr.
  - unfold wm_count. rewrite Hm3. apply Hr.
  - unfold ep_count. rewrite Hm3. apply Hr.
  - cbn. lia.
Qed.

Lemma death_refines gate busy rep after sender msg s a :
  node_rep gate busy s a →
  refines gate busy (handle_event n after sender (wrap (Death msg))) s
    (on_event channels saved busy rep sender (Death msg) a).
Proof.
  intros Hr. destruct (forward_ok _ s a (Death msg) (nr_parts _ _ _ _ Hr) (nr_stores _ _ _ _ Hr)) as (s1 & E1 & Hs1 & Hp1 & Hm1).
  eexists (Ok tt), _. split; [|split].
  - transitivity ((forward (Death msg) ;; suicide) s); [done|]. step_ok E1. reflexivity.
  - cbn. eapply performs_cons; [exact E1|]. by apply performs_act.
  - split; [done|]. destruct Hr. split; cbn; try done; unfold wm_count, ep_count in *; cbn; try by rewrite Hm1.
    by destruct Hs1.
Qed.
Lemma event_refines gate busy rep after sender ev s a :
  node_rep gate busy s a → sender ∈ channels → ev_ok ev →
  (busy = false → ∀ s a, node_rep gate true s a → refines gate true after s (rep a)) →
  refines gate busy (handle_event n after sender (wrap ev)) s (on_event channels saved busy rep sender ev a).
Proof.
  intros Hr Hs Hev Hafter. destruct ev as [e|w|e|msg].
  - by apply element_refines.
  - by apply watermark_refines.
  - by apply epoch_refines.
  - by apply death_refines.
Qed.

(** ** Batches and the buffer *)

Lemma refines_andthen gate busy m k s (st : Step IN) K :
  refines gate busy m s st → (∀ s1, node_rep gate busy s1 st.2 → refines gate busy k s1 (K st.2)) →
  refines gate busy (m ;; k) s (andthen st K).
Proof.
  intros (o & s1 & E & Hperf & Hv) Hk. destruct st as [[acts v] a1]. cbn in Hperf, Hv, Hk. destruct v; cbn.
  - destruct Hv as [-> Hr]. destruct (Hk s1 Hr) as (o2 & s2 & E2 & Hperf2 & Hv2).
    destruct (K a1) as [[acts2 v2] a2]. exists o2, s2. split; [by step_ok E|].
    split; [by eapply performs_app|done].
  - destruct Hv as [[err ->] Hr]. exists (Err err), s1. split; [by erewrite bind_err by exact E|]. split; [done|].
    split; [by exists err|done].
  - subst o. exists (Panic borrow_panic), s1. by split; [by erewrite bind_panic by exact E|].
Qed.
Lemma refines_ret gate busy s a : node_rep gate busy s a → refines gate busy (mret tt) s (ret a).
Proof. intros Hr. exists (Ok tt), s. split; [done|]. split; [by apply performs_silent|done]. Qed.
Lemma refines_each {X Y} gate busy (f : Y → M (NodeEnv OUT T B) Error unit) (g : X → NodeAbs IN → Step IN) (h : X → Y) l s a :
  Forall (λ x, ∀ s a, node_rep gate busy s a → refines gate busy (f (h x)) s (g x a)) l →
  node_rep gate busy s a → refines gate busy (for_each f (h <$> l)) s (each g l a).
Proof.
  intros Hl. revert s a. induction Hl as [|x l Hx Hl IH]; intros s a Hr; [by apply refines_ret|].
  cbn [fmap list_fmap for_each each]. apply refines_andthen; [by apply Hx|]. intros s1 Hr1. by apply IH.
Qed.
Definition batch_ok (m : NodeID * list (ArconEvent IN)) : Prop := m.1 ∈ channels ∧ Forall ev_ok m.2.
Lemma batch_refines gate busy rep d m s a :
  node_rep gate busy s a → batch_ok m →
  (busy = false → ∀ s a, node_rep gate true s a →
    refines gate true (after_state_save_with n (handle_events d n)) s (rep a)) →
  refines gate busy (handle_events (S d) n m.1 (wrap <$> m.2)) s (on_batch channels saved busy rep m a).
Proof.
  intros Hr [Hm Hev] Hafter. cbn [handle_events]. apply refines_each; [|done].
  eapply Forall_impl; [exact Hev|]. cbn. intros ev Hok s1 a1 Hr1. by apply event_refines.
Qed.

Lemma unblock_range a : in_range a → in_range (unblock a).
Proof. intros []. by split. Qed.
Lemma buffer_empty_ok s a :
  stores n s a → ∃ s', on_state (ActiveVec.is_empty (message_buffer (state n))) s =
    (Ok (bool_decide (a_buffer a = [])), s') ∧ wrote n s a s' a.
Proof.
  intros Hs. destruct (read_wrote n s a _ _ Hs (vec_is_empty_runs _ _ _ (st_buffer _ _ _ Hs))) as (s' & E & W).
  exists s'. split; [|done]. rewrite E. do 2 f_equal. by destruct (a_buffer a).
Qed.
Lemma buffer_get_ok s a :
  stores n s a → ∃ s', on_state (ActiveVec.get (message_buffer (state n))) s =
    (Ok (raw_message <$> a_buffer a), s') ∧ wrote n s a s' a.
Proof. intros Hs. by apply read_wrote, vec_get_runs, (st_buffer _ _ _ Hs). Qed.

Lemma unblock_step gate busy s a :
  node_rep gate busy s a → gate [] →
  ∃ s1, on_state (ActiveMap.clear (blocked_channels (state n))) s = (Ok tt, s1) ∧ wrote n s a s1 (set_blocked ∅ a) ∧
    node_rep gate busy s1 (set_blocked ∅ a).
Proof.
  intros Hr Hg. destruct (unblock_ok n s a (nr_stores _ _ _ _ Hr)) as (s1 & E1 & W1). exists s1.
  split; [done|]. split; [done|]. eapply node_rep_wrote; [exact Hr|exact W1|done|done| | |apply Hr].
  - destruct (nr_inv _ _ _ _ Hr). by split.
  - destruct (nr_range _ _ _ _ Hr). by split.
Qed.
Lemma node_rep_gate gate gate' busy s a : node_rep gate busy s a → gate' (a_buffer a) → node_rep gate' busy s a.
Proof. intros [] ?. by split. Qed.
Lemma replay_refines gate busy rep d s a :
  node_rep (λ _, True) busy s a → gate [] →
  (busy = false → ∀ s a, node_rep gate true s a →
    refines gate true (after_state_save_with n (handle_events d n)) s (rep a)) →
  refines gate busy (after_state_save_with n (handle_events (S d) n)) s (replay_buffer channels saved busy rep a).
Proof.
  intros Hr Hg Hafter. destruct (unblock_step (λ _, True) busy s a Hr I) as (s1 & E1 & W1 & Hr1).
  destruct (buffer_empty_ok s1 _ (nr_stores _ _ _ _ Hr1)) as (s2 & E2 & W2).
  unfold replay_buffer. destruct (a_buffer a) as [|m l] eqn:Hbuf.
  - cbn [each]. assert (unblock a = set_blocked ∅ a) as -> by (destruct a; cbn in *; by subst).
    assert (E : after_state_save_with n (handle_events (S d) n) s = (Ok tt, s2)).
    { unfold after_state_save_with. step_ok E1. step_ok E2. cbn. by rewrite Hbuf. }
    eapply ignored_refines; [exact E| |].
    + etrans; [apply W1|apply W2].
    + apply (node_rep_gate (λ _, True)); [|cbn; by rewrite Hbuf]. eapply node_rep_wrote; [exact Hr1|exact W2|done|done|apply Hr1..].
  - destruct (buffer_get_ok s2 _ (proj1 (proj2 W2))) as (s3 & E3 & W3).
    destruct (buffer_clear_ok n s3 _ (proj1 (proj2 W3))) as (s4 & E4 & W4).
    pose proof (wrote_trans _ _ _ _ _ _ (wrote_trans _ _ _ _ _ _ (wrote_trans _ _ _ _ _ _ W1 W2) W3) W4) as W.
    assert (E : after_state_save_with n (handle_events (S d) n) s =
      for_each (λ message, handle_events (S d) n (raw_sender message) (raw_events message)) (raw_message <$> a_buffer a) s4).
    { unfold after_state_save_with. step_ok E1. step_ok E2. cbn [a_buffer set_blocked]. rewrite bool_decide_eq_false_2 by by rewrite Hbuf.
      step_ok E3. by step_ok E4. }
    assert (Hr4 : node_rep gate busy s4 (unblock a)).
    { apply (node_rep_gate (λ _, True)); [|done]. eapply node_rep_wrote; [exact Hr|exact W|done|done|by apply unblock_inv, (nr_inv _ _ _ _ Hr)|by apply unblock_range, (nr_range _ _ _ _ Hr)|done]. }
    rewrite <- Hbuf.
    assert (refines gate busy (for_each (λ message, handle_events (S d) n (raw_sender message) (raw_events message))
      (raw_message <$> a_buffer a)) s4 (each (on_batch channels saved busy rep) (a_buffer a) (unblock a))) as (o & s5 & E5 & Hperf & Hv).
    { apply refines_each; [|done].
      assert (Forall batch_ok (a_buffer a)) as Hall.
      { pose proof (li_buffer _ _ (nr_inv _ _ _ _ Hr)) as H1'. pose proof (ir_buffer _ (nr_range _ _ _ _ Hr)) as H2'.
        rewrite Forall_forall in H1', H2' |- *. intros x Hx. split; [by apply H1'|by apply H2']. }
      eapply Forall_impl; [exact Hall|]. cbn. intros x Hx s5 a5 Hr5. by apply batch_refines. }
    exists o, s5. split; [by rewrite E|]. split; [eapply performs_silent_l; [apply W|done]|done].
Qed.
(** An epoch that completes while the buffer is handled finds the buffer empty. *)
Lemma replay_nested_refines d busy s a :
  node_rep (λ l, l = []) busy s a →
  refines (λ l, l = []) busy (after_state_save_with n (handle_events d n)) s (replay_nested a).
Proof.
  intros Hr. destruct (unblock_step _ busy s a Hr eq_refl) as (s1 & E1 & W1 & Hr1).
  destruct (buffer_empty_ok s1 _ (nr_stores _ _ _ _ Hr1)) as (s2 & E2 & W2).
  pose proof (nr_gate _ _ _ _ Hr) as Hbuf. cbn in Hbuf. unfold replay_nested, ret.
  assert (unblock a = set_blocked ∅ a) as -> by (destruct a; cbn in *; by subst).
  eapply (ignored_refines _ _ _ s s2).
  - unfold after_state_save_with. step_ok E1. step_ok E2. cbn. by rewrite Hbuf.
  - etrans; [apply W1|apply W2].
  - eapply node_rep_wrote; [exact Hr1|exact W2|done|done|apply Hr1..].
Qed.

Lemma log_error_rep gate busy e s a :
  node_rep gate busy s a → ∃ s', log_error e s = (Ok tt, s') ∧ silent s s' ∧ node_rep gate busy s' a.
Proof using Type.
  intros Hr. eexists. split; [done|]. split; [by split|]. split; try apply Hr. by destruct (nr_stores _ _ _ _ Hr).
Qed.

(** ** Sessions *)

Lemma map_backend_rep gate busy (f : B → B) s a :
  (∀ b, same_data b (f b)) → node_rep gate busy s a →
  silent s (map_backend f s) ∧ node_rep gate busy (map_backend f s) a.
Proof.
  intros Hf Hr. change (map_backend f s) with (set_bk (f (bk s)) s).
  assert (Hc : changes ∅ (bk s) (f (bk s))) by by apply same_data_changes.
  assert (W : wrote n s a (set_bk (f (bk s)) s) a).
  { eapply wrote_bk; [exact Hc|set_solver|]. apply stores_read; [apply Hr|done]. }
  split; [apply W|]. eapply node_rep_wrote; [exact Hr|exact W|done|done|apply Hr..].
Qed.
Lemma session_refines gate0 gate busy m s a (st : Step IN) :
  node_rep gate0 busy s a → (∀ s1, node_rep gate0 busy s1 a → refines gate busy m s1 st) →
  refines gate busy (with_session m) s st.
Proof.
  intros Hr Hm. destruct (map_backend_rep gate0 busy session s a) as [Hsl Hr1]; [apply session_spec|done|].
  destruct (Hm _ Hr1) as (o & s1 & E & Hperf & Hv).
  exists o, (map_backend drop_session s1). split; [unfold with_session; by rewrite E|]. split.
  - eapply performs_silent_l; [exact Hsl|]. eapply performs_silent_r; [exact Hperf|].
    split; try done. change (bk (map_backend drop_session s1)) with (drop_session (bk s1)).
    apply same_data_changes, drop_session_spec.
  - destruct st as [[acts v] a']. cbn in Hv |- *. destruct v; [..|done]; destruct Hv as [Ho Hr']; (split; [done|]);
      by apply map_backend_rep; [apply drop_session_spec|].
Qed.
End reactions.
End spec.
