(* ===== verification/NodeExample.v ===== *)
(** A concrete node: two channels, a map that increments, no timers, a muted output and the in-memory
    backend. *)

From S2P Require Import Prelude Error Allocator EventBuffer Pool Serialization StateBackend BackendClient InMemory BackendLaws Data Channel Timer Metrics Operator OperatorSpec Node NodeAbs NodeEpochs NodeSpec.

Module NodeExample.
#[export] Instance release_profile : BuildProfile := false.
#[export] Instance ticking_clock : SystemTime := λ k, Some (Z.of_nat k * 10 ^ 9).
#[export] Instance eager_receivers : Receivers := λ _ _, true.
#[export] Instance patience : Fuel := 8%nat.
#[export] Instance reliable_network : Transport Z := λ _ _ _ _, None.
#[export] Instance Z_ArconType : ArconType Z :=
  {| arcon_value := countable_Value 1; arcon_drop _ := false; UNSAFE_SER_ID := 1; RELIABLE_SER_ID := 2; VERSION_ID := 1; get_key := λ x, x |}.
#[export] Instance node_Value : Value NodeID := countable_Value 2.
#[export] Instance node_laws : MessageLaws NodeID := countable_MessageLaws.
#[export] Instance watermark_Value : Value Watermark := countable_Value 3.
#[export] Instance epoch_Value : Value Epoch := countable_Value 4.
#[export] Instance unit_Value : Value unit := countable_Value 5.
#[export] Instance message_Value : Value (RawArconMessage Z) := countable_Value 6.

Abbreviation Op := (Map Z Z unit InMemory).
Abbreviation Env := (OpEnv Z unit InMemory).
Definition example_op : Op := Map_new (λ x, x + 1).
Definition channels : list NodeID := [MkNodeID 1; MkNodeID 2].
Definition node_with (chs : list NodeID) : Node Op Z := MkNode "node" (MkNodeID 0) chs example_op registered_state.
Abbreviation node := (node_with channels).
(** The output is muted. *)
Definition parts (t : Z) (c : Env) : Prop := strategy c = Mute.
Definition saving `{NodeConfig} (e : Epoch) : bool := bool_decide (is_Some checkpoint_dir).

(** The in-memory backend, which says as we like whether it was restored. *)
Definition reopened (r : bool) : Backend InMemory := {|
  backend_value_ops := _;
  backend_map_ops := _;
  backend_vec_ops := _;
  backend_reducer_ops := _;
  backend_aggregator_ops := _;
  was_restored _ := r;
  checkpoint := checkpoint (Backend:=InMemory_Backend);
  start_session := start_session (Backend:=InMemory_Backend);
  session_drop_hook := session_drop_hook (Backend:=InMemory_Backend);
  register_value_handle := @register_value_handle _ InMemory_Backend;
  register_map_handle := @register_map_handle _ InMemory_Backend;
  register_vec_handle := @register_vec_handle _ InMemory_Backend;
  register_reducer_handle := @register_reducer_handle _ InMemory_Backend;
  register_aggregator_handle := @register_aggregator_handle _ InMemory_Backend;
|}.
#[export] Instance reopened_spec r : @BackendSpec InMemory (reopened r) InMemory_BackendRep.
Proof. destruct InMemory_BackendSpec. by split. Qed.
#[export] Instance reopened_map_spec r V `{Value V} : @MapSpec InMemory NodeID V unit unit (reopened r) InMemory_BackendRep _ _ _ _ _ _ _ _ _.
Proof. destruct (InMemory_MapSpec NodeID V unit unit). by split. Qed.

Section config.
Context `{NodeConfig} (r : bool).
#[local] Instance example_backend : Backend InMemory := reopened r.
Lemma works_ret (c : Env) : parts 0 c → works (mret tt) c (parts 0).
Proof. intros Hc. exists c. by destruct c as [? ? []]. Qed.
Lemma output_mute (ev : ArconEvent Z) (c : Env) : parts 0 c → output ev c = (Ok tt, c).
Proof. destruct c as [st nt te]. cbn. unfold parts. cbn. by intros ->. Qed.
#[export] Instance node_parts chs : NodeParts (node_with chs) saving parts.
Proof.
  split.
  - done.
  - intros t c e Hc. exists c. cbn. rewrite (bind_ok _ _ c (data e + 1) c) by by destruct c as [? ? []].
    by rewrite output_mute.
  - intros. by apply works_ret.
  - intros t c ts Hc _. exists c. by destruct c as [? ? []].
  - intros. by apply works_ret.
  - intros t c e Hc. exists c. by destruct c as [? ? []].
  - intros t c ev Hc. exists c. by rewrite output_mute.
  - intros t c e Hc. unfold saving, checkpoint_path. destruct checkpoint_dir as [dir|]; cbn; [|done].
    exists (Ok tt), (backend_of c). by destruct c as [? ? []].
Qed.
End config.

Definition config : NodeConfig := {| checkpoint_dir := Some "/tmp"; node_metrics_interval := Some 250 |}.
Definition no_checkpoints : NodeConfig := {| checkpoint_dir := None; node_metrics_interval := None |}.
Definition start_env (b : InMemory) : Timed Env := MkTimed (MkOpEnv Mute (MkNet (MkWorld (MkHeap (Memory_new 4096) []) [] 0) []) (MkTimerEnv tt b 0)) 0.
End NodeExample.
