(* ===== verification/NodeStart.v ===== *)
(** The start of a node: what [Node::new] makes of what the state backend holds, and what a node that
    was restored does with the messages it had buffered. *)

From S2P Require Import Prelude Error Allocator EventBuffer Pool Serialization StateBackend BackendClient InMemory Data Channel Timer Metrics Operator OperatorSpec Node NodeAbs NodeEpochs NodeSpec NodeExample.

Section start.
#[local] Set Default Proof Using "All".
Context `{BuildProfile, SystemTime, Receivers, Fuel, NodeConfig} {OP IN OUT TS T B : Type}.
Context `{Transport OUT, ArconType IN, ArconType OUT, BackendSpec B, TimerBackend T TS B}.
Context `{!Operator OP IN OUT TS T B}.
Context `{Key NodeID, !MessageLaws NodeID, Value Watermark, Value Epoch, Value unit, Value (RawArconMessage IN)}.
Context `{!MapSpec B NodeID Watermark unit unit, !MapSpec B NodeID unit unit unit}.
Implicit Types (s : Timed (OpEnv OUT T B)) (a : NodeAbs IN) (c : OpEnv OUT T B) (b : B).

(** ** What a backend holds of a node *)

Definition fresh_state : NodeState IN := NodeState_new IN.
(** The five states as they are read back. *)
Record Found : Type := MkFound {
  f_watermarks : gmap NodeID Watermark;
  f_watermark : option Watermark;
  f_epoch : option Epoch;
  f_blocked : gmap NodeID unit;
  f_buffer : list (NodeID * list (ArconEvent IN));
}.
Definition found_of (o : option (NodeAbs IN)) : Found :=
  match o with
  | None => MkFound ∅ None None ∅ []
  | Some a => MkFound (a_watermarks a) (Some (a_watermark a)) (Some (a_epoch a)) (a_blocked a) (a_buffer a)
  end.
Record holds_found b (st : NodeState IN) (f : Found) : Prop := {
  hf_watermarks : holds_map b (watermarks st) (f_watermarks f);
  hf_watermark : holds_value b (current_watermark st) (f_watermark f);
  hf_epoch : holds_value b (current_epoch st) (f_epoch f);
  hf_blocked : holds_map b (blocked_channels st) (f_blocked f);
  hf_buffer : holds_vec b (message_buffer st) (raw_message <$> f_buffer f);
}.
(** Nothing, or the state [a]. *)
Definition persisted b (o : option (NodeAbs IN)) : Prop :=
  stored MapRep ∅ b (watermarks fresh_state) (f_watermarks (found_of o)) ∧
  stored ValRep None b (current_watermark fresh_state) (f_watermark (found_of o)) ∧
  stored ValRep None b (current_epoch fresh_state) (f_epoch (found_of o)) ∧
  stored MapRep ∅ b (blocked_channels fresh_state) (f_blocked (found_of o)) ∧
  stored VecStored [] b (message_buffer fresh_state) (raw_message <$> f_buffer (found_of o)).

(** ** Registration *)

Definition sbk s : B := backend_of (item s).
Definition set_sbk b s : Timed (OpEnv OUT T B) := MkTimed (with_backend b (item s)) (readings s).

Lemma on_parts_timer_ok {A} (op : StateM B A) msg s x b :
  op (sbk s) = (Ok x, b) → new_expect msg op s = (Ok x, set_sbk b s).
Proof.
  intros E. unfold new_expect, on_parts, on_timer, sb_expect, zoom, on_outcome. unfold sbk, backend_of in E.
  by rewrite E.
Qed.
Lemma node_register_ok {A} (op : StateM B A) (t : TimerEnv T B) x b :
  op (sb t) = (Ok x, b) → sb_register op t = (Ok x, set_sb b t).
Proof. intros E. unfold sb_register, sb_expect, zoom, on_outcome. by rewrite E. Qed.

Ltac frame_all C :=
  repeat match goal with
  | S : stored _ _ ?b _ _ |- _ => match type of C with changes _ b _ =>
      eapply stored_frame in S; [|exact C|by apply id_neq] end
  | S : holds _ ?b _ _ |- _ => match type of C with changes _ b _ =>
      eapply holds_frame in S; [|exact C|by apply id_neq] end
  end.
Lemma register_node_states_ok s o :
  backend_ok (sbk s) → persisted (sbk s) o →
  ∃ b, register_node_states fresh_state s = (Ok registered_state, set_sbk b s) ∧
    changes node_ids (sbk s) b ∧ backend_ok b ∧ holds_found b registered_state (found_of o).
Proof.
  intros Hok (S1 & S2 & S3 & S4 & S5).
  destruct (register_map_holds _ _ _ Hok S1) as (b1 & E1 & Hok1 & C1 & H1'). frame_all C1.
  destruct (register_value_holds _ _ _ Hok1 S2) as (b2 & E2 & Hok2 & C2 & H2'). frame_all C2.
  destruct (register_value_holds _ _ _ Hok2 S3) as (b3 & E3 & Hok3 & C3 & H3'). frame_all C3.
  destruct (register_map_holds _ _ _ Hok3 S4) as (b4 & E4 & Hok4 & C4 & H4'). frame_all C4.
  destruct (register_vec_holds _ _ _ Hok4 S5) as (b5 & E5 & Hok5 & C5 & H5'). frame_all C5.
  exists b5. split; [|split; [|split; [done|by split]]].
  - set (t := tenv (item s)) in *.
    assert (E : (w ← sb_register (register_map_handle (watermarks fresh_state));
      cw ← sb_register (register_value_handle (current_watermark fresh_state));
      ce ← sb_register (register_value_handle (current_epoch fresh_state));
      bc ← sb_register (register_map_handle (blocked_channels fresh_state));
      mb ← sb_register (register_vec_handle (message_buffer fresh_state));
      mret (MkNodeState w cw ce bc mb)) t = (Ok registered_state, set_sb b5 t)).
    { step_ok (node_register_ok _ t _ _ E1). step_ok (node_register_ok _ (set_sb b1 t) _ _ E2).
      step_ok (node_register_ok _ (set_sb b2 t) _ _ E3). step_ok (node_register_ok _ (set_sb b3 t) _ _ E4).
      by step_ok (node_register_ok _ (set_sb b4 t) _ _ E5). }
    unfold register_node_states, on_parts, on_timer, zoom. fold t. by rewrite E.
  - unfold node_ids. repeat (etrans; [eapply changes_weaken; [|eassumption]; cbn; set_solver|]). done.
Qed.

(** ** Initial values *)

Abbreviation reg := (registered_state (IN:=IN)).
(** [m] returns, changes at most what nodes store, and [f] is what they find then. *)
Definition sets (m : M (Timed (OpEnv OUT T B)) Error unit) s (f : Found) : Prop :=
  ∃ b, m s = (Ok tt, set_sbk b s) ∧ changes node_ids (sbk s) b ∧ holds_found b reg f.
Lemma sets_bind m k s f f' :
  sets m s f → (∀ b, holds_found b reg f → sets k (set_sbk b s) f') → sets (m ;; k) s f'.
Proof.
  intros (b & E & Hc & Hf) Hk. destruct (Hk b Hf) as (b' & E' & Hc' & Hf'). exists b'.
  split; [step_ok E; by rewrite E'|]. split; [by etrans|done].
Qed.
Lemma holds_found_read b b' f : changes ∅ b b' → holds_found b reg f → holds_found b' reg f.
Proof. intros Hc []. by split; eapply holds_frame. Qed.
Lemma reg_ids :
  {[h_id (watermarks reg)]} ⊆ node_ids ∧ {[h_id (current_watermark reg)]} ⊆ node_ids ∧
  {[h_id (current_epoch reg)]} ⊆ node_ids.
Proof. unfold node_ids. cbn. set_solver. Qed.

Definition missing (l : list NodeID) : gmap NodeID Watermark := a_watermarks (initial (IN:=IN) l).
Lemma missing_cons k l : missing (k :: l) = {[k := MkWatermark 0]} ∪ missing l.
Proof. unfold missing. cbn. by rewrite insert_union_singleton_l. Qed.
Definition with_watermarks (m : gmap NodeID Watermark) (f : Found) : Found :=
  MkFound m (f_watermark f) (f_epoch f) (f_blocked f) (f_buffer f).
Lemma init_channel_sets k s f :
  holds_found (sbk s) reg f →
  sets (init_channel reg k) s (with_watermarks (f_watermarks f ∪ {[k := MkWatermark 0]}) f).
Proof.
  intros Hf. destruct (map_contains_runs _ _ _ k (hf_watermarks _ _ _ Hf)) as (b & E & Hc & _).
  pose proof (holds_found_read _ _ _ Hc Hf) as Hf1. unfold init_channel, sets. step_ok (on_parts_timer_ok _ "Could not check watermarks" s _ _ E).
  assert (Hc' : changes node_ids (sbk s) b) by (eapply changes_weaken; [|exact Hc]; set_solver).
  case_bool_decide as Hin.
  - exists b. split; [done|]. split; [done|]. destruct Hf1. split; try done. cbn.
    replace (f_watermarks f ∪ {[k := MkWatermark 0]}) with (f_watermarks f); [done|]. symmetry. apply map_eq. intros j.
    rewrite lookup_union. destruct Hin as [x Hx]. destruct (decide (j = k)) as [->|Hne].
    + by rewrite Hx, union_Some_l.
    + rewrite lookup_singleton_ne by done. by rewrite (right_id_L None (∪)).
  - destruct (map_fast_insert_runs _ b _ k (MkWatermark 0) (hf_watermarks _ _ _ Hf1)) as (b2 & E2 & Hc2 & Hm).
    exists b2. split; [by rewrite (on_parts_timer_ok _ _ (set_sbk b s) _ _ E2)|]. split.
    + etrans; [exact Hc'|]. eapply changes_weaken; [|exact Hc2]. apply reg_ids.
    + destruct Hf1. frame_all Hc2. split; try done. cbn.
      replace (f_watermarks f ∪ {[k := MkWatermark 0]}) with (<[k := MkWatermark 0]> (f_watermarks f)); [done|].
      rewrite insert_union_singleton_r; [done|]. by apply eq_None_not_Some.
Qed.
Lemma init_channels_set l s f :
  holds_found (sbk s) reg f →
  sets (for_each (init_channel reg) l) s (with_watermarks (f_watermarks f ∪ missing l) f).
Proof.
  revert s f. induction l as [|c l IH]; intros s f Hf; cbn [for_each].
  - exists (sbk s). split; [by destruct s as [[? ? []]]|]. split; [done|]. unfold missing. cbn.
    destruct f. unfold with_watermarks. cbn. by rewrite (right_id_L ∅ (∪)).
  - eapply sets_bind; [by apply init_channel_sets|]. intros b Hb.
    destruct (IH (set_sbk b s) _ Hb) as (b' & E & Hc & Hf'). exists b'. split; [done|]. split; [done|].
    unfold with_watermarks in Hf' |- *. cbn [f_watermarks f_watermark f_epoch f_blocked f_buffer] in Hf'.
    rewrite <- (assoc_L (∪)), <- missing_cons in Hf'. exact Hf'.
Qed.
Lemma init_watermark_sets s f :
  holds_found (sbk s) reg f →
  sets (init_watermark reg) s (MkFound (f_watermarks f) (Some (default (MkWatermark 0) (f_watermark f))) (f_epoch f)
    (f_blocked f) (f_buffer f)).
Proof.
  intros Hf. destruct (value_get_runs _ _ _ (hf_watermark _ _ _ Hf)) as (b & E & Hc & _).
  pose proof (holds_found_read _ _ _ Hc Hf) as Hf1. unfold init_watermark, sets. step_ok (on_parts_timer_ok _ "watermark get error" s _ _ E).
  assert (Hc' : changes node_ids (sbk s) b) by (eapply changes_weaken; [|exact Hc]; set_solver).
  destruct (f_watermark f) as [w|] eqn:Hw; cbn [default].
  - exists b. split; [done|]. split; [done|]. destruct Hf1. split; try done. by rewrite Hw in *.
  - destruct (value_set_runs _ b _ (MkWatermark 0) (hf_watermark _ _ _ Hf1)) as (b2 & E2 & Hc2 & Hm).
    exists b2. split; [by step_ok (on_parts_timer_ok _ "watermark set error" (set_sbk b s) _ _ E2)|]. split.
    + etrans; [exact Hc'|]. eapply changes_weaken; [|exact Hc2]. apply reg_ids.
    + destruct Hf1. frame_all Hc2. by split.
Qed.
Lemma init_epoch_sets s f :
  holds_found (sbk s) reg f →
  sets (init_epoch reg) s (MkFound (f_watermarks f) (f_watermark f) (Some (default (MkEpoch 0) (f_epoch f)))
    (f_blocked f) (f_buffer f)).
Proof.
  intros Hf. destruct (value_get_runs _ _ _ (hf_epoch _ _ _ Hf)) as (b & E & Hc & _).
  pose proof (holds_found_read _ _ _ Hc Hf) as Hf1. unfold init_epoch, sets. step_ok (on_parts_timer_ok _ "current epoch get error" s _ _ E).
  assert (Hc' : changes node_ids (sbk s) b) by (eapply changes_weaken; [|exact Hc]; set_solver).
  destruct (f_epoch f) as [w|] eqn:Hw; cbn [default].
  - exists b. split; [done|]. split; [done|]. destruct Hf1. split; try done. by rewrite Hw in *.
  - destruct (value_set_runs _ b _ (MkEpoch 0) (hf_epoch _ _ _ Hf1)) as (b2 & E2 & Hc2 & Hm).
    exists b2. split; [by step_ok (on_parts_timer_ok _ "current epoch set error" (set_sbk b s) _ _ E2)|]. split.
    + etrans; [exact Hc'|]. eapply changes_weaken; [|exact Hc2]. apply reg_ids.
    + destruct Hf1. frame_all Hc2. by split.
Qed.

(** ** The operator, the timer and the metrics *)

(** From [c], the operator and the timer register and initialise themselves, which makes the operator
    [op'], without touching what nodes store and whatever is stored there in between. *)
Definition starts (op op' : OP) (parts : OpEnv OUT T B → Prop) c : Prop :=
  ∃ op1 c1,
    (op1 ← on_session (op_register_states op); on_timer timer_register_states ;; on_timer timer_init ;; mret op1) c =
      (Ok op1, c1) ∧ untouched node_ids (backend_of c) (backend_of c1) ∧
    ∀ b, changes node_ids (backend_of c1) b → ∃ c2,
      on_session (op_init op1) (with_backend b c1) = (Ok op', c2) ∧ untouched node_ids b (backend_of c2) ∧
      parts c2 ∧ 0 ≤ strategy_num_channels (strategy c2) < 2 ^ 128.

Lemma on_parts_bind {A A'} (m : M (OpEnv OUT T B) Error A) (k : A → M (OpEnv OUT T B) Error A') s :
  (on_parts m ≫= λ x, on_parts (k x)) s = on_parts (m ≫= k) s.
Proof using Type.
  unfold on_parts, zoom, mbind, M_bind. destruct (m (item s)) as [[x| | |] c]; [|done..]. cbn. by destruct (k x c).
Qed.
Lemma on_parts_ret {A} (x : A) s : on_parts (mret x) s = (Ok x, s).
Proof using Type. by destruct s. Qed.
Lemma holds_found_untouched b b' f : untouched node_ids b b' → holds_found b reg f → holds_found b' reg f.
Proof.
  intros Hu Hf.
  assert (Hh : ∀ {S X} (Rep : Region → bytes → X → Prop) (h : Handle S unit unit) x,
    h_id h ∈ node_ids → holds Rep b h x → holds Rep b' h x).
  { intros S X Rep h x Hid [Hreg (r & Hr & Hx)]. split; [done|]. exists r. by rewrite Hu. }
  destruct Hf. split; (apply Hh; [unfold node_ids; cbn; set_solver|done]).
Qed.

Lemma init_metrics_ok (channels : list NodeID) s :
  is_Some (system_time (readings s)) → len channels < 2 ^ 128 →
  0 ≤ strategy_num_channels (strategy (item s)) < 2 ^ 128 →
  ∃ m, init_metrics channels s = (Ok m, MkTimed (item s) (S (readings s))) ∧
    Counter.counter (watermark_counter m) = 0 ∧ Counter.counter (epoch_counter m) = 0.
Proof using Type.
  intros [t Ht] Hc Hs. unfold init_metrics, get_st. erewrite bind_ok by done. cbv beta.
  erewrite bind_ok.
  2:{ unfold zoom, NodeMetrics_new, Meter.new, get_system_time_nano. unfold mbind at 1 2, M_bind at 1 2. cbn. rewrite Ht. reflexivity. }
  cbv beta. cbn [inbound_channels outbound_channels]. unfold Gauge.inc_n, Gauge.new. cbn [Gauge.value].
  rewrite !u_add_ok by (unfold in_u; lia). cbn. by eexists.
Qed.

(** ** A new node *)

Lemma initial_range (l : list NodeID) : in_range (initial (IN:=IN) l).
Proof using Type.
  split; cbn; [|lia|lia|constructor]. intros k w [_ ->]%(initial_wm_lookup (IN:=IN)). cbn. lia.
Qed.
(** What the node starts with. *)
Lemma start_found (l : list NodeID) (o : option (NodeAbs IN)) b :
  (∀ a, o = Some a → lowest_inv l a) →
  let f := found_of o in let a := default (initial l) o in
  holds_found b reg (MkFound (f_watermarks f ∪ missing l) (Some (default (MkWatermark 0) (f_watermark f)))
    (Some (default (MkEpoch 0) (f_epoch f))) (f_blocked f) (f_buffer f)) →
  holds_found b reg (found_of (Some a)).
Proof.
  intros Hi. destruct o as [a|]; cbn.
  - replace (a_watermarks a ∪ missing l) with (a_watermarks a); [done|]. symmetry. apply map_eq. intros k.
    rewrite lookup_union. destruct (a_watermarks a !! k) as [w|] eqn:Hk; [apply union_Some_l|].
    destruct (missing l !! k) as [x|] eqn:Hx; [|done]. apply (initial_wm_lookup (IN:=IN)) in Hx as [Hl _].
    destruct (li_channels _ _ (Hi a eq_refl) k Hl). by rewrite Hk in *.
  - rewrite (left_id_L ∅ (∪)). done.
Qed.

Context (descriptor : string) (id : NodeID) (channels : list NodeID) (op op' : OP) (saved : Epoch → bool).
Context (parts : Z → OpEnv OUT T B → Prop).
Definition new_node : Node OP IN := MkNode descriptor id channels op' reg.
Context `{!NodeParts new_node saved parts}.

Lemma new_body_ok s o :
  (∀ a, o = Some a → lowest_inv channels a) → len channels < 2 ^ 128 → is_Some (system_time (readings s)) →
  backend_ok (sbk s) → persisted (sbk s) o →
  (∀ b, changes node_ids (sbk s) b →
    starts op op' (parts (wm_timestamp (a_watermark (default (initial channels) o)))) (with_backend b (item s))) →
  ∃ m s', (
    st ← register_node_states (NodeState_new IN);
    op ← on_parts (on_session (op_register_states op));
    on_parts (on_timer timer_register_states) ;;
    on_parts (on_timer timer_init) ;;
    for_each (init_channel st) channels ;;
    init_watermark st ;;
    init_epoch st ;;
    op ← on_parts (on_session (op_init op));
    m ← init_metrics channels;
    mret (MkNode descriptor id channels op st, MkRefCell m false)) s = (Ok (new_node, MkRefCell m false), s') ∧
    holds_found (sbk s') reg (found_of (Some (default (initial channels) o))) ∧
    parts (wm_timestamp (a_watermark (default (initial channels) o))) (item s') ∧
    Counter.counter (watermark_counter m) = 0 ∧ Counter.counter (epoch_counter m) = 0.
Proof.
  intros Hi Hlen Ht Hok Hp Hst. destruct (register_node_states_ok s o Hok Hp) as (b1 & E1 & C1 & Hok1 & F1).
  step_ok E1. destruct (Hst b1 C1) as (op1 & c1 & Es & U1 & Hinit).
  inv_bind Es. rename a into op1'. apply bind_inv_ok in Hk as ([] & c3 & Er & Hk).
  apply bind_inv_ok in Hk as ([] & c4 & Ei & Hk). injection Hk as -> ->.
  erewrite bind_ok by (unfold on_parts, zoom; cbn [item set_sbk]; rewrite Hm; reflexivity). cbv beta.
  erewrite bind_ok by (unfold on_parts, zoom; cbn [item]; rewrite Er; reflexivity). cbv beta.
  erewrite bind_ok by (unfold on_parts, zoom; cbn [item]; rewrite Ei; reflexivity). cbv beta. cbn [item readings].
  set (s1 := MkTimed c1 (readings s)). change (MkTimed c1 _) with s1.
  assert (F2 : holds_found (sbk s1) reg (found_of o)) by by eapply holds_found_untouched.
  destruct (init_channels_set channels s1 _ F2) as (b2 & E2 & C2 & F3). step_ok E2.
  destruct (init_watermark_sets (set_sbk b2 s1) _ F3) as (b3 & E3 & C3 & F4). step_ok E3.
  destruct (init_epoch_sets (set_sbk b3 (set_sbk b2 s1)) _ F4) as (b4 & E4 & C4 & F5). step_ok E4.
  destruct (Hinit b4) as (c5 & E5 & U5 & Hp5 & Hn5); [by etrans; [|exact C4]; etrans|].
  erewrite bind_ok by (unfold on_parts, zoom; cbn [item set_sbk]; unfold s1; cbn [item]; rewrite !with_backend_twice; rewrite E5; reflexivity).
  cbv beta. destruct (init_metrics_ok channels (MkTimed c5 (readings s)) Ht Hlen Hn5) as (m & E6 & Hm6).
  step_ok E6. exists m, (MkTimed c5 (S (readings s))). split; [done|]. split; [|split; [done|done]].
  apply start_found; [done|]. by eapply holds_found_untouched.
Qed.

Lemma node_new_ok s o :
  (∀ a, o = Some a → lowest_inv channels a ∧ in_range a) → channels ≠ [] → len channels < 2 ^ 128 →
  is_Some (system_time (readings s)) → backend_ok (sbk s) → persisted (sbk s) o →
  (∀ b, changes node_ids (sbk s) b →
    starts op op' (parts (wm_timestamp (a_watermark (default (initial channels) o)))) (with_backend b (item s))) →
  ∃ m s', Node_new descriptor id channels op s = (Ok (new_node, m), s') ∧
    node_rep new_node parts (λ _, True) false (spawn m s') (default (initial channels) o).
Proof.
  intros Hi Hne Hlen Ht Hok Hp Hst. set (s1 := set_sbk (session (sbk s)) s).
  assert (Hss : same_data (sbk s) (sbk s1)) by apply session_spec.
  destruct (new_body_ok s1 o) as (m & s2 & E & Hf & Hp2 & Hw & He); try done.
  - intros a Ha. by apply Hi.
  - by apply session_ok.
  - destruct Hp as (P1 & P2 & P3 & P4 & P5). assert (Hc : changes ∅ (sbk s) (sbk s1)) by by apply same_data_changes.
    split_and!; (eapply stored_frame; [exact Hc|set_solver|done]).
  - intros b Hb. apply (Hst b). etrans; [by apply same_data_changes|exact Hb].
  - exists (MkRefCell m false), (set_sbk (drop_session (sbk s2)) s2). split.
    { unfold Node_new, new_session. fold s1. change (MkTimed _ (readings s)) with s1. by rewrite E. }
    assert (Hds : changes ∅ (sbk s2) (drop_session (sbk s2))) by apply same_data_changes, drop_session_spec.
    apply (holds_found_read _ _ _ Hds) in Hf. set (a := default (initial channels) o) in *.
    assert (Ha : lowest_inv channels a ∧ in_range a).
    { unfold a. destruct o as [a'|]; [by apply Hi|]. split; [by apply initial_inv|apply initial_range]. }
    destruct Ha as [Hli Hir]. split; try done.
    + destruct Hf. by split.
    + cbn. apply (parts_frame (n:=new_node) (saved:=saved)); [done|]. eapply changes_weaken; [|exact Hds]. set_solver.
    + unfold wm_count. cbn. rewrite Hw. pose proof (ir_watermark _ Hir). lia.
    + unfold ep_count. cbn. rewrite He. pose proof (ir_epoch _ Hir). lia.
Qed.

(** C11: A new node starts without watermarks, epochs and blocked channels on an empty backend, and with
    everything that was stored on one that holds the state of a node. *)
Theorem node_new_restores s o :
  (∀ a, o = Some a → lowest_inv channels a ∧ in_range a) → channels ≠ [] → len channels < 2 ^ 128 →
  is_Some (system_time (readings s)) → backend_ok (sbk s) → persisted (sbk s) o →
  (∀ b, changes node_ids (sbk s) b →
    starts op op' (parts (wm_timestamp (a_watermark (default (initial channels) o)))) (with_backend b (item s))) →
  ∃ m s', Node_new descriptor id channels op s = (Ok (new_node, m), s') ∧
    node_rep new_node parts (λ _, True) false (spawn m s') (default (initial channels) o).
Proof. apply node_new_ok. Qed.
End start.

(** ** Starting on a restored backend *)

Section restart.
#[local] Set Default Proof Using "All".
Context `{BuildProfile, SystemTime, Receivers, Fuel, NodeConfig} {OP IN OUT TS T B : Type}.
Context `{Transport OUT, ArconType IN, ArconType OUT, BackendSpec B, TimerBackend T TS B}.
Context `{!Operator OP IN OUT TS T B}.
Context `{Key NodeID, !MessageLaws NodeID, Value Watermark, Value Epoch, Value unit, Value (RawArconMessage IN)}.
Context `{!MapSpec B NodeID Watermark unit unit, !MapSpec B NodeID unit unit unit}.
Implicit Types (s : NodeEnv OUT T B) (a : NodeAbs IN).
Context (n : Node OP IN) (saved : Epoch → bool) (parts : Z → OpEnv OUT T B → Prop) `{!NodeParts n saved parts}.

(** The state that a node stores is what the next one is given. *)
Lemma stores_persisted s a : stores n s a → persisted (bk s) (Some a).
Proof.
  intros Hs. pose proof (st_state _ _ _ Hs) as E. destruct Hs. rewrite E in *.
  assert (Hh : ∀ {S X} (Rep : Region → bytes → X → Prop) x0 (h h' : Handle S unit unit) x,
    h_id h = h_id h' → metakeys h = metakeys h' → holds Rep (bk s) h x → stored Rep x0 (bk s) h' x).
  { intros S X Rep x0 h h' x Hid Hmk [_ (r & Hr & Hx)]. unfold stored. rewrite <- Hid, Hr. by rewrite <- Hmk. }
  cbn [persisted]. split_and!; [eapply Hh; [| |exact st_watermarks]; done|
    eapply Hh; [| |exact st_watermark]; done|eapply Hh; [| |exact st_epoch]; done|
    eapply Hh; [| |exact st_blocked]; done|].
  assert (stored VecRep [] (bk s) (message_buffer fresh_state) (raw_message <$> a_buffer a)) as Hb
    by (eapply Hh; [| |exact st_buffer]; done).
  unfold stored in *. case_match; [by apply vec_stored|done].
Qed.

(** The periodic timer is set first. *)
Definition with_periodic s : NodeEnv OUT T B :=
  match node_metrics_interval with
  | Some interval => (schedule_periodic (interval mod 2 ^ 64) s).2
  | None => s
  end.
Lemma with_periodic_rep gate busy s a : node_rep n parts gate busy s a → node_rep n parts gate busy (with_periodic s) a.
Proof. intros Hr. unfold with_periodic. case_match; [|done]. destruct Hr. split; try done. by destruct nr_stores. Qed.
Lemma restart_refines s a :
  node_rep n parts (λ _, True) false s a →
  refines n parts (λ l, l = []) false (after_state_save n) s (on_restart (in_channels n) saved a).
Proof.
  intros Hr. apply (replay_refines n saved parts (λ l, l = []) false replay_nested 2); [done|done|].
  intros _ s1 a1 Hr1. by eapply (replay_nested_refines n saved parts 2).
Qed.

(** C12: A node that starts on a restored backend first handles the messages that were buffered when its
    state was saved, and counts its channels as unblocked; an error is logged. On a fresh backend it
    starts empty. *)
Theorem node_on_start s a :
  node_rep n parts (λ _, True) false s a →
  if was_restored (bk s) then
    let '(acts, v, a') := on_restart (in_channels n) saved a in
    ∃ o s', on_start n s = (o, s') ∧ performs n acts (with_periodic s) s' ∧
      if v is Crashed then o = Panic borrow_panic else o = Ok tt ∧ node_rep n parts (λ _, True) false s' a'
  else on_start n s = (Ok tt, with_periodic s).
Proof.
  intros Hr.
  assert (E0 : (match node_metrics_interval with
    | Some interval => schedule_periodic (interval mod 2 ^ 64) | None => mret tt end) s = (Ok tt, with_periodic s)).
  { unfold with_periodic. by case_match. }
  assert (Hrest : was_restored (sb (tenv (env (with_periodic s)))) = was_restored (bk s)).
  { unfold with_periodic. by case_match. }
  apply with_periodic_rep in Hr. set (s0 := with_periodic s) in *.
  assert (E1 : on_start n s = (if was_restored (bk s) then logged (with_session (after_state_save n)) else mret tt) s0).
  { unfold on_start. step_ok E0. unfold gets. erewrite bind_ok by done. cbv beta. by rewrite Hrest. }
  rewrite E1. destruct (was_restored (bk s)); [|done].
  destruct (session_refines n saved parts (λ _, True) (λ l, l = []) false (after_state_save n) s0 a _ Hr (λ s1, restart_refines s1 a))
    as (o & s1 & E & Hperf & Hv).
  unfold logged. rewrite E. destruct (on_restart (in_channels n) saved a) as [[acts v] a']. cbn in Hperf, Hv.
  destruct v.
  - destruct Hv as [-> Hr1]. exists (Ok tt), s1. split; [done|]. split; [done|]. split; [done|]. by eapply node_rep_gate.
  - destruct Hv as [[e ->] Hr1]. destruct (log_error_rep n parts (λ l, l = []) false e s1 a' Hr1) as (s2 & E2 & Hsl & Hr2).
    exists (Ok tt), s2. split; [done|]. split; [by eapply performs_silent_r|]. split; [done|]. by eapply node_rep_gate.
  - subst o. by exists (Panic borrow_panic), s1.
Qed.
End restart.

(** ** A node that starts *)

Section example.
Import NodeExample.
#[local] Set Default Proof Using "All".
Context `{NodeConfig} (r : bool).
#[local] Instance example_memory : Backend InMemory := reopened r.

Lemma example_starts b :
  starts example_op example_op (parts 0) (with_backend b (item (start_env InMemory_default))).
Proof. eexists _, _. split; [done|]. split; [done|]. intros b' _. eexists. split; [done|]. by split; [|split; [|cbn; lia]]. Qed.
Lemma start_with chs :
  chs ≠ [] → len chs < 2 ^ 128 →
  ∃ m s', Node_new "node" (MkNodeID 0) chs example_op (start_env InMemory_default) = (Ok (node_with chs, m), s') ∧
    node_rep (node_with chs) parts (λ _, True) false (spawn m s') (initial chs).
Proof.
  intros Hchs Hl. apply (node_new_ok "node" (MkNodeID 0) chs example_op example_op saving parts (start_env InMemory_default) None);
    try done. intros b _. apply example_starts.
Qed.
Lemma example_start :
  ∃ m s', Node_new "node" (MkNodeID 0) channels example_op (start_env InMemory_default) = (Ok (node, m), s') ∧
    node_rep node parts (λ _, True) false (spawn m s') (initial channels).
Proof. by apply start_with. Qed.
End example.

Section witnesses.
Import NodeExample.
#[local] Instance witness_config : NodeConfig := config.
Example node_new_restores_witness :
  ∃ m s', Node_new "node" (MkNodeID 0) channels example_op (start_env InMemory_default) = (Ok (node, m), s') ∧
    node_rep node parts (λ _, True) false (spawn m s') (initial channels).
Proof.
  apply (node_new_restores "node" (MkNodeID 0) channels example_op example_op saving parts (start_env InMemory_default) None);
    try done. intros b _. apply (example_starts false).
Defined.

#[local] Instance restored_memory : Backend InMemory := reopened true.
Example node_on_start_witness :
  ∃ s o s', node_rep node parts (λ _, True) false s (initial channels) ∧
    on_start node s = (o, s') ∧ performs node [] (with_periodic s) s' ∧ o = Ok tt ∧
    node_rep node parts (λ _, True) false s' (unblock (initial channels)).
Proof.
  destruct (example_start true) as (m & s1 & _ & Hr). pose proof (node_on_start node saving parts _ _ Hr) as Hs.
  destruct Hs as (o & s' & E & Hp & Ho & Hr'). by exists (spawn m s1), o, s'.
Defined.
End witnesses.
