(* ===== verification/NodeMessages.v ===== *)
(** Messages: a node that handles a sequence of them goes through the states of [NodeAbs.v] and performs
    the actions of that machine, from which its promises about time and epochs follow. *)

From S2P Require Import Prelude Error Allocator EventBuffer Pool Serialization StateBackend BackendClient InMemory Data Channel Timer Metrics Operator OperatorSpec Node NodeAbs NodeEpochs NodeSpec NodeExample NodeStart.
From Stdlib Require Import Sorting.Sorted.

(** ** The machine over a sequence of messages *)

Section run.
Context {IN : Type} (channels : list NodeID) (saved : Epoch → bool).
Abbreviation Batch := (NodeID * list (ArconEvent IN))%type.

(** The component logs an error and goes on with the next message; a panic ends it. *)
Fixpoint run (ms : list Batch) (a : NodeAbs IN) : list (Action IN) * bool * NodeAbs IN :=
  match ms with
  | [] => ([], false, a)
  | m :: ms' =>
      match on_message channels saved m a with
      | (acts, Crashed, a') => (acts, true, a')
      | (acts, _, a') => let '(acts', crashed, a'') := run ms' a' in (acts ++ acts', crashed, a'')
      end
  end.
Lemma run_each ms a acts a' :
  each (on_message channels saved) ms a = (acts, Done, a') → run ms a = (acts, false, a').
Proof.
  revert a acts. induction ms as [|m ms IH]; intros a acts; cbn; [by intros [= <- <-]|].
  destruct (on_message channels saved m a) as [[acts1 []] a1]; cbn; [|done..].
  destruct (each (on_message channels saved) ms a1) as [[acts2 v] a2] eqn:E. intros [= <- -> ->].
  by rewrite (IH a1 acts2 E).
Qed.
Lemma run_advances ms a :
  lowest_inv channels a → Forall (λ m, m.1 ∈ channels) ms →
  let '(acts, _, a') := run ms a in advances a acts a' ∧ lowest_inv channels a'.
Proof.
  intros Hi Hms. revert a Hi. induction Hms as [|m ms Hm Hms IH]; intros a Hi; cbn.
  { split; [apply advances_refl|done]. }
  pose proof (on_message_inv channels saved m a Hi Hm) as [Ha Hi1].
  destruct (on_message channels saved m a) as [[acts v] a1]. cbn in Ha, Hi1.
  pose proof (IH a1 Hi1) as Hrun. destruct (run ms a1) as [[acts2 crashed] a2].
  destruct v; [destruct Hrun; split; [by eapply advances_trans|done]..|done].
Qed.
End run.

Section messages.
#[local] Set Default Proof Using "All".
Context `{BuildProfile, SystemTime, Receivers, Fuel, NodeConfig} {OP IN OUT TS T B : Type}.
Context `{Transport OUT, ArconType IN, ArconType OUT, BackendSpec B, TimerBackend T TS B}.
Context `{!Operator OP IN OUT TS T B}.
Context `{Key NodeID, !MessageLaws NodeID, Value Watermark, Value Epoch, Value unit, Value (RawArconMessage IN)}.
Context `{!MapSpec B NodeID Watermark unit unit, !MapSpec B NodeID unit unit unit}.
Implicit Types (s : NodeEnv OUT T B) (a : NodeAbs IN).

(** Counting the events of a message does not fail. *)
Definition meter_returns : Prop := ∀ k (t : Timed Meter.Meter), (Meter.mark_n k t).1 = Ok tt.

Lemma mark_n_release : overflow_checks = false → (∀ k, is_Some (system_time k)) → meter_returns.
Proof using Type.
  intros Hp Hc k t. unfold Meter.mark_n.
  assert (Hw : ∀ w msg x, ∃ y, wrapping_or_panic (E:=Error) w msg x = Ok y).
  { intros. unfold wrapping_or_panic. rewrite Hp. case_bool_decide; by eexists. }
  assert (Ht : ∀ t, ∃ t', Meter.tick_if_necessary t = (Ok tt, t')).
  { intros t0. unfold Meter.tick_if_necessary, get_system_time_nano, mbind, M_bind, gets, lift, u_sub. cbn.
    destruct (Hc (readings t0)) as [x ->]. edestruct Hw as [y ->]. case_match; [|by eexists].
    edestruct Hw as [z ->]. by eexists. }
  assert (Hm : ∀ f t, (∀ m, ∃ m', f m = Ok m') → ∃ t', Meter.on_meter f t = (Ok tt, t')).
  { intros f t0 Hf. unfold Meter.on_meter, mbind, M_bind, gets, lift. destruct (Hf (item t0)) as [m' ->]. by eexists. }
  destruct (Ht t) as [t1 E1]. step_ok E1.
  edestruct (Hm (Meter.add_count k) t1) as [t2 E2].
  { intros m. unfold Meter.add_count, u_add. edestruct Hw as [y ->]. by eexists. }
  step_ok E2. edestruct (Hm (Meter.update_m1 k) t2) as [t3 E3].
  { intros m. unfold Meter.update_m1, EWMA.update, u_add. edestruct Hw as [y ->]. by eexists. }
  step_ok E3. edestruct (Hm (Meter.update_m5 k) t3) as [t4 E4].
  { intros m. unfold Meter.update_m5, EWMA.update, u_add. edestruct Hw as [y ->]. by eexists. }
  step_ok E4. edestruct (Hm (Meter.update_m15 k) t4) as [t5 E5].
  { intros m. unfold Meter.update_m15, EWMA.update, u_add. edestruct Hw as [y ->]. by eexists. }
  by rewrite E5.
Qed.

Section node.
Context (n : Node OP IN) (saved : Epoch → bool) (parts : Z → OpEnv OUT T B → Prop) `{!NodeParts n saved parts}.
Context (Hmeter : meter_returns).
Abbreviation channels := (in_channels n).
Abbreviation represents s a := (node_rep n parts (λ _, True) false s a).

Lemma record_ok k s a :
  represents s a → ∃ s', record_incoming_events k s = (Ok tt, s') ∧ silent s s' ∧ represents s' a.
Proof.
  intros Hr. unfold record_incoming_events, with_metrics. rewrite (nr_busy _ _ _ _ _ _ Hr).
  unfold on_throughput, zoom. cbn.
  pose proof (Hmeter k (MkTimed (inbound_throughput (cell (metrics s))) (clock s))) as Hm.
  destruct (Meter.mark_n k _) as [o t]. cbn in Hm. subst o. eexists. split; [done|].
  split; [by split|]. destruct Hr. split; try done. by destruct nr_stores.
Qed.

(** ** One message *)

Lemma message_refines m s a :
  represents s a → batch_ok n m → vec_fits (a_buffer a ++ [m]) →
  refines n parts (λ _, True) false (handle_message n (raw_message m)) s (on_message channels saved m a).
Proof.
  intros Hr Hm Hfit. pose proof Hm as [Hch Hev]. unfold handle_message. cbn [raw_sender raw_message raw_events].
  rewrite bool_decide_eq_true_2 by done.
  destruct (record_ok (len (wrap <$> m.2)) s a Hr) as (s1 & E1 & Hsl1 & Hr1).
  assert (refines n parts (λ _, True) false (with_session (
      blocked ← on_state (ActiveMap.contains (blocked_channels (state n)) m.1);
      if blocked : bool then on_state (ActiveVec.append (message_buffer (state n)) (raw_message m))
      else handle_events nesting n m.1 (wrap <$> m.2))) s1 (on_message channels saved m a)) as (o & s2 & E2 & Hperf & Hv).
  2:{ exists o, s2. split; [by step_ok E1|]. split; [by eapply performs_silent_l|done]. }
  apply (session_refines n saved parts (λ _, True) (λ _, True) false _ s1 a _ Hr1). intros s2 Hr2.
  destruct (read_wrote n s2 a _ _ (nr_stores _ _ _ _ _ _ Hr2)
    (map_contains_runs _ _ _ m.1 (st_blocked _ _ _ (nr_stores _ _ _ _ _ _ Hr2)))) as (s3 & E3 & W3).
  assert (Hr3 : represents s3 a) by (eapply (node_rep_wrote n saved parts); [exact Hr2|exact W3|done|done|apply Hr2..]).
  unfold on_message. destruct (a_blocked a !! m.1) as [x|] eqn:Hb.
  - destruct (buffer_append_ok n s3 a m (nr_stores _ _ _ _ _ _ Hr3) Hfit) as (s4 & E4 & W4).
    exists (Ok tt), s4. split; [step_ok E3; by rewrite bool_decide_eq_true_2|].
    split; [apply performs_silent; etrans; [apply W3|apply W4]|]. split; [done|].
    eapply (node_rep_wrote n saved parts); [exact Hr3|exact W4|done|done| | |done]; cbn.
    + destruct (nr_inv _ _ _ _ _ _ Hr3). split; try done. cbn. apply Forall_app. split; [done|]. by constructor.
    + destruct (nr_range _ _ _ _ _ _ Hr3). split; try done. cbn. apply Forall_app. split; [done|]. by constructor.
  - assert (refines n parts (λ _, True) false (handle_events nesting n m.1 (wrap <$> m.2)) s3
      (on_batch channels saved false (replay channels saved true) m a)) as (o & s4 & E4 & Hperf & Hv).
    { apply batch_refines; [done..|]. intros _ s5 a5 Hr5.
      apply (replay_refines n saved parts (λ _, True) true replay_nested 1); done. }
    exists o, s4. split; [step_ok E3; by rewrite bool_decide_eq_false_2 by by intros []|].
    split; [eapply performs_silent_l; [apply W3|done]|done].
Qed.

(** ** Sequences of messages *)

Lemma fits_cons (m : NodeID * list (ArconEvent IN)) ms a :
  vec_fits (a_buffer a ++ m :: ms) →
  vec_fits (a_buffer a ++ [m]) ∧ vec_fits (a_buffer (on_message channels saved m a).2 ++ ms).
Proof.
  pose proof (on_message_length channels saved m a). unfold vec_fits. rewrite !length_app. cbn [length]. lia.
Qed.
Lemma messages_refine ms s a :
  represents s a → Forall (batch_ok n) ms → vec_fits (a_buffer a ++ ms) →
  refines n parts (λ _, True) false (for_each (handle_message n) (raw_message <$> ms)) s
    (each (on_message channels saved) ms a).
Proof.
  intros Hr Hms. revert s a Hr. induction Hms as [|m ms Hm Hms IH]; intros s a Hr Hfit; [by apply (refines_ret n saved parts)|].
  apply fits_cons in Hfit as [Hfit Hfits]. cbn [fmap list_fmap for_each each].
  apply (refines_andthen n saved parts); [by apply message_refines|]. intros s1 Hr1. by apply IH.
Qed.
Lemma receive_refines m s a :
  represents s a → batch_ok n m → vec_fits (a_buffer a ++ [m]) →
  let '(acts, v, a') := on_message channels saved m a in
  ∃ o s', receive_local n (raw_message m) s = (o, s') ∧ performs n acts s s' ∧
    if v is Crashed then o = Panic borrow_panic else o = Ok tt ∧ represents s' a'.
Proof.
  intros Hr Hm Hfit. destruct (message_refines m s a Hr Hm Hfit) as (o & s1 & E & Hperf & Hv).
  destruct (on_message channels saved m a) as [[acts v] a']. cbn in Hperf, Hv.
  unfold receive_local, logged. rewrite E. destruct v.
  - destruct Hv as [-> Hr1]. by exists (Ok tt), s1.
  - destruct Hv as [[e ->] Hr1]. destruct (log_error_rep n parts (λ _, True) false e s1 a' Hr1) as (s2 & E2 & Hsl & Hr2).
    exists (Ok tt), s2. split; [done|]. by split; [eapply performs_silent_r|].
  - subst o. by exists (Panic borrow_panic), s1.
Qed.
Lemma run_refines ms s a :
  represents s a → Forall (batch_ok n) ms → vec_fits (a_buffer a ++ ms) →
  let '(acts, crashed, a') := run channels saved ms a in
  ∃ o s', for_each (receive_local n) (raw_message <$> ms) s = (o, s') ∧ performs n acts s s' ∧
    if crashed : bool then o = Panic borrow_panic else o = Ok tt ∧ represents s' a'.
Proof.
  intros Hr Hms. revert s a Hr. induction Hms as [|m ms Hm Hms IH]; intros s a Hr Hfit.
  { exists (Ok tt), s. split; [done|]. by split; [apply performs_silent|]. }
  apply fits_cons in Hfit as [Hfit Hfits]. cbn [run fmap list_fmap for_each]. pose proof (receive_refines m s a Hr Hm Hfit) as H1'.
  destruct (on_message channels saved m a) as [[acts v] a1]. destruct H1' as (o1 & s1 & E1 & Hperf1 & Hv1).
  pose proof (λ Hr1, IH s1 a1 Hr1 Hfits) as IH1. destruct (run channels saved ms a1) as [[acts2 crashed] a2].
  destruct v.
  1,2: destruct Hv1 as [-> Hr1]; destruct (IH1 Hr1) as (o2 & s2 & E2 & Hperf2 & Hv2); exists o2, s2;
    (split; [by step_ok E1|]); by split; [eapply performs_app|].
  subst o1. exists (Panic borrow_panic), s1. by split; [erewrite bind_panic by exact E1|].
Qed.

Lemma holds_value_inj {T'} `{Value T'} (b : B) (h : Handle (ValueState T') unit unit) x y :
  holds_value b h x → holds_value b h y → x = y.
Proof.
  intros Hx Hy. destruct (value_get_runs h b x Hx) as (b1 & E1 & _), (value_get_runs h b y Hy) as (b2 & E2 & _). congruence.
Qed.

(** ** The promises *)

(** C1: From a state that represents [a], a node that is sent messages of its channels performs the actions of
    the machine, in order, and ends in the state of the machine; only where the machine crashes does it
    panic.  What the node drives is assumed to return: [NodeParts] says so of the operator, the timer,
    the strategy and the backend's checkpoint, which may fail with an error, and [meter_returns] of the
    meters, which it does without overflow checks and with a clock that can be read ([mark_n_release]).
    An error, as that of a failed checkpoint, is logged and the node goes on. *)
Theorem node_implements_machine ms s a :
  represents s a → Forall (batch_ok n) ms → vec_fits (a_buffer a ++ ms) →
  let '(acts, crashed, a') := run channels saved ms a in
  ∃ o s', for_each (receive_local n) (raw_message <$> ms) s = (o, s') ∧ performs n acts s s' ∧
    if crashed : bool then o = Panic borrow_panic else o = Ok tt ∧ represents s' a'.
Proof. apply run_refines. Qed.

(** C2: Event time moves forward: the forwarded watermarks and epochs increase strictly, no element reaches the
    operator that is not ahead of every watermark forwarded before it, and the current watermark is
    always the lowest of the watermarks of the channels; for a node whose operator, timer, strategy and
    meters return ([NodeParts], [meter_returns]). *)
Theorem node_event_time ms s a :
  represents s a → Forall (batch_ok n) ms → vec_fits (a_buffer a ++ ms) →
  ∃ o s' acts, for_each (receive_local n) (raw_message <$> ms) s = (o, s') ∧ performs n acts s s' ∧
    StronglySorted (λ x y, wm_timestamp x < wm_timestamp y) (a_watermark a :: forwarded_watermarks acts) ∧
    StronglySorted (λ x y, epoch x < epoch y) (a_epoch a :: forwarded_epochs acts) ∧
    (∀ pre e post, acts = pre ++ ActElement e :: post →
      Forall (λ w, wm_timestamp w < event_time e) (a_watermark a :: forwarded_watermarks pre)) ∧
    (o = Ok tt → ∃ w ws,
      holds_value (bk s') (current_watermark (state n)) (Some w) ∧
      holds_map (bk s') (watermarks (state n)) ws ∧
      (∀ c x, ws !! c = Some x → wm_timestamp w ≤ wm_timestamp x) ∧
      (∃ c x, ws !! c = Some x ∧ wm_timestamp x = wm_timestamp w)).
Proof.
  intros Hr Hms Hfit. pose proof (run_refines ms s a Hr Hms Hfit) as Hrun.
  pose proof (run_advances channels saved ms a (nr_inv _ _ _ _ _ _ Hr)) as Hadv.
  assert (Hch : Forall (λ m, m.1 ∈ channels) ms) by (eapply Forall_impl; [exact Hms|]; by intros m []).
  specialize (Hadv Hch). destruct (run channels saved ms a) as [[acts crashed] a'].
  destruct Hrun as (o & s' & E & Hperf & Hv), Hadv as [Ha Hi]. exists o, s', acts.
  split; [done|]. split; [done|]. split; [|split; [|split]].
  - constructor; [apply Ha|]. eapply Forall_impl; [apply (ad_bounds _ _ _ Ha)|]. cbn. lia.
  - constructor; [apply Ha|]. eapply Forall_impl; [apply (ad_epoch_bounds _ _ _ Ha)|]. cbn. lia.
  - intros pre e post Heq. constructor; by eapply ad_elements.
  - intros ->. destruct crashed; [done|]. destruct Hv as [_ Hr'].
    destruct (nr_stores _ _ _ _ _ _ Hr'). exists (a_watermark a'), (a_watermarks a'). by destruct Hi.
Qed.

(** C3: Epochs are aligned: until an epoch completes, the node handles the messages up to the barriers of their
    senders as if there were no others, and holds back the rest in the order of arrival; for a node whose
    operator, timer, strategy and meters return ([NodeParts], [meter_returns]). *)
Theorem node_alignment ms s a s' :
  represents s a → Forall (batch_ok n) ms → vec_fits (a_buffer a ++ ms) →
  for_each (handle_message n) (raw_message <$> ms) s = (Ok tt, s') →
  holds_value (bk s') (current_epoch (state n)) (Some (a_epoch a)) →
  let '(direct, held) := split_barriers (a_epoch a) (dom (a_blocked a)) ms in
  ∃ acts a', performs n acts s s' ∧ represents s' a' ∧ a_buffer a' = a_buffer a ++ held ∧
    each (on_batch channels saved false (replay channels saved true)) direct (set_buffer [] a) =
      (acts, Done, set_buffer [] a').
Proof.
  intros Hr Hms Hfit E He. destruct (messages_refine ms s a Hr Hms Hfit) as (o & s1 & E1 & Hperf & Hv).
  rewrite E1 in E. simplify_eq. pose proof (aligns channels saved ms a) as Hal.
  destruct (each (on_message channels saved) ms a) as [[acts v] a']. cbn in Hv, Hperf.
  destruct v; [|by destruct Hv as [[]]|done]. destruct Hv as [_ Hr'].
  assert (a_epoch a' = a_epoch a) as Hep.
  { pose proof (holds_value_inj _ _ _ _ He (st_epoch _ _ _ (nr_stores _ _ _ _ _ _ Hr'))). congruence. }
  destruct (Hal acts a' (nr_inv _ _ _ _ _ _ Hr)) as [Hd Hb]; [|done|done|].
  { eapply Forall_impl; [exact Hms|]. by intros m []. }
  destruct (split_barriers _ _ ms) as [direct held]. by exists acts, a'.
Qed.

(** C10: Epochs complete, where the checkpoint of the epoch succeeds ([saved e]) and operator, timer, strategy and
    meters return ([NodeParts], [meter_returns]).  From a state in which the epoch is ahead, some channel
    is not blocked and what is held back is benign ([aligning]), when every channel sends the barrier and
    every message is that barrier alone or elements only ([benign]), the node saves its state once,
    forwards the epoch once, and unblocks its channels. *)
Theorem node_epoch_completes e ms s a :
  represents s a → Forall (batch_ok n) ms → vec_fits (a_buffer a ++ ms) → NoDup channels → saved e = true → aligning channels e a →
  Forall (benign e) ms → (∀ c, c ∈ channels → (c, [EvEpoch e]) ∈ ms) →
  ∃ s' acts, for_each (handle_message n) (raw_message <$> ms) s = (Ok tt, s') ∧ performs n acts s s' ∧
    forwarded_epochs acts = [e] ∧ checkpoints acts = [e] ∧
    holds_value (bk s') (current_epoch (state n)) (Some e) ∧
    holds_map (bk s') (blocked_channels (state n)) (∅ : gmap NodeID unit) ∧ holds_vec (bk s') (message_buffer (state n)) [].
Proof.
  intros Hr Hms Hfit Hnd Hs Ha Hb Hall. destruct (messages_refine ms s a Hr Hms Hfit) as (o & s1 & E1 & Hperf & Hv).
  destruct (epoch_completes channels saved e ms a Hnd Hs Ha Hb Hall) as (acts & a' & E & Hf & Hk & He & Hbl & Hbuf).
  rewrite E in Hperf, Hv. cbn in Hperf, Hv. destruct Hv as [-> Hr']. exists s1, acts. do 2 (split; [done|]).
  destruct a' as [ws w e' bl buf]. cbn in He, Hbl, Hbuf. subst.
  split; [done|]. split; [done|]. destruct (nr_stores _ _ _ _ _ _ Hr') as [_ _ _ Hep Hblk Hvec]. done.
Qed.

(** C37: A failed checkpoint leaves the node stuck: all channels stay blocked, and whatever it is sent afterwards
    is put into the buffer; for a node whose operator, timer, strategy and meters return. *)
Theorem node_failed_checkpoint m ms s a s' err :
  represents s a → NoDup channels → batch_ok n m → Forall (batch_ok n) ms → vec_fits (a_buffer a ++ m :: ms) →
  handle_message n (raw_message m) s = (Err err, s') →
  ∃ s'' buffer, for_each (handle_message n) (raw_message <$> ms) s' = (Ok tt, s'') ∧ performs n [] s' s'' ∧
    holds_vec (bk s') (message_buffer (state n)) buffer ∧
    holds_vec (bk s'') (message_buffer (state n)) (buffer ++ (raw_message <$> ms)).
Proof.
  intros Hr Hnd Hm Hms [Hfit Hfits]%fits_cons E. destruct (message_refines m s a Hr Hm Hfit) as (o & s1 & E1 & _ & Hv).
  rewrite E1 in E. simplify_eq. pose proof (failed_wedges channels saved m a) as Hw.
  destruct (on_message channels saved m a) as [[acts v] a']. cbn in Hv.
  destruct v; [by destruct Hv| |done]. destruct Hv as [_ Hr'].
  destruct (messages_refine ms s' a' Hr' Hms Hfits) as (o2 & s2 & E2 & Hperf & Hv2).
  assert (Hch : Forall (λ m, m.1 ∈ channels) ms) by (eapply Forall_impl; [exact Hms|]; by intros ? []).
  rewrite (Hw acts a' ms Hnd (nr_inv _ _ _ _ _ _ Hr) (proj1 Hm) eq_refl Hch) in Hperf, Hv2.
  destruct Hv2 as [-> Hr2]. exists s2, (raw_message <$> a_buffer a'). do 2 (split; [done|]).
  split; [apply (nr_stores _ _ _ _ _ _ Hr')|]. rewrite <- fmap_app. apply (nr_stores _ _ _ _ _ _ Hr2).
Qed.

(** A watermark that was buffered and would advance the node makes it panic when the epoch completes,
    since the metrics are still mutably borrowed while the buffer is handled. *)
Theorem node_buffered_watermark_panics s a c e sender w w' evs rest :
  represents s a → c ∈ channels → a_blocked a !! c = None → epoch (a_epoch a) < epoch e < 2 ^ 64 →
  Z.of_nat (size (<[c := tt]> (a_blocked a))) = len channels → saved e = true →
  a_buffer a = (sender, EvWatermark w :: evs) :: rest → len (a_buffer a) + 1 < 2 ^ 64 →
  (react channels sender (EvWatermark (A:=IN) w) a).2 = Advance w' →
  ∃ s', handle_message n (raw_message (c, [EvEpoch e])) s = (Panic "already borrowed: BorrowMutError", s').
Proof.
  intros Hr Hc Hb He Hsz Hs Hbuf Hfit Hadv.
  destruct (buffered_watermark_crashes channels saved a c e sender w w' evs rest) as (acts & a' & E); [done|lia|done..|].
  destruct (message_refines (c, [EvEpoch e]) s a Hr) as (o & s1 & E1 & _ & Hv).
  { split; [done|]. constructor; [|done]. cbn. pose proof (ir_epoch _ (nr_range _ _ _ _ _ _ Hr)). lia. }
  { unfold vec_fits. rewrite length_app. cbn [length]. lia. }
  rewrite E in Hv. cbn in Hv. subst o. by exists s1.
Qed.
End node.

(** A message from a sender that is no channel of the node is refused before anything is counted. *)
Lemma foreign_message_refused (n : Node OP IN) message s :
  raw_sender message ∉ in_channels n →
  handle_message n message s = (Err (new_arcon "Message from invalid sender"), s).
Proof using Type. intros Hs. unfold handle_message. by rewrite bool_decide_eq_false_2. Qed.
End messages.

(** ** A node at work *)

Section witnesses.
Import NodeExample.
#[local] Instance witness_config : NodeConfig := config.
#[local] Instance witness_memory : Backend InMemory := reopened false.
Abbreviation Batch := (NodeID * list (ArconEvent Z))%type.
Abbreviation represents s a := (node_rep node parts (λ _, True) false s a).

Definition one : NodeID := MkNodeID 1.
Definition two : NodeID := MkNodeID 2.
Definition barrier_of (c : NodeID) : Batch := (c, [EvEpoch (MkEpoch 1)]).
Definition example_elements (c : NodeID) (ts w : Z) : Batch :=
  (c, [Element (with_timestamp 7 ts); EvWatermark (MkWatermark w)]).
Lemma example_meter : meter_returns.
Proof. apply mark_n_release; [done|]. intros k. by eexists. Qed.
Lemma one_channel : one ∈ channels.
Proof. apply (bool_decide_unpack _). by vm_compute. Qed.
Lemma two_channel : two ∈ channels.
Proof. apply (bool_decide_unpack _). by vm_compute. Qed.
Lemma elements_ok c ts w : c ∈ channels → 0 ≤ w < 2 ^ 64 → batch_ok node (example_elements c ts w).
Proof. intros. split; [done|]. repeat (apply Forall_cons; split); cbn; done || lia. Qed.
Lemma barrier_ok c : c ∈ channels → batch_ok node (barrier_of c).
Proof. intros. split; [done|]. repeat (apply Forall_cons; split); cbn; done || lia. Qed.
#[local] Hint Resolve one_channel two_channel : arcon.

Definition example_messages : list Batch :=
  [example_elements one 3 2; example_elements two 5 4; barrier_of one; example_elements two 6 5].
Lemma example_messages_ok : Forall (batch_ok node) example_messages.
Proof. repeat (apply Forall_cons; split); try done; (apply elements_ok || apply barrier_ok); auto with arcon; lia. Qed.

Example node_implements_machine_witness :
  ∃ s o s', represents s (initial channels) ∧
    for_each (receive_local node) (raw_message <$> example_messages) s = (o, s') ∧
    performs node (run channels saving example_messages (initial channels)).1.1 s s' ∧ o = Ok tt.
Proof.
  destruct (example_start false) as (m & s1 & _ & Hr). exists (spawn m s1).
  pose proof (node_implements_machine node saving parts example_meter example_messages _ _ Hr example_messages_ok eq_refl) as Hw.
  destruct (run _ _ _ _) as [[acts crashed] a'] eqn:E. vm_compute in E. injection E as <- <- <-.
  destruct Hw as (o & s' & E & Hp & Ho & _). by exists o, s'.
Defined.
Example node_event_time_witness :
  ∃ s o s' acts, represents s (initial channels) ∧
    for_each (receive_local node) (raw_message <$> example_messages) s = (o, s') ∧ performs node acts s s' ∧
    StronglySorted (λ x y, wm_timestamp x < wm_timestamp y) (MkWatermark 0 :: forwarded_watermarks acts).
Proof.
  destruct (example_start false) as (m & s1 & _ & Hr). exists (spawn m s1).
  destruct (node_event_time node saving parts example_meter example_messages _ _ Hr example_messages_ok eq_refl)
    as (o & s' & acts & E & Hp & Hw & _). by exists o, s', acts.
Defined.

Lemma example_run ms acts a' :
  Forall (batch_ok node) ms → vec_fits ms → each (on_message channels saving) ms (initial channels) = (acts, Done, a') →
  ∃ s s', represents s (initial channels) ∧ for_each (handle_message node) (raw_message <$> ms) s = (Ok tt, s') ∧
    represents s' a'.
Proof.
  intros Hms Hfit E. destruct (example_start false) as (m & s & _ & Hr). exists (spawn m s).
  destruct (messages_refine node saving parts example_meter ms _ _ Hr Hms Hfit) as (o & s' & E' & _ & Hv).
  change (in_channels node) with channels in Hv. rewrite E in Hv. destruct Hv as [-> Hr']. by exists s'.
Qed.
Definition held_messages : list Batch := [example_elements one 3 2; barrier_of one; example_elements one 6 5].
Lemma held_messages_ok : Forall (batch_ok node) held_messages.
Proof. repeat (apply Forall_cons; split); try done; (apply elements_ok || apply barrier_ok); auto with arcon; lia. Qed.
Example node_alignment_witness :
  ∃ s s' acts a', represents s (initial channels) ∧
    for_each (handle_message node) (raw_message <$> held_messages) s = (Ok tt, s') ∧
    performs node acts s s' ∧ represents s' a' ∧ a_buffer a' = [example_elements one 6 5].
Proof.
  destruct (each (on_message channels saving) held_messages (initial channels)) as [[acts v] a'] eqn:E.
  vm_compute in E. injection E as <- <- <-.
  destruct (example_run held_messages _ _ held_messages_ok eq_refl eq_refl) as (s & s' & Hr & E' & Hr').
  destruct (node_alignment node saving parts example_meter held_messages s _ s' Hr held_messages_ok eq_refl E')
    as (acts & a' & Hp & Ha & Hb & _); [apply (nr_stores _ _ _ _ _ _ Hr')|]. by exists s, s', acts, a'.
Defined.

Definition epoch_messages : list Batch := [barrier_of one; (two, [Element (with_timestamp 7 3)]); barrier_of two].
Example node_epoch_completes_witness :
  ∃ s s' acts, represents s (initial channels) ∧
    for_each (handle_message node) (raw_message <$> epoch_messages) s = (Ok tt, s') ∧ performs node acts s s' ∧
    forwarded_epochs acts = [MkEpoch 1] ∧ checkpoints acts = [MkEpoch 1].
Proof.
  destruct (example_start false) as (m & s & _ & Hr). exists (spawn m s).
  destruct (node_epoch_completes node saving parts example_meter (MkEpoch 1) epoch_messages _ _ Hr)
    as (s' & acts & E & Hp & Hf & Hc & _).
  - repeat (apply Forall_cons; split); try done; try apply barrier_ok; auto with arcon.
    split; [apply two_channel|]. by apply Forall_singleton.
  - done.
  - apply (bool_decide_unpack _). by vm_compute.
  - done.
  - split; [done|]. split; [apply Nat.ltb_lt; by vm_compute|done].
  - repeat (apply Forall_cons; split); try done; [by left|right; by apply Forall_singleton|by left].
  - intros c [->|[->|[]%elem_of_nil]%elem_of_cons]%elem_of_cons; [by left|by do 2 right; left].
  - by exists s', acts.
Defined.

Definition panic_messages : list Batch := [(one, [EvWatermark (MkWatermark 7)]); barrier_of two; (two, [EvWatermark (MkWatermark 5)])].
Lemma panic_messages_ok : Forall (batch_ok node) panic_messages.
Proof.
  repeat (apply Forall_cons; split); try done; (apply elements_ok || apply barrier_ok || (split; [|apply Forall_singleton]));
    auto with arcon; cbn; lia.
Qed.
Example node_buffered_watermark_panics_witness :
  ∃ s s', handle_message node (raw_message (barrier_of one)) s = (Panic "already borrowed: BorrowMutError", s').
Proof.
  destruct (each (on_message channels saving) panic_messages (initial channels)) as [[acts v] a'] eqn:E.
  vm_compute in E. injection E as <- <- <-.
  destruct (example_run panic_messages _ _ panic_messages_ok eq_refl eq_refl) as (s & s' & Hr & E' & Hr'). exists s'.
  apply (node_buffered_watermark_panics node saving parts example_meter s' _ one (MkEpoch 1) two (MkWatermark 5) (MkWatermark 5) [] []
    Hr'); [apply one_channel|done..].
Defined.
End witnesses.

Section wedged.
Import NodeExample.
#[local] Instance wedged_config : NodeConfig := no_checkpoints.
#[local] Instance wedged_memory : Backend InMemory := reopened false.
Definition wedging_messages : list (NodeID * list (ArconEvent Z)) := [barrier_of one; barrier_of two].
Lemma wedging_messages_ok : Forall (batch_ok node) wedging_messages.
Proof. repeat (apply Forall_cons; split); try done; apply barrier_ok; [apply one_channel|apply two_channel]. Qed.
Lemma example_wedged :
  ∃ s a s' err, node_rep node parts (λ _, True) false s a ∧ vec_fits (a_buffer a ++ barrier_of two :: wedging_messages) ∧
    handle_message node (raw_message (barrier_of two)) s = (Err err, s').
Proof.
  destruct (example_start false) as (m & s0 & _ & Hr).
  destruct (message_refines node saving parts example_meter (barrier_of one) _ _ Hr) as (o1 & s1 & E1 & _ & Hv1);
    [by apply barrier_ok, one_channel|done|].
  destruct (on_message (in_channels node) saving (barrier_of one) _) as [[acts v] a] eqn:Ea. vm_compute in Ea.
  injection Ea as <- <- <-. cbn [fst snd] in Hv1. destruct Hv1 as [_ Hr1].
  destruct (message_refines node saving parts example_meter (barrier_of two) _ _ Hr1) as (o2 & s2 & E2 & _ & Hv2);
    [by apply barrier_ok, two_channel|done|].
  destruct (on_message (in_channels node) saving (barrier_of two) _) as [[acts v] a] eqn:Ea. vm_compute in Ea.
  injection Ea as <- <- <-. cbn [fst snd] in Hv2. destruct Hv2 as [[err ->] _]. by eexists s1, _, s2, err; do 2 (split; [done|]).
Qed.
Example node_failed_checkpoint_witness :
  ∃ s s' err s'' buffer, handle_message node (raw_message (barrier_of two)) s = (Err err, s') ∧
    for_each (handle_message node) (raw_message <$> wedging_messages) s' = (Ok tt, s'') ∧ performs node [] s' s'' ∧
    holds_vec (bk s') (message_buffer (state node)) buffer ∧
    holds_vec (bk s'') (message_buffer (state node)) (buffer ++ (raw_message <$> wedging_messages)).
Proof.
  destruct example_wedged as (s & a & s' & err & Hr & Hfit & E). exists s, s', err.
  destruct (node_failed_checkpoint node saving parts example_meter (barrier_of two) wedging_messages s a s' err Hr)
    as (s'' & buffer & Hw); [|by apply barrier_ok, two_channel|exact wedging_messages_ok|exact Hfit|exact E|by exists s'', buffer].
  apply (bool_decide_unpack _). by vm_compute.
Defined.
End wedged.
