(* ===== verification/Source.v ===== *)
(** [arcon/src/stream/source]: the context that sources share, and the sources that read a collection, a
    file and a socket. *)

From S2P Require Import Prelude Error Files Allocator EventBuffer Pool Serialization StateBackend BackendClient Data Channel Timer Metrics Operator Node.

(** ** Text ([std]) *)

(** [str::trim], on the encodings of the characters with the property [White_Space]. *)
Definition white_space : list bytes :=
  [[9]; [10]; [11]; [12]; [13]; [32]; [194; 133]; [194; 160]; [225; 154; 128]] ++
  ((λ b, [226; 128; b]) <$> seqZ 128 11) ++ [[226; 128; 168]; [226; 128; 169]; [226; 128; 175]; [226; 129; 159]; [227; 128; 128]].
Fixpoint strip (p l : bytes) : option bytes :=
  match p, l with
  | [], _ => Some l
  | x :: p, y :: l => if x =? y then strip p l else None
  | _ :: _, [] => None
  end.
Fixpoint strip_any (ps : list bytes) (l : bytes) : option bytes :=
  match ps with
  | [] => None
  | p :: ps => match strip p l with Some l' => Some l' | None => strip_any ps l end
  end.
Fixpoint trim_while (fuel : nat) (ps : list bytes) (l : bytes) : bytes :=
  match fuel with
  | O => l
  | S fuel => match strip_any ps l with Some l' => trim_while fuel ps l' | None => l end
  end.
Definition trim (l : bytes) : bytes :=
  let l := trim_while (length l) white_space l in
  reverse (trim_while (length l) (reverse <$> white_space) (reverse l)).

(** [BufRead::lines]: the lines without their ends; [None] for a line that is not UTF-8. *)
Fixpoint split_lines (current l : bytes) : list bytes :=
  match l with
  | [] => match current with [] => [] | _ => [current] end
  | b :: l => if b =? 10 then (current ++ [b]) :: split_lines [] l else split_lines (current ++ [b]) l
  end.
Definition chomp (l : bytes) : bytes :=
  match reverse l with
  | 10 :: 13 :: r => reverse r
  | 10 :: r => reverse r
  | _ => l
  end.
Definition lines (content : bytes) : list (option bytes) :=
  (λ l, if utf8_valid l then Some (chomp l) else None) <$> split_lines [] content.

(** [FromStr], of which the code looks at the success alone. *)
Class FromStr (A : Type) := parse : bytes → option A.

(** ** The common context ([source/mod.rs]) *)

Record SourceContext (OP IN : Type) : Type := MkSourceContext {
  ts_extractor : option (IN → Z);
  src_watermark : Z;
  watermark_interval : Z;
  src_operator : OP;
}.
Arguments MkSourceContext {OP IN}.
Arguments ts_extractor {OP IN}.
Arguments src_watermark {OP IN}.
Arguments watermark_interval {OP IN}.
Arguments src_operator {OP IN}.
(** The strategy, the backend and the timer of the context, with the system clock. *)
Record SourceEnv (OP IN OUT T B : Type) : Type := MkSourceEnv {
  source_ctx : SourceContext OP IN;
  src_env : Timed (OpEnv OUT T B);
}.
Arguments MkSourceEnv {OP IN OUT T B}.
Arguments source_ctx {OP IN OUT T B}.
Arguments src_env {OP IN OUT T B}.

(** [util::get_system_time] *)
Definition get_system_time `{SystemTime} {A E} : M (Timed A) E Z := λ s,
  (match system_time (readings s) with
   | Some t => Ok ((t / 10 ^ 6) mod 2 ^ 64)
   | None => Panic "Time went backwards"
   end, MkTimed (item s) (S (readings s))).

Section source.
Context `{BuildProfile, Receivers, Fuel, SystemTime} {OP IN OUT TS T B : Type} `{Transport OUT, ArconType OUT}.
Context `{Backend B, TimerBackend T TS B, !Operator OP IN OUT TS T B}.
Abbreviation Env := (SourceEnv OP IN OUT T B).
Abbreviation SrcM := (M Env Error).
Abbreviation Strategy := (M (Timed (OpEnv OUT T B)) Error).

Definition SourceContext_new (interval : Z) (extractor : option (IN → Z)) (op : OP) : Strategy (SourceContext OP IN) :=
  new_session (
    op ← on_parts (on_session (op_register_states op));
    on_parts (on_timer timer_register_states) ;;
    op ← on_parts (on_session (op_init op));
    on_parts (on_timer timer_init) ;;
    mret (MkSourceContext extractor 0 interval op)).

Definition on_env {A} (m : Strategy A) : SrcM A := zoom src_env (λ e s, MkSourceEnv (source_ctx s) e) m.
Definition add_event (event : ArconEvent OUT) : SrcM unit := on_env (on_parts (output event)).
Definition has_timestamp_extractor (c : SourceContext OP IN) : bool := bool_decide (is_Some (ts_extractor c)).
Definition watermark_update (ts : Z) : SrcM unit := modify (λ s, let c := source_ctx s in
  MkSourceEnv (MkSourceContext (ts_extractor c) (if src_watermark c <? ts then ts else src_watermark c)
    (watermark_interval c) (src_operator c)) (src_env s)).

Definition generate_watermark : SrcM unit :=
  c ← gets source_ctx;
  (if has_timestamp_extractor c then mret tt
   else system_time ← on_env get_system_time; watermark_update system_time) ;;
  w ← gets (λ s, src_watermark (source_ctx s));
  add_event (EvWatermark (MkWatermark w)).
Definition generate_death (msg : string) : SrcM unit := add_event (Death msg).
Definition process (e : ArconElement IN) : SrcM unit :=
  c ← gets source_ctx;
  on_env (new_session (on_parts (handle_element (src_operator c) e))).
Definition extract_element (x : IN) : SrcM (ArconElement IN) :=
  c ← gets source_ctx;
  match ts_extractor c with
  | Some ts_fn => watermark_update (ts_fn x) ;; mret (MkArconElement x (Some (ts_fn x)))
  | None => mret (MkArconElement x None)
  end.
(** What every source does with a datum. *)
Definition process_datum (x : IN) : SrcM unit := elem ← extract_element x; process elem.
End source.

(** ** Collections ([source/collection.rs]) *)

Definition RESCHEDULE_EVERY : Z := 500000.

Module CollectionSource.
(** With the number of [ContinueSending]s that the loopback port has yet to deliver. *)
Record CollectionSource (OP IN OUT T B : Type) : Type := MkCollectionSource {
  source : SourceEnv OP IN OUT T B;
  collection : list IN;
  counter : Z;
  triggered : nat;
}.
Arguments MkCollectionSource {OP IN OUT T B}.
Arguments source {OP IN OUT T B}.
Arguments collection {OP IN OUT T B}.
Arguments counter {OP IN OUT T B}.
Arguments triggered {OP IN OUT T B}.

Section collection.
Context `{BuildProfile, Receivers, Fuel, SystemTime} {OP IN OUT TS T B : Type} `{Transport OUT, ArconType OUT}.
Context `{Backend B, TimerBackend T TS B, !Operator OP IN OUT TS T B}.
Abbreviation Source := (CollectionSource OP IN OUT T B).
Abbreviation ColM := (M Source Error).

Definition new (collection : list IN) (s : SourceEnv OP IN OUT T B) : Source := MkCollectionSource s collection 0 0.
Definition on_source {A} (m : M (SourceEnv OP IN OUT T B) Error A) : ColM A :=
  zoom source (λ x s, MkCollectionSource x (collection s) (counter s) (triggered s)) m.
Definition set_collection (l : list IN) : ColM unit :=
  modify (λ s, MkCollectionSource (source s) l (counter s) (triggered s)).
Definition set_counter (n : Z) : ColM unit :=
  modify (λ s, MkCollectionSource (source s) (collection s) n (triggered s)).
Definition trigger : ColM unit :=
  modify (λ s, MkCollectionSource (source s) (collection s) (counter s) (S (triggered s))).

Definition process_record (record : IN) : ColM unit :=
  on_source (process_datum record) ;;
  n ← gets counter;
  n ← lift (u_add 64 n 1);
  set_counter n ;;
  s ← gets source;
  if n =? watermark_interval (source_ctx s) then on_source generate_watermark ;; set_counter 0 else mret tt.
Definition process_collection : ColM unit :=
  l ← gets collection;
  let drain_to := Z.to_nat (Z.min RESCHEDULE_EVERY (len l)) in
  set_collection (drop drain_to l) ;;
  for_each process_record (take drain_to l) ;;
  rest ← gets collection;
  match rest with
  | [] => on_source generate_watermark
  | _ => trigger
  end.

Definition on_start : ColM unit := trigger.
(** The loopback port delivers what was triggered. *)
Definition continue_sending : ColM unit :=
  modify (λ s, MkCollectionSource (source s) (collection s) (counter s) (pred (triggered s))) ;;
  process_collection.
Fixpoint run (fuel : nat) : ColM unit :=
  match fuel with
  | O => lift Diverge
  | S fuel =>
      n ← gets triggered;
      match n with
      | O => mret tt
      | S _ => continue_sending ;; run fuel
      end
  end.
End collection.
End CollectionSource.

(** ** Files ([source/local_file.rs]) *)

(** What the file system has under a path: [None] for a file that cannot be opened. *)
Class FileSystem := file_content : string → option bytes.

Module LocalFileSource.
Record LocalFileSource (OP IN OUT T B : Type) : Type := MkLocalFileSource {
  source : SourceEnv OP IN OUT T B;
  file_path : string;
}.
Arguments MkLocalFileSource {OP IN OUT T B}.
Arguments source {OP IN OUT T B}.
Arguments file_path {OP IN OUT T B}.

Section file.
Context `{BuildProfile, Receivers, Fuel, SystemTime, FileSystem} {OP IN OUT TS T B : Type} `{Transport OUT, ArconType OUT}.
Context `{Backend B, TimerBackend T TS B, !Operator OP IN OUT TS T B, FromStr IN}.
Abbreviation SrcM := (M (SourceEnv OP IN OUT T B) Error).

Definition new (path : string) (s : SourceEnv OP IN OUT T B) : LocalFileSource OP IN OUT T B := MkLocalFileSource s path.
(** One line; the result is the counter.  What is not read or not parsed is logged. *)
Definition process_line (interval counter : Z) (line : option bytes) : SrcM Z :=
  match line with
  | Some l =>
      match parse l with
      | Some data =>
          process_datum (data : IN) ;;
          counter ← lift (u_add 64 counter 1);
          if counter =? interval then generate_watermark ;; mret 0 else mret counter
      | None => mret counter
      end
  | None => mret counter
  end.
Fixpoint process_lines (interval counter : Z) (l : list (option bytes)) : SrcM Z :=
  match l with
  | [] => mret counter
  | line :: l => counter ← process_line interval counter line; process_lines interval counter l
  end.
Definition process_file (path : string) : SrcM unit :=
  match file_content path with
  | Some content =>
      s ← gets source_ctx;
      process_lines (watermark_interval s) 0 (lines content) ;;
      generate_watermark
  | None => mret tt
  end.
Definition on_start : M (LocalFileSource OP IN OUT T B) Error unit := λ s,
  let '(o, x) := process_file (file_path s) (source s) in (o, MkLocalFileSource x (file_path s)).
End file.
End LocalFileSource.

(** ** Sockets ([source/socket.rs]) *)

Inductive SocketKind : Type := Tcp | Udp.
Inductive IOMessage : Type := Bytes (b : bytes) | SockClosed | SockErr.

Module SocketSource.
(** With the period of the watermarks and the kind of the listener, once they are started. *)
Record SocketSource (OP IN OUT T B : Type) : Type := MkSocketSource {
  source : SourceEnv OP IN OUT T B;
  sock_addr : string;
  sock_kind : SocketKind;
  watermark_period : option Z;
  listener : option (SocketKind * string);
}.
Arguments MkSocketSource {OP IN OUT T B}.
Arguments source {OP IN OUT T B}.
Arguments sock_addr {OP IN OUT T B}.
Arguments sock_kind {OP IN OUT T B}.
Arguments watermark_period {OP IN OUT T B}.
Arguments listener {OP IN OUT T B}.

Section socket.
Context `{BuildProfile, Receivers, Fuel, SystemTime} {OP IN OUT TS T B : Type} `{Transport OUT, ArconType OUT}.
Context `{Backend B, TimerBackend T TS B, !Operator OP IN OUT TS T B, FromStr IN}.
Abbreviation Source := (SocketSource OP IN OUT T B).

Definition new (addr : string) (kind : SocketKind) (s : SourceEnv OP IN OUT T B) : outcome Error Source :=
  if 0 <? watermark_interval (source_ctx s) then Ok (MkSocketSource s addr kind None None)
  else Panic "assertion failed: source_ctx.watermark_interval > 0".
Definition on_source (m : M (SourceEnv OP IN OUT T B) Error unit) : M Source Error unit :=
  zoom source (λ x s, MkSocketSource x (sock_addr s) (sock_kind s) (watermark_period s) (listener s)) m.
Definition on_start : M Source Error unit := modify (λ s,
  MkSocketSource (source s) (sock_addr s) (sock_kind s) (Some (watermark_interval (source_ctx (source s))))
    (Some (sock_kind s, sock_addr s))).
(** What the periodic timer runs. *)
Definition on_period : M Source Error unit := on_source generate_watermark.
Definition receive_local (msg : IOMessage) : M Source Error unit :=
  match msg with
  | Bytes bytes =>
      if utf8_valid bytes then
        match parse (trim bytes) with
        | Some in_data => on_source (process_datum (in_data : IN))
        | None => mret tt
        end
      else mret tt
  | SockClosed => mret tt
  | SockErr => mret tt
  end.
End socket.
End SocketSource.
