(* ===== verification/SourceSpec.v ===== *)
(** What sources send: the data in order, each handled by the operator, and a watermark after every
    interval and at the end, whatever the pieces the collection is processed in. *)

From S2P Require Import Prelude Error Files Allocator EventBuffer Pool Serialization StateBackend InMemory BackendClient Data Channel Timer Metrics Operator Node NodeExample Source.
From Stdlib Require Import Sorting.Sorted.
#[local] Open Scope Z_scope.

Lemma bind_same {S E A A'} (m : M S E A) (k k' : A → M S E A') s :
  (∀ x s', k x s' = k' x s') → (m ≫= k) s = (m ≫= k') s.
Proof. intros Hk. unfold mbind, M_bind. by destruct (m s) as [[] ?]. Qed.

(** ** A computation on a part of the state *)

Section follows.
Context {S X E : Type} {part : X → S}.
Implicit Types (c : X) (P Q : X → Prop).
(** [m] does with the part of [c] what [m'] does, and ends in [P] if it returns. *)
Definition follows_by (part : X → S) (m : M X E unit) (m' : M S E unit) c P : Prop :=
  (m c).1 = (m' (part c)).1 ∧ part (m c).2 = (m' (part c)).2 ∧ ((m c).1 = Ok tt → P (m c).2).
Abbreviation follows := (follows_by part).
Lemma follows_bind (m : M X E unit) (m' : M S E unit) (k : M X E unit) (k' : M S E unit) c P Q :
  follows m m' c P → (∀ c', P c' → follows k k' c' Q) → follows (m ;; k) (m' ;; k') c Q.
Proof using Type.
  intros (E1 & E2 & HP) Hk. unfold follows_by, mbind, M_bind. destruct (m c) as [o c1], (m' (part c)) as [o' s1].
  cbn in *. subst o'. destruct o as [[]| | |]; try done. specialize (HP eq_refl). destruct (Hk c1 HP) as (F1 & F2 & F3).
  subst s1. done.
Qed.
Lemma follows_weaken (m : M X E unit) (m' : M S E unit) c P Q : follows m m' c P → (∀ c', P c' → Q c') → follows m m' c Q.
Proof using Type. intros (E1 & E2 & HP) HQ. split; [done|]. split; [done|]. intros Hok. by apply HQ, HP. Qed.
Lemma follows_ret (m : M X E unit) (m' : M S E unit) c P : follows m (m' ;; mret tt) c P ↔ follows m m' c P.
Proof using Type.
  unfold follows_by. assert ((m' ;; mret tt) (part c) = m' (part c)) as ->; [|done].
  unfold mbind, M_bind. by destruct (m' _) as [[[]| | |] ?].
Qed.
Lemma follows_eq (m m2 : M X E unit) (m' : M S E unit) c P : m c = m2 c → follows m2 m' c P → follows m m' c P.
Proof using Type. unfold follows_by. by intros ->. Qed.
Lemma follows_from (m m2 : M X E unit) (m' : M S E unit) c c2 P : m c = m2 c2 → part c2 = part c → follows m2 m' c2 P → follows m m' c P.
Proof using Type. unfold follows_by. by intros -> ->. Qed.
Lemma follows_into (m : M X E unit) (m' m2' : M S E unit) c P : m' (part c) = m2' (part c) → follows m m2' c P → follows m m' c P.
Proof using Type. unfold follows_by. by intros ->. Qed.
End follows.

Section sources.
#[local] Set Default Proof Using "Type".
Context `{BuildProfile, Receivers, Fuel, SystemTime, FileSystem} {OP IN OUT TS T B : Type} `{Transport OUT, ArconType OUT}.
Context `{Backend B, TimerBackend T TS B, !Operator OP IN OUT TS T B, FromStr IN}.
Abbreviation Env := (SourceEnv OP IN OUT T B).
Abbreviation Col := (CollectionSource.CollectionSource OP IN OUT T B).
Implicit Types (s : Env) (c : Col) (l : list IN).

(** ** Scripts *)

(** What a source does with its context. *)
Inductive action : Type := Datum (x : IN) | Mark.
Definition act (a : action) : M Env Error unit :=
  match a with Datum x => process_datum x | Mark => generate_watermark end.
(** The data that remain after [n] of an interval [i]. *)
Definition due_mark (i n : Z) : list action := if n + 1 =? i then [Mark] else [].
Definition next (i n : Z) : Z := if n + 1 =? i then 0 else n + 1.
Fixpoint records (i n : Z) l : list action :=
  match l with
  | [] => []
  | x :: l => Datum x :: due_mark i n ++ records i (next i n) l
  end.
Fixpoint after (i n : Z) l : Z := match l with [] => n | _ :: l => after i (next i n) l end.
Definition script (i : Z) l : list action := records i 0 l ++ [Mark].
Lemma records_app i n l1 l2 : records i n (l1 ++ l2) = records i n l1 ++ records i (after i n l1) l2.
Proof using Type.
  revert n. induction l1 as [|x l1 IH]; intros n; [done|]. cbn. by rewrite IH, <- app_assoc.
Qed.
Lemma after_bound i n l : 0 ≤ n → 0 ≤ after i n l ≤ n + len l.
Proof using Type.
  revert n. induction l as [|x l IH]; intros n Hn; cbn; [lia|].
  unfold next. destruct (n + 1 =? i); [destruct (IH 0)|destruct (IH (n + 1))]; lia.
Qed.

(** ** The context is only changed in its watermark *)

Definition same_context s s' : Prop :=
  watermark_interval (source_ctx s') = watermark_interval (source_ctx s) ∧
  ts_extractor (source_ctx s') = ts_extractor (source_ctx s) ∧ src_operator (source_ctx s') = src_operator (source_ctx s).
#[local] Instance same_context_preorder : PreOrder same_context.
Proof using Type. split; [done|]. intros s1 s2 s3 (?&?&?) (?&?&?). repeat split; congruence. Qed.
Definition keeps {A} (m : M Env Error A) : Prop := ∀ s, same_context s (m s).2.
Lemma keeps_bind {A A'} (m : M Env Error A) (k : A → M Env Error A') : keeps m → (∀ x, keeps (k x)) → keeps (m ≫= k).
Proof using Type.
  intros Hm Hk s. specialize (Hm s). unfold mbind, M_bind. destruct (m s) as [[x| | |] s1]; try done.
  etrans; [exact Hm|apply Hk].
Qed.
Lemma keeps_ret {A} (x : A) : keeps (mret x).
Proof using Type. done. Qed.
Lemma keeps_gets {A} (f : Env → A) : keeps (gets f).
Proof using Type. done. Qed.
Lemma keeps_on_env {A} (m : M (Timed (OpEnv OUT T B)) Error A) : keeps (on_env m).
Proof using Type. intros s. unfold on_env, zoom. by destruct (m (src_env s)). Qed.
Lemma keeps_update ts : keeps (watermark_update ts).
Proof using Type. done. Qed.
Lemma keeps_act a : keeps (act a).
Proof.
  destruct a as [x|]; cbn.
  - apply keeps_bind; [|intros; apply keeps_bind; [apply keeps_gets|intros; apply keeps_on_env]].
    apply keeps_bind; [apply keeps_gets|]. intros sc. destruct (ts_extractor sc); [|apply keeps_ret].
    apply keeps_bind; [apply keeps_update|intros; apply keeps_ret].
  - apply keeps_bind; [apply keeps_gets|]. intros sc. apply keeps_bind; [|intros; apply keeps_bind; [apply keeps_gets|intros; apply keeps_on_env]].
    destruct (has_timestamp_extractor sc); [apply keeps_ret|]. apply keeps_bind; [apply keeps_on_env|]. intros; apply keeps_update.
Qed.
Lemma keeps_acts (t : list action) : keeps (for_each act t).
Proof.
  induction t as [|a t IH]; cbn; [apply keeps_ret|]. apply keeps_bind; [apply keeps_act|]. by intros.
Qed.

(** ** The collection *)

Abbreviation follows := (follows_by (S:=Env) (X:=Col) (E:=Error) CollectionSource.source).
Abbreviation interval c := (watermark_interval (source_ctx (CollectionSource.source c))).
Lemma follows_source m c :
  keeps m → follows (CollectionSource.on_source m) m c (λ c', CollectionSource.collection c' = CollectionSource.collection c ∧
    CollectionSource.counter c' = CollectionSource.counter c ∧ CollectionSource.triggered c' = CollectionSource.triggered c ∧
    interval c' = interval c).
Proof using Type.
  intros Hm. unfold follows_by, CollectionSource.on_source, zoom. specialize (Hm (CollectionSource.source c)).
  destruct (m (CollectionSource.source c)) as [o s']. cbn in *. destruct Hm as [Hm _]. done.
Qed.
(** The state of the source between two records, [r] of which remain. *)
Record between_records (i n : Z) (r : list IN) (t : nat) c : Prop := {
  br_interval : interval c = i;
  br_counter : CollectionSource.counter c = n;
  br_collection : CollectionSource.collection c = r;
  br_triggered : CollectionSource.triggered c = t;
}.
Lemma process_record_follows i n r t c x :
  between_records i n r t c → 0 ≤ n < 2 ^ 64 - 1 →
  follows (CollectionSource.process_record x) (for_each act (Datum x :: due_mark i n)) c (between_records i (next i n) r t).
Proof.
  intros [Hi Hn Hr Ht] Hb. cbn [for_each]. unfold CollectionSource.process_record.
  eapply follows_bind; [apply follows_source, (keeps_act (Datum x))|].
  intros c1 (Hr1 & Hn1 & Ht1 & Hi1). rewrite Hi, Hn, Hr, Ht in *. clear c Hi Hn Hr Ht.
  unfold follows_by. rewrite (bind_ok _ _ _ _ _ (eq_refl : gets CollectionSource.counter c1 = _)), Hn1.
  rewrite u_add_ok by (unfold in_u; lia). rewrite (bind_ok _ _ _ _ _ (eq_refl : lift (Ok _) _ = _)).
  erewrite bind_ok by done. erewrite bind_ok by done.
  change (watermark_interval _) with (interval c1). rewrite Hi1. unfold due_mark, next.
  destruct (n + 1 =? i); [|by split; [|split]].
  change (follows (CollectionSource.on_source generate_watermark ;; CollectionSource.set_counter 0) (act Mark ;; mret tt)
    (CollectionSource.MkCollectionSource (CollectionSource.source c1) (CollectionSource.collection c1) (n + 1) (CollectionSource.triggered c1))
    (between_records i 0 r t)).
  eapply follows_bind; [apply follows_source, (keeps_act Mark)|].
  intros c2 (? & ? & ? & ?). cbn in *. split; [done|]. split; [done|]. intros _. split; cbn; congruence.
Qed.
Lemma process_records_follows i n r t c l :
  between_records i n r t c → 0 ≤ n → n + len l < 2 ^ 64 →
  follows (for_each CollectionSource.process_record l) (for_each act (records i n l)) c (between_records i (after i n l) r t).
Proof.
  revert n c. induction l as [|x l IH]; intros n c Hc Hn Hb; [by split; [|split]|]. cbn [records after].
  assert (∀ t1 t2 s, for_each act (t1 ++ t2) s = (for_each act t1 ;; for_each act t2) s) as Happ by (intros; apply for_each_app).
  rewrite app_comm_cons. unfold follows_by. rewrite Happ. fold (follows (for_each CollectionSource.process_record (x :: l))
    (for_each act (Datum x :: due_mark i n) ;; for_each act (records i (next i n) l)) c (between_records i (after i (next i n) l) r t)).
  cbn [length] in Hb. eapply follows_bind; [apply (process_record_follows i n r t); [done|lia]|].
  intros c' Hc'. apply IH; [done|..]; unfold next; destruct (n + 1 =? i); lia.
Qed.
Lemma follows_acts (m : M Col Error unit) t1 t2 c P :
  follows m (for_each act t1 ;; for_each act t2) c P → follows m (for_each act (t1 ++ t2)) c P.
Proof. unfold follows_by. by rewrite for_each_app. Qed.
(** The source when it is done. *)
Definition drained c : Prop := CollectionSource.collection c = [] ∧ CollectionSource.triggered c = 0%nat.

(** What follows a piece of the collection. *)
Definition after_piece : M Col Error unit :=
  rest ← gets CollectionSource.collection;
  match rest with
  | [] => CollectionSource.on_source generate_watermark
  | _ => CollectionSource.trigger
  end.
Lemma last_piece_follows i n t c l :
  between_records i n [] t c → 0 ≤ n → n + len l < 2 ^ 64 →
  follows (for_each CollectionSource.process_record l ;; after_piece) (for_each act (records i n l ++ [Mark])) c
    (λ c', CollectionSource.collection c' = [] ∧ CollectionSource.triggered c' = t).
Proof.
  intros Hc Hn Hb. apply follows_acts. eapply follows_bind; [by apply (process_records_follows i n [] t)|].
  intros c' [Hi Hcn Hr Ht]. apply (follows_eq _ (CollectionSource.on_source generate_watermark)).
  { unfold after_piece. erewrite bind_ok by done. by rewrite Hr. }
  apply (follows_ret _ (act Mark)). eapply follows_weaken; [apply follows_source, (keeps_act Mark)|].
  intros c2 (E1 & E2 & E3 & _). split; congruence.
Qed.
Lemma piece_follows i n t c l r :
  between_records i n r t c → r ≠ [] → 0 ≤ n → n + len l < 2 ^ 64 →
  follows (for_each CollectionSource.process_record l ;; after_piece) (for_each act (records i n l)) c
    (between_records i (after i n l) r (S t)).
Proof.
  intros Hc Hne Hn Hb. apply follows_ret. eapply follows_bind; [by apply (process_records_follows i n r t)|].
  intros c' [Hi Hcn Hr Ht]. apply (follows_eq _ CollectionSource.trigger).
  { unfold after_piece. erewrite bind_ok by done. rewrite Hr. by destruct r. }
  split; [done|]. split; [done|]. intros _. split; cbn; congruence.
Qed.
Lemma process_collection_eq c :
  let l := CollectionSource.collection c in let k := Z.to_nat (Z.min RESCHEDULE_EVERY (len l)) in
  CollectionSource.process_collection c = (for_each CollectionSource.process_record (take k l) ;; after_piece)
    (CollectionSource.MkCollectionSource (CollectionSource.source c) (drop k l) (CollectionSource.counter c) (CollectionSource.triggered c)).
Proof using Type. done. Qed.

Lemma run_follows i n c l fuel :
  between_records i n l 1 c → 0 ≤ n → n + len l < 2 ^ 64 → (2 ≤ fuel)%nat → len l ≤ RESCHEDULE_EVERY * (Z.of_nat fuel - 1) →
  follows (CollectionSource.run fuel) (for_each act (records i n l ++ [Mark])) c drained.
Proof.
  revert n c l. induction fuel as [|fuel IH]; intros n c l [Hi Hcn Hl Ht] Hn Hb Hf Hle; [lia|].
  set (k := Z.to_nat (Z.min RESCHEDULE_EVERY (len l))).
  set (c2 := CollectionSource.MkCollectionSource (CollectionSource.source c) (drop k l) (CollectionSource.counter c) 0).
  apply (follows_from _ ((for_each CollectionSource.process_record (take k l) ;; after_piece) ;; CollectionSource.run fuel) _ _ c2); [|done|].
  { cbn [CollectionSource.run]. erewrite bind_ok by done. rewrite Ht. unfold CollectionSource.continue_sending.
    rewrite (bind_assoc (modify _)). erewrite bind_ok by done. unfold mbind at 1, M_bind. rewrite process_collection_eq.
    cbn [CollectionSource.collection CollectionSource.source CollectionSource.counter CollectionSource.triggered]. by rewrite Hl, Ht. }
  destruct (decide (len l ≤ RESCHEDULE_EVERY)) as [Hsmall|Hbig].
  - apply follows_ret. assert (take k l = l) as -> by (apply take_ge; unfold k; lia).
    assert (drop k l = []) as Hd by (apply drop_ge; unfold k; lia).
    eapply follows_bind; [apply (last_piece_follows i n 0); [by split|done|done]|].
    intros c' [Hr Ht']. apply (follows_eq _ (mret tt)); [|by split; [|split]].
    destruct fuel; [lia|]. cbn [CollectionSource.run]. erewrite bind_ok by done. by rewrite Ht'.
  - assert (length (take k l) = k) as Hk by (rewrite length_take; unfold k; lia).
    assert (0 < RESCHEDULE_EVERY) by done.
    assert (drop k l ≠ []) as Hne by (intros Hd; apply (f_equal length) in Hd; rewrite length_drop in Hd; unfold k in *; cbn in *; lia).
    rewrite <- (take_drop k l) at 2. rewrite records_app, <- app_assoc. apply follows_acts.
    pose proof (after_bound i n (take k l) Hn) as Ha.
    eapply follows_bind; [apply (piece_follows i n 0 _ _ (drop k l)); [by split|done|done|unfold k in *; lia]|].
    intros c' Hc'. assert (len (drop k l) = len l - RESCHEDULE_EVERY) as Hd by (rewrite length_drop; unfold k; lia).
    apply IH; [done|lia|unfold k in *; lia|nia|nia].
Qed.

(** ** The file *)

(** The data of the lines that are read and parsed. *)
Definition parsed (ls : list (option bytes)) : list IN := omap (λ o, l ← o; parse l) ls.
Lemma process_lines_ok i n ls s :
  0 ≤ n → n + len (parsed ls) < 2 ^ 64 →
  LocalFileSource.process_lines i n ls s = (for_each act (records i n (parsed ls)) ;; mret (after i n (parsed ls))) s.
Proof.
  revert n s. induction ls as [|line ls IH]; intros n s Hn Hb; [done|].
  unfold parsed in *. cbn [LocalFileSource.process_lines omap list_omap] in *.
  destruct line as [l|]; cbn [LocalFileSource.process_line mbind option_bind] in *; [|by rewrite ret_bind, IH].
  destruct (parse l) as [x|]; [|by rewrite ret_bind, IH]. cbn [length] in Hb.
  change (for_each act (records i n (x :: _)))
    with (act (Datum x) ;; for_each act (due_mark i n ++ records i (next i n) (omap (λ o : option bytes, l ← o; parse l) ls))).
  rewrite !bind_assoc. apply bind_same. intros [] s1. rewrite bind_assoc. rewrite u_add_ok by (unfold in_u; lia).
  rewrite (bind_ok _ _ _ _ _ (eq_refl : lift (Ok _) _ = _)). cbn [after].
  unfold due_mark, next. destruct (n + 1 =? i); cbn [app].
  - change (for_each act (Mark :: ?t)) with (act Mark ;; for_each act t). rewrite !bind_assoc. apply bind_same. intros [] s2.
    by rewrite ret_bind, IH by lia.
  - by rewrite ret_bind, IH by lia.
Qed.

(** ** What is sent, when the data have timestamps *)

(** An element for the operator, and a watermark for the output. *)
Inductive effect : Type := Handle (e : ArconElement IN) | Emit (w : Z).
Definition perform (op : OP) (x : effect) : M (Timed (OpEnv OUT T B)) Error unit :=
  match x with
  | Handle e => new_session (on_parts (handle_element op e))
  | Emit w => on_parts (output (EvWatermark (MkWatermark w)))
  end.
Definition timed (f : IN → Z) (x : IN) : ArconElement IN := MkArconElement x (Some (f x)).
Fixpoint effects (f : IN → Z) (w : Z) (t : list action) : list effect :=
  match t with
  | [] => []
  | Datum x :: t => Handle (timed f x) :: effects f (Z.max w (f x)) t
  | Mark :: t => Emit w :: effects f w t
  end.
Definition handled (es : list effect) : list (ArconElement IN) := omap (λ x, match x with Handle e => Some e | Emit _ => None end) es.
Definition emitted (es : list effect) : list Z := omap (λ x, match x with Handle _ => None | Emit w => Some w end) es.
(** The highest timestamp so far. *)
Definition highest (w : Z) (es : list effect) : Z := foldl Z.max w (omap timestamp (handled es)).

Lemma perform_acts f t s :
  ts_extractor (source_ctx s) = Some f →
  let r := for_each act t s in let r' := for_each (perform (src_operator (source_ctx s))) (effects f (src_watermark (source_ctx s)) t) (src_env s) in
  r.1 = r'.1 ∧ src_env r.2 = r'.2 ∧
  (r.1 = Ok tt → let c := source_ctx s in source_ctx r.2 = MkSourceContext (Some f)
    (highest (src_watermark c) (effects f (src_watermark c) t)) (watermark_interval c) (src_operator c)).
Proof.
  revert s. induction t as [|a t IH]; intros s Hf; destruct s as [[f' w i op] e]; cbn in Hf; subst f'; [done|].
  destruct a as [x|]; cbn [effects for_each act].
  - set (s1 := MkSourceEnv (MkSourceContext (Some f) (Z.max w (f x)) i op) e).
    assert (∀ k : unit → M Env Error unit, (process_datum x ≫= k) (MkSourceEnv (MkSourceContext (Some f) w i op) e) =
      (on_env (perform op (Handle (timed f x))) ≫= k) s1) as ->.
    { intros k. unfold s1. replace (Z.max w (f x)) with (if w <? f x then f x else w); [done|].
      destruct (Z.ltb_spec w (f x)); lia. }
    unfold on_env, zoom, mbind, M_bind. cbn [src_env s1 source_ctx src_operator src_watermark].
    destruct (perform op (Handle (timed f x)) e) as [[[]| | |] e']; [|done..].
    apply (IH (MkSourceEnv (MkSourceContext (Some f) (Z.max w (f x)) i op) e')). done.
  - assert (∀ k : unit → M Env Error unit, (generate_watermark ≫= k) (MkSourceEnv (MkSourceContext (Some f) w i op) e) =
      (on_env (perform op (Emit w)) ≫= k) (MkSourceEnv (MkSourceContext (Some f) w i op) e)) as ->.
    { intros k. unfold generate_watermark. rewrite !bind_assoc. by erewrite bind_ok by done. }
    unfold on_env, zoom, mbind, M_bind. cbn [src_env source_ctx src_operator src_watermark].
    destruct (perform op (Emit w) e) as [[[]| | |] e']; [|done..].
    apply (IH (MkSourceEnv (MkSourceContext (Some f) w i op) e')). done.
Qed.
Lemma handled_effects f w i n l t : handled (effects f w (records i n l ++ t)) = (timed f <$> l) ++ handled (effects f (foldl Z.max w (f <$> l)) t).
Proof using Type.
  revert w n. induction l as [|x l IH]; intros w n; [done|]. cbn. f_equal. unfold handled in *.
  unfold due_mark. destruct (n + 1 =? i); cbn; apply IH.
Qed.
Lemma emitted_effects f w i n l t :
  0 ≤ i → 0 ≤ n → (i ≠ 0 → n < i) →
  len (emitted (effects f w (records i n l ++ t))) = (n + len l) / i + len (emitted (effects f (foldl Z.max w (f <$> l)) t)).
Proof using Type.
  intros Hi. revert w n. induction l as [|x l IH]; intros w n Hn Hlt; cbn.
  { rewrite Z.add_0_r. fold (emitted (effects f w t)). destruct (decide (i = 0)) as [->|]; [by rewrite Z.div_0_r|]. rewrite Z.div_small by lia. unfold emitted. lia. }
  unfold due_mark, next. unfold emitted in *. destruct (Z.eqb_spec (n + 1) i) as [Heq|Hne]; cbn.
  - rewrite Nat2Z.inj_succ, IH by lia. replace (n + Z.of_nat (S (length l))) with (0 + len l + 1 * i) by lia.
    rewrite Z.div_add by lia. lia.
  - rewrite IH by lia. by replace (n + Z.of_nat (S (length l))) with (n + 1 + len l) by lia.
Qed.
Lemma effects_highest f w t p w' q : effects f w t = p ++ Emit w' :: q → w' = highest w p.
Proof using Type.
  revert w p. induction t as [|[x|] t IH]; intros w p; cbn; [by destruct p|..].
  - destruct p as [|e p]; [done|]. intros [= <- Hp]. apply IH in Hp. exact Hp.
  - destruct p as [|e p]; [by intros [= <- _]|]. intros [= <- Hp]. apply IH in Hp. exact Hp.
Qed.

(** C32: A source whose data have timestamps sends, from a collection in however many pieces and from a file
    alike, every datum in order with its timestamp through the operator, a watermark after every full
    interval and one at the end; each watermark is the highest timestamp sent before it.  The collection
    is drained within one delivery of the loopback port for every 500000 data, and one more. *)
Theorem sources_emit f (l : list IN) s :
  ts_extractor (source_ctx s) = Some f → 0 ≤ watermark_interval (source_ctx s) → len l < 2 ^ 64 →
  let i := watermark_interval (source_ctx s) in let w := src_watermark (source_ctx s) in
  let es := effects f w (script i l) in let r := for_each (perform (src_operator (source_ctx s))) es (src_env s) in
  (∀ fuel, (2 ≤ fuel)%nat → len l ≤ RESCHEDULE_EVERY * (Z.of_nat fuel - 1) →
    let r' := (CollectionSource.on_start ;; CollectionSource.run fuel) (CollectionSource.new l s) in
    r'.1 = r.1 ∧ src_env (CollectionSource.source r'.2) = r.2 ∧ (r.1 = Ok tt → drained r'.2)) ∧
  (∀ path content, file_content path = Some content → parsed (lines content) = l →
    let r' := LocalFileSource.process_file path s in r'.1 = r.1 ∧ src_env r'.2 = r.2) ∧
  handled es = timed f <$> l ∧ len (emitted es) = len l / i + 1 ∧
  ∀ p w' q, es = p ++ Emit w' :: q → w' = highest w p.
Proof.
  intros Hf Hi Hb i w es r. destruct (perform_acts f (script i l) s Hf) as (Hr1 & Hr2 & _). fold w es r in Hr1, Hr2.
  split; [|split; [|split; [|split]]].
  - intros fuel Hfuel Hle r'. pose proof (run_follows i 0 (CollectionSource.MkCollectionSource s l 0 1) l fuel) as Hrun.
    destruct Hrun as (F1 & F2 & F3); [by split|done|lia|done|done|]. fold (script i l) in F1, F2. cbn in F1, F2.
    assert (r' = CollectionSource.run fuel (CollectionSource.MkCollectionSource s l 0 1)) as -> by done.
    rewrite F1, F2. split; [done|]. split; [done|]. intros Hok. apply F3. by rewrite F1, Hr1.
  - intros path content Hc Hl r'. assert (r' = for_each act (script i l) s) as ->; [|done].
    unfold r', LocalFileSource.process_file. rewrite Hc. rewrite (bind_ok _ _ _ _ _ (eq_refl : gets source_ctx s = _)).
    unfold script. rewrite for_each_app. change (for_each act [Mark]) with (act Mark ;; mret tt). fold i.
    transitivity ((for_each act (records i 0 l) ;; act Mark) s).
    + unfold mbind at 1, M_bind at 1. rewrite process_lines_ok, Hl by (rewrite ?Hl; lia). unfold mbind, M_bind.
      by destruct (for_each act (records i 0 l) s) as [[[]| | |] ?].
    + apply bind_same. intros [] s'. unfold mbind, M_bind. by destruct (act Mark s') as [[[]| | |] ?].
  - unfold es, script. rewrite handled_effects. by rewrite app_nil_r.
  - unfold es, script. rewrite emitted_effects by lia. done.
  - apply effects_highest.
Qed.
End sources.

(** ** A concrete source: a collection of three numbers, which are their own timestamps *)

Import NodeExample.
#[local] Instance no_files : FileSystem := λ _, None.
#[local] Instance digit_FromStr : FromStr Z := λ l, match l with [b] => if between 48 b 57 then Some (b - 48) else None | _ => None end.
Definition example_source : SourceEnv Op Z Z unit InMemory :=
  MkSourceEnv (MkSourceContext (Some (λ x : Z, x)) 0 2 example_op) (start_env (MkInMemory ∅)).
Example sources_emit_witness :
  let r := (CollectionSource.on_start ;; CollectionSource.run 2) (CollectionSource.new [4; 7; 5] example_source) in
  r.1 = (for_each (perform example_op) (effects (λ x : Z, x) 0 (script 2 [4; 7; 5])) (start_env (MkInMemory ∅))).1 ∧
  emitted (effects (λ x : Z, x) 0 (script 2 [4; 7; 5])) = [7; 7].
Proof.
  pose proof (sources_emit (λ x : Z, x) [4; 7; 5] example_source eq_refl) as Hs.
  destruct Hs as (Hrun & _); [done|done|]. destruct (Hrun 2%nat) as (Hr & _); [done|done|]. by split.
Defined.
