(* ===== verification/Dataflow.v ===== *)
(** From a source to a node: what a source puts into a Forward channel is what the node at its other end
    handles, whatever the batches it travels in. *)

From S2P Require Import Prelude Error Files Allocator EventBuffer Pool Serialization StateBackend InMemory BackendClient Data Channel ChannelSpec Timer Metrics Operator OperatorSpec Node NodeAbs NodeEpochs NodeSpec NodeExample NodeStart NodeMessages Source SourceSpec.
From Stdlib Require Import Sorting.Sorted.
#[local] Open Scope Z_scope.

(** ** A node with one channel *)

Section single.
Context {IN : Type} (sender : NodeID) (saved : Epoch → bool).
Implicit Types (w : Watermark) (evs : list (ArconEvent IN)).
Abbreviation channels := [sender].

(** What the machine does about elements and watermarks: a node with one channel drops what is not ahead
    of the watermark, and takes over every watermark that is higher. *)
Fixpoint through w evs : list (Action IN) :=
  match evs with
  | [] => []
  | Element e :: evs => (if default u64_max (timestamp e) <=? wm_timestamp w then [] else [ActElement e]) ++ through w evs
  | EvWatermark x :: evs =>
      if wm_timestamp x <=? wm_timestamp w then through w evs
      else [ActWatermark x; ActTimers x; ActForwardWatermark x] ++ through x evs
  | _ :: evs => through w evs
  end.
Fixpoint reached w evs : Watermark :=
  match evs with
  | [] => w
  | EvWatermark x :: evs => reached (if wm_timestamp x <=? wm_timestamp w then w else x) evs
  | _ :: evs => reached w evs
  end.
Definition plain (ev : ArconEvent IN) : Prop := match ev with Element _ | EvWatermark _ => True | _ => False end.
(** The state of a node that has the watermark [w]. *)
Definition at_watermark w : NodeAbs IN := MkNodeAbs {[sender := w]} w (MkEpoch 0) ∅ [].

Lemma lowest_single w : lowest {[sender := w]} w = w.
Proof. destruct w as [t]. unfold lowest, values_of. rewrite map_to_list_singleton. cbn. f_equal. lia. Qed.
Lemma sender_wm_single w : sender_wm (at_watermark w) sender = w.
Proof. unfold sender_wm. cbn. by rewrite lookup_singleton_eq. Qed.
Lemma event_single w ev rep :
  plain ev → on_event channels saved false rep sender ev (at_watermark w) = (through w [ev], Done, at_watermark (reached w [ev])).
Proof.
  destruct ev as [e|x|e|msg]; try done; intros _; unfold on_event, react; rewrite sender_wm_single; cbn [through reached];
    [by destruct (default u64_max (timestamp e) <=? wm_timestamp w)|].
  destruct (Z.leb_spec (wm_timestamp x) (wm_timestamp w)); [done|]. cbn [at_watermark a_watermarks a_watermark set_watermarks].
  rewrite insert_singleton_eq, Z.ltb_irrefl. rewrite (proj2 (Z.leb_gt _ _)) by lia. rewrite lowest_single.
  by rewrite (proj2 (Z.ltb_lt _ _)) by lia.
Qed.
Lemma through_app w evs evs' : through w (evs ++ evs') = through w evs ++ through (reached w evs) evs'.
Proof.
  revert w. induction evs as [|[e|x|e|msg] evs IH]; intros w; cbn; try apply IH; [done|..].
  - by rewrite IH, app_assoc.
  - by case_match; rewrite IH.
Qed.
Lemma reached_app w evs evs' : reached w (evs ++ evs') = reached (reached w evs) evs'.
Proof. revert w. induction evs as [|[e|x|e|msg] evs IH]; intros w; cbn; try apply IH; done. Qed.
Lemma batch_single w evs rep :
  Forall plain evs → on_batch channels saved false rep (sender, evs) (at_watermark w) = (through w evs, Done, at_watermark (reached w evs)).
Proof.
  intros Hevs. unfold on_batch. cbn [fst snd]. revert w. induction Hevs as [|ev evs Hev _ IH]; intros w; [done|]. cbn [each].
  rewrite event_single by done. unfold andthen. rewrite IH.
  change (ev :: evs) with ([ev] ++ evs). by rewrite through_app, reached_app.
Qed.
(** The batches do not matter. *)
Lemma run_single w (ms : list (list (ArconEvent IN))) :
  Forall plain (mjoin ms) →
  run channels saved (pair sender <$> ms) (at_watermark w) = (through w (mjoin ms), false, at_watermark (reached w (mjoin ms))).
Proof.
  revert w. induction ms as [|m ms IH]; intros w Hp; [done|]. change (mjoin (m :: ms)) with (m ++ mjoin ms) in *.
  apply Forall_app in Hp as [Hm Hms]. cbn [fmap list_fmap run]. unfold on_message. cbn [at_watermark a_blocked fst]. rewrite lookup_empty.
  fold (at_watermark w). rewrite batch_single by done. rewrite IH by done. by rewrite through_app, reached_app.
Qed.

(** The elements that reach the operator. *)
Definition handled_elements (acts : list (Action IN)) : list (ArconElement IN) :=
  omap (λ x, match x with ActElement e => Some e | _ => None end) acts.
End single.

(** ** A source over a Forward channel *)

Section output.
Context `{BuildProfile, Receivers, Fuel, SystemTime} {OP IN A TS T B : Type} `{Transport A, ArconType A}.
Context `{Backend B, TimerBackend T TS B, !Operator OP IN A TS T B}.
Implicit Types (evs : list (ArconEvent A)) (c : OpEnv A T B).

(** The operator is a function of its elements: it outputs their images, with their timestamps. *)
Class FunctionOperator (op : OP) (image : IN → list A) : Prop :=
  function_element e c : handle_element op e c = for_each output ((λ x, Element (with_data x e)) <$> image (data e)) c.

Definition events_of_effect (image : IN → list A) (x : effect) : list (ArconEvent A) :=
  match x with
  | Handle e => (λ x, Element (with_data x e)) <$> image (data e)
  | Emit w => [EvWatermark (MkWatermark w)]
  end.

Lemma output_forward p p' n' ev c :
  strategy c = StForward p → Forward.add p ev (net c) = (Ok p', n') → output ev c = (Ok tt, MkOpEnv (StForward p') n' (tenv c)).
Proof. intros Hs E. unfold output. rewrite Hs. cbn [strategy_add]. unfold fmap, M_fmap. unfold mbind, M_bind. by rewrite E. Qed.
Lemma outputs_forward p p' n' evs c :
  strategy c = StForward p → add_all Forward.add p evs (net c) = (Ok p', n') →
  for_each output evs c = (Ok tt, MkOpEnv (StForward p') n' (tenv c)).
Proof.
  revert p c. induction evs as [|ev evs IH]; intros p c Hs E; cbn [add_all for_each] in *.
  { injection E as <- <-. destruct c. cbn in Hs |- *. by rewrite Hs. }
  apply bind_inv_ok in E as (p1 & n1 & E1 & E2). step_ok (output_forward p p1 n1 ev c Hs E1).
  apply (IH p1 (MkOpEnv (StForward p1) n1 (tenv c)) eq_refl E2).
Qed.
Lemma perform_forward op image `{!FunctionOperator op image} p p' n' es (e : Timed (OpEnv A T B)) :
  strategy (item e) = StForward p → add_all Forward.add p (es ≫= events_of_effect image) (net (item e)) = (Ok p', n') →
  ∃ e', for_each (perform op) es e = (Ok tt, e') ∧ strategy (item e') = StForward p' ∧ net (item e') = n'.
Proof.
  revert p e. induction es as [|x es IH]; intros p e Hs E.
  { cbn in E. injection E as <- <-. by exists e. }
  change ((x :: es) ≫= events_of_effect image) with (events_of_effect image x ++ (es ≫= events_of_effect image)) in E.
  rewrite add_all_app in E. apply bind_inv_ok in E as (p1 & n1 & E1 & E2).
  assert (∃ e1, perform op x e = (Ok tt, e1) ∧ strategy (item e1) = StForward p1 ∧ net (item e1) = n1) as (e1 & Ep & Hs1 & Hn1).
  { destruct x as [el|w]; cbn [perform events_of_effect] in *.
    - unfold new_session, on_parts, zoom. cbn [item]. rewrite function_element.
      rewrite (outputs_forward p p1 n1) by done. by eexists.
    - apply bind_inv_ok in E1 as (p2 & n2 & E1 & E3). injection E3 as -> ->. unfold on_parts, zoom.
      rewrite (output_forward p p1 n1 _ (item e) Hs E1). by eexists. }
  cbn [for_each]. step_ok Ep. apply (IH p1); [done|]. by rewrite Hn1.
Qed.
End output.

(** ** Batches that end in a watermark *)

Lemma unwrap_batches {A} (bs : list (list (ArconEventWrapper A))) l :
  mjoin bs = wrap <$> l → ∃ ms, bs = fmap wrap <$> ms ∧ mjoin ms = l.
Proof.
  revert l. induction bs as [|b bs IH]; intros l Hl.
  { exists []. split; [done|]. by destruct l. }
  change (mjoin (b :: bs)) with (b ++ mjoin bs) in Hl. symmetry in Hl. apply fmap_app_inv in Hl as (l1 & l2 & -> & Hbs & ->).
  destruct (IH l2 Hbs) as (ms & -> & <-). by exists (l1 :: ms).
Qed.
Lemma batches_closed {A} size (evs : list (ArconEvent A)) e bs pending :
  batches_of size (evs ++ [e]) bs pending → is_element e = false →
  ∃ ms, bs = fmap wrap <$> ms ∧ mjoin ms = evs ++ [e] ∧ len ms ≤ len (evs ++ [e]).
Proof.
  intros (Hj & Hb & _ & Hp) He. destruct pending as [|w pending _] using rev_ind.
  2:{ apply Forall_app in Hp as [_ Hp]. apply Forall_inv in Hp. rewrite fmap_app, (assoc_L (++)) in Hj.
      apply app_inj_tail in Hj as [_ ->]. unfold wrapped_element in Hp. cbn in Hp. congruence. }
  rewrite app_nil_r in Hj. destruct (unwrap_batches bs _ Hj) as (ms & -> & Hms). exists ms. split; [done|]. split; [done|]. rewrite <- Hms.
  clear Hj Hp Hms. induction ms as [|m ms IH]; [done|]. cbn [fmap list_fmap] in Hb. apply Forall_cons in Hb as [[Hm _] Hb]. specialize (IH Hb).
  rewrite length_fmap in Hm. change (mjoin (m :: ms)) with (m ++ mjoin ms). rewrite length_app. cbn [length] in *. lia.
Qed.

(** ** The events of a source *)

Section events.
Context {IN A : Type} (f : IN → Z) (image : IN → list A).
Implicit Types (l : list IN).
Definition source_events (w i : Z) l : list (ArconEvent A) := effects f w (script i l) ≫= events_of_effect image.
(** The images of a datum, with its timestamp. *)
Definition timed_images (x : IN) : list (ArconElement A) := (λ y, with_data y (timed f x)) <$> image x.

Lemma effects_app w t1 t2 : effects f w (t1 ++ t2) = effects f w t1 ++ effects f (highest w (effects f w t1)) t2.
Proof. revert w. induction t1 as [|[x|] t1 IH]; intros w; [done|..]; cbn; by rewrite IH. Qed.
Lemma source_events_last w i l : ∃ evs x, source_events w i l = evs ++ [EvWatermark x].
Proof.
  unfold source_events, script. rewrite effects_app. eexists _, _. rewrite bind_app. by cbn.
Qed.
Lemma effects_plain w t : Forall plain (effects f w t ≫= events_of_effect image).
Proof.
  revert w. induction t as [|[x|] t IH]; intros w; [done|..]; cbn [effects mbind list_bind].
  - apply Forall_app. split; [|apply IH]. apply Forall_fmap. by apply Forall_true.
  - by constructor; [|apply IH].
Qed.
Lemma effects_ok w t : (∀ x, in_u 64 (f x)) → in_u 64 w → Forall ev_ok (effects f w t ≫= events_of_effect image).
Proof.
  intros Hf. revert w. induction t as [|[x|] t IH]; intros w Hw; [done|..]; cbn [effects mbind list_bind].
  - apply Forall_app. split; [apply Forall_fmap; by apply Forall_true|]. apply IH. specialize (Hf x). unfold in_u in *. lia.
  - by constructor; [exact Hw|apply IH].
Qed.

Lemma handled_app (a1 a2 : list (Action A)) : handled_elements (a1 ++ a2) = handled_elements a1 ++ handled_elements a2.
Proof. apply omap_app. Qed.
Lemma through_images v x evs :
  wm_timestamp v < f x →
  through v (((λ y, Element (with_data y (timed f x))) <$> image x) ++ evs) = (ActElement <$> timed_images x) ++ through v evs.
Proof.
  intros Hv. unfold timed_images. induction (image x) as [|y ys IH]; [done|]. cbn [fmap list_fmap app through]. rewrite IH.
  cbn [timestamp with_data timed default]. by rewrite (proj2 (Z.leb_gt _ _)) by exact Hv.
Qed.
Lemma handled_images (es : list (ArconElement A)) : handled_elements (ActElement <$> es) = es.
Proof. unfold handled_elements. induction es as [|e es IH]; [done|]. cbn. by rewrite IH. Qed.
(** No datum is late if the timestamps increase. *)
Lemma increasing_through i k v w l :
  wm_timestamp v ≤ w → StronglySorted Z.lt (w :: (f <$> l)) →
  handled_elements (through v (effects f w (records i k l ++ [Mark]) ≫= events_of_effect image)) = l ≫= timed_images.
Proof.
  revert k v w. induction l as [|x l IH]; intros k v w Hv Hs; cbn [records app effects mbind list_bind].
  { cbn. by case_match. }
  apply StronglySorted_inv in Hs as [Hs Hw]. cbn [fmap list_fmap] in Hw. apply Forall_cons in Hw as [Hw _].
  rewrite <- app_assoc, Z.max_r by lia. cbn [events_of_effect data timed]. rewrite through_images, handled_app, handled_images by lia. f_equal.
  unfold due_mark. destruct (k + 1 =? i); cbn [app]; [|apply IH; [lia|exact Hs]].
  cbn [effects mbind list_bind events_of_effect app through]. rewrite (proj2 (Z.leb_gt _ _)) by (cbn; lia).
  apply (IH _ (MkWatermark (f x)) (f x)); [cbn; lia|exact Hs].
Qed.
End events.

(** ** From the source to the node *)

Section dataflow.
#[local] Set Default Proof Using "All".
Context `{BuildProfile, SystemTime, Receivers, Fuel, NodeConfig, SystemAlloc}.
Context {OP IN A TS T B : Type} `{Transport A, ArconType A, Backend B, TimerBackend T TS B, !Operator OP IN A TS T B}.
Context {OP2 OUT TS2 T2 B2 : Type} `{Transport OUT, ArconType OUT, BackendSpec B2, TimerBackend T2 TS2 B2, !Operator OP2 A OUT TS2 T2 B2}.
Context `{Key NodeID, !MessageLaws NodeID, Value Watermark, Value Epoch, Value unit, Value (RawArconMessage A)}.
Context `{!MapSpec B2 NodeID Watermark unit unit, !MapSpec B2 NodeID unit unit unit}.
Context (n : Node OP2 A) (saved : Epoch → bool) (parts : Z → OpEnv OUT T2 B2 → Prop) `{!NodeParts n saved parts}.
Context (Hmeter : meter_returns) (sender : NodeID) (Hchannel : in_channels n = [sender]).
Implicit Types (s : SourceEnv OP IN A T B) (l : list IN).

(** A fresh node that is sent batches of elements and watermarks. *)
Lemma node_receives st (ms : list (list (ArconEvent A))) :
  node_rep n parts (λ _, True) false st (initial [sender]) → Forall plain (mjoin ms) → Forall ev_ok (mjoin ms) → len ms < 2 ^ 64 →
  ∃ st', for_each (receive_local n) ((λ m, raw_message (sender, m)) <$> ms) st = (Ok tt, st') ∧
    performs n (through (MkWatermark 0) (mjoin ms)) st st'.
Proof.
  intros Hr Hp Hok Hl. pose proof (run_refines n saved parts Hmeter (pair sender <$> ms) st _ Hr) as Hrun. rewrite Hchannel in Hrun.
  change (initial [sender]) with (at_watermark sender (MkWatermark 0) : NodeAbs A) in Hrun. rewrite (run_single sender saved) in Hrun by done.
  destruct Hrun as (o & st' & E & Hperf & -> & _).
  - apply Forall_fmap, Forall_forall. intros m Hm. split; [rewrite Hchannel; by left|]. cbn. apply Forall_forall. intros ev Hev.
    rewrite Forall_forall in Hok. apply Hok, list_elem_of_join. by exists m.
  - unfold vec_fits. cbn [at_watermark a_buffer app]. by rewrite length_fmap.
  - exists st'. split; [|done]. rewrite <- E. by rewrite <- list_fmap_compose.
Qed.

(** C4: A source whose operator is a function, over a Forward channel to a fresh node: the source drains its
    collection, every event it produces leaves in a batch and none stays behind, and the node handles the
    batches as if it had been given the events one by one.  If the timestamps increase then the node's
    operator handles the images of all data, in order; otherwise it misses those that are late. *)
Theorem source_feeds_node D info size_of align_of ch mem t f op (image : IN → list A) `{!FunctionOperator op image} l s p q st rounds :
  surroundings (A:=A) D info → Forward.new size_of align_of ch sender info (fresh_net mem t) = (Ok p, q) →
  strategy (item (src_env s)) = StForward p → net (item (src_env s)) = q →
  ts_extractor (source_ctx s) = Some f → (∀ x, in_u 64 (f x)) → src_watermark (source_ctx s) = 0 → src_operator (source_ctx s) = op →
  0 ≤ watermark_interval (source_ctx s) → len l < 2 ^ 64 → (2 ≤ rounds)%nat → len l ≤ RESCHEDULE_EVERY * (Z.of_nat rounds - 1) →
  let evs := source_events f image 0 (watermark_interval (source_ctx s)) l in len evs < 2 ^ 64 →
  node_rep n parts (λ _, True) false st (initial [sender]) →
  let r := (CollectionSource.on_start ;; CollectionSource.run rounds) (CollectionSource.new l s) in
  ∃ ms st', r.1 = Ok tt ∧ drained r.2 ∧ mjoin ms = evs ∧
    sent (net (item (src_env (CollectionSource.source r.2)))) = (λ m, (actor_of ch, raw_message (sender, m))) <$> ms ∧
    for_each (receive_local n) ((λ m, raw_message (sender, m)) <$> ms) st = (Ok tt, st') ∧
    performs n (through (MkWatermark 0) evs) st st' ∧
    (StronglySorted Z.lt (0 :: (f <$> l)) → handled_elements (through (MkWatermark 0) evs) = l ≫= timed_images f image).
Proof.
  intros Hsur Hnew Hstr Hnet Hf Hfu Hw Hop Hi Hl Hrounds Hle evs Hevs Hnode r.
  set (i := watermark_interval (source_ctx s)) in *. set (es := effects f 0 (script i l)).
  destruct (forward_run D size_of align_of info ch sender mem t p q evs Hsur Hnew) as (p' & q' & bs & pending & Eadd & Hsent & Hbs & _).
  destruct (source_events_last f image 0 i l) as (evs0 & w & Hlast). fold evs in Hlast. rewrite Hlast in Hbs.
  destruct (batches_closed _ _ _ _ _ Hbs eq_refl) as (ms & -> & Hms & Hlen). rewrite <- Hlast in Hms, Hlen.
  destruct (perform_forward op image p p' q' es (src_env s) Hstr) as (e' & Ep & Hs' & Hn'); [by rewrite Hnet|].
  destruct (perform_acts f (script i l) s Hf) as (P1 & P2 & _). rewrite Hw, Hop in P1, P2. fold es in P1, P2. rewrite Ep in P1, P2. cbn in P1, P2.
  destruct (run_follows i 0 (CollectionSource.MkCollectionSource s l 0 1) l rounds) as (F1 & F2 & F3); [by split|done|lia|done|done|].
  fold (script i l) in F1, F2. cbn [CollectionSource.source] in F1, F2. rewrite P1 in F1.
  destruct (node_receives st ms Hnode) as (st' & Est & Hperf).
  { rewrite Hms. apply effects_plain. } { rewrite Hms. apply effects_ok; [done|]. unfold in_u. lia. } { lia. }
  exists ms, st'. split; [exact F1|]. split; [apply F3, F1|]. split; [exact Hms|]. split; [|split; [exact Est|split; [by rewrite <- Hms|]]].
  - unfold r. change ((CollectionSource.on_start ;; CollectionSource.run rounds) (CollectionSource.new l s))
      with (CollectionSource.run rounds (CollectionSource.MkCollectionSource s l 0 1)).
    rewrite F2, P2, Hn', Hsent. unfold raw_message. by rewrite <- list_fmap_compose.
  - apply increasing_through. done.
Qed.
End dataflow.

(** ** The function operators are functions of their elements *)

Section functions.
Context `{BuildProfile, Receivers, Fuel} {IN OUT T B : Type} `{Transport OUT, ArconType OUT, Transport IN, ArconType IN}.
Context `{TimerBackend T ArconNever B}.

Lemma for_each_one {S E X} (m : X → M S E unit) x s : for_each m [x] s = m x s.
Proof. cbn. unfold mbind, M_bind. by destruct (m x s) as [[[]| | |] ?]. Qed.
#[export] Instance map_function (g : IN → OUT) : FunctionOperator (TS:=ArconNever) (T:=T) (Map_new (B:=B) g) (λ x, [g x]).
Proof. intros e c. cbn [fmap list_fmap]. rewrite for_each_one. cbn. by rewrite (bind_ok _ _ _ _ _ (on_session_ret _ _)). Qed.
#[export] Instance flat_map_function (g : IN → list OUT) : FunctionOperator (TS:=ArconNever) (T:=T) (FlatMap_new (B:=B) g) g.
Proof.
  intros e c. cbn [handle_element FlatMap_Operator]. unfold FlatMap_new. cbn [flat_udf].
  rewrite (bind_ok _ _ _ _ _ (on_session_ret _ _)). by rewrite for_each_fmap.
Qed.
#[export] Instance filter_function (g : IN → bool) : FunctionOperator (TS:=ArconNever) (T:=T) (Filter_new (B:=B) g) (λ x, if g x then [x] else []).
Proof. intros e c. rewrite filter_element. destruct e as [x t], (g _); [|done]. cbn [fmap list_fmap]. by rewrite for_each_one. Qed.
End functions.

(** ** A concrete source and node *)

Section witness.
Import NodeExample.
#[local] Instance witness_config : NodeConfig := config.
#[local] Instance witness_memory : Backend InMemory := reopened false.
#[local] Instance witness_alloc : SystemAlloc := λ calls _, 4096 + len calls.

Lemma witness_surroundings : surroundings (A:=Z) 1 (2, 4).
Proof.
  split; [intros t; exists t; split; [lia|done]|]. split; [done|]. split; [by vm_compute|]. split; [by vm_compute|].
  cbn. unfold fuel, patience. lia.
Qed.
Definition doubling : Map Z Z unit InMemory := Map_new (λ x, x * 2).
Definition example_env (p : Forward.Forward) (q : Net Z) : SourceEnv (Map Z Z unit InMemory) Z Z unit InMemory :=
  MkSourceEnv (MkSourceContext (Some (λ x, Z.land x 255)) 0 2 doubling) (MkTimed (MkOpEnv (StForward p) q (MkTimerEnv tt (MkInMemory ∅) 0)) 0).
Example source_feeds_node_witness :
  match Forward.new (A:=Z) 16 8 (Local 7) (MkNodeID 1) (2, 4) (fresh_net (Memory_new 4096) 0) with
  | (Ok p, q) =>
      let evs := source_events (λ x, Z.land x 255) (λ x, [x * 2]) 0 2 [3; 5; 8] in
      let r := (CollectionSource.on_start ;; CollectionSource.run 2) (CollectionSource.new [3; 5; 8] (example_env p q)) in
      ∃ ms st st', mjoin ms = evs ∧
        sent (net (item (src_env (CollectionSource.source r.2)))) = (λ m, (7%nat, raw_message (MkNodeID 1, m))) <$> ms ∧
        for_each (receive_local (node_with [MkNodeID 1])) ((λ m, raw_message (MkNodeID 1, m)) <$> ms) st = (Ok tt, st') ∧
        performs (node_with [MkNodeID 1]) (through (MkWatermark 0) evs) st st' ∧
        data <$> handled_elements (through (MkWatermark 0) evs) = [6; 10; 16]
  | _ => False
  end.
Proof.
  destruct (Forward.new _ _ _ _ _ _) as [[p| | |] q] eqn:E; [|by vm_compute in E..].
  destruct (start_with false [MkNodeID 1]) as (m & s1 & _ & Hr); [done|done|].
  destruct (source_feeds_node (node_with [MkNodeID 1]) saving parts example_meter (MkNodeID 1) eq_refl 1 (2, 4) 16 8 (Local 7) (Memory_new 4096) 0
    (λ x, Z.land x 255) doubling (λ x, [x * 2]) [3; 5; 8] (example_env p q) p q (spawn m s1) 2) as (ms & st' & _ & _ & Hms & Hsent & Hst & Hp & _);
    [exact witness_surroundings|exact E|done|done|done| |done|done|done|done|lia|done|done|exact Hr|].
  { intros x. unfold in_u. change 255 with (Z.ones 8). rewrite Z.land_ones by lia. pose proof (Z.mod_pos_bound x (2 ^ 8) ltac:(lia)). lia. }
  exists ms, (spawn m s1), st'. split; [exact Hms|]. split; [exact Hsent|]. split; [exact Hst|]. split; [exact Hp|reflexivity].
Defined.
End witness.
