(* ===== verification/Sink.v ===== *)
(** [arcon/src/stream/operator/sink]: the sinks that append elements to a file or send them to a socket,
    and that a file source reads back what the file sink wrote. *)

From S2P Require Import Prelude Error Files Allocator EventBuffer Pool Serialization StateBackend BackendClient Data Channel Timer Metrics Operator Node NodeExample Source SourceSpec.

(** What [{:?}] prints. *)
Class Debug (A : Type) := debug : A → bytes.

Module LocalFileSink.
(** The open file is the path it was opened at, in a file system that the sink changes. *)
Record LocalFileSink : Type := MkLocalFileSink { file : path }.

Section sink.
Context {IN : Type} `{Debug IN}.

Definition new (file_path : path) : M Fs ArconStateError LocalFileSink := λ fs,
  match open_append file_path fs with
  | (Ok _, fs) => (Ok (MkLocalFileSink file_path), fs)
  | (Err _, fs) => (Panic "Failed to open file", fs)
  | (Panic msg, fs) => (Panic msg, fs)
  | (Diverge, fs) => (Diverge, fs)
  end.
(** A write that fails is reported and leaves the element out. *)
Definition handle_element (sink : LocalFileSink) (element : ArconElement IN) : M Fs ArconStateError unit := λ fs,
  match append_file (file sink) (debug (data element) ++ [10]) fs with
  | (Err _, fs) => (Ok tt, fs)
  | r => r
  end.
Definition handle_watermark (sink : LocalFileSink) : Watermark → M Fs ArconStateError unit := ignore_watermark.
Definition handle_epoch (sink : LocalFileSink) : Epoch → M Fs ArconStateError unit := ignore_epoch.
Definition handle_timeout {TS : Type} (sink : LocalFileSink) : TS → M Fs ArconStateError unit := ignore_timeout.
End sink.
End LocalFileSink.

(** [sink/socket.rs]: an element is JSON, or what [Debug] prints, on a line.  Each is sent to the thread
    of the socket by a task of its own: the model collects what the tasks send. *)
Module SocketSink.
Record SocketSink : Type := MkSocketSink { dispatched : list bytes }.
Section sink.
Context {IN : Type} `{Debug IN, ToJson IN}.
Definition fmt_data (x : IN) : bytes := match to_json x with Some json => json ++ [10] | None => debug x ++ [10] end.
Definition handle_element (element : ArconElement IN) : M SocketSink ArconStateError unit :=
  modify (λ s, MkSocketSink (dispatched s ++ [fmt_data (data element)])).
Definition handle_watermark : Watermark → M SocketSink ArconStateError unit := ignore_watermark.
Definition handle_epoch : Epoch → M SocketSink ArconStateError unit := ignore_epoch.
Definition handle_timeout {TS : Type} : TS → M SocketSink ArconStateError unit := ignore_timeout.
End sink.
End SocketSink.

(** ** Lines *)

(** A line that is read as it was written: text without a newline, and without a carriage return at its
    end, which would be taken for a part of the line's end. *)
Definition clean (l : bytes) : Prop := 10 ∉ l ∧ last l ≠ Some 13 ∧ utf8_valid l = true.

Lemma utf8_valid_app n l l' : (length l ≤ n)%nat → utf8_valid l = true → utf8_valid (l ++ l') = utf8_valid l'.
Proof.
  revert l. induction n as [|n IH]; intros l Hn; [by destruct l; [|cbn in Hn; lia]|].
  destruct l as [|b0 l1]; [done|]. cbn [app utf8_valid length] in *. case_match; [apply IH; lia|].
  destruct l1 as [|b1 l2]; [done|]. cbn [app length] in *. case_match.
  { intros [-> Hl]%andb_true_iff. apply IH; [lia|done]. }
  destruct l2 as [|b2 l3]; [done|]. cbn [app length] in *. case_match.
  { intros [-> Hl]%andb_true_iff. apply IH; [lia|done]. }
  destruct l3 as [|b3 l4]; [done|]. cbn [app length] in *. intros [-> Hl]%andb_true_iff. apply IH; [lia|done].
Qed.
(** A complete line is split off. *)
Lemma split_lines_line cur l rest :
  10 ∉ l → split_lines cur (l ++ 10 :: rest) = (cur ++ l ++ [10]) :: split_lines [] rest.
Proof.
  revert cur. induction l as [|b l IH]; intros cur Hl; cbn; [done|].
  apply not_elem_of_cons in Hl as [Hb Hl]. rewrite (proj2 (Z.eqb_neq b 10)) by congruence.
  rewrite IH by done. by rewrite <- (assoc_L (++)).
Qed.
Lemma split_lines_app cur l rest :
  split_lines cur (l ++ [10] ++ rest) = split_lines cur (l ++ [10]) ++ split_lines [] rest.
Proof.
  revert cur. induction l as [|b l IH]; intros cur; cbn; [done|]. case_match; [|apply IH]. cbn. by rewrite IH.
Qed.
Lemma chomp_line l : last l ≠ Some 13 → chomp (l ++ [10]) = l.
Proof.
  intros Hl. unfold chomp. rewrite reverse_app, <- head_reverse in *. cbn [reverse rev_append app].
  rewrite <- (reverse_involutive l) at 2. destruct (reverse l) as [|b r]; [done|]. cbn in Hl |- *.
  repeat case_match; simplify_eq; done.
Qed.

Section roundtrip.
Context {IN : Type} `{Debug IN, FromStr IN}.

(** An element that is printed on a line of its own, from which it is parsed. *)
Definition printable (x : IN) : Prop := clean (debug x) ∧ parse (debug x) = Some x.
Lemma parsed_app ls ls' : parsed (ls ++ ls') = parsed ls ++ parsed (IN:=IN) ls'.
Proof. unfold parsed. by rewrite omap_app. Qed.
Lemma parsed_printed (xs : list IN) : Forall printable xs → parsed (lines (xs ≫= (λ x, debug x ++ [10]))) = xs.
Proof.
  induction 1 as [|x xs [(Hn & Hl & Hu) Hp] _ IH]; [done|]. cbn [mbind list_bind]. unfold lines.
  rewrite <- (assoc_L (++)). cbn [app]. rewrite split_lines_line by done. cbn [app fmap list_fmap].
  rewrite (utf8_valid_app (length (debug x))) by done. cbn [utf8_valid]. rewrite chomp_line by done.
  unfold parsed. cbn. rewrite Hp. cbn. f_equal. exact IH.
Qed.
(** The lines of a file whose last one is complete, with more written behind. *)
Lemma lines_app old l : old = [] ∨ last old = Some 10 → lines (old ++ l) = lines old ++ lines l.
Proof.
  intros [-> |(old' & ->)%last_Some]; [done|]. unfold lines. rewrite <- (assoc_L (++)), split_lines_app. by rewrite fmap_app.
Qed.

Lemma sink_appends p (xs : list (ArconElement IN)) old fs :
  fs !! p = Some (File old) →
  ∃ fs', for_each (LocalFileSink.handle_element (LocalFileSink.MkLocalFileSink p)) xs fs = (Ok tt, fs') ∧
    fs' !! p = Some (File (old ++ ((data <$> xs) ≫= λ x, debug x ++ [10]))) ∧ ∀ q, q ≠ p → fs' !! q = fs !! q.
Proof.
  revert old fs. induction xs as [|x xs IH]; intros old fs Hf; cbn [for_each fmap list_fmap mbind list_bind].
  { exists fs. by rewrite app_nil_r. }
  set (fs1 := <[p := File (old ++ debug (data x) ++ [10])]> fs).
  assert (E : LocalFileSink.handle_element (LocalFileSink.MkLocalFileSink p) x fs = (Ok tt, fs1)).
  { unfold LocalFileSink.handle_element, append_file. cbn. by rewrite Hf. }
  step_ok E. destruct (IH (old ++ debug (data x) ++ [10]) fs1) as (fs2 & E2 & Hf2 & Ho); [by apply lookup_insert_eq|].
  exists fs2. split; [exact E2|]. split; [by rewrite Hf2, <- !(assoc_L (++))|]. intros q Hq. rewrite Ho by done. by apply lookup_insert_ne.
Qed.

(** C30: What a file sink writes, behind the complete lines that a file may have, is what a file source reads
    and parses from it; no other file is touched.  The elements print on a line of their own and are
    parsed from it. *)
Theorem file_sink_read_back p fs old (xs : list (ArconElement IN)) :
  fs !! p = Some (File old) ∨ (fs !! p = None ∧ old = [] ∧ parent_is_dir p fs = true) →
  old = [] ∨ last old = Some 10 → Forall printable (data <$> xs) →
  ∃ sink fs1 fs2 content, LocalFileSink.new p fs = (Ok sink, fs1) ∧
    for_each (LocalFileSink.handle_element sink) xs fs1 = (Ok tt, fs2) ∧
    fs2 !! p = Some (File content) ∧ parsed (lines content) = parsed (lines old) ++ (data <$> xs) ∧
    ∀ q, q ≠ p → fs2 !! q = fs !! q.
Proof.
  intros Hf Hold Hxs.
  assert (∃ fs1, open_append p fs = (Ok tt, fs1) ∧ fs1 !! p = Some (File old) ∧ ∀ q, q ≠ p → fs1 !! q = fs !! q)
    as (fs1 & E1 & Hf1 & Ho1).
  { unfold open_append. destruct Hf as [Hf|(Hf & -> & Hd)]; rewrite Hf; [by exists fs|]. rewrite Hd. eexists. split; [done|].
    split; [by apply lookup_insert_eq|]. intros q Hq. by apply lookup_insert_ne. }
  destruct (sink_appends p xs old fs1 Hf1) as (fs2 & E2 & Hf2 & Ho2).
  eexists _, fs1, fs2, _. split; [unfold LocalFileSink.new; by rewrite E1|]. split; [exact E2|]. split; [exact Hf2|].
  split; [by rewrite lines_app, parsed_app, parsed_printed|]. intros q Hq. by rewrite Ho2, Ho1.
Qed.
End roundtrip.

(** ** Numbers *)

#[local] Instance u64_Debug : Debug u64 := λ x, as_bytes (display_unsigned (uint_val x)).
#[local] Instance u64_FromStr : FromStr u64 := λ l, UInt <$> parse_unsigned u64_max (from_bytes l).

Example file_sink_read_back_witness :
  ∃ sink fs1 fs2 content, LocalFileSink.new ["out"] {[ ["out"] := File [55; 13; 10] ]} = (Ok sink, fs1) ∧
    for_each (LocalFileSink.handle_element sink) [ArconElement_new (UInt 6 : u64); ArconElement_new (UInt 15)] fs1 = (Ok tt, fs2) ∧
    fs2 !! ["out"] = Some (File content) ∧ parsed (lines content) = [UInt 7; UInt 6; UInt 15 : u64].
Proof.
  destruct (file_sink_read_back ["out"] {[ ["out"] := File [55; 13; 10] ]} [55; 13; 10]
    [ArconElement_new (UInt 6 : u64); ArconElement_new (UInt 15)]) as (sink & fs1 & fs2 & content & E1 & E2 & Hf & Hp & _).
  - by left.
  - by right.
  - apply Forall_forall. intros x [->|[->|[]%not_elem_of_nil]%elem_of_cons]%elem_of_cons;
      (split; [split; [by apply (bool_decide_unpack _)|by split]|done]).
  - exists sink, fs1, fs2, content. split; [exact E1|]. split; [exact E2|]. split; [exact Hf|exact Hp].
Defined.
