(* ===== verification/Flight.v ===== *)
(** [arcon/src/data/flight_serde.rs] and [BufMutWriter] of [data/mod.rs]: how a message is serialised for
    another machine, and that a node handles what was sent to it. *)

From S2P Require Import Prelude Error Allocator EventBuffer Pool Serialization StateBackend BackendClient InMemory BackendLaws Data Channel Timer Metrics Operator Node NodeExample.

(** ** Buffers

    Besides what [BufMut] and [Buf] have, the code uses the integers in network order, and [bytes], the
    part of a buffer that is contiguous. *)
Definition to_be_bytes (n : nat) (x : Z) : bytes := reverse (to_le_bytes n x).
Definition from_be_bytes (l : bytes) : Z := from_le_bytes (reverse l).
Class Chunked (X : Type) `{Buf X} := front_chunk : X → bytes.
#[export] Instance Chunked_slice : Chunked bytes := λ l, l.

Definition put_u32 {X E} `{BufMut X} (n : Z) : M X E unit := λ buf,
  if 4 <=? remaining_mut buf then (Ok tt, put_slice buf (to_be_bytes 4 n))
  else (Panic "assertion failed: self.remaining_mut() >= src.len()", buf).
Definition get_u32 {X E} `{Buf X} : M X E Z := λ buf,
  if 4 <=? remaining buf then (Ok (from_be_bytes (copy_to_slice buf 4).1), (copy_to_slice buf 4).2)
  else (Panic "assertion failed: self.remaining() >= dst.len()", buf).

(** ** The codecs of other crates

    prost, whose errors are texts, and abomonation, which writes the pieces of a value one after the other
    and stops at the first that is not written. *)
Class FlightMessage (T : Type) := {
  message_len : T → Z;
  message_encode {X} `{BufMut X} : T → M X string unit;
  message_decode : bytes → outcome string T;
}.
Class Abomonation (T : Type) := {
  abom_pieces : T → list bytes;
  abom_decode : bytes → option (T * bytes);
}.
Definition abom_measure {T} `{Abomonation T} (x : T) : Z := len (concat (abom_pieces x)).

(** ** [BufMutWriter] *)

Module BufMutWriter.
Section writer.
Context {X : Type} `{BufMut X}.
Definition write (src : bytes) : M X unit Z := λ buf,
  let n := Z.min (remaining_mut buf) (len src) in
  (Ok n, put_slice buf (take (Z.to_nat n) src)).
Definition flush : M X unit unit := mret tt.
(** [Write::write_all]: each call of [write] takes at least a byte, or the write fails. *)
Fixpoint write_rest (fuel : nat) (src : bytes) : M X unit unit :=
  match src, fuel with
  | [], _ => mret tt
  | _, O => lift Diverge
  | _, S fuel => n ← write src; if n =? 0 then fail tt else write_rest fuel (drop (Z.to_nat n) src)
  end.
Definition write_all (src : bytes) : M X unit unit := write_rest (length src) src.
End writer.
End BufMutWriter.

(** ** The serialisers *)

(** A serialisation that fails gives the text of a [SerError::InvalidData]. *)
Module ReliableSerde.
Section reliable.
Context {A : Type} `{ArconType A, FlightMessage (RawArconMessage A)}.

Definition ser_id : Z := RELIABLE_SER_ID (A:=A).
Definition size_hint (m : RawArconMessage A) : option Z := Some (message_len m).
Definition serialise {X} `{BufMut X} (m : RawArconMessage A) : M X string unit := message_encode m.
Definition deserialise {X} `{Chunked X} : M X string (RawArconMessage A) :=
  bytes ← gets front_chunk; lift (message_decode bytes).
End reliable.
End ReliableSerde.

Module UnsafeSerde.
Section unsafe.
Context {A : Type} `{ArconType A, Abomonation (RawArconMessage A)}.

Definition ser_id : Z := UNSAFE_SER_ID (A:=A).
Definition size_hint (m : RawArconMessage A) : option Z := Some (4 + abom_measure m).
Definition serialise {X} `{BufMut X} (m : RawArconMessage A) : M X string unit :=
  put_u32 (VERSION_ID (A:=A)) ;;
  on_outcome (map_err (λ _, "Failed to encode unsafe flight data"%string)) (for_each BufMutWriter.write_all (abom_pieces m)).
Definition version_mismatch (version_id : Z) : string :=
  "Mismatch on ArconType version. Got " +:+ display_unsigned version_id +:+ " while expecting " +:+
  display_unsigned (VERSION_ID (A:=A)).
Definition deserialise {X} `{Chunked X} : M X string (RawArconMessage A) :=
  version_id ← get_u32;
  if version_id =? VERSION_ID (A:=A) then
    bytes ← gets front_chunk;
    match abom_decode bytes with
    | Some (msg, _) => mret msg
    | None => fail "Failed to decode flight data"%string
    end
  else fail (version_mismatch version_id).
End unsafe.
End UnsafeSerde.

(** ** On the wire

    A remote channel serialises with the serialiser it was given, and kompact delivers the bytes with the
    serialiser's id. *)
Section wire.
Context {A : Type} `{ArconType A, FlightMessage (RawArconMessage A), Abomonation (RawArconMessage A)}.

Definition serialise {X} `{BufMut X} (serde : FlightSerde) (m : RawArconMessage A) : M X string unit :=
  match serde with Reliable => ReliableSerde.serialise m | Unsafe => UnsafeSerde.serialise m end.
Definition serde_id (serde : FlightSerde) : Z :=
  match serde with Reliable => ReliableSerde.ser_id (A:=A) | Unsafe => UnsafeSerde.ser_id (A:=A) end.
Definition deserialise {X} `{Chunked X} (serde : FlightSerde) (buf : X) : outcome string (RawArconMessage A) :=
  match serde with Reliable => (ReliableSerde.deserialise buf).1 | Unsafe => (UnsafeSerde.deserialise buf).1 end.
Definition net_message {X} `{Chunked X} (id : Z) (buf : X) : NetMessage A := MkNetMessage id (λ serde, deserialise serde buf).
End wire.

(** Documented behaviour of the codecs: what is encoded into a vector that has room is decoded. *)
Class FlightLaws (T : Type) `{FlightMessage T, Abomonation T} : Prop := {
  message_law (m : T) (target : bytes) : len target + message_len m ≤ usize_max →
    ∃ encoded, message_encode m target = (Ok tt, target ++ encoded) ∧ message_decode encoded = Ok m;
  abom_law (m : T) : abom_decode (concat (abom_pieces m)) = Some (m, []);
}.

(** ** Lemmas *)

Lemma reverse_le_bytes n x : 0 ≤ x < 2 ^ (8 * Z.of_nat n) → from_be_bytes (to_be_bytes n x) = x.
Proof. intros Hx. unfold from_be_bytes, to_be_bytes. rewrite reverse_involutive, from_to_le_bytes. by apply Z.mod_small. Qed.
Lemma length_to_be_bytes n x : length (to_be_bytes n x) = n.
Proof. unfold to_be_bytes. by rewrite length_reverse, length_to_le_bytes. Qed.
Lemma get_u32_bytes {E} x (rest : bytes) : in_u 32 x → get_u32 (E:=E) (to_be_bytes 4 x ++ rest) = (Ok x, rest).
Proof.
  intros Hx. unfold get_u32. cbn [remaining copy_to_slice Buf_slice fst snd]. rewrite length_app, length_to_be_bytes.
  rewrite (proj2 (Z.leb_le _ _)) by lia. pose proof (length_to_be_bytes 4 x) as Hl.
  pose proof (take_app_length (to_be_bytes 4 x) rest) as Ht. pose proof (drop_app_length (to_be_bytes 4 x) rest) as Hd.
  rewrite Hl in Ht, Hd. rewrite Ht, Hd, reverse_le_bytes; [done|]. unfold in_u in Hx. lia.
Qed.

(** A write to a vector that has room. *)
Lemma write_all_vec src (target : bytes) :
  len target + len src ≤ usize_max → BufMutWriter.write_all src target = (Ok tt, target ++ src).
Proof.
  intros Hl. unfold BufMutWriter.write_all. destruct src as [|x src]; [cbn; by rewrite app_nil_r|].
  cbn [length BufMutWriter.write_rest]. unfold BufMutWriter.write, mbind, M_bind. cbn [remaining_mut put_slice BufMut_Vec].
  rewrite Z.min_r by (cbn [length] in *; lia). rewrite Nat2Z.id, firstn_all, skipn_all.
  rewrite (proj2 (Z.eqb_neq _ 0)) by (cbn [length]; lia). by destruct (length src).
Qed.
Lemma pieces_vec (pieces : list bytes) (target : bytes) :
  len target + len (concat pieces) ≤ usize_max → for_each BufMutWriter.write_all pieces target = (Ok tt, target ++ concat pieces).
Proof.
  revert target. induction pieces as [|p pieces IH]; intros target Hl; cbn [for_each concat] in *; [by rewrite app_nil_r|].
  rewrite length_app in Hl. step_ok (write_all_vec p target ltac:(lia)). rewrite IH; [by rewrite (assoc_L (++))|].
  rewrite length_app. lia.
Qed.

(** A slice takes as much as it has room for, and an error is returned if that is not everything. *)
Definition fill (src : bytes) (s : MutSlice) : MutSlice :=
  MkMutSlice (written s ++ take (length (unwritten s)) src) (drop (length src) (unwritten s)).
Definition fits_in (src : bytes) (s : MutSlice) : bool := bool_decide (length src ≤ length (unwritten s))%nat.
Lemma write_all_slice src (s : MutSlice) :
  BufMutWriter.write_all src s = (if fits_in src s then Ok tt else Err tt, fill src s).
Proof.
  destruct s as [w u]. unfold BufMutWriter.write_all, fits_in, fill. cbn [unwritten written].
  destruct src as [|x src]; [cbn; rewrite firstn_nil, app_nil_r; by destruct u|].
  cbn [length BufMutWriter.write_rest]. unfold BufMutWriter.write, mbind, M_bind.
  cbn [remaining_mut put_slice BufMut_MutSlice unwritten written]. set (l := x :: src). destruct u as [|y u].
  { rewrite Z.min_l by (cbn; lia). change (Z.of_nat (length (@nil Z))) with 0. cbn.
    rewrite bool_decide_eq_false_2 by lia. unfold fail. by rewrite !app_nil_r, drop_nil. }
  change (S (length src)) with (length l). case_bool_decide as Hl.
  - rewrite Z.min_r, Nat2Z.id, firstn_all, skipn_all by lia. rewrite (proj2 (Z.eqb_neq _ 0)) by (cbn [length l]; lia).
    rewrite (take_ge l) by lia. by destruct (length src).
  - rewrite Z.min_l, Nat2Z.id by lia. rewrite (proj2 (Z.eqb_neq _ 0)) by (cbn [length]; lia).
    rewrite (drop_ge (y :: u) (length (take (length (y :: u)) l))) by (rewrite length_take; lia).
    rewrite (drop_ge (y :: u) (length l)) by lia.
    destruct (drop (length (y :: u)) l) as [|z r] eqn:E.
    { apply (f_equal length) in E. rewrite length_drop in E. cbn in E, Hl. lia. }
    destruct (length src) as [|fuel] eqn:Ef; [cbn in Hl; lia|].
    cbn -[take length]. unfold mbind, M_bind, BufMutWriter.write, fail. cbn. by rewrite app_nil_r.
Qed.
(** The pieces are written as one. *)
Lemma fill_app l l' s : fill l' (fill l s) = fill (l ++ l') s.
Proof.
  destruct s as [w u]. unfold fill. cbn [written unwritten].
  rewrite <- (assoc_L (++)), drop_drop, length_app, take_app, length_drop. done.
Qed.
Lemma fits_in_app l l' s : fits_in (l ++ l') s = fits_in l s && fits_in l' (fill l s).
Proof.
  destruct s as [w u]. unfold fits_in, fill. cbn [unwritten]. rewrite length_app, length_drop.
  repeat case_bool_decide; cbn; (done || lia).
Qed.
Lemma pieces_slice (pieces : list bytes) (s : MutSlice) : ∃ s',
  for_each BufMutWriter.write_all pieces s = (if fits_in (concat pieces) s then Ok tt else Err tt, s') ∧
  (fits_in (concat pieces) s = true → s' = fill (concat pieces) s).
Proof.
  revert s. induction pieces as [|p pieces IH]; intros s; cbn [for_each concat].
  { exists s. split; [by unfold fits_in; rewrite bool_decide_eq_true_2 by (cbn; lia)|]. intros _. destruct s as [w u].
    unfold fill. cbn. by rewrite firstn_nil, app_nil_r. }
  rewrite fits_in_app. destruct (fits_in p s) eqn:Hp; cbn [andb].
  - destruct (IH (fill p s)) as (s' & E & Hs'). exists s'. split; [|intros; rewrite Hs' by done; apply fill_app].
    pose proof (write_all_slice p s) as Hw. rewrite Hp in Hw. by step_ok Hw.
  - exists (fill p s). split; [|done]. pose proof (write_all_slice p s) as Hw. rewrite Hp in Hw.
    by rewrite (bind_err _ _ _ _ _ Hw).
Qed.

(** ** What is sent is handled *)

Section flight.
Context {IN : Type} `{ArconType IN, FlightMessage (RawArconMessage IN), Abomonation (RawArconMessage IN), !FlightLaws (RawArconMessage IN)}.

(** A message has room in the address space, with the version in front. *)
Definition sendable (m : RawArconMessage IN) : Prop := message_len m ≤ usize_max ∧ 4 + abom_measure m ≤ usize_max.
Lemma serialise_unsafe_vec (m : RawArconMessage IN) :
  sendable m → UnsafeSerde.serialise m ([] : bytes) = (Ok tt, to_be_bytes 4 (VERSION_ID (A:=IN)) ++ concat (abom_pieces m)).
Proof using Type.
  intros [_ Hm]. unfold UnsafeSerde.serialise, abom_measure in *. unfold mbind, M_bind, put_u32.
  cbn [remaining_mut put_slice BufMut_Vec length]. rewrite (proj2 (Z.leb_le _ _)) by (unfold usize_max; lia).
  unfold on_outcome. rewrite pieces_vec; [done|]. cbn [app]. rewrite length_to_be_bytes. lia.
Qed.
Lemma deserialise_serialise serde (m : RawArconMessage IN) :
  sendable m → in_u 32 (VERSION_ID (A:=IN)) →
  ∃ w, serialise serde m ([] : bytes) = (Ok tt, w) ∧ deserialise serde w = Ok m.
Proof using All.
  intros Hm Hv. destruct serde; cbn [serialise deserialise].
  - eexists. split; [by apply serialise_unsafe_vec|]. unfold UnsafeSerde.deserialise, mbind, M_bind.
    rewrite get_u32_bytes, Z.eqb_refl by done. unfold gets, front_chunk, Chunked_slice. by rewrite abom_law.
  - destruct (message_law m [] (proj1 Hm)) as (w & E & Hw). exists w. split; [exact E|]. exact Hw.
Qed.
End flight.

(** The room an unsafe serialisation needs is the size that is announced: with less than four bytes it
    panics, and with less than all it fails after it has filled the buffer. *)
Theorem unsafe_serialise_room {A : Type} `{ArconType A, Abomonation (RawArconMessage A)} (m : RawArconMessage A) (s : MutSlice) :
  let room := len (unwritten s) in ∃ s', UnsafeSerde.serialise m s =
    (if room <? 4 then Panic "assertion failed: self.remaining_mut() >= src.len()"
     else if bool_decide (default 0 (UnsafeSerde.size_hint m) ≤ room) then Ok tt
     else Err "Failed to encode unsafe flight data"%string, s') ∧
    (default 0 (UnsafeSerde.size_hint m) ≤ room →
      s' = fill (to_be_bytes 4 (VERSION_ID (A:=A)) ++ concat (abom_pieces m)) s).
Proof.
  intros room. unfold UnsafeSerde.serialise, put_u32, UnsafeSerde.size_hint. cbn [from_option]. unfold Datatypes.id.
  unfold mbind, M_bind. cbn [remaining_mut BufMut_MutSlice]. fold room.
  assert (0 ≤ abom_measure m) by (unfold abom_measure; lia).
  destruct (Z.leb_spec 4 room) as [Hr|Hr].
  2: { exists s. rewrite (proj2 (Z.ltb_lt _ _)) by lia. split; [done|cbn; lia]. }
  rewrite (proj2 (Z.ltb_ge _ _)) by lia. set (v := to_be_bytes 4 _).
  assert (put_slice s v = fill v s) as ->.
  { unfold fill. cbn. rewrite (take_ge v); [done|]. unfold v, room in *. rewrite length_to_be_bytes. lia. }
  unfold on_outcome. destruct (pieces_slice (abom_pieces m) (fill v s)) as (s' & -> & Hs').
  assert (fits_in (concat (abom_pieces m)) (fill v s) = bool_decide (4 + abom_measure m ≤ room)) as Hfit.
  { unfold fits_in, fill, abom_measure. cbn [unwritten]. apply bool_decide_ext. rewrite length_drop. unfold v, room.
    rewrite length_to_be_bytes. lia. }
  exists s'. rewrite Hfit in *. case_bool_decide; (split; [done|]); [|done]. intros _. by rewrite Hs', fill_app.
Qed.

Section node.
Context `{BuildProfile, SystemTime, Receivers, Fuel, NodeConfig} {OP IN OUT TS T B : Type}.
Context `{Transport OUT, ArconType IN, ArconType OUT, Backend B, TimerBackend T TS B}.
Context `{!Operator OP IN OUT TS T B}.
Context `{Key NodeID, Value Watermark, Value Epoch, Value unit, Value (RawArconMessage IN)}.
Context `{FlightMessage (RawArconMessage IN), Abomonation (RawArconMessage IN)}.
Implicit Types (n : Node OP IN).

(** C28: What a remote channel serialises, with either serialiser, a node handles like a message of its own
    process. *)
Theorem node_receives_flight serde (m : RawArconMessage IN) n :
  FlightLaws (RawArconMessage IN) → UNSAFE_SER_ID (A:=IN) ≠ RELIABLE_SER_ID (A:=IN) → in_u 32 (VERSION_ID (A:=IN)) → sendable m →
  ∃ w, serialise serde m ([] : bytes) = (Ok tt, w) ∧
    ∀ s, receive_network n (net_message (serde_id (A:=IN) serde) w) s = logged (handle_raw_msg n m) s.
Proof using All.
  intros Hlaws Hids Hv Hm. destruct (deserialise_serialise serde m Hm Hv) as (w & E & Hw). exists w. split; [exact E|].
  intros s. unfold receive_network. cbn [ser_id try_deserialise net_message]. destruct serde; cbn [serde_id].
  - unfold UnsafeSerde.ser_id. rewrite (proj2 (Z.eqb_neq _ _) Hids), Z.eqb_refl, Hw. done.
  - unfold ReliableSerde.ser_id. rewrite Z.eqb_refl, Hw. done.
Qed.

(** C29: What a node does with other input: an unsafe message that another version of the type serialised is
    logged and dropped, whatever it says; one that is too short for a version, and one of an unknown
    serialiser, make the node panic. *)
Theorem node_rejects_flight {IN' : Type} (other : ArconType IN') `{Abomonation (RawArconMessage IN'), FlightMessage (RawArconMessage IN')}
    (m : RawArconMessage IN') n :
  UNSAFE_SER_ID (A:=IN) ≠ RELIABLE_SER_ID (A:=IN) → in_u 32 (VERSION_ID (A:=IN')) → VERSION_ID (A:=IN') ≠ VERSION_ID (A:=IN) → sendable m →
  (∃ w, UnsafeSerde.serialise m ([] : bytes) = (Ok tt, w) ∧
    ∀ s, receive_network n (net_message (UNSAFE_SER_ID (A:=IN)) w) s =
      log_error (new_arcon ("Failed to unpack unreliable ArconMessage with err " +:+
        UnsafeSerde.version_mismatch (A:=IN) (VERSION_ID (A:=IN')))) s) ∧
  (∀ (w : bytes) s, len w < 4 → receive_network n (net_message (UNSAFE_SER_ID (A:=IN)) w) s =
    (Panic "assertion failed: self.remaining() >= dst.len()", s)) ∧
  (∀ id (w : bytes) s, id ≠ UNSAFE_SER_ID (A:=IN) → id ≠ RELIABLE_SER_ID (A:=IN) →
    receive_network n (net_message id w) s = (Panic "Unexpected deserialiser", s)).
Proof using All.
  intros Hids Hv Hne Hm. split; [|split].
  - eexists. split; [by apply serialise_unsafe_vec|]. intros s. unfold receive_network. cbn [ser_id try_deserialise net_message deserialise].
    rewrite (proj2 (Z.eqb_neq _ _) Hids), Z.eqb_refl. unfold UnsafeSerde.deserialise, mbind, M_bind.
    rewrite get_u32_bytes by done. by rewrite (proj2 (Z.eqb_neq _ _) Hne).
  - intros w s Hw. unfold receive_network. cbn [ser_id try_deserialise net_message deserialise].
    rewrite (proj2 (Z.eqb_neq _ _) Hids), Z.eqb_refl. unfold UnsafeSerde.deserialise, get_u32, mbind, M_bind. cbn [remaining Buf_slice].
    by rewrite (proj2 (Z.leb_gt _ _)).
  - intros id w s H1' H2'. unfold receive_network. cbn [ser_id net_message].
    by rewrite (proj2 (Z.eqb_neq _ _) H1'), (proj2 (Z.eqb_neq _ _) H2').
Qed.
End node.

(** ** Concrete codecs *)

#[local] Instance flight_message : FlightMessage (RawArconMessage Z) := {|
  message_len m := len (pos_bytes (encode m));
  message_encode X _ m := modify (λ buf, put_slice buf (pos_bytes (encode m)));
  message_decode l :=
    match '(p, _) ← bytes_pos l; decode p with Some m => Ok m | None => Err "failed to decode Protobuf message"%string end;
|}.
#[local] Instance flight_abomonation : Abomonation (RawArconMessage Z) := {|
  abom_pieces m := [pos_bytes (encode m)];
  abom_decode l := '(p, rest) ← bytes_pos l; m ← decode p; Some (m, rest);
|}.
#[local] Instance flight_laws : FlightLaws (RawArconMessage Z).
Proof.
  split.
  - intros m target _. exists (pos_bytes (encode m)). split; [done|]. cbn.
    rewrite <- (app_nil_r (pos_bytes _)), bytes_pos_bytes. cbn. by rewrite decode_encode.
  - intros m. cbn. rewrite app_nil_r, <- (app_nil_r (pos_bytes _)), bytes_pos_bytes. cbn. by rewrite decode_encode.
Qed.

Import NodeExample.
#[local] Instance flight_config : NodeConfig := no_checkpoints.
#[local] Instance flight_memory : Backend InMemory := reopened false.
Definition hello : RawArconMessage Z := MkRawArconMessage [wrap (Element (ArconElement_new 5)); wrap (EvWatermark (MkWatermark 3))] (MkNodeID 1).
Lemma hello_sendable : sendable hello.
Proof. split; by apply (bool_decide_unpack _). Qed.
Example node_receives_flight_witness :
  ∃ w, serialise Unsafe hello ([] : bytes) = (Ok tt, w) ∧
    ∀ s : NodeEnv Z unit InMemory, receive_network node (net_message 1 w) s = logged (handle_raw_msg node hello) s.
Proof.
  destruct (node_receives_flight (OUT:=Z) (T:=unit) (B:=InMemory) Unsafe hello node flight_laws) as (w & E & Hw);
    [done..|apply hello_sendable|]. exists w. split; [exact E|exact Hw].
Defined.

(** The same type in its second version. *)
Definition Z_version_2 : ArconType Z :=
  {| arcon_value := countable_Value 1; arcon_drop _ := false; UNSAFE_SER_ID := 1; RELIABLE_SER_ID := 2; VERSION_ID := 2; get_key := λ x, x |}.
Example node_rejects_flight_witness :
  ∃ w, UnsafeSerde.serialise (H:=Z_version_2) hello ([] : bytes) = (Ok tt, w) ∧
    ∀ s : NodeEnv Z unit InMemory, receive_network node (net_message 1 w) s =
      log_error (new_arcon "Failed to unpack unreliable ArconMessage with err Mismatch on ArconType version. Got 2 while expecting 1") s.
Proof.
  destruct (node_rejects_flight (OUT:=Z) (T:=unit) (B:=InMemory) Z_version_2 hello node) as ((w & E & Hw) & _ & _); [done..|apply hello_sendable|].
  exists w. split; [exact E|exact Hw].
Defined.
