(* ===== verification/Nexmark.v ===== *)
(** [arcon/experiments/src/nexmark]: the configuration of the NEXMark benchmark and the generator of its
    events. *)

From S2P Require Import Prelude Error Metrics.
From Stdlib Require Import Floats.SpecFloat.

(** ** The crate [rand] and the mathematical library

    [sample low high] is what [gen_range] draws when it does not panic. *)
Class Rng (R : Type) := {
  sample : Z → Z → R → Z * R;
  gen_f32 : R → spec_float * R;
  choose_from {A} : list A → R → option A * R;
}.
(** Documented behaviour: the bounds of [gen_range], and [choose] fails on an empty slice only. *)
Class RngLaws (R : Type) `{Rng R} : Prop := {
  sample_bounds low high r : low < high → low ≤ (sample low high r).1 < high;
  choose_some {A} (l : list A) r : l ≠ [] → ∃ x, (choose_from l r).1 = Some x ∧ x ∈ l;
}.
Class Libm := { powf : spec_float → spec_float → spec_float; cos : spec_float → spec_float }.

Section rng.
Context {R E : Type} `{Rng R}.
Definition gen_range (low high : Z) : M R E Z := λ r,
  if low <? high then (Ok (sample low high r).1, (sample low high r).2)
  else (Panic "UniformSampler::sample_single: low >= high", r).
Definition choose {A} (l : list A) : M R E A := λ r,
  (expect "called `Option::unwrap()` on a `None` value" (choose_from l r).1, (choose_from l r).2).
End rng.

(** ** Binary32 *)

Definition f32_mul : spec_float → spec_float → spec_float := SFmul 24 128.
Definition f32_of_int (x : Z) : spec_float := binary_normalize 24 128 x 0 false.

(** ** The configuration ([config.rs]) *)

Inductive RateShape : Type := Square | Sine.
Inductive NEXMarkQuery : Type := CurrencyConversion | LocalItemSuggestion.
#[export] Instance RateShape_eq_dec : EqDecision RateShape.
Proof. solve_decision. Defined.
Definition NEXMarkQuery_new (i : Z) : option NEXMarkQuery :=
  if i =? 1 then Some CurrencyConversion else if i =? 3 then Some LocalItemSuggestion else None.

Record NEXMarkConfig : Type := MkNEXMarkConfig {
  query : NEXMarkQuery;
  num_events : Z;
  num_events_generators : Z;
  hot_auction_ratio : Z;
  hot_seller_ratio : Z;
  hot_bidder_ratio : Z;
  window_size_sec : Z;
  window_period_sec : Z;
  num_active_people : Z;
  in_flight_auctions : Z;
  stream_timeout : Z;
  person_id_lead : Z;
  rate_shape : RateShape;
  num_categories : Z;
  first_rate : Z;
  next_rate : Z;
  out_of_order_group_size : Z;
  time_dilation : Z;
  inter_event_delays_ns : list f64;
  step_length : Z;
  base_time_ns : Z;
  epoch_period : spec_float;
  first_event_id : Z;
  first_event_number : Z;
  auction_id_lead : Z;
  hot_seller_ratio_2 : Z;
  hot_auction_ratio_2 : Z;
  hot_bidder_ratio_2 : Z;
  person_proportion : Z;
  auction_proportion : Z;
  bid_proportion : Z;
  proportion_denominator : Z;
  rate_period : Z;
  first_auction_id : Z;
  first_person_id : Z;
  first_category_id : Z;
  sine_approx_steps : Z;
  us_states : list string;
  us_cities : list string;
  first_names : list string;
  last_names : list string;
}.

(** [default]: an empty file, which leaves every field to its default function. *)
Definition NEXMarkConfig_default : NEXMarkConfig := {|
  query := CurrencyConversion;
  num_events := 100000000;
  num_events_generators := 100;
  hot_auction_ratio := 2;
  hot_seller_ratio := 4;
  hot_bidder_ratio := 4;
  window_size_sec := 10;
  window_period_sec := 10;
  num_active_people := 1000;
  in_flight_auctions := 100;
  stream_timeout := 100;
  person_id_lead := 10;
  rate_shape := Sine;
  num_categories := 5;
  first_rate := 1000;
  next_rate := 1000;
  out_of_order_group_size := 1;
  time_dilation := 1;
  inter_event_delays_ns := [];
  step_length := 0;
  base_time_ns := 0;
  epoch_period := S754_zero false;
  first_event_id := 0;
  first_event_number := 0;
  auction_id_lead := 10;
  hot_seller_ratio_2 := 100;
  hot_auction_ratio_2 := 100;
  hot_bidder_ratio_2 := 100;
  person_proportion := 1;
  auction_proportion := 3;
  bid_proportion := 3;
  proportion_denominator := 0;
  rate_period := 600;
  first_auction_id := 1000;
  first_person_id := 1000;
  first_category_id := 10;
  sine_approx_steps := 10;
  us_states := ["AZ"; "CA"; "ID"; "OR"; "WA"; "WY"]%string;
  us_cities := ["Phoenix"; "Los Angeles"; "Seattle"; "San Francisco"]%string;
  first_names := ["Ben"; "Andrew"; "Steve"; "Derek"]%string;
  last_names := ["Svensson"; "Andersson"; "Antonsson"; "Rikardsson"]%string;
|}.
(** The assignments of [finish], and the one of the source to the base time. *)
Definition set_finished (delays : list f64) (step denominator : Z) (c : NEXMarkConfig) : NEXMarkConfig :=
  MkNEXMarkConfig (query c) (num_events c) (num_events_generators c) (hot_auction_ratio c) (hot_seller_ratio c)
    (hot_bidder_ratio c) (window_size_sec c) (window_period_sec c) (num_active_people c) (in_flight_auctions c)
    (stream_timeout c) (person_id_lead c) (rate_shape c) (num_categories c) (first_rate c) (next_rate c)
    (out_of_order_group_size c) (time_dilation c) delays step (base_time_ns c) (epoch_period c) (first_event_id c)
    (first_event_number c) (auction_id_lead c) (hot_seller_ratio_2 c) (hot_auction_ratio_2 c) (hot_bidder_ratio_2 c)
    (person_proportion c) (auction_proportion c) (bid_proportion c) denominator (rate_period c) (first_auction_id c)
    (first_person_id c) (first_category_id c) (sine_approx_steps c) (us_states c) (us_cities c) (first_names c) (last_names c).
Definition set_base_time (base : Z) (c : NEXMarkConfig) : NEXMarkConfig :=
  MkNEXMarkConfig (query c) (num_events c) (num_events_generators c) (hot_auction_ratio c) (hot_seller_ratio c)
    (hot_bidder_ratio c) (window_size_sec c) (window_period_sec c) (num_active_people c) (in_flight_auctions c)
    (stream_timeout c) (person_id_lead c) (rate_shape c) (num_categories c) (first_rate c) (next_rate c)
    (out_of_order_group_size c) (time_dilation c) (inter_event_delays_ns c) (step_length c) base (epoch_period c)
    (first_event_id c) (first_event_number c) (auction_id_lead c) (hot_seller_ratio_2 c) (hot_auction_ratio_2 c)
    (hot_bidder_ratio_2 c) (person_proportion c) (auction_proportion c) (bid_proportion c) (proportion_denominator c)
    (rate_period c) (first_auction_id c) (first_person_id c) (first_category_id c) (sine_approx_steps c) (us_states c)
    (us_cities c) (first_names c) (last_names c).

Section config.
Context `{BuildProfile, Libm} {E : Type}.
Abbreviation result := (outcome E).
Implicit Types (nex conf : NEXMarkConfig).

Definition rate_to_period (r : Z) : f64 := f64_div (f64_of_int 1000000000) (f64_of_int r).
Definition PI : f64 := f64_dyadic 884279719003555 (-48).
Definition generator_delay conf (rate : Z) : f64 := f64_mul (rate_to_period rate) (f64_of_int (num_events_generators conf)).
(** The rate at step [i] of a sine. *)
Definition sine_rate conf (mid amp : f64) (i : Z) : Z :=
  let r := f64_div (f64_mul (f64_mul (f64_of_int 2) PI) (f64_of_int i)) (f64_of_int (sine_approx_steps conf)) in
  f64_as_u 32 (f64_round (f64_add mid (f64_mul amp (cos r)))).
Definition finish conf : result NEXMarkConfig :=
  delays ←
    (if first_rate conf =? next_rate conf then Ok [generator_delay conf (first_rate conf)]
     else match rate_shape conf with
     | Square => Ok [generator_delay conf (first_rate conf); generator_delay conf (next_rate conf)]
     | Sine =>
         sum ← u_add 32 (first_rate conf) (next_rate conf);
         difference ← u_sub 32 (first_rate conf) (next_rate conf);
         let mid := f64_div (f64_of_int sum) (f64_of_int 2) in
         let amp := f64_div (f64_of_int difference) (f64_of_int 2) in
         Ok ((λ i, generator_delay conf (sine_rate conf mid amp i)) <$> seqZ 0 (sine_approx_steps conf))
     end);
  let n := if decide (rate_shape conf = Square) then 2 else sine_approx_steps conf in
  p ← u_add 32 (rate_period conf) n;
  p ← u_sub 32 p 1;
  step ← u_div p n;
  d ← u_add 32 (person_proportion conf) (auction_proportion conf);
  d ← u_add 32 d (bid_proportion conf);
  if 1 <? len delays then Panic "non-constant rate not supported" else Ok (set_finished delays step d conf).

Definition event_timestamp_ns nex (event_number : Z) : result Z :=
  delay ← expect "index out of bounds: the len is 0 but the index is 0" (head (inter_event_delays_ns nex));
  u_add 32 (base_time_ns nex) (f64_as_u 32 (f64_mul (f64_of_int event_number) delay)).
Definition next_adjusted_event nex (events_so_far : Z) : result Z :=
  let n := out_of_order_group_size nex in
  event_number ← u_add 32 (first_event_number nex) events_so_far;
  q ← u_div event_number n;
  base ← u_mul 32 q n;
  m ← u_mul 32 event_number 953;
  r ← u_rem m n;
  u_add 32 base r.
End config.

(** ** The iterator over the times of the events *)

Module NexMarkInputTimes.
Record NexMarkInputTimes : Type := MkNexMarkInputTimes {
  config : NEXMarkConfig;
  next_time : option Z;
  events_so_far : Z;
  end_time : Z;
  dilation : Z;
  peers : Z;
}.
Section times.
Context `{BuildProfile} {E : Type}.
Definition make_next (t : NexMarkInputTimes) : outcome E NexMarkInputTimes :=
  n ← next_adjusted_event (config t) (events_so_far t mod 2 ^ 32);
  ts ← event_timestamp_ns (config t) n;
  ts ← u_div ts (dilation t);
  if ts <? end_time t then
    n ← u_add 64 (events_so_far t) (peers t);
    Ok (MkNexMarkInputTimes (config t) (Some ts) n (end_time t) (dilation t) (peers t))
  else Ok (MkNexMarkInputTimes (config t) None (events_so_far t) (end_time t) (dilation t) (peers t)).
Definition new (config : NEXMarkConfig) (end_ dilation peers : Z) : outcome E NexMarkInputTimes :=
  make_next (MkNexMarkInputTimes config None 0 end_ dilation peers).
Definition next : M NexMarkInputTimes E (option Z) := λ t,
  match make_next t with
  | Ok t' => (Ok (next_time t), t')
  | Err e => (Err e, t)
  | Panic msg => (Panic msg, t)
  | Diverge => (Diverge, t)
  end.
End times.
End NexMarkInputTimes.

(** ** The events ([mod.rs]) *)

Record Person : Type := MkPerson {
  p_id : Z; p_name : string; email_address : string; credit_card : string; city : string; state : string; p_date : Z;
}.
Record Auction : Type := MkAuction {
  a_id : Z; item_name : string; description : string; initial_bid : Z; reserve : Z; a_date : Z; expires : Z;
  seller : Z; category : Z;
}.
Record Bid : Type := MkBid { auction : Z; bidder : Z; price : Z; b_date : Z }.
Inductive Event : Type :=
| EvPerson (p : Person)
| EvAuction (a : Auction)
| EvBid (b : Bid).
(** [prost] makes the payload of a message optional. *)
Definition NEXMarkEvent : Type := option Event.

Definition is_bid (e : Event) : bool := match e with EvBid _ => true | _ => false end.
Definition is_person (e : Event) : bool := match e with EvPerson _ => true | _ => false end.
Definition is_auction (e : Event) : bool := match e with EvAuction _ => true | _ => false end.
Section event.
Context {E : Type}.
Definition unwrap_event (e : NEXMarkEvent) : outcome E Event := expect "called `Option::unwrap()` on a `None` value" e.
Definition event_id (e : NEXMarkEvent) : outcome E Z :=
  (λ e, match e with EvPerson p => p_id p | EvAuction a => a_id a | EvBid b => auction b end) <$> unwrap_event e.
Definition event_time (e : NEXMarkEvent) : outcome E Z :=
  (λ e, match e with EvPerson p => p_date p | EvAuction a => a_date a | EvBid b => b_date b end) <$> unwrap_event e.
(** The payload is taken out of the message. *)
Definition inner : M NEXMarkEvent E Event := λ e, (unwrap_event e, None).
End event.

Section generator.
Context `{BuildProfile, Libm} {R E : Type} `{Rng R}.
Abbreviation Gen := (M R E).
Implicit Types (nex : NEXMarkConfig).

Definition gen_string (_ : Z) : string := EmptyString.
Definition gen_price : Gen Z := λ r,
  let '(x, r) := gen_f32 r in
  (Ok (f64_as_u 64 (f64_round (f32_mul (powf (f32_of_int 10) (f32_mul x (f32_of_int 6))) (f32_of_int 100)))), r).

Definition person_last_id nex (id : Z) : outcome E Z :=
  epoch ← u_div id (proportion_denominator nex);
  offset ← u_rem id (proportion_denominator nex);
  offset ← (if person_proportion nex <=? offset then u_sub 32 (person_proportion nex) 1 else Ok offset);
  e ← u_mul 32 epoch (person_proportion nex);
  u_add 32 e offset.
Definition person_next_id nex (id : Z) : Gen Z :=
  last ← lift (person_last_id nex id);
  people ← lift (u_add 32 last 1);
  let active := Z.min people (num_active_people nex) in
  inactive ← lift (u_sub 32 people active);
  high ← lift (u_add 32 active (person_id_lead nex));
  n ← gen_range 0 high;
  lift (u_add 32 inactive n).
Definition Person_new (id time : Z) nex : Gen Person :=
  city ← choose (us_cities nex);
  state ← choose (us_states nex);
  mret (MkPerson id EmptyString EmptyString EmptyString city state time).

Definition auction_last_id nex (id : Z) : outcome E Z :=
  epoch ← u_div id (proportion_denominator nex);
  offset ← u_rem id (proportion_denominator nex);
  '(epoch, offset) ←
    (if offset <? person_proportion nex then
       epoch ← u_sub 32 epoch 1;
       offset ← u_sub 32 (auction_proportion nex) 1;
       Ok (epoch, offset)
     else
       pa ← u_add 32 (person_proportion nex) (auction_proportion nex);
       if pa <=? offset then offset ← u_sub 32 (auction_proportion nex) 1; Ok (epoch, offset)
       else offset ← u_sub 32 offset (person_proportion nex); Ok (epoch, offset));
  e ← u_mul 32 epoch (auction_proportion nex);
  u_add 32 e offset.
Definition auction_next_id nex (id : Z) : Gen Z :=
  max_auction ← lift (auction_last_id nex id);
  min_auction ←
    (if max_auction <? in_flight_auctions nex then mret 0 else lift (u_sub 32 max_auction (in_flight_auctions nex)));
  high ← lift (u_sub 32 max_auction min_auction);
  high ← lift (u_add 32 high 1);
  high ← lift (u_add 32 high (auction_id_lead nex));
  n ← gen_range 0 high;
  lift (u_add 32 min_auction n).
Definition next_length nex (events_so_far time : Z) : Gen Z :=
  current_event ← lift (next_adjusted_event nex events_so_far);
  m ← lift (u_mul 32 (in_flight_auctions nex) (proportion_denominator nex));
  events_for_auctions ← lift (u_div m (auction_proportion nex));
  future_event ← lift (u_add 32 current_event events_for_auctions);
  future_auction ← lift (event_timestamp_ns nex future_event);
  horizon ← lift (u_sub 32 future_auction time);
  twice ← lift (u_mul 32 horizon 2);
  n ← gen_range 0 (Z.max twice 1);
  lift (u_add 32 1 n).
(** The number of a hot entity: the last one, rounded down to a multiple of the ratio. *)
Definition hot_id (last ratio : Z) : outcome E Z := q ← u_div last ratio; u_mul 32 q ratio.
Definition Auction_new (events_so_far id time : Z) nex : Gen Auction :=
  p ← gen_price;
  let initial_bid := p mod 2 ^ 32 in
  hot ← gen_range 0 (hot_seller_ratio nex);
  seller ←
    (if 0 <? hot then lift (last ← person_last_id nex id; hot_id last (hot_seller_ratio_2 nex))
     else person_next_id nex id);
  last ← lift (auction_last_id nex id);
  a_id ← lift (u_add 32 last (first_auction_id nex));
  p ← gen_price;
  reserve ← lift (u_add 32 initial_bid (p mod 2 ^ 32));
  length ← next_length nex events_so_far time;
  expires ← lift (u_add 32 time length);
  seller ← lift (u_add 32 seller (first_person_id nex));
  n ← gen_range 0 (num_categories nex);
  category ← lift (u_add 32 (first_category_id nex) n);
  mret (MkAuction a_id (gen_string 20) (gen_string 100) initial_bid reserve time expires seller category).

Definition Bid_new (id time : Z) nex : Gen Bid :=
  hot ← gen_range 0 (hot_auction_ratio nex);
  auction ←
    (if 0 <? hot then lift (last ← auction_last_id nex id; hot_id last (hot_auction_ratio_2 nex))
     else auction_next_id nex id);
  hot ← gen_range 0 (hot_bidder_ratio nex);
  bidder ←
    (if 0 <? hot then lift (last ← person_last_id nex id; h ← hot_id last (hot_bidder_ratio_2 nex); u_add 32 h 1)
     else person_next_id nex id);
  auction ← lift (u_add 32 auction (first_auction_id nex));
  bidder ← lift (u_add 32 bidder (first_person_id nex));
  p ← gen_price;
  mret (MkBid auction bidder (p mod 2 ^ 32) time).

Definition NEXMarkEvent_create (events_so_far : Z) nex : Gen NEXMarkEvent :=
  n ← lift (next_adjusted_event nex events_so_far);
  rem ← lift (u_rem n (proportion_denominator nex));
  timestamp ← lift (event_timestamp_ns nex n);
  id ← lift (u_add 32 (first_event_id nex) n);
  if rem <? person_proportion nex then p ← Person_new id timestamp nex; mret (Some (EvPerson p))
  else
    pa ← lift (u_add 32 (person_proportion nex) (auction_proportion nex));
    if rem <? pa then a ← Auction_new events_so_far id timestamp nex; mret (Some (EvAuction a))
    else b ← Bid_new id timestamp nex; mret (Some (EvBid b)).
End generator.
