(* ===== verification/NexmarkSpec.v ===== *)
(** The generator of NEXMark events: which numbers it gives to people and auctions, that the events are
    well formed and refer to what exists, and where its integers are too small. *)

From S2P Require Import Prelude Error Metrics Nexmark.
From Stdlib Require Import Floats.SpecFloat.

(** ** Configurations *)

Definition small (x : Z) : Prop := 0 ≤ x ≤ 2 ^ 16.
Record nex_ok (nex : NEXMarkConfig) : Prop := {
  ok_denominator : proportion_denominator nex = person_proportion nex + auction_proportion nex + bid_proportion nex;
  ok_proportions : 1 ≤ person_proportion nex ∧ 1 ≤ auction_proportion nex ∧ 0 ≤ bid_proportion nex ∧
    small (proportion_denominator nex);
  ok_hot : 1 ≤ hot_seller_ratio nex ∧ 1 ≤ hot_auction_ratio nex ∧ 1 ≤ hot_bidder_ratio nex;
  ok_hot_2 : 1 ≤ hot_seller_ratio_2 nex ∧ 1 ≤ hot_auction_ratio_2 nex ∧ 1 ≤ hot_bidder_ratio_2 nex;
  ok_active : 1 ≤ num_active_people nex ∧ small (num_active_people nex);
  ok_small : small (person_id_lead nex) ∧ small (auction_id_lead nex) ∧ 0 ≤ in_flight_auctions nex;
  ok_first : small (first_person_id nex) ∧ small (first_auction_id nex) ∧ small (first_event_number nex);
  ok_first_event : small (first_event_id nex) ∧ first_event_id nex mod proportion_denominator nex = 0;
  ok_category : 0 ≤ first_category_id nex ∧ 1 ≤ num_categories nex ∧ first_category_id nex + num_categories nex < 2 ^ 32;
  ok_group : 1 ≤ out_of_order_group_size nex ∧ small (out_of_order_group_size nex);
  ok_texts : us_cities nex ≠ [] ∧ us_states nex ≠ [];
  ok_delays : inter_event_delays_ns nex ≠ [];
}.

(** ** The numbers of people and auctions

    The events come in rounds of [proportion_denominator]: first the people, then the auctions, then the
    bids.  These are how many there are among the events [0] to [id]. *)
Definition is_person_event (nex : NEXMarkConfig) (j : Z) : bool := j mod proportion_denominator nex <? person_proportion nex.
Definition is_auction_event (nex : NEXMarkConfig) (j : Z) : bool :=
  let r := j mod proportion_denominator nex in
  (person_proportion nex <=? r) && (r <? person_proportion nex + auction_proportion nex).
Definition upto (P : Z → bool) (id : Z) : Z := len (filter P (seqZ 0 (id + 1))).
Definition people nex id : Z := upto (is_person_event nex) id.
Definition auctions nex id : Z := upto (is_auction_event nex) id.

Lemma upto_step P id : 0 ≤ id → upto P (id + 1) = upto P id + (if P (id + 1) then 1 else 0).
Proof.
  intros Hid. unfold upto. rewrite (seqZ_app 0 (id + 1) 1) by lia. rewrite filter_app, length_app, Nat2Z.inj_add. f_equal.
  rewrite seqZ_cons, seqZ_nil, Z.add_0_l by lia. cbn. by destruct (P (id + 1)).
Qed.
Lemma div_mod_step a n : 0 < n → 0 ≤ a →
  (a mod n + 1 < n ∧ (a + 1) / n = a / n ∧ (a + 1) mod n = a mod n + 1) ∨
  (a mod n + 1 = n ∧ (a + 1) / n = a / n + 1 ∧ (a + 1) mod n = 0).
Proof.
  intros Hn Ha. pose proof (Z_div_mod_eq_full a n) as Hd. pose proof (Z.mod_pos_bound a n Hn).
  destruct (decide (a mod n + 1 < n)); [left|right]; (split; [lia|]).
  - split; symmetry; [apply (Z.div_unique _ _ _ (a mod n + 1))|apply (Z.mod_unique _ _ (a / n))]; lia.
  - split; symmetry; [apply (Z.div_unique _ _ _ 0)|apply (Z.mod_unique _ _ (a / n + 1))]; lia.
Qed.
(** How many numbers up to [id] have a remainder in an interval. *)
Lemma upto_interval (P : Z → bool) n lo hi id :
  0 ≤ lo → lo ≤ hi → hi ≤ n → 0 < n → 0 ≤ id → (∀ j, P j = (lo <=? j mod n) && (j mod n <? hi)) →
  upto P id = id / n * (hi - lo) + Z.max 0 (Z.min hi (id mod n + 1) - lo).
Proof.
  intros Hlo Hlh Hhi Hn Hid HP. revert id Hid. apply natlike_ind.
  - assert (upto P 0 = if P 0 then 1 else 0) as ->.
    { unfold upto. change (seqZ 0 (0 + 1)) with [0]. cbn. by destruct (P 0). }
    rewrite HP, Z.div_0_l, Z.mod_0_l by lia. destruct ((lo <=? 0) && _) eqn:E; lia.
  - intros id Hid IH. rewrite <- Z.add_1_r, upto_step, IH, HP by done. pose proof (Z.mod_pos_bound id n Hn).
    destruct (div_mod_step id n Hn Hid) as [(Hr & -> & ->)|(Hr & -> & ->)].
    + destruct ((lo <=? _) && _) eqn:E; lia.
    + destruct ((lo <=? _) && _) eqn:E; nia.
Qed.

Section ids.
Context `{BuildProfile} {E : Type} (nex : NEXMarkConfig) (Hok : nex_ok nex).
Implicit Types (id : Z).
Let den := proportion_denominator nex.
Let pp := person_proportion nex.
Let ap := auction_proportion nex.

Lemma people_eq id : 0 ≤ id → people nex id = id / den * pp + Z.min pp (id mod den + 1).
Proof using Hok.
  intros Hid. destruct Hok as [Hden (Hpp & Hap & Hbp & Hsd)]. pose proof (Z.mod_pos_bound id den ltac:(unfold den; lia)).
  unfold people. rewrite (upto_interval _ den 0 pp id); [unfold den, pp in *; lia|unfold den, pp; lia..|].
  intros j. unfold is_person_event. fold den pp. pose proof (Z.mod_pos_bound j den ltac:(unfold den; lia)).
  by rewrite (proj2 (Z.leb_le _ _)) by lia.
Qed.
Lemma auctions_eq id : 0 ≤ id → auctions nex id = id / den * ap + Z.max 0 (Z.min (pp + ap) (id mod den + 1) - pp).
Proof using Hok.
  intros Hid. destruct Hok as [Hden (Hpp & Hap & Hbp & Hsd)].
  unfold auctions. rewrite (upto_interval _ den pp (pp + ap) id); [unfold den, pp, ap in *; lia|unfold den, pp, ap in *; lia..|done].
Qed.

Lemma people_bounds id : 0 ≤ id → 1 ≤ people nex id ≤ id + 1.
Proof using Hok.
  intros Hid. rewrite people_eq by done. destruct Hok as [Hden (Hpp & Hap & Hbp & Hsd)]. fold den pp ap in Hden, Hpp, Hap.
  pose proof (Z.mod_pos_bound id den ltac:(lia)). pose proof (Z_div_mod_eq_full id den). pose proof (Z.div_pos id den ltac:(lia) ltac:(lia)).
  nia.
Qed.
Lemma auctions_bounds id : 0 ≤ id → 0 ≤ auctions nex id ≤ id + 1.
Proof using Hok.
  intros Hid. rewrite auctions_eq by done. destruct Hok as [Hden (Hpp & Hap & Hbp & Hsd)]. fold den pp ap in Hden, Hpp, Hap.
  pose proof (Z.mod_pos_bound id den ltac:(lia)). pose proof (Z_div_mod_eq_full id den). pose proof (Z.div_pos id den ltac:(lia) ltac:(lia)).
  nia.
Qed.
Lemma person_last id : in_u 32 id → person_last_id (E:=E) nex id = Ok (people nex id - 1).
Proof using Hok.
  intros Hid. unfold in_u in Hid. pose proof (people_bounds id ltac:(lia)) as Hb. rewrite people_eq in * by lia.
  destruct Hok as [Hden (Hpp & Hap & Hbp & Hsd)]. unfold person_last_id. fold den pp ap in Hden, Hpp, Hap |- *. unfold small in *. fold den in Hsd.
  pose proof (Z.mod_pos_bound id den ltac:(lia)). pose proof (Z.div_pos id den ltac:(lia) ltac:(lia)).
  rewrite u_div_ok, u_rem_ok by lia. cbn [mbind outcome_bind].
  assert ((if pp <=? id mod den then u_sub 32 pp 1 else Ok (id mod den)) = (Ok (Z.min pp (id mod den + 1) - 1) : outcome E Z)) as ->.
  { destruct (Z.leb_spec pp (id mod den)); [rewrite u_sub_ok by (unfold in_u; lia)|]; f_equal; lia. }
  cbn [mbind outcome_bind]. rewrite u_mul_ok by (unfold in_u; nia). cbn [mbind outcome_bind]. rewrite u_add_ok by (unfold in_u; nia).
  f_equal. lia.
Qed.
Lemma auction_last id : in_u 32 id → 1 ≤ auctions nex id → auction_last_id (E:=E) nex id = Ok (auctions nex id - 1).
Proof using Hok.
  intros Hid. unfold in_u in Hid. pose proof (auctions_bounds id ltac:(lia)) as Hb. rewrite auctions_eq in * by lia. intros Ha.
  destruct Hok as [Hden (Hpp & Hap & Hbp & Hsd)]. unfold auction_last_id. fold den pp ap in Hden, Hpp, Hap |- *. unfold small in *. fold den in Hsd.
  pose proof (Z.mod_pos_bound id den ltac:(lia)). pose proof (Z.div_pos id den ltac:(lia) ltac:(lia)).
  rewrite u_div_ok, u_rem_ok by lia. cbn [mbind outcome_bind].
  set (k := Z.max 0 (Z.min (pp + ap) (id mod den + 1) - pp)) in *.
  assert (∃ e o, (if id mod den <? pp then
      epoch ← u_sub 32 (id / den) 1; offset ← u_sub 32 ap 1; Ok (epoch, offset)
    else pa ← u_add 32 pp ap;
      if pa <=? id mod den then offset ← u_sub 32 ap 1; Ok (id / den, offset)
      else offset ← u_sub 32 (id mod den) pp; Ok (id / den, offset)) = (Ok (e, o) : outcome E (Z * Z)) ∧
    0 ≤ e ≤ id ∧ 0 ≤ o < ap ∧ e * ap + o = id / den * ap + k - 1) as (e & o & -> & He & Ho & Heq).
  { pose proof (Z_div_mod_eq_full id den). destruct (Z.ltb_spec (id mod den) pp).
    - assert (1 ≤ id / den) by nia. rewrite u_sub_ok by (unfold in_u; nia). cbn [mbind outcome_bind].
      rewrite u_sub_ok by (unfold in_u; lia). eexists _, _. split; [done|]. nia.
    - rewrite u_add_ok by (unfold in_u; lia). cbn [mbind outcome_bind]. destruct (Z.leb_spec (pp + ap) (id mod den)).
      + rewrite u_sub_ok by (unfold in_u; lia). eexists _, _. split; [done|]. nia.
      + rewrite u_sub_ok by (unfold in_u; lia). eexists _, _. split; [done|]. nia. }
  cbn [mbind outcome_bind]. rewrite u_mul_ok by (unfold in_u; nia). cbn [mbind outcome_bind]. rewrite u_add_ok by (unfold in_u; nia).
  f_equal. lia.
Qed.

(** The closed forms by which the generator numbers people and auctions count them: the last id is one
    less than the number of people, or of auctions, among the events so far. *)
Theorem nexmark_last_ids id :
  in_u 32 id →
  person_last_id (E:=E) nex id = Ok (people nex id - 1) ∧
  (1 ≤ auctions nex id → auction_last_id (E:=E) nex id = Ok (auctions nex id - 1)).
Proof using Hok. intros Hid. split; [by apply person_last|by apply auction_last]. Qed.
End ids.

(** ** Events in a release build

    The benchmark is built without overflow checks.  [yields]: the computation returns a value with [P]. *)
Section yields.
Context {S E : Type}.
Definition yields {A} (m : M S E A) (s : S) (P : A → Prop) : Prop := ∃ a s', m s = (Ok a, s') ∧ P a.
Lemma yields_ret {A} (a : A) s (P : A → Prop) : P a → yields (mret a) s P.
Proof. intros HP. by exists a, s. Qed.
Lemma yields_bind {A A'} (m : M S E A) (k : A → M S E A') s P Q :
  yields m s P → (∀ a s', P a → yields (k a) s' Q) → yields (m ≫= k) s Q.
Proof.
  intros (a & s' & Em & HP) Hk. destruct (Hk a s' HP) as (a' & s2 & Ek & HQ). exists a', s2. split; [by step_ok Em|done].
Qed.
Lemma yields_lift {A} (o : outcome E A) a s (P : A → Prop) : o = Ok a → P a → yields (lift o) s P.
Proof. intros -> HP. by exists a, s. Qed.
Lemma yields_weaken {A} (m : M S E A) s (P Q : A → Prop) : yields m s P → (∀ a, P a → Q a) → yields m s Q.
Proof. intros (a & s' & Em & HP) Hi. exists a, s'. auto. Qed.
Lemma yields_exact {A A'} (o : outcome E A) a (k : A → M S E A') s Q : o = Ok a → yields (k a) s Q → yields (lift o ≫= k) s Q.
Proof. intros -> Hk. exact Hk. Qed.
End yields.

Section events.
Context `{BuildProfile, Libm} {R E : Type} `{RngLaws R} (Hrel : overflow_checks = false) (nex : NEXMarkConfig) (Hok : nex_ok nex).
Abbreviation yields := (yields (S:=R) (E:=E)).
Implicit Types (r : R).

Lemma yields_wrap msg x r : yields (lift (wrapping_or_panic 32 msg x)) r (in_u 32).
Proof using Hrel.
  destruct (wrapping_release (E:=E) 32 msg x Hrel) as (y & Hy & Hin); [lia|]. by eapply yields_lift.
Qed.
Lemma yields_range low high r : low < high → yields (gen_range low high) r (λ x, low ≤ x < high).
Proof using All.
  intros Hlh. unfold gen_range. rewrite (proj2 (Z.ltb_lt _ _)) by done. eexists _, _. split; [done|]. by apply sample_bounds.
Qed.
Lemma yields_choose {A} (l : list A) r : l ≠ [] → yields (choose l) r (λ x, x ∈ l).
Proof using All.
  intros Hl. destruct (choose_some l r Hl) as (x & Hx & Hin). exists x. eexists. split; [|done].
  unfold choose. by rewrite Hx.
Qed.
Lemma yields_price r : yields gen_price r (λ _, True).
Proof using Type. eexists _, _. split; [|done]. unfold gen_price. by rewrite (surjective_pairing (gen_f32 r)). Qed.

Lemma adjusted k :
  0 ≤ k < 2 ^ 31 → let g := out_of_order_group_size nex in let m := first_event_number nex + k in
  ∃ n, next_adjusted_event (E:=E) nex k = Ok n ∧ n / g = m / g ∧ 0 ≤ n < m + g.
Proof using Hrel Hok.
  intros Hk g m. destruct Hok as [_ _ _ _ _ _ (_ & _ & Hf) _ _ (Hg & Hsg) _ _]. unfold small in *. fold g in Hg, Hsg.
  unfold next_adjusted_event. fold g m. rewrite u_add_ok by (unfold in_u; lia). fold m.
  assert (0 ≤ m < 2 ^ 31 + 2 ^ 16) as Hm by lia. clearbody m g. cbn [mbind outcome_bind]. rewrite u_div_ok by lia.
  cbn [mbind outcome_bind]. pose proof (Z_div_mod_eq_full m g) as Hd. pose proof (Z.mod_pos_bound m g ltac:(lia)) as Hmg.
  pose proof (Z.mod_le m g ltac:(lia) ltac:(lia)) as Hle. rewrite (u_mul_ok 32 (m / g)) by (unfold in_u; lia). cbn [mbind outcome_bind].
  destruct (wrapping_release (E:=E) 32 "attempt to multiply with overflow" (m * 953) Hrel) as (y & Hy & _); [lia|].
  change (u_mul 32 m 953) with (wrapping_or_panic (E:=E) 32 "attempt to multiply with overflow" (m * 953)). rewrite Hy.
  cbn [mbind outcome_bind]. rewrite u_rem_ok by lia. cbn [mbind outcome_bind]. pose proof (Z.mod_pos_bound y g ltac:(lia)) as Hr.
  rewrite u_add_ok by (unfold in_u; lia). eexists. split; [done|]. split; [|lia].
  symmetry. apply (Z.div_unique _ _ _ (y mod g)); lia.
Qed.
Lemma yields_timestamp n r : yields (lift (event_timestamp_ns nex n)) r (in_u 32).
Proof using Hrel Hok.
  unfold event_timestamp_ns. destruct (inter_event_delays_ns nex) as [|d ds] eqn:Hd; [by destruct (ok_delays _ Hok)|].
  apply yields_wrap.
Qed.

(** A reference to one of [count] things that there are, or to one of the next [lead]. *)
Definition refers (first count lead x : Z) : Prop := first ≤ x < first + count + lead.
Definition number id : Prop := 0 ≤ id < 2 ^ 31 + 2 ^ 18.
Lemma number_in id : number id → in_u 32 id.
Proof using Type. unfold number, in_u. lia. Qed.

Lemma yields_person_next id r :
  number id → yields (person_next_id nex id) r (λ x, 0 ≤ x < people nex id + person_id_lead nex).
Proof using All.
  intros Hid. pose proof (people_bounds nex Hok id ltac:(unfold number in Hid; lia)) as Hb. unfold number in Hid.
  destruct Hok as [_ _ _ _ (Ha & Hsa) (Hl & _) _ _ _ _ _ _]. unfold small in *. unfold person_next_id.
  eapply yields_exact; [by apply person_last, number_in|]. eapply yields_exact; [apply u_add_ok; unfold in_u; lia|].
  rewrite Z.sub_add. set (active := Z.min _ _).
  eapply yields_exact; [apply u_sub_ok; unfold in_u, active; lia|]. eapply yields_exact; [apply u_add_ok; unfold in_u, active; lia|].
  eapply yields_bind; [apply yields_range; unfold active; lia|]. intros n r' Hn. cbn beta in Hn.
  eapply yields_lift; [apply u_add_ok; unfold in_u, active in *; lia|]. cbn beta. unfold active in *. lia.
Qed.
Lemma yields_auction_next id r :
  number id → 1 ≤ auctions nex id → yields (auction_next_id nex id) r (λ x, 0 ≤ x < auctions nex id + auction_id_lead nex).
Proof using All.
  intros Hid Ha. pose proof (auctions_bounds nex Hok id ltac:(unfold number in Hid; lia)) as Hb. unfold number in Hid.
  destruct Hok as [_ _ _ _ _ (_ & Hl & Hf) _ _ _ _ _ _]. unfold small in *. unfold auction_next_id.
  eapply yields_exact; [by apply auction_last; [|apply number_in|]|].
  eapply (yields_bind _ _ _ (λ m, 0 ≤ m ≤ auctions nex id - 1)).
  { destruct (Z.ltb_spec (auctions nex id - 1) (in_flight_auctions nex)); [apply yields_ret; lia|].
    eapply yields_lift; [apply u_sub_ok; unfold in_u; lia|lia]. }
  intros m r' Hm. eapply yields_exact; [apply u_sub_ok; unfold in_u; lia|]. eapply yields_exact; [apply u_add_ok; unfold in_u; lia|].
  eapply yields_exact; [apply u_add_ok; unfold in_u; lia|]. eapply yields_bind; [apply yields_range; lia|].
  intros n r2 Hn. cbn beta in Hn. eapply yields_lift; [apply u_add_ok; unfold in_u; lia|]. cbn beta. lia.
Qed.
Lemma hot_ok last ratio : in_u 32 last → 1 ≤ ratio → ∃ x, hot_id (E:=E) last ratio = Ok x ∧ 0 ≤ x ≤ last.
Proof using Type.
  intros Hl Hr. unfold in_u in Hl. unfold hot_id. rewrite u_div_ok by lia. cbn [mbind outcome_bind].
  pose proof (Z_div_mod_eq_full last ratio). pose proof (Z.mod_pos_bound last ratio ltac:(lia)). pose proof (Z.div_pos last ratio ltac:(lia) ltac:(lia)).
  rewrite u_mul_ok by (unfold in_u; nia). eexists. split; [done|]. nia.
Qed.

(** ** Well-formed events *)

Definition person_ok n (p : Person) : Prop :=
  p_id p = first_event_id nex + n ∧ city p ∈ us_cities nex ∧ state p ∈ us_states nex ∧ in_u 32 (p_date p).
Definition auction_ok n (a : Auction) : Prop :=
  let id := first_event_id nex + n in
  a_id a = first_auction_id nex + (auctions nex id - 1) ∧
  refers (first_person_id nex) (people nex id) (person_id_lead nex) (seller a) ∧
  first_category_id nex ≤ category a < first_category_id nex + num_categories nex ∧
  Forall (in_u 32) [a_id a; initial_bid a; reserve a; a_date a; expires a; seller a; category a].
Definition bid_ok n (b : Bid) : Prop :=
  let id := first_event_id nex + n in
  refers (first_auction_id nex) (auctions nex id) (auction_id_lead nex) (auction b) ∧
  refers (first_person_id nex) (people nex id) (Z.max 1 (person_id_lead nex)) (bidder b) ∧
  Forall (in_u 32) [auction b; bidder b; price b; b_date b].
Definition event_ok n (e : Event) : Prop :=
  match e with
  | EvPerson p => is_person_event nex n = true ∧ person_ok n p
  | EvAuction a => is_auction_event nex n = true ∧ auction_ok n a
  | EvBid b => is_person_event nex n = false ∧ is_auction_event nex n = false ∧ bid_ok n b
  end.

Lemma person_new_ok n time r :
  in_u 32 time → yields (Person_new (first_event_id nex + n) time nex) r (person_ok n).
Proof using All.
  intros Ht. destruct (ok_texts _ Hok) as [Hc Hs]. unfold Person_new. eapply yields_bind; [by apply yields_choose|]. intros c r1 Hcin.
  eapply yields_bind; [by apply yields_choose|]. intros s r2 Hsin. by apply yields_ret.
Qed.
Lemma mod_in x : in_u 32 (x mod 2 ^ 32).
Proof using Type. apply Z.mod_pos_bound. lia. Qed.
Lemma next_length_ok k time r : 0 ≤ k < 2 ^ 31 → yields (next_length nex k time) r (in_u 32).
Proof using All.
  intros Hk. destruct (adjusted k Hk) as (n & E1 & _). destruct (ok_proportions _ Hok) as (_ & Hap & _ & _).
  unfold next_length. eapply yields_exact; [exact E1|]. eapply yields_bind; [apply yields_wrap|]. intros m r1 Hm.
  eapply yields_exact; [apply u_div_ok; lia|]. eapply yields_bind; [apply yields_wrap|]. intros f r2 _.
  eapply yields_bind; [apply yields_timestamp|]. intros t r3 _. eapply yields_bind; [apply yields_wrap|]. intros h r4 _.
  eapply yields_bind; [apply yields_wrap|]. intros w r5 _. eapply yields_bind; [apply yields_range; lia|]. intros x r6 _. apply yields_wrap.
Qed.
(** A hot entity or a drawn one. *)
Lemma hot_or (hot : Z) (o : outcome E Z) (m : M R E Z) r Q :
  yields (lift o) r Q → yields m r Q → yields (if 0 <? hot then lift o else m) r Q.
Proof using Type. intros. by case_match. Qed.

Lemma auction_new_ok k n time r :
  0 ≤ k < 2 ^ 31 → number (first_event_id nex + n) → 1 ≤ auctions nex (first_event_id nex + n) → in_u 32 time →
  yields (Auction_new k (first_event_id nex + n) time nex) r (auction_ok n).
Proof using All.
  intros Hk Hid Ha Ht. set (id := first_event_id nex + n) in *. pose proof (number_in id Hid) as Hin.
  pose proof (people_bounds nex Hok id ltac:(unfold in_u in Hin; lia)) as Hp. pose proof (auctions_bounds nex Hok id ltac:(unfold in_u in Hin; lia)) as Hab.
  pose proof Hok as [_ _ (Hs & _) (Hs2 & _) _ (Hl & _) (Hfp & Hfa & _) _ (Hc0 & Hc1 & Hc2) _ _ _]. unfold small, number in *.
  unfold Auction_new. eapply yields_bind; [apply yields_price|]. intros p r1 _. eapply yields_bind; [apply yields_range; lia|]. intros hot r2 _.
  eapply yields_bind; [apply (hot_or _ _ _ _ (λ x, 0 ≤ x < people nex id + person_id_lead nex)); [|by apply yields_person_next]|].
  { rewrite person_last by done. destruct (hot_ok (people nex id - 1) (hot_seller_ratio_2 nex)) as (x & Hx & Hb); [unfold in_u; lia|done|].
    eapply yields_lift; [exact Hx|lia]. }
  intros s r3 Hsel. cbn beta in Hsel. eapply yields_exact; [by apply auction_last|]. eapply yields_exact; [apply u_add_ok; unfold in_u; lia|].
  eapply yields_bind; [apply yields_price|]. intros p' r4 _. eapply yields_bind; [apply yields_wrap|]. intros res r5 Hres.
  eapply yields_bind; [by apply next_length_ok|]. intros l r6 _. eapply yields_bind; [apply yields_wrap|]. intros ex r7 Hex.
  eapply yields_exact; [apply u_add_ok; unfold in_u; lia|]. eapply yields_bind; [apply yields_range; lia|]. intros c r8 Hcat. cbn beta in Hcat.
  eapply yields_exact; [apply u_add_ok; unfold in_u; lia|]. apply yields_ret. unfold auction_ok. fold id. cbn [a_id seller category initial_bid reserve a_date expires].
  split; [lia|]. split; [unfold refers; lia|]. split; [lia|]. pose proof (mod_in p). repeat constructor; try done; unfold in_u in *; lia.
Qed.
Lemma bid_new_ok n time r :
  number (first_event_id nex + n) → 1 ≤ auctions nex (first_event_id nex + n) → in_u 32 time →
  yields (Bid_new (first_event_id nex + n) time nex) r (bid_ok n).
Proof using All.
  intros Hid Ha Ht. set (id := first_event_id nex + n) in *. pose proof (number_in id Hid) as Hin.
  pose proof (people_bounds nex Hok id ltac:(unfold in_u in Hin; lia)) as Hp. pose proof (auctions_bounds nex Hok id ltac:(unfold in_u in Hin; lia)) as Hab.
  pose proof Hok as [_ _ (_ & Hs & Hb) (_ & Hs2 & Hb2) _ (Hl & Hl2 & _) (Hfp & Hfa & _) _ _ _ _ _]. unfold small, number in *.
  unfold Bid_new. eapply yields_bind; [apply yields_range; lia|]. intros hot r1 _.
  eapply yields_bind; [apply (hot_or _ _ _ _ (λ x, 0 ≤ x < auctions nex id + auction_id_lead nex)); [|by apply yields_auction_next]|].
  { rewrite auction_last by done. destruct (hot_ok (auctions nex id - 1) (hot_auction_ratio_2 nex)) as (x & Hx & Hxb); [unfold in_u; lia|done|].
    eapply yields_lift; [exact Hx|lia]. }
  intros au r2 Hau. cbn beta in Hau. eapply yields_bind; [apply yields_range; lia|]. intros hot' r3 _.
  eapply yields_bind; [apply (hot_or _ _ _ _ (λ x, 0 ≤ x < people nex id + Z.max 1 (person_id_lead nex)))|].
  { rewrite person_last by done. destruct (hot_ok (people nex id - 1) (hot_bidder_ratio_2 nex)) as (x & Hx & Hxb); [unfold in_u; lia|done|].
    cbn [mbind outcome_bind]. rewrite Hx. cbn [mbind outcome_bind]. eapply yields_lift; [apply u_add_ok; unfold in_u; lia|lia]. }
  { eapply yields_weaken; [by apply yields_person_next|]. intros x. cbn beta. lia. }
  intros bi r4 Hbi. cbn beta in Hbi. eapply yields_exact; [apply u_add_ok; unfold in_u; lia|]. eapply yields_exact; [apply u_add_ok; unfold in_u; lia|].
  eapply yields_bind; [apply yields_price|]. intros p r5 _. apply yields_ret. unfold bid_ok. fold id. cbn [auction bidder price b_date].
  split; [unfold refers; lia|]. split; [unfold refers; lia|]. pose proof (mod_in p). repeat constructor; try done; unfold in_u in *; lia.
Qed.

Lemma kinds id : 0 ≤ id → is_person_event nex id = false → 1 ≤ auctions nex id.
Proof using Hok.
  intros Hid Hp. rewrite auctions_eq by done. unfold is_person_event in Hp. apply Z.ltb_ge in Hp.
  destruct Hok as [Hden (Hpp & Hap & Hbp & Hsd)]. pose proof (Z.div_pos id (proportion_denominator nex) ltac:(lia) ltac:(lia)). nia.
Qed.
Lemma same_kind n : is_person_event nex (first_event_id nex + n) = is_person_event nex n.
Proof using Hok.
  unfold is_person_event. destruct (ok_first_event _ Hok) as [_ Hf]. destruct Hok as [Hden (Hpp & Hap & Hbp & Hsd)].
  rewrite Z.add_mod, Hf, Z.add_0_l, Z.mod_mod by lia. done.
Qed.

(** What the generator makes of the number [k]. *)
Definition generated k (o : NEXMarkEvent) : Prop :=
  ∃ n ev, next_adjusted_event (E:=E) nex k = Ok n ∧
    n / out_of_order_group_size nex = (first_event_number nex + k) / out_of_order_group_size nex ∧ o = Some ev ∧ event_ok n ev.
Lemma event_create_ok k r : 0 ≤ k < 2 ^ 31 → yields (NEXMarkEvent_create k nex) r (generated k).
Proof using All.
  intros Hk. destruct (adjusted k Hk) as (n & En & Hn & Hb).
  assert (number (first_event_id nex + n)) as Hid.
  { destruct Hok as [_ _ _ _ _ _ (_ & _ & Hfn) [Hfe _] _ [_ Hsg] _ _]. unfold small, number in *. lia. }
  apply (yields_weaken _ _ (λ o, ∃ ev, o = Some ev ∧ event_ok n ev)); [|by intros o (ev & -> & Hev); exists n, ev].
  pose proof Hok as [Hden (Hpp & Hap & Hbp & Hsd) _ _ _ _ _ [Hfe _] _ _ _ _]. unfold small, number in *.
  unfold NEXMarkEvent_create. eapply yields_exact; [exact En|]. eapply yields_exact; [apply u_rem_ok; lia|].
  eapply yields_bind; [apply yields_timestamp|]. intros t r1 Ht. eapply yields_exact; [apply u_add_ok; unfold in_u; lia|].
  destruct (n mod proportion_denominator nex <? person_proportion nex) eqn:Ep.
  { eapply yields_bind; [by apply person_new_ok|]. intros p r2 Hp. apply yields_ret. by exists (EvPerson p). }
  assert (1 ≤ auctions nex (first_event_id nex + n)) as Ha by (apply kinds; [lia|by rewrite same_kind]).
  eapply yields_exact; [apply u_add_ok; unfold in_u; lia|].
  destruct (n mod proportion_denominator nex <? person_proportion nex + auction_proportion nex) eqn:Ea.
  - eapply yields_bind; [by apply auction_new_ok|]. intros a r2 Hau. apply yields_ret. exists (EvAuction a). split; [done|]. split; [|done].
    unfold is_auction_event. rewrite Ea. lia.
  - eapply yields_bind; [by apply bid_new_ok|]. intros b r2 Hbi. apply yields_ret. exists (EvBid b). split; [done|]. split; [exact Ep|]. split; [|done].
    unfold is_auction_event. rewrite Ea. apply andb_false_r.
Qed.

(** C27: In a release build and with any random numbers, the generator makes an event for every number below
    2^31, and the event is well formed: its fields are in range; people, auctions and bids take turns
    in the configured proportions; the k-th auction has the k-th id; auctions and bids refer to people
    and auctions that exist, or to one of the next few, as configured.  But a person gets the number of
    the event for its id, and not the number to which its auctions refer. *)
Theorem nexmark_event_ok k r :
  0 ≤ k < 2 ^ 31 →
  ∃ n ev r', next_adjusted_event (E:=E) nex k = Ok n ∧
    n / out_of_order_group_size nex = (first_event_number nex + k) / out_of_order_group_size nex ∧
    NEXMarkEvent_create k nex r = ((Ok (Some ev), r') : outcome E NEXMarkEvent * R) ∧ event_ok n ev.
Proof using All. intros Hk. destruct (event_create_ok k r Hk) as (o & r' & Ec & n & ev & En & Hn & -> & Hev). by exists n, ev, r'. Qed.
End events.

(** ** Products in binary64

    Rounding loses less than a unit in the last of 53 places. *)
Section rounding.

Lemma Zdigits2_spec p : 2 ^ (Zdigits2 (Zpos p) - 1) ≤ Zpos p < 2 ^ Zdigits2 (Zpos p).
Proof.
  cbn [Zdigits2]. induction p as [p IH|p IH|]; cbn [digits2_pos]; [..|done];
    rewrite Pos2Z.inj_succ, Z.sub_succ_l, !Z.pow_succ_r by lia; lia.
Qed.
Lemma Zdigits2_unique p d : 0 < d → 2 ^ (d - 1) ≤ Zpos p < 2 ^ d → Zdigits2 (Zpos p) = d.
Proof.
  intros Hd Hp. pose proof (Zdigits2_spec p) as Hs. assert (0 < Zdigits2 (Zpos p)) by done.
  assert (2 ^ (d - 1) < 2 ^ Zdigits2 (Zpos p)) as H1 by lia. assert (2 ^ (Zdigits2 (Zpos p) - 1) < 2 ^ d) as H2 by lia.
  apply Z.pow_lt_mono_r_iff in H1, H2; lia.
Qed.

Lemma shr_1_half r : 0 ≤ shr_m r → shr_m (shr_1 r) = shr_m r / 2 ∧ 0 ≤ shr_m (shr_1 r).
Proof.
  destruct r as [m ? ?]. cbn [shr_m]. intros Hm. destruct m as [|[p|p|]|p]; cbn [shr_1 shr_m]; [done|..|done|lia].
  - rewrite Pos2Z.inj_xI. split; [|lia]. apply (Z.div_unique _ _ _ 1); lia.
  - rewrite (Pos2Z.inj_xO p). split; [|lia]. apply (Z.div_unique _ _ _ 0); lia.
Qed.
Lemma iter_shr_1 p r : 0 ≤ shr_m r →
  shr_m (iter_pos shr_1 p r) = shr_m r / 2 ^ Zpos p ∧ 0 ≤ shr_m (iter_pos shr_1 p r).
Proof.
  revert r. induction p as [p IH|p IH|]; intros r Hr; cbn [iter_pos].
  - destruct (shr_1_half r Hr) as [E0 H0]. destruct (IH _ H0) as [E1 H1]. destruct (IH _ H1) as [E2 H2].
    split; [|done]. rewrite E2, E1, E0, !Z.div_div by lia. f_equal.
    rewrite <- Z.pow_add_r, <- Z.pow_succ_r by lia. f_equal. lia.
  - destruct (IH r Hr) as [E1 H1]. destruct (IH _ H1) as [E2 H2].
    split; [|done]. rewrite E2, E1, Z.div_div by lia. f_equal. rewrite Pos2Z.inj_xO, <- Z.pow_add_r by lia. f_equal. lia.
  - by apply shr_1_half.
Qed.
(** Shifting right by [n] places, of which a negative number is none. *)
Lemma shr_spec r e n : 0 ≤ shr_m r →
  shr_m (shr r e n).1 = shr_m r / 2 ^ Z.max 0 n ∧ (shr r e n).2 = e + Z.max 0 n.
Proof.
  intros Hr. destruct n as [|p|p]; cbn -[Z.pow].
  - rewrite Z.div_1_r. lia.
  - split; [by apply iter_shr_1|done].
  - rewrite Z.div_1_r. lia.
Qed.
Lemma round_nearest_even_bounds m l : m ≤ round_nearest_even m l ≤ m + 1.
Proof. destruct l as [|[]]; cbn; try destruct (Z.even m); lia. Qed.

(** A number of at least 53 digits, far from the ends of the range, is rounded to 53 of them. *)
Lemma binary_round_aux_spec p e D :
  Zdigits2 (Zpos p) = D → 53 ≤ D → -1000 ≤ D + e ≤ 1000 →
  ∃ m c, binary_round_aux 53 1024 false (Zpos p) e loc_Exact = S754_finite false m (e + (D - 53) + c) ∧
    0 ≤ c ≤ 1 ∧ 2 ^ 52 ≤ Zpos m < 2 ^ 53 ∧ Zpos p / 2 ^ (D - 53) ≤ Zpos m * 2 ^ c.
Proof.
  intros HD H53 He. pose proof (Zdigits2_spec p) as Hp. rewrite HD in Hp.
  assert (Hfexp : ∀ d e', -1000 ≤ d + e' → fexp 53 1024 (d + e') - e' = d - 53) by (unfold fexp, emin; lia).
  unfold binary_round_aux, shr_fexp. rewrite HD, Hfexp by lia.
  destruct (shr_spec (shr_record_of_loc (Zpos p) loc_Exact) e (D - 53)) as [Em Ee]; [done|].
  destruct (shr _ e (D - 53)) as [r1 e1]. cbn [fst snd] in Em, Ee. rewrite Z.max_r in Em, Ee by lia. cbn [shr_m shr_record_of_loc] in Em.
  assert (0 < 2 ^ (D - 53)) by (apply Z.pow_pos_nonneg; lia).
  assert (Hm1 : 2 ^ 52 ≤ shr_m r1 < 2 ^ 53).
  { rewrite Em. split.
    - apply Z.div_le_lower_bound; [lia|]. rewrite <- Z.pow_add_r by lia. replace (D - 53 + 52) with (D - 1) by lia. lia.
    - apply Z.div_lt_upper_bound; [lia|]. rewrite <- Z.pow_add_r by lia. replace (D - 53 + 53) with D by lia. lia. }
  pose proof (round_nearest_even_bounds (shr_m r1) (loc_of_shr_record r1)) as Hr.
  set (r := round_nearest_even _ _) in *. destruct r as [|q|q]; [lia| |lia].
  assert (Hq : ∃ c, Zdigits2 (Zpos q) = 53 + c ∧ 0 ≤ c ≤ 1 ∧ Zpos q = Zpos q / 2 ^ c * 2 ^ c).
  { destruct (decide (Zpos q = 2 ^ 53)) as [Hq|Hq].
    - exists 1. split; [apply Zdigits2_unique; lia|]. split; [lia|]. by rewrite Hq.
    - exists 0. split; [apply Zdigits2_unique; lia|]. rewrite Z.div_1_r. lia. }
  destruct Hq as (c & Hd & Hc & Hq). rewrite Hd, Hfexp by lia.
  destruct (shr_spec (shr_record_of_loc (Zpos q) loc_Exact) e1 (53 + c - 53)) as [Em2 Ee2]; [done|].
  destruct (shr _ e1 (53 + c - 53)) as [r2 e2]. cbn [fst snd] in Em2, Ee2.
  replace (Z.max 0 (53 + c - 53)) with c in Em2, Ee2 by lia. cbn [shr_m shr_record_of_loc] in Em2.
  assert (Hm2 : 2 ^ 52 ≤ shr_m r2 < 2 ^ 53).
  { assert (0 < 2 ^ c) by (apply Z.pow_pos_nonneg; lia). pose proof (Zdigits2_spec q) as Hsp. rewrite Hd in Hsp. rewrite Em2. split.
    - apply Z.div_le_lower_bound; [lia|]. rewrite <- Z.pow_add_r by lia. replace (c + 52) with (53 + c - 1) by lia. lia.
    - apply Z.div_lt_upper_bound; [lia|]. rewrite <- Z.pow_add_r by lia. rewrite (Z.add_comm c). lia. }
  destruct (shr_m r2) as [|m|m]; [lia| |lia]. exists m, c. rewrite (proj2 (Z.leb_le _ _)) by lia.
  split; [f_equal; lia|]. split; [done|]. split; [done|]. rewrite <- Em, Em2, <- Hq. lia.
Qed.

(** An integer below 2^53 is not rounded down. *)
Lemma f64_of_int_spec p : Zpos p < 2 ^ 53 →
  ∃ m e, f64_of_int (Zpos p) = S754_finite false m e ∧ 2 ^ 52 ≤ Zpos m < 2 ^ 53 ∧ -52 ≤ e ≤ 1 ∧
    Zpos p * 2 ^ 100 ≤ Zpos m * 2 ^ (e + 100).
Proof.
  intros Hp53. pose proof (Zdigits2_spec p) as Hp. set (d := Zdigits2 (Zpos p)) in *.
  assert (Hd : 1 ≤ d ≤ 53).
  { split; [by unfold d, Zdigits2; lia|]. assert (2 ^ (d - 1) < 2 ^ 53) as Hlt by lia. apply Z.pow_lt_mono_r_iff in Hlt; lia. }
  unfold f64_of_int, f64_dyadic, binary_normalize, binary_round. change (Zpos (digits2_pos p)) with d.
  assert (fexp 53 1024 (d + 0) = d - 53) as -> by (unfold fexp, emin; lia).
  assert (Hs : ∃ q, shl_align p 0 (d - 53) = (q, d - 53) ∧ Zpos q = Zpos p * 2 ^ (53 - d)).
  { unfold shl_align. destruct (d - 53 - 0) as [|k|k] eqn:Ek.
    - exists p. replace (d - 53) with 0 by lia. split; [done|]. replace (53 - d) with 0 by lia. lia.
    - lia.
    - exists (Pos.iter xO p k). split; [done|]. replace (53 - d) with (Zpos k) by lia.
      clear. induction k as [|k IHk] using Pos.peano_ind; [cbn; lia|].
      rewrite Pos.iter_succ, Pos2Z.inj_xO, IHk, Pos2Z.inj_succ, Z.pow_succ_r by lia. lia. }
  destruct Hs as (q & -> & Hq).
  assert (HD : Zdigits2 (Zpos q) = 53).
  { apply Zdigits2_unique; [lia|]. rewrite Hq. replace (2 ^ (53 - 1)) with (2 ^ (d - 1) * 2 ^ (53 - d)) by (rewrite <- Z.pow_add_r by lia; f_equal; lia).
    replace (2 ^ 53) with (2 ^ d * 2 ^ (53 - d)) by (rewrite <- Z.pow_add_r by lia; f_equal; lia). nia. }
  destruct (binary_round_aux_spec q (d - 53) 53 HD) as (m & c & E & Hc & Hm & Hle); [lia|lia|].
  exists m, (d - 53 + (53 - 53) + c). split; [exact E|]. split; [done|]. split; [lia|].
  rewrite Z.div_1_r, Hq in Hle.
  replace (d - 53 + (53 - 53) + c + 100) with (c + (d + 47)) by lia. rewrite Z.pow_add_r, Z.mul_assoc by lia.
  replace (2 ^ 100) with (2 ^ (53 - d) * 2 ^ (d + 47)) by (rewrite <- Z.pow_add_r by lia; f_equal; lia). nia.
Qed.

(** The product of two such integers, cast to 32 bits, is the largest number where the exact product
    is beyond it by more than what rounding may lose. *)
Lemma f64_product_saturates a b :
  0 < a < 2 ^ 53 → 0 < b < 2 ^ 53 → 2 ^ 84 ≤ (2 ^ 52 - 1) * (a * b) →
  f64_as_u 32 (f64_mul (f64_of_int a) (f64_of_int b)) = u32_max.
Proof.
  intros Ha Hb Hab. destruct a as [|a|a], b as [|b|b]; try lia.
  destruct (f64_of_int_spec a) as (m1 & e1 & -> & Hm1 & He1 & Hv1); [lia|].
  destruct (f64_of_int_spec b) as (m2 & e2 & -> & Hm2 & He2 & Hv2); [lia|].
  unfold f64_mul, SFmul. cbn [xorb].
  set (D := Zdigits2 (Zpos (m1 * m2))).
  assert (HD : 105 ≤ D ≤ 106).
  { pose proof (Zdigits2_spec (m1 * m2)) as Hd. fold D in Hd. rewrite Pos2Z.inj_mul in Hd.
    assert (0 < D) by done. assert (2 ^ (D - 1) < 2 ^ 106) as H1 by nia. assert (2 ^ 104 < 2 ^ D) as H2 by nia.
    apply Z.pow_lt_mono_r_iff in H1, H2; lia. }
  destruct (binary_round_aux_spec (m1 * m2) (e1 + e2) D eq_refl) as (m & c & -> & Hc & Hm & Hle); [lia|lia|].
  rewrite Pos2Z.inj_mul in Hle. set (e := e1 + e2 + (D - 53) + c). set (k := D - 53) in *.
  assert (Hv : 2 ^ 32 * 2 ^ 200 ≤ Zpos m * 2 ^ (e + 200)).
  { assert (Hq : (2 ^ 52 - 1) * (Zpos m1 * Zpos m2) ≤ 2 ^ 52 * (Zpos m1 * Zpos m2 / 2 ^ k * 2 ^ k)).
    { pose proof (Z.div_mod (Zpos m1 * Zpos m2) (2 ^ k)) as Hdm. pose proof (Z.mod_pos_bound (Zpos m1 * Zpos m2) (2 ^ k)) as Hmod.
      assert (2 ^ 52 * 2 ^ k ≤ Zpos m1 * Zpos m2).
      { rewrite <- Z.pow_add_r by lia. pose proof (Zdigits2_spec (m1 * m2)) as Hd. fold D in Hd. rewrite Pos2Z.inj_mul in Hd.
        replace (52 + k) with (D - 1) by lia. lia. }
      nia. }
    assert (Hp : Zpos a * Zpos b * 2 ^ 200 ≤ Zpos m1 * Zpos m2 * 2 ^ (e1 + e2 + 200)).
    { replace (2 ^ (e1 + e2 + 200)) with (2 ^ (e1 + 100) * 2 ^ (e2 + 100)) by (rewrite <- Z.pow_add_r by lia; f_equal; lia).
      replace (2 ^ 200) with (2 ^ 100 * 2 ^ 100) by done. nia. }
    assert (Hmv : Zpos m1 * Zpos m2 / 2 ^ k * 2 ^ k * 2 ^ (e1 + e2 + 200) ≤ Zpos m * 2 ^ (e + 200)).
    { replace (2 ^ (e + 200)) with (2 ^ c * 2 ^ k * 2 ^ (e1 + e2 + 200)) by (rewrite <- !Z.pow_add_r by lia; f_equal; lia). nia. }
    assert (0 < 2 ^ (e1 + e2 + 200)) by (apply Z.pow_pos_nonneg; lia). set (x := 2 ^ (e1 + e2 + 200)) in *.
    assert (2 ^ 52 * (2 ^ 32 * 2 ^ 200) ≤ 2 ^ 52 * (Zpos m * 2 ^ (e + 200))); [|lia].
    etrans; [|apply Z.mul_le_mono_nonneg_l; [lia|exact Hmv]]. nia. }
  unfold f64_as_u, u32_max. rewrite Z.min_l; [done|].
  destruct (Z.leb_spec 0 e).
  - rewrite Z.pow_add_r in Hv by lia. nia.
  - assert (0 < 2 ^ (- e)) by (apply Z.pow_pos_nonneg; lia). cut (2 ^ 32 ≤ Zpos m / 2 ^ (- e)); [lia|]. apply Z.div_le_lower_bound; [lia|].
    replace (2 ^ 200) with (2 ^ (- e) * 2 ^ (e + 200)) in Hv by (rewrite <- Z.pow_add_r by lia; f_equal; lia).
    assert (0 < 2 ^ (e + 200)) by (apply Z.pow_pos_nonneg; lia). nia.
Qed.
End rounding.

(** ** The default configuration *)

Definition default_finished : NEXMarkConfig :=
  set_finished [f64_of_int 100000000] 60 7 NEXMarkConfig_default.
Lemma default_nex_ok : nex_ok default_finished.
Proof. split; unfold small; cbn; repeat split; (done || lia). Qed.

(** C39: What [finish] makes of the default configuration is well formed, but its 10^8 events do not fit: the
    time of an event is kept in nanoseconds in a [u32] and the cast saturates from the 43rd event on,
    so that adding a base time panics with overflow checks and without gives a time before the base;
    and the number of an event is multiplied by 953 in a [u32], which panics with overflow checks from
    event 4506787 on. *)
Theorem nexmark_default_overflows `{BuildProfile, Libm} {E : Type} base :
  1 ≤ base < 2 ^ 32 →
  let nex := set_base_time base default_finished in
  finish NEXMarkConfig_default = (Ok default_finished : outcome E NEXMarkConfig) ∧
  (∀ n, 43 ≤ n < 2 ^ 32 → event_timestamp_ns nex n =
    (if overflow_checks then Panic "attempt to add with overflow" else Ok (base - 1) : outcome E Z)) ∧
  (∀ k, in_u 32 k → next_adjusted_event nex k =
    (if overflow_checks && (4506787 <=? k) then Panic "attempt to multiply with overflow" else Ok k : outcome E Z)).
Proof.
  intros Hb nex. split; [|split].
  - unfold finish, NEXMarkConfig_default. cbn -[f64_mul f64_div f64_of_int]. by vm_compute.
  - intros n Hn. unfold event_timestamp_ns. cbn [head inter_event_delays_ns nex set_base_time default_finished set_finished expect mbind outcome_bind base_time_ns].
    assert (f64_as_u 32 (f64_mul (f64_of_int n) (f64_of_int 100000000)) = u32_max) as ->.
    { apply f64_product_saturates; lia. }
    unfold u_add, wrapping_or_panic, in_u, u32_max. rewrite bool_decide_eq_false_2 by lia. destruct overflow_checks; [done|].
    f_equal. symmetry. apply (Z.mod_unique _ _ 1); lia.
  - intros k Hk. unfold in_u in Hk. unfold next_adjusted_event. cbn [out_of_order_group_size first_event_number nex set_base_time default_finished set_finished NEXMarkConfig_default].
    rewrite u_add_ok by (unfold in_u; lia). cbn [mbind outcome_bind]. rewrite Z.add_0_l. rewrite u_div_ok by lia. cbn [mbind outcome_bind].
    rewrite Z.div_1_r. rewrite (u_mul_ok 32 k 1) by (unfold in_u; lia). cbn [mbind outcome_bind]. rewrite Z.mul_1_r.
    unfold u_mul, wrapping_or_panic, in_u. destruct (Z.leb_spec 4506787 k).
    + rewrite bool_decide_eq_false_2 by lia. destruct overflow_checks; [done|]. cbn [mbind outcome_bind andb]. rewrite u_rem_ok by lia.
      cbn [mbind outcome_bind]. rewrite Z.mod_1_r. rewrite u_add_ok by (unfold in_u; lia). by rewrite Z.add_0_r.
    + rewrite bool_decide_eq_true_2 by lia. cbn [mbind outcome_bind]. rewrite u_rem_ok by lia. rewrite andb_false_r.
      cbn [mbind outcome_bind]. rewrite Z.mod_1_r. rewrite u_add_ok by (unfold in_u; lia). by rewrite Z.add_0_r.
Qed.

(** ** Concrete random numbers *)

(** A generator that draws the lowest number, and the first element. *)
#[export] Instance lowest : Rng unit := {|
  sample low _ r := (low, r);
  gen_f32 r := (S754_zero false, r);
  choose_from A l r := (head l, r);
|}.
#[export] Instance lowest_laws : RngLaws unit.
Proof. split; [cbn; lia|]. intros A [|x l] r Hl; [done|]. exists x. by split; [|left]. Qed.
#[local] Instance libm : Libm := {| powf _ _ := f32_of_int 1; cos _ := f64_of_int 1 |}.

Example nexmark_last_ids_witness :
  auction_last_id (H:=true) (E:=Empty_set) default_finished 20 = Ok 8 ∧ auctions default_finished 20 = 9.
Proof.
  split; [|done]. apply (nexmark_last_ids (H:=true) default_finished default_nex_ok 20); [by apply (bool_decide_unpack _)|done].
Defined.
Example nexmark_event_ok_witness :
  ∃ ev r', NEXMarkEvent_create (H:=false) (E:=Empty_set) 9 default_finished tt = (Ok (Some ev), r') ∧
    event_ok default_finished 9 ev.
Proof.
  destruct (nexmark_event_ok (H:=false) (E:=Empty_set) eq_refl default_finished default_nex_ok 9 tt) as (n & ev & r' & En & _ & Ec & Hev); [done|].
  assert (n = 9) as -> by (by injection En). exists ev, r'. by split.
Defined.
Example nexmark_default_overflows_witness :
  let nex := set_base_time 1 default_finished in
  event_timestamp_ns (H:=true) (E:=Empty_set) nex 43 = Panic "attempt to add with overflow" ∧
  event_timestamp_ns (H:=true) (E:=Empty_set) nex (2 ^ 32 - 1) = Panic "attempt to add with overflow" ∧
  next_adjusted_event (H:=true) (E:=Empty_set) nex 4506786 = Ok 4506786 ∧
  next_adjusted_event (H:=true) (E:=Empty_set) nex 4506787 = Panic "attempt to multiply with overflow".
Proof.
  intros nex. destruct (nexmark_default_overflows (H:=true) (E:=Empty_set) 1) as (_ & Ht & Hk); [done|].
  split; [by apply Ht|]. split; [by apply Ht|]. by split; apply Hk.
Defined.
