(* ===== verification/Queries.v ===== *)
(** [arcon/experiments/src/nexmark/queries]: the functions of the queries, which the operators of the
    library run. *)

From S2P Require Import Prelude Error Allocator EventBuffer Pool Serialization StateBackend BackendClient Data Channel Timer Operator Nexmark.

(** ** Query 1 ([q1.rs]): the prices of bids in another currency *)

Section q1.
Context `{BuildProfile} {B : Type}.
Definition bid_filter_map (event : NEXMarkEvent) : outcome Error (option Bid) :=
  match (inner event).1 with
  | Ok (EvBid bid) => Ok (Some bid)
  | Ok _ => Ok None
  | Err e => Err e
  | Panic msg => Panic msg
  | Diverge => Diverge
  end.
Definition map_fn (bid : Bid) : outcome Error Bid :=
  p ← u_mul 32 (price bid) 89;
  p ← u_div p 100;
  Ok (MkBid (auction bid) (bidder bid) p (b_date bid)).
(** [MapInPlace::new(&map_fn)] *)
Definition q1_operator : MapInPlace Bid unit B := MapInPlace_stateful tt (λ bid _, lift (map_fn bid)).
End q1.

(** ** Query 3 ([q3.rs]): the auctions of a category with their sellers from a state *)

Inductive PersonOrAuctionInner : Type := P_Person (p : Person) | P_Auction (a : Auction).
Definition PersonOrAuction : Type := option PersonOrAuctionInner.
Record Q3Result : Type := MkQ3Result { seller_name : string; seller_city : string; seller_state : string; auction_id : Z }.

Definition person_or_auction_filter_map (event : NEXMarkEvent) : outcome Error (option PersonOrAuction) :=
  e ← (inner event).1;
  match e with
  | EvPerson person => Ok (if decide (state person = "OR"%string) then Some (Some (P_Person person)) else None)
  | EvAuction auction => Ok (Some (Some (P_Auction auction)))
  | EvBid _ => Ok None
  end.

Record Q3State : Type := MkQ3State {
  person : Handle (ValueState Person) u32 unit;
  pending_auctions : Handle (VecState Auction) u32 unit;
}.
Definition Q3State_new : Q3State :=
  MkQ3State (with_item_key (value_handle Person "person") (UInt 0)) (with_item_key (vec_handle Auction "pending_auctions") (UInt 0)).

Section q3.
Context {B : Type} `{Backend B, Value Person, Value Auction}.

#[export] Instance Q3State_bundle : GenericBundle Q3State B := λ s,
  p ← registering (register_value_handle (person s));
  a ← registering (register_vec_handle (pending_auctions s));
  mret (MkQ3State p a).

Definition expecting {A} (msg : string) (m : StateM B A) : M B Error A := on_outcome (expect_ok msg) m.
(** [set_item_key] on both handles. *)
Definition item_keyed (k : Z) (s : Q3State) : Q3State :=
  MkQ3State (set_item_key (person s) (UInt k)) (set_item_key (pending_auctions s) (UInt k)).

(** A person is stored and gets the auctions that waited for it. *)
Definition flatmap_person (p : Person) (s : Q3State) : M B Error (list Q3Result) :=
  let s := item_keyed (p_id p) s in
  expecting "Could not update person state" (ActiveValue.set (person s) p) ;;
  empty ← expecting "Could not check if pending auctions are empty" (ActiveVec.is_empty (pending_auctions s));
  if empty : bool then mret []
  else
    auctions ← expecting "Could not get pending auctions" (ActiveVec.get (pending_auctions s));
    expecting "Could not clear pending auctions" (ActiveVec.clear (pending_auctions s)) ;;
    mret (omap (λ a,
      if category a =? 10 then Some (MkQ3Result (p_name p) (city p) (state p) (p_id p)) else None) auctions).
(** An auction joins its seller, or waits for it. *)
Definition flatmap_auction (a : Auction) (s : Q3State) : M B Error (list Q3Result) :=
  let s := item_keyed (seller a) s in
  o ← expecting "Could not get person state" (ActiveValue.get (person s));
  match o with
  | None => expecting "Could not store the auction" (ActiveVec.append (pending_auctions s) a) ;; mret []
  | Some p =>
      mret (if category a =? 10 then [MkQ3Result (p_name p) (city p) (state p) (a_id a)] else [])
  end.
Definition flatmap_fn (person_or_auction : PersonOrAuction) (s : Q3State) : M B Error (list Q3Result) :=
  match person_or_auction with
  | None => panic "called `Option::unwrap()` on a `None` value"
  | Some (P_Person p) => flatmap_person p s
  | Some (P_Auction a) => flatmap_auction a s
  end.
(** [FlatMap::stateful(Q3State::new(), &flatmap_fn)] *)
Definition q3_operator : FlatMap PersonOrAuction Q3Result Q3State B := FlatMap_stateful Q3State_new flatmap_fn.
End q3.
