(* ===== verification/QueriesSpec.v ===== *)
(** What the queries compute: query 3 is the join of its two streams, over every backend that meets the
    contract; and which prices query 1 converts. *)

From S2P Require Import Prelude Error Allocator EventBuffer Pool Serialization StateBackend BackendClient InMemory BackendLaws Data Channel Timer Operator Nexmark Queries.

(** ** The join

    What an event and a later one of the same seller give. *)
Definition joins (p : Person) (a : Auction) (id : Z) : list Q3Result :=
  if decide (seller a = p_id p ∧ category a = 10) then [MkQ3Result (p_name p) (city p) (state p) id] else [].
Definition pair_of (x y : PersonOrAuctionInner) : list Q3Result :=
  match x, y with
  | P_Person p, P_Auction a => joins p a (a_id a)
  | P_Auction a, P_Person p => joins p a (p_id p)
  | _, _ => []
  end.
(** All pairs of an event and a later one. *)
Fixpoint joined (l : list PersonOrAuctionInner) : list Q3Result :=
  match l with
  | [] => []
  | x :: l => (l ≫= pair_of x) ++ joined l
  end.

Definition person_id (x : PersonOrAuctionInner) : option Z := match x with P_Person p => Some (p_id p) | P_Auction _ => None end.
Definition key_of (x : PersonOrAuctionInner) : Z := match x with P_Person p => p_id p | P_Auction a => seller a end.
(** The person with an id, and the auctions of a seller, among the events so far. *)
Definition as_person (k : Z) (x : PersonOrAuctionInner) : option Person :=
  match x with P_Person p => if decide (p_id p = k) then Some p else None | P_Auction _ => None end.
Definition as_auction (k : Z) (x : PersonOrAuctionInner) : option Auction :=
  match x with P_Auction a => if decide (seller a = k) then Some a else None | P_Person _ => None end.
Definition person_of (l : list PersonOrAuctionInner) (k : Z) : option Person := last (omap (as_person k) l).
Definition waiting (l : list PersonOrAuctionInner) (k : Z) : list Auction :=
  match person_of l k with Some _ => [] | None => omap (as_auction k) l end.

Lemma joined_snoc l x : joined (l ++ [x]) ≡ₚ joined l ++ (l ≫= λ y, pair_of y x).
Proof.
  induction l as [|y l IH]; [done|]. cbn [app joined mbind list_bind]. rewrite IH, bind_app. cbn [mbind list_bind].
  rewrite app_nil_r. solve_Permutation.
Qed.
Lemma person_of_snoc l x k :
  person_of (l ++ [x]) k = match as_person k x with Some p => Some p | None => person_of l k end.
Proof.
  unfold person_of. rewrite omap_app. cbn. destruct (as_person k x) as [p|]; [by rewrite last_snoc|by rewrite app_nil_r].
Qed.
(** With ids of their own, a person has no other before it. *)
Lemma no_person l p : NoDup (omap person_id (l ++ [P_Person p])) → omap (as_person (p_id p)) l = [].
Proof.
  rewrite omap_app. cbn. intros (_ & Hd & _)%NoDup_app. induction l as [|[q|a] l IH]; [done| |by apply IH]. cbn in *.
  rewrite decide_False; [|intros Hq; apply (Hd (p_id q)); set_solver]. apply IH. set_solver.
Qed.
Lemma one_person l k p : NoDup (omap person_id l) → person_of l k = Some p → p_id p = k ∧ omap (as_person k) l = [p].
Proof.
  unfold person_of. induction l as [|x l IH] using rev_ind; [done|]. intros Hnd. pose proof Hnd as Hnd'.
  rewrite omap_app in Hnd. apply NoDup_app in Hnd as (Hnd & _). rewrite omap_app. cbn. destruct x as [q|a]; cbn.
  - case_decide as Hq; cbn; [|rewrite app_nil_r; by apply IH]. rewrite last_snoc. intros [= <-].
    subst k. by rewrite no_person.
  - rewrite app_nil_r. by apply IH.
Qed.
Lemma joins_auction l a : l ≫= (λ y, pair_of y (P_Auction a)) = omap (as_person (seller a)) l ≫= λ p, joins p a (a_id a).
Proof.
  induction l as [|[p|b] l IH]; [done| |exact IH]. cbn. rewrite IH. case_decide as Hp; [done|].
  unfold joins. by rewrite decide_False by naive_solver.
Qed.
Lemma joins_person l p : l ≫= (λ y, pair_of y (P_Person p)) = omap (as_auction (p_id p)) l ≫= λ a, joins p a (p_id p).
Proof.
  induction l as [|[q|a] l IH]; [done|exact IH|]. cbn. rewrite IH. case_decide as Ha; [done|].
  unfold joins. by rewrite decide_False by naive_solver.
Qed.

(** ** The function of query 3 over a backend *)

Section q3.
#[local] Set Default Proof Using "All".
Context {B : Type} `{BackendSpec B, Value Person, Value Auction}.
Implicit Types (b : B) (s : Q3State) (l : list PersonOrAuctionInner).

(** The results for a stream of events. *)
Fixpoint stream (s : Q3State) l : M B Error (list Q3Result) :=
  match l with
  | [] => mret []
  | x :: l => r ← flatmap_fn (Some x) s; rest ← stream s l; mret (r ++ rest)
  end.

(** The states after the events [l]. *)
Record q3_holds l s b : Prop := {
  q3_ids : h_id (person s) ≠ h_id (pending_auctions s);
  q3_person : holds_all ValRep b (person s) (λ k _, person_of l (uint_val k));
  q3_pending : holds_all VecRep b (pending_auctions s) (λ k _, waiting l (uint_val k));
}.

Lemma set_item_key_at {S} (h : Handle S u32 unit) k : set_item_key h k = handle_at h k tt.
Proof using Type. by destruct h as [? ? [] ? ?]. Qed.
Lemma runs_expecting {A} msg (m : StateM B A) b a ids Q : runs m b a ids Q → runs (expecting msg m) b a ids Q.
Proof. intros Hr. by eapply runs_outcome. Qed.
Lemma person_get k l s b :
  in_u 32 k → q3_holds l s b → runs (ActiveValue.get (person (item_keyed k s))) b (person_of l k) ∅ (λ _, True).
Proof.
  intros Hk [_ Hp _]. apply value_get_runs. cbn [person item_keyed]. rewrite set_item_key_at.
  exact (holds_all_at _ _ _ _ (UInt k : u32) tt Hp Hk I).
Qed.
Lemma person_set p l s b :
  in_u 32 (p_id p) → holds_all ValRep b (person s) (λ k _, person_of l (uint_val k)) →
  runs (ActiveValue.set (person (item_keyed (p_id p) s)) p) b (person_of l (p_id p)) {[h_id (person s)]}
    (λ b', holds_all ValRep b' (person s) (λ k _, person_of (l ++ [P_Person p]) (uint_val k))).
Proof.
  intros Hk Hp. cbn [person item_keyed]. rewrite set_item_key_at.
  eapply runs_weaken; [eapply (active_writes_at ValRep _ (λ h, value_set h p) _ _ _ (UInt (p_id p)) tt (Some p)); [exact Hk|done|exact Hp|]|done|].
  - intros r Hr Hx. exact (value_set_spec (handle_at (person s) (UInt (p_id p)) tt) b r _ p Hr Hx).
  - intros b' Hb'. eapply holds_all_ext; [|exact Hb']. intros [k] [] _ _. cbn. unfold update_at. rewrite person_of_snoc. cbn.
    repeat case_decide; naive_solver.
Qed.
Lemma pending_holds k l s b :
  in_u 32 k → holds_all VecRep b (pending_auctions s) (λ k _, waiting l (uint_val k)) →
  holds_vec b (pending_auctions (item_keyed k s)) (waiting l k).
Proof.
  intros Hk Hp. cbn [pending_auctions item_keyed]. rewrite set_item_key_at.
  exact (holds_all_at _ _ _ _ (UInt k : u32) tt Hp Hk I).
Qed.
Lemma pending_writes {A} (op : Handle (VecState Auction) u32 unit → StateM B A) k x a l l' s b :
  in_u 32 k → holds_all VecRep b (pending_auctions s) (λ k _, waiting l (uint_val k)) →
  (∀ h b r, region b (h_id h) = Some r → VecRep r (metakeys h) (waiting l k) → writes VecRep (op h) b (h_id h) r (metakeys h) a x) →
  waiting l' k = x → (∀ k', k' ≠ k → waiting l' k' = waiting l k') →
  runs (activate (pending_auctions (item_keyed k s)) ≫= op) b a {[h_id (pending_auctions s)]}
    (λ b', holds_all VecRep b' (pending_auctions s) (λ k _, waiting l' (uint_val k))).
Proof.
  intros Hk Hp Hop Hx Hne. cbn [pending_auctions item_keyed]. rewrite set_item_key_at.
  eapply runs_weaken; [eapply (active_writes_at VecRep _ op _ _ _ (UInt k) tt x); [exact Hk|done|exact Hp|]|done|].
  - intros r Hr Hv. exact (Hop (handle_at (pending_auctions s) (UInt k) tt) b r Hr Hv).
  - intros b' Hb'. eapply holds_all_ext; [|exact Hb']. intros [k'] [] _ _. cbn. unfold update_at.
    case_decide as Heq; [by destruct Heq as [[= ->] _]|]. cbn. symmetry. apply Hne. intros ->. by apply Heq.
Qed.

Lemma waiting_person l p k : k ≠ p_id p → waiting (l ++ [P_Person p]) k = waiting l k.
Proof using Type.
  intros Hk. unfold waiting. rewrite person_of_snoc, omap_app. cbn. rewrite decide_False by done. by rewrite app_nil_r.
Qed.
Lemma waiting_found l p : waiting (l ++ [P_Person p]) (p_id p) = [].
Proof using Type. unfold waiting. rewrite person_of_snoc. cbn. by rewrite decide_True. Qed.
Lemma waiting_auction l a k :
  waiting (l ++ [P_Auction a]) k =
    if decide (k = seller a ∧ person_of l k = None) then waiting l k ++ [a] else waiting l k.
Proof using Type.
  unfold waiting. rewrite person_of_snoc, omap_app. cbn. destruct (person_of l k); [by rewrite decide_False by naive_solver|].
  repeat case_decide; naive_solver (rewrite ?app_nil_r; done).
Qed.

(** A step answers the pairs of its event with the events before. *)
Definition answers l x s b : Prop :=
  ∃ r b', flatmap_fn (Some x) s b = (Ok r, b') ∧ r ≡ₚ (l ≫= λ y, pair_of y x) ∧ q3_holds (l ++ [x]) s b'.

Lemma omap_joins p (ls : list Auction) id :
  Forall (λ a, seller a = p_id p) ls →
  omap (λ a, if category a =? 10 then Some (MkQ3Result (p_name p) (city p) (state p) id) else None) ls = ls ≫= λ a, joins p a id.
Proof using Type.
  induction 1 as [|a ls Ha _ IH]; [done|]. cbn. rewrite <- IH. unfold joins.
  destruct (Z.eqb_spec (category a) 10); [by rewrite decide_True|by rewrite decide_False by naive_solver].
Qed.
Lemma waiting_seller l k : Forall (λ a, seller a = k) (waiting l k).
Proof using Type.
  unfold waiting. destruct (person_of l k); [constructor|]. apply Forall_forall. intros a (x & _ & Hx)%list_elem_of_omap.
  destruct x; cbn in Hx; [done|]. by case_decide; simplify_eq.
Qed.

Lemma frame_none {S X} (Rep : Region → bytes → X → Prop) (h : Handle S u32 unit) f b b' :
  changes ∅ b b' → holds_all Rep b h f → holds_all Rep b' h f.
Proof using Type. intros Hc. apply (holds_all_frame _ _ _ _ _ _ Hc). apply not_elem_of_empty. Qed.
Lemma frame_other {S S' X} (Rep : Region → bytes → X → Prop) (h' : Handle S' u32 unit) (h : Handle S u32 unit) f b b' :
  changes {[h_id h']} b b' → h_id h' ≠ h_id h → holds_all Rep b h f → holds_all Rep b' h f.
Proof using Type. intros Hc Hne. apply (holds_all_frame _ _ _ _ _ _ Hc). by rewrite elem_of_singleton. Qed.
Lemma step_person l p s b :
  NoDup (omap person_id (l ++ [P_Person p])) → in_u 32 (p_id p) → q3_holds l s b → answers l (P_Person p) s b.
Proof.
  intros Hnd Hk [Hids Hp Ha]. pose proof (no_person _ _ Hnd) as Hno.
  assert (person_of l (p_id p) = None) as Hnone by (unfold person_of; by rewrite Hno).
  destruct (runs_expecting "Could not update person state" _ _ _ _ _ (person_set p l s b Hk Hp)) as (b1 & E1 & C1 & Hp1).
  pose proof (frame_other _ _ _ _ _ _ C1 Hids Ha) as Ha1.
  pose proof (pending_holds (p_id p) l s b1 Hk Ha1) as Hh1.
  destruct (runs_expecting "Could not check if pending auctions are empty" _ _ _ _ _ (vec_is_empty_runs _ _ _ Hh1)) as (b2 & E2 & C2 & _).
  pose proof (frame_none _ _ _ _ _ C2 Ha1) as Ha2.
  pose proof (frame_none _ _ _ _ _ C2 Hp1) as Hp2.
  unfold answers. rewrite joins_person. assert (omap (as_auction (p_id p)) l = waiting l (p_id p)) as -> by (unfold waiting; by rewrite Hnone).
  unfold flatmap_fn, flatmap_person. step_ok E1. step_ok E2. case_bool_decide as He.
  { exists [], b2. rewrite He. split; [done|]. split; [done|]. split; [done|exact Hp2|]. eapply holds_all_ext; [|exact Ha2].
    intros [k] [] _ _. cbn. destruct (decide (k = p_id p)) as [->|]; [by rewrite waiting_found|by rewrite waiting_person]. }
  destruct (runs_expecting "Could not get pending auctions" _ _ _ _ _ (vec_get_runs _ _ _ (pending_holds (p_id p) l s b2 Hk Ha2))) as (b3 & E3 & C3 & _).
  pose proof (frame_none _ _ _ _ _ C3 Ha2) as Ha3.
  pose proof (frame_none _ _ _ _ _ C3 Hp2) as Hp3.
  destruct (runs_expecting "Could not clear pending auctions" _ _ _ _ _ (pending_writes vec_clear (p_id p) [] tt l (l ++ [P_Person p]) s b3 Hk Ha3
    ltac:(intros; by eapply vec_clear_spec) (waiting_found l p) (λ k, waiting_person l p k))) as (b4 & E4 & C4 & Ha4).
  eexists _, b4. split; [step_ok E3; by step_ok E4|]. split; [by rewrite (omap_joins p _ _ (waiting_seller _ _))|].
  split; [done| |exact Ha4]. by eapply frame_other.
Qed.
Lemma step_auction l a s b :
  NoDup (omap person_id l) → in_u 32 (seller a) → len l + 1 < 2 ^ 64 → q3_holds l s b → answers l (P_Auction a) s b.
Proof.
  intros Hnd Hk Hl Hq. pose proof Hq as [Hids Hp Ha].
  destruct (runs_expecting "Could not get person state" _ _ _ _ _ (person_get (seller a) l s b Hk Hq)) as (b1 & E1 & C1 & _).
  pose proof (frame_none _ _ _ _ _ C1 Ha) as Ha1.
  pose proof (frame_none _ _ _ _ _ C1 Hp) as Hp1.
  assert (Hp' : ∀ b', holds_all ValRep b' (person s) (λ k _, person_of l (uint_val k)) →
    holds_all ValRep b' (person s) (λ k _, person_of (l ++ [P_Auction a]) (uint_val k))).
  { intros b' Hb'. eapply holds_all_ext; [|exact Hb']. intros k n _ _. by rewrite person_of_snoc. }
  unfold answers. rewrite joins_auction. unfold flatmap_fn, flatmap_auction. step_ok E1.
  destruct (person_of l (seller a)) as [p|] eqn:Ho.
  - destruct (one_person _ _ _ Hnd Ho) as [Hid Hone]. eexists _, b1. split; [done|]. split.
    + rewrite Hone. cbn. rewrite app_nil_r. unfold joins.
      destruct (Z.eqb_spec (category a) 10); [by rewrite decide_True|by rewrite decide_False by naive_solver].
    + split; [done|by apply Hp'|]. eapply holds_all_ext; [|exact Ha1]. intros [k] [] _ _. cbn. rewrite waiting_auction.
      rewrite decide_False; [done|]. intros [-> Hn]. congruence.
  - assert (omap (as_person (seller a)) l = []) as Hno.
    { unfold person_of in Ho. by apply last_None in Ho. }
    assert (waiting (l ++ [P_Auction a]) (seller a) = waiting l (seller a) ++ [a]) as Hw by (by rewrite waiting_auction, decide_True).
    assert (len (waiting l (seller a)) ≤ len l) as Hwl.
    { unfold waiting. rewrite Ho. clear. induction l as [|x l IH]; [done|]. cbn. destruct (as_auction (seller a) x); cbn; lia. }
    destruct (runs_expecting "Could not store the auction" _ _ _ _ _ (pending_writes (λ h, vec_append h a) (seller a) _ tt l (l ++ [P_Auction a]) s b1 Hk Ha1
      ltac:(intros; eapply vec_append_spec; [done|done|unfold vec_fits; rewrite length_app; cbn; lia]) Hw
      ltac:(intros k' Hk'; rewrite waiting_auction, decide_False; [done|naive_solver]))) as (b2 & E2 & C2 & Ha2).
    exists [], b2. split; [by step_ok E2|]. split; [by rewrite Hno|]. split; [done| |exact Ha2]. apply Hp'. by eapply frame_other.
Qed.

Lemma step_holds l x s b :
  NoDup (omap person_id (l ++ [x])) → in_u 32 (key_of x) → len l + 1 < 2 ^ 64 → q3_holds l s b → answers l x s b.
Proof.
  destruct x as [p|a]; intros Hnd Hk Hl Hq; [by apply step_person|]. apply step_auction; [|done..].
  rewrite omap_app in Hnd. by apply NoDup_app in Hnd as (Hnd & _).
Qed.
Lemma stream_holds l l' s b :
  NoDup (omap person_id (l ++ l')) → Forall (λ x, in_u 32 (key_of x)) l' → len (l ++ l') < 2 ^ 64 → q3_holds l s b →
  ∃ r b', stream s l' b = (Ok r, b') ∧ joined (l ++ l') ≡ₚ joined l ++ r ∧ q3_holds (l ++ l') s b'.
Proof.
  revert l b. induction l' as [|x l' IH]; intros l b Hnd Hk Hl Hq.
  { exists [], b. split; [done|]. by rewrite !app_nil_r. }
  apply Forall_cons in Hk as [Hx Hk]. rewrite length_app in Hl. cbn in Hl.
  assert (l ++ x :: l' = (l ++ [x]) ++ l') as Heq by (by rewrite <- (assoc_L (++))). rewrite Heq in *.
  destruct (step_holds l x s b) as (r1 & b1 & E1 & Hr1 & Hq1); [|done|lia|done|].
  { rewrite omap_app in Hnd. by apply NoDup_app in Hnd as (Hnd & _). }
  destruct (IH (l ++ [x]) b1 Hnd Hk) as (r2 & b2 & E2 & Hr2 & Hq2); [rewrite !length_app; cbn; lia|done|].
  exists (r1 ++ r2), b2. split; [cbn [stream]; step_ok E1; by step_ok E2|]. split; [|done].
  by rewrite Hr2, joined_snoc, Hr1, <- (assoc_L (++)).
Qed.
Lemma registers_empty b :
  backend_ok b → region b "person" = None → region b "pending_auctions" = None →
  ∃ s b', bundle_register_states Q3State_new b = (Ok s, b') ∧ q3_holds [] s b'.
Proof.
  intros Hok Hp Ha.
  destruct (registering_all ValRep ValRep None _ b (person Q3State_new) (λ _ _, None) (register_value_spec b _ Hok))
    as (b1 & E1 & Hok1 & C1 & H1'); [unfold stored_all; cbn; by rewrite Hp|].
  destruct (registering_all VecStored VecRep [] _ b1 (pending_auctions Q3State_new) (λ _ _, []) (register_vec_spec b1 _ Hok1))
    as (b2 & E2 & _ & C2 & H2'); [unfold stored_all; cbn; by rewrite (C1 "pending_auctions" ltac:(set_solver)), Ha|].
  eexists _, b2. split; [unfold bundle_register_states, Q3State_bundle; step_ok E1; by step_ok E2|].
  split; [done| |exact H2']. eapply holds_all_frame; [exact C2| |exact H1']. cbn. set_solver.
Qed.

(** C26: On a backend that meets the contract and has nothing for its states, query 3 registers them and
    computes the join of persons and auctions, whichever of the two comes first: one result for every
    person and every auction of category 10 that it sells.  If the auction comes first, the result has
    the id of the person where it should have that of the auction.  At the end the states hold every
    person, and the auctions whose seller has not come. *)
Theorem q3_join l b :
  backend_ok b → region b "person" = None → region b "pending_auctions" = None →
  NoDup (omap person_id l) → Forall (λ x, in_u 32 (key_of x)) l → len l < 2 ^ 64 →
  ∃ s r b', (s ← bundle_register_states Q3State_new; r ← stream s l; mret (s, r)) b = (Ok (s, r), b') ∧
    r ≡ₚ joined l ∧ q3_holds l s b'.
Proof.
  intros Hok Hp Ha Hnd Hk Hl. destruct (registers_empty b Hok Hp Ha) as (s & b1 & E1 & Hq).
  destruct (stream_holds [] l s b1 Hnd Hk Hl Hq) as (r & b2 & E2 & Hr & Hq2). exists s, r, b2.
  split; [step_ok E1; by step_ok E2|]. by split.
Qed.
End q3.

(** ** Query 1 *)

(** Query 1 multiplies by 0.89 and drops the fraction, as long as the product of the price and 89 is in
    range; the prices of the generator go up to 10^8, where the product is not: a debug build panics,
    and in a release build the result is smaller by the 42949672 that are lost with every wrap-around. *)
Theorem q1_converts `{BuildProfile} (bid : Bid) :
  in_u 32 (price bid) →
  let converted p := MkBid (auction bid) (bidder bid) p (b_date bid) in
  if price bid <=? 48258059 then map_fn bid = Ok (converted (price bid * 89 / 100))
  else if overflow_checks then map_fn bid = Panic "attempt to multiply with overflow"
  else ∃ p, map_fn bid = Ok (converted p) ∧ p ≤ price bid * 89 / 100 - 42949672.
Proof.
  intros Hp converted. unfold map_fn, u_mul, wrapping_or_panic. unfold in_u in *. destruct (Z.leb_spec (price bid) 48258059) as [Hle|Hgt].
  - rewrite bool_decide_eq_true_2 by lia. done.
  - rewrite bool_decide_eq_false_2 by lia. destruct overflow_checks; [done|]. eexists. split; [done|].
    pose proof (Z_div_mod_eq_full (price bid * 89) (2 ^ 32)) as Hd. set (q := price bid * 89 / 2 ^ 32) in *. set (m := (price bid * 89) mod 2 ^ 32) in *.
    assert (1 ≤ q) by (unfold q; apply Z.div_le_lower_bound; lia).
    transitivity ((price bid * 89 - 4294967296) / 100); [apply Z.div_le_mono; lia|].
    replace (price bid * 89 - 4294967296) with (price bid * 89 + 4 + (-42949673) * 100) by lia. rewrite Z.div_add by lia.
    pose proof (Z.div_le_mono (price bid * 89 + 4) (price bid * 89 + 1 * 100) 100 ltac:(lia) ltac:(lia)). rewrite Z.div_add in * by lia. lia.
Qed.

(** ** Concrete events *)

#[local] Instance Person_eq_dec : EqDecision Person.
Proof. solve_decision. Defined.
#[local] Instance Person_countable : Countable Person :=
  inj_countable' (λ p, (p_id p, p_name p, email_address p, credit_card p, city p, state p, p_date p))
    (λ '(i, n, e, c, t, s, d), MkPerson i n e c t s d) ltac:(by intros []).
#[local] Instance Auction_eq_dec : EqDecision Auction.
Proof. solve_decision. Defined.
#[local] Instance Auction_countable : Countable Auction :=
  inj_countable' (λ a, (a_id a, item_name a, description a, initial_bid a, reserve a, a_date a, expires a, seller a, category a))
    (λ '(i, n, d, b, r, t, e, s, c), MkAuction i n d b r t e s c) ltac:(by intros []).
#[local] Instance Person_Value : Value Person := countable_Value 1.
#[local] Instance Auction_Value : Value Auction := countable_Value 3.

Definition seven : Person := MkPerson 7 "" "" "" "Seattle" "OR" 0.
Definition sold (id category : Z) : Auction := MkAuction id "" "" 1 2 0 9 7 category.
Definition example_events : list PersonOrAuctionInner :=
  [P_Auction (sold 1001 10); P_Auction (sold 1002 11); P_Person seven; P_Auction (sold 1003 10)].
Example q3_join_witness :
  joined example_events = [MkQ3Result "" "Seattle" "OR" 7; MkQ3Result "" "Seattle" "OR" 1003] ∧
  ∃ s r b', (s ← bundle_register_states Q3State_new; r ← stream s example_events; mret (s, r)) (MkInMemory ∅) = (Ok (s, r), b') ∧
    r ≡ₚ joined example_events.
Proof.
  split; [done|]. destruct (q3_join example_events (MkInMemory ∅)) as (s & r & b' & E & Hr & _); [done..| | |done|].
  - by apply (bool_decide_unpack _).
  - by apply (bool_decide_unpack _).
  - exists s, r, b'. split; [exact E|exact Hr].
Defined.
Example q1_converts_witness :
  map_fn (H:=true) (MkBid 1 2 100000000 0) = Panic "attempt to multiply with overflow".
Proof. apply (q1_converts (H:=true) (MkBid 1 2 100000000 0)). by apply (bool_decide_unpack _). Defined.
