(* ===== verification/Kafka.v ===== *)
(** [arcon/src/stream/source/kafka.rs], [stream/operator/sink/kafka.rs]: the source that reads a topic of
    Kafka in batches and commits an offset per epoch, and the sink that writes at the end of an epoch. *)

From S2P Require Import Prelude Error Allocator EventBuffer Pool Serialization StateBackend BackendClient Data Channel Timer Operator.

(** ** The crate [rdkafka] *)

(** A message that was received; [payload] is what its view as a [str] gives.  An offset is its raw
    value, and [millis] the milliseconds of its timestamp, an [i64]. *)
Inductive Payload : Type := NoPayload | Text (l : bytes) | NotUtf8.
Record KafkaMessage : Type := MkKafkaMessage { payload : Payload; millis : option Z; m_offset : Z }.
Class KafkaConsumer (C Tpl : Type) := {
  (** The next item of the stream: the end, an error, or a message. *)
  next_message : C → option (option KafkaMessage) * C;
  assignment : C → option Tpl;
  set_all_offsets : Tpl → Z → Tpl;
  commit : Tpl → C → bool * C;
}.
(** What [send] does with a payload is looked at by nobody. *)
Class KafkaProducer (P : Type) := send_record : string → bytes → P → P.

Definition i64_add `{BuildProfile} {E} (a b : Z) : outcome E Z :=
  if bool_decide (- 2 ^ 63 ≤ a + b < 2 ^ 63) then Ok (a + b)
  else if overflow_checks then Panic "attempt to add with overflow" else Ok ((a + b + 2 ^ 63) mod 2 ^ 64 - 2 ^ 63).

(** ** The source *)

Module KafkaSource.
(** With the queues behind the channel strategy, and how many times the next batch was scheduled.  The
    fields that nothing reads are left out. *)
Record KafkaSource (OUT C : Type) : Type := MkKafkaSource {
  channel_strategy : ChannelStrategy;
  queues : Net OUT;
  offset : Z;
  max_timestamp : Z;
  batch_size : Z;
  consumer : C;
  epoch : Z;
  epoch_offset : gmap Z Z;
  scheduled : nat;
}.
Arguments MkKafkaSource {OUT C}.
Arguments channel_strategy {OUT C}.
Arguments queues {OUT C}.
Arguments offset {OUT C}.
Arguments max_timestamp {OUT C}.
Arguments batch_size {OUT C}.
Arguments consumer {OUT C}.
Arguments epoch {OUT C}.
Arguments epoch_offset {OUT C}.
Arguments scheduled {OUT C}.

Section source.
Context `{BuildProfile, Receivers, Fuel} {OUT C Tpl : Type} `{Transport OUT, ArconType OUT, FromJson OUT, KafkaConsumer C Tpl}.
Abbreviation Source := (KafkaSource OUT C).
Abbreviation SrcM := (M Source Error).
Implicit Types (s : Source).

(** A source over a consumer that was created and is subscribed. *)
Definition new (strategy : ChannelStrategy) (net : Net OUT) (offset : Z) (consumer : C) : Source :=
  MkKafkaSource strategy net offset 0 100 consumer 0 ∅ 0.

Definition set_offset (x : Z) : SrcM unit := modify (λ s,
  MkKafkaSource (channel_strategy s) (queues s) x (max_timestamp s) (batch_size s) (consumer s) (epoch s) (epoch_offset s) (scheduled s)).
Definition set_max_timestamp (x : Z) : SrcM unit := modify (λ s,
  MkKafkaSource (channel_strategy s) (queues s) (offset s) x (batch_size s) (consumer s) (epoch s) (epoch_offset s) (scheduled s)).
Definition set_epoch (x : Z) : SrcM unit := modify (λ s,
  MkKafkaSource (channel_strategy s) (queues s) (offset s) (max_timestamp s) (batch_size s) (consumer s) x (epoch_offset s) (scheduled s)).
Definition store_epoch_offset : SrcM unit := modify (λ s,
  MkKafkaSource (channel_strategy s) (queues s) (offset s) (max_timestamp s) (batch_size s) (consumer s) (epoch s)
    (<[epoch s := offset s]> (epoch_offset s)) (scheduled s)).
Definition schedule_once : SrcM unit := modify (λ s,
  MkKafkaSource (channel_strategy s) (queues s) (offset s) (max_timestamp s) (batch_size s) (consumer s) (epoch s) (epoch_offset s) (S (scheduled s))).
Definition on_consumer {A} (m : M C Error A) : SrcM A := zoom consumer (λ c s,
  MkKafkaSource (channel_strategy s) (queues s) (offset s) (max_timestamp s) (batch_size s) c (epoch s) (epoch_offset s) (scheduled s)) m.
(** [channel_strategy.borrow_mut().add(event, self)] *)
Definition add_event (event : ArconEvent OUT) : SrcM unit := λ s,
  let '(o, n) := strategy_add (channel_strategy s) event (queues s) in
  let after st := MkKafkaSource st n (offset s) (max_timestamp s) (batch_size s) (consumer s) (epoch s) (epoch_offset s) (scheduled s) in
  match o with
  | Ok st => (Ok tt, after st)
  | Err e => (Err e, after (channel_strategy s))
  | Panic msg => (Panic msg, after (channel_strategy s))
  | Diverge => (Diverge, after (channel_strategy s))
  end.

Definition output_event (data : OUT) (ts : option Z) : SrcM unit :=
  match ts with
  | Some time => add_event (Element (with_timestamp data time))
  | None => add_event (Element (ArconElement_new data))
  end.
Definition output_watermark : SrcM unit :=
  ts ← gets max_timestamp;
  add_event (EvWatermark (MkWatermark ts)).
(** What fails here is logged. *)
Definition commit_epoch (epoch : Z) : SrcM unit :=
  offsets ← gets epoch_offset;
  match offsets !! epoch with
  | None => mret tt
  | Some commit_offset =>
      a ← gets (λ s, assignment (consumer s));
      match a with
      | None => mret tt
      | Some tpl => on_consumer (modify (λ c, (commit (set_all_offsets tpl commit_offset) c).2))
      end
  end.
Definition new_epoch : SrcM unit :=
  store_epoch_offset ;;
  e ← gets epoch;
  add_event (EvEpoch (MkEpoch e)) ;;
  e ← lift (u_add 64 e 1);
  set_epoch e.

(** The batch: what was received of the next [n] items of the stream, and how many items there were. *)
Fixpoint fetch (n : nat) (c : C) : list KafkaMessage * Z * C :=
  match n with
  | O => ([], 0, c)
  | S n =>
      match next_message c with
      | (None, c) => ([], 0, c)
      | (Some m, c) =>
          let '(ms, counter, c) := fetch n c in
          (match m with Some m => m :: ms | None => ms end, counter + 1, c)
      end
  end.
Definition text_of (m : KafkaMessage) : bytes := match payload m with Text l => l | _ => [] end.
Definition timestamp_of (m : KafkaMessage) : option Z := (λ ts, ts mod 2 ^ 64) <$> millis m.
Definition process_message (m : KafkaMessage) : SrcM unit :=
  (match timestamp_of m with
   | Some ts => w ← gets max_timestamp; if w <? ts then set_max_timestamp ts else mret tt
   | None => mret tt
   end) ;;
  match from_json (text_of m) with
  | Some data =>
      o ← lift (i64_add (m_offset m) 1);
      set_offset o ;;
      output_event data (timestamp_of m)
  | None => mret tt
  end.
Definition receive : SrcM unit :=
  n ← gets batch_size;
  batch ← on_consumer (λ c, let '(ms, counter, c) := fetch (Z.to_nat n) c in (Ok (ms, counter), c));
  for_each process_message batch.1 ;;
  schedule_once ;;
  if 0 <? batch.2 then
    output_watermark ;;
    new_epoch ;;
    e ← gets epoch;
    e ← lift (u_sub 64 e 1);
    commit_epoch e
  else mret tt.
Definition on_start : SrcM unit := receive.
End source.
End KafkaSource.

(** ** The sink *)

Module KafkaSink.
Record KafkaSink (IN P : Type) : Type := MkKafkaSink { topic : string; producer : P; buffer : list (ArconElement IN) }.
Arguments MkKafkaSink {IN P}.
Arguments topic {IN P}.
Arguments producer {IN P}.
Arguments buffer {IN P}.

Section sink.
Context {IN P : Type} `{ToJson IN, KafkaProducer P}.
Implicit Types (s : KafkaSink IN P).
Abbreviation SinkM := (M (KafkaSink IN P) Error).

Definition new (topic : string) (producer : P) : KafkaSink IN P := MkKafkaSink topic producer [].
(** The records that can be serialised are given to the producer in order, and then waited for. *)
Definition commit_buffer : SinkM unit := modify (λ s,
  MkKafkaSink (topic s) (foldl (λ p e, match to_json (data e) with Some serialized => send_record (topic s) serialized p | None => p end)
    (producer s) (buffer s)) []).
Definition handle_element (element : ArconElement IN) : SinkM unit :=
  modify (λ s, MkKafkaSink (topic s) (producer s) (buffer s ++ [element])).
Definition handle_watermark : Watermark → SinkM unit := ignore_watermark.
Definition handle_timeout {TS : Type} : TS → SinkM unit := ignore_timeout.
Definition handle_epoch (_ : Epoch) : SinkM unit := commit_buffer.
End sink.
End KafkaSink.
