(* ===== verification/KafkaSpec.v ===== *)
(** What a batch of the Kafka source sends and commits, and when the Kafka sink writes. *)

From S2P Require Import Prelude Error Allocator EventBuffer Pool Serialization StateBackend BackendClient Data Channel ChannelSpec Timer Operator NodeExample Kafka.

Section source.
Context `{BuildProfile, Receivers, Fuel} {OUT C Tpl : Type} `{Transport OUT, ArconType OUT, FromJson OUT, KafkaConsumer C Tpl}.
Abbreviation Source := (KafkaSource.KafkaSource OUT C).
Implicit Types (s : Source) (ms : list KafkaMessage).

(** A batch as events: the messages that are JSON of the type, with their timestamps. *)
Definition decoded (m : KafkaMessage) : option OUT := from_json (KafkaSource.text_of m).
Definition elements ms : list (ArconEvent OUT) :=
  omap (λ m, (λ d, Element (MkArconElement d (KafkaSource.timestamp_of m))) <$> decoded m) ms.
(** The highest timestamp so far, of the messages that are not decoded too. *)
Definition watermark_after (w : Z) ms : Z := foldl Z.max w (omap KafkaSource.timestamp_of ms).
(** The offset behind the last message that was decoded. *)
Definition offset_after (o : Z) ms : Z :=
  default o (last (omap (λ m, (λ _, m_offset m + 1) <$> decoded m) ms)).

(** The source with other queues, offset and timestamp. *)
Definition moved s (st : ChannelStrategy) (q : Net OUT) (o w : Z) : Source :=
  KafkaSource.MkKafkaSource st q o w (KafkaSource.batch_size s) (KafkaSource.consumer s) (KafkaSource.epoch s)
    (KafkaSource.epoch_offset s) (KafkaSource.scheduled s).
Definition at_offset_ok (m : KafkaMessage) : Prop := - 2 ^ 63 ≤ m_offset m + 1 < 2 ^ 63.

Lemma add_event_ok s e st q :
  strategy_add (KafkaSource.channel_strategy s) e (KafkaSource.queues s) = (Ok st, q) →
  KafkaSource.add_event e s = (Ok tt, moved s st q (KafkaSource.offset s) (KafkaSource.max_timestamp s)).
Proof. intros E. unfold KafkaSource.add_event. by rewrite E. Qed.
Lemma offset_after_cons o m ms :
  offset_after o (m :: ms) = offset_after (match decoded m with Some _ => m_offset m + 1 | None => o end) ms.
Proof.
  unfold offset_after. cbn. destruct (decoded m); cbn; [|done]. rewrite last_cons.
  by destruct (last (omap _ ms)).
Qed.
Lemma watermark_after_cons w m ms :
  watermark_after w (m :: ms) = watermark_after (match KafkaSource.timestamp_of m with Some ts => Z.max w ts | None => w end) ms.
Proof. unfold watermark_after. cbn. by destruct (KafkaSource.timestamp_of m). Qed.

Lemma process_message_ok s m st q :
  at_offset_ok m → add_all strategy_add (KafkaSource.channel_strategy s) (elements [m]) (KafkaSource.queues s) = (Ok st, q) →
  KafkaSource.process_message m s =
    (Ok tt, moved s st q (offset_after (KafkaSource.offset s) [m]) (watermark_after (KafkaSource.max_timestamp s) [m])).
Proof.
  intros Ho Hadd. unfold KafkaSource.process_message. rewrite offset_after_cons, watermark_after_cons. unfold offset_after, watermark_after. cbn [omap list_omap last foldl from_option].
  set (w := match KafkaSource.timestamp_of m with Some ts => Z.max _ ts | None => _ end).
  assert ((match KafkaSource.timestamp_of m with
    | Some ts => w ← gets KafkaSource.max_timestamp; if w <? ts then KafkaSource.set_max_timestamp ts else mret tt
    | None => mret tt end) s = ((Ok tt, moved s (KafkaSource.channel_strategy s) (KafkaSource.queues s) (KafkaSource.offset s) w) : outcome Error unit * Source)) as Hw.
  { unfold w, moved. destruct s as [? ? ? mt ? ? ? ? ?]. destruct (KafkaSource.timestamp_of m) as [ts|]; [|done].
    unfold mbind, M_bind, gets. cbn [KafkaSource.max_timestamp]. destruct (Z.ltb_spec mt ts); [rewrite Z.max_r by lia|rewrite Z.max_l by lia]; done. }
  step_ok Hw. unfold elements, decoded in *. cbn [omap list_omap] in Hadd. destruct (from_json (KafkaSource.text_of m)) as [d|]; cbn [fmap option_fmap option_map] in *.
  - assert (i64_add (E:=Error) (m_offset m) 1 = Ok (m_offset m + 1)) as Hi.
    { unfold i64_add. by rewrite bool_decide_eq_true_2. }
    erewrite bind_ok by (unfold lift; by rewrite Hi). cbv beta. erewrite bind_ok by done. cbn [add_all] in Hadd.
    assert (strategy_add (KafkaSource.channel_strategy s) (Element (MkArconElement d (KafkaSource.timestamp_of m))) (KafkaSource.queues s) = (Ok st, q)) as Ha.
    { revert Hadd. unfold mbind, M_bind. by destruct (strategy_add _ _ _) as [[] ?]. }
    transitivity (KafkaSource.add_event (Element (MkArconElement d (KafkaSource.timestamp_of m)))
      (moved s (KafkaSource.channel_strategy s) (KafkaSource.queues s) (m_offset m + 1) w)).
    { unfold KafkaSource.output_event. by destruct (KafkaSource.timestamp_of m). }
    by rewrite (add_event_ok _ _ st q).
  - cbn [add_all] in Hadd. unfold mret, M_ret in Hadd. by simplify_eq.
Qed.
Lemma process_messages_ok s ms st q :
  Forall at_offset_ok ms → add_all strategy_add (KafkaSource.channel_strategy s) (elements ms) (KafkaSource.queues s) = (Ok st, q) →
  for_each KafkaSource.process_message ms s =
    (Ok tt, moved s st q (offset_after (KafkaSource.offset s) ms) (watermark_after (KafkaSource.max_timestamp s) ms)).
Proof.
  revert s. induction ms as [|m ms IH]; intros s Ho Hadd.
  { cbn in Hadd. unfold mret, M_ret in Hadd. simplify_eq. by destruct s. }
  apply Forall_cons in Ho as [Hm Ho]. assert (elements (m :: ms) = elements [m] ++ elements ms) as Hel.
  { unfold elements. cbn. by destruct (_ <$> decoded m). }
  rewrite Hel, add_all_app in Hadd. apply bind_inv_ok in Hadd as (st1 & q1 & E1 & E2). cbn [for_each].
  step_ok (process_message_ok s m st1 q1 Hm E1). rewrite (IH (moved s st1 q1 _ _) Ho E2). unfold moved. cbn [KafkaSource.offset KafkaSource.max_timestamp].
  rewrite (offset_after_cons _ m ms), (watermark_after_cons _ m ms), (offset_after_cons _ m []), (watermark_after_cons _ m []). done.
Qed.

(** The consumer after the batch, and after the commit of an offset if it has an assignment. *)
Definition committed (o : Z) (c : C) : C :=
  match assignment c with Some tpl => (commit (set_all_offsets tpl o) c).2 | None => c end.

(** C31: One batch is one epoch: the source sends, in order, the messages of the batch that decode, then a
    watermark, the highest timestamp seen so far, then the barrier of its epoch; it remembers for the
    epoch the offset behind the last message that was sent, and commits this one offset for every
    partition that is assigned to it; and it schedules the next batch.  A batch without any item of the
    stream sends nothing and begins no epoch. *)
Theorem kafka_batch_is_epoch s ms counter c :
  KafkaSource.fetch (Z.to_nat (KafkaSource.batch_size s)) (KafkaSource.consumer s) = (ms, counter, c) →
  Forall at_offset_ok ms → 0 ≤ KafkaSource.epoch s < u64_max →
  let e := KafkaSource.epoch s in
  let o := offset_after (KafkaSource.offset s) ms in let w := watermark_after (KafkaSource.max_timestamp s) ms in
  let sent := elements ms ++ (if 0 <? counter then [EvWatermark (MkWatermark w); EvEpoch (MkEpoch e)] else []) in
  ∀ st q, add_all strategy_add (KafkaSource.channel_strategy s) sent (KafkaSource.queues s) = (Ok st, q) →
  KafkaSource.receive s = (Ok tt,
    if 0 <? counter then
      KafkaSource.MkKafkaSource st q o w (KafkaSource.batch_size s) (committed o c) (e + 1)
        (<[e := o]> (KafkaSource.epoch_offset s)) (S (KafkaSource.scheduled s))
    else KafkaSource.MkKafkaSource st q o w (KafkaSource.batch_size s) c e (KafkaSource.epoch_offset s) (S (KafkaSource.scheduled s))).
Proof.
  intros Hf Ho He e o w snt st q Hadd. unfold snt in Hadd. rewrite add_all_app in Hadd. apply bind_inv_ok in Hadd as (st1 & q1 & E1 & E2).
  set (s1 := KafkaSource.MkKafkaSource (KafkaSource.channel_strategy s) (KafkaSource.queues s) (KafkaSource.offset s)
    (KafkaSource.max_timestamp s) (KafkaSource.batch_size s) c e (KafkaSource.epoch_offset s) (KafkaSource.scheduled s)).
  unfold KafkaSource.receive. erewrite bind_ok by done. cbv beta.
  assert (KafkaSource.on_consumer (λ c, let '(ms, counter, c) := KafkaSource.fetch (Z.to_nat (KafkaSource.batch_size s)) c in (Ok (ms, counter), c)) s
    = ((Ok (ms, counter), s1) : outcome Error _ * Source)) as Hc.
  { unfold KafkaSource.on_consumer, zoom. by rewrite Hf. }
  step_ok Hc. step_ok (process_messages_ok s1 ms st1 q1 Ho E1). erewrite bind_ok by done. cbv beta. cbn [snd].
  destruct (0 <? counter).
  - cbn [add_all] in E2. apply bind_inv_ok in E2 as (st2 & q2 & Ew & E2). apply bind_inv_ok in E2 as (st3 & q3 & Ee & E2).
    unfold mret, M_ret in E2. simplify_eq.
    unfold KafkaSource.output_watermark. rewrite bind_assoc. erewrite bind_ok by done. cbv beta.
    erewrite bind_ok by (apply add_event_ok; exact Ew). cbv beta.
    unfold KafkaSource.new_epoch. rewrite bind_assoc. erewrite bind_ok by done. cbv beta. rewrite bind_assoc. erewrite bind_ok by done. cbv beta.
    rewrite bind_assoc. erewrite bind_ok by (apply add_event_ok; exact Ee). cbv beta. rewrite bind_assoc.
    erewrite bind_ok by (unfold lift; rewrite u_add_ok by (unfold in_u, u64_max in *; cbn; fold e; lia); done). cbv beta.
    erewrite bind_ok by done. cbv beta. erewrite bind_ok by done. cbv beta.
    erewrite bind_ok by (unfold lift; rewrite u_sub_ok by (unfold in_u, u64_max in *; cbn; fold e; lia); done). cbv beta.
    unfold KafkaSource.commit_epoch. erewrite bind_ok by done. cbn [moved KafkaSource.epoch KafkaSource.epoch_offset]. fold e. rewrite Z.add_simpl_r.
    rewrite lookup_insert_eq. unfold mbind, M_bind, gets, committed. cbn. destruct (assignment c); done.
  - cbn [add_all] in E2. unfold mret, M_ret in E2. by simplify_eq.
Qed.
End source.

(** ** The sink *)

Section sink.
Context {IN P : Type} `{ToJson IN, KafkaProducer P}.
Implicit Types (s : KafkaSink.KafkaSink IN P).

(** What a node gives to the sink: elements, and the ends of epochs. *)
Inductive input : Type := Handle (e : ArconElement IN) | EndOf (e : Epoch).
Definition handle (x : input) : M (KafkaSink.KafkaSink IN P) Error unit :=
  match x with Handle e => KafkaSink.handle_element e | EndOf e => KafkaSink.handle_epoch e end.
(** The elements up to the last end of an epoch, and those after it. *)
Fixpoint epochs (b : list (ArconElement IN)) (xs : list input) : list (ArconElement IN) * list (ArconElement IN) :=
  match xs with
  | [] => ([], b)
  | Handle e :: xs => epochs (b ++ [e]) xs
  | EndOf _ :: xs => let '(done, open) := epochs [] xs in (b ++ done, open)
  end.
Definition records (topic : string) (es : list (ArconElement IN)) (p : P) : P :=
  foldl (λ p r, send_record topic r p) p (omap (λ e, to_json (data e)) es).

Lemma elements_app topic es es' p : records topic (es ++ es') p = records topic es' (records topic es p).
Proof. unfold records. by rewrite omap_app, foldl_app. Qed.
Lemma commit_records topic es p :
  foldl (λ p e, match to_json (data e) with Some serialized => send_record topic serialized p | None => p end) p es = records topic es p.
Proof.
  revert p. induction es as [|e es IH]; intros p; [done|]. cbn. rewrite IH. unfold records. cbn. by destruct (to_json (data e)).
Qed.

(** Whatever a node gives to the sink, the topic has the elements of the epochs that have ended, once and
    in order, as far as they can be serialised; those of the epoch that has not ended are only held. *)
Theorem kafka_sink_writes_epochs s xs :
  let '(ended, open) := epochs (KafkaSink.buffer s) xs in
  for_each handle xs s =
    (Ok tt, KafkaSink.MkKafkaSink (KafkaSink.topic s) (records (KafkaSink.topic s) ended (KafkaSink.producer s)) open).
Proof.
  destruct s as [t p b]. cbn. revert p b. induction xs as [|[e|e] xs IH]; intros p b; cbn [for_each epochs]; [done|..].
  - erewrite bind_ok by done. apply IH.
  - erewrite bind_ok by done. cbn. rewrite commit_records. specialize (IH (records t b p) []).
    destruct (epochs [] xs) as [ended open]. by rewrite elements_app.
Qed.
End sink.

(** ** A concrete topic *)

Import NodeExample.
(** A consumer that is a list of items, with what was committed, of one partition. *)
Definition Topic : Type := list (option KafkaMessage) * list Z.
#[local] Instance topic_consumer : KafkaConsumer Topic Z := {|
  next_message '(l, k) := match l with [] => (None, ([], k)) | m :: l => (Some m, (l, k)) end;
  assignment _ := Some 0;
  set_all_offsets _ o := o;
  commit o '(l, k) := (true, (l, k ++ [o]));
|}.
#[local] Instance digit_json : FromJson Z := λ l, match l with [b] => Some (b - 48) | _ => None end.
Definition example_topic : Topic :=
  ([Some (MkKafkaMessage (Text [55]) (Some 100) 4); None; Some (MkKafkaMessage NotUtf8 (Some 120) 5)], []).
Definition example_kafka : KafkaSource.KafkaSource Z Topic :=
  KafkaSource.new Mute (MkNet (MkWorld (MkHeap (Memory_new 4096) []) [] 0) []) 0 example_topic.
Example kafka_batch_is_epoch_witness :
  ∃ s', KafkaSource.receive (Tpl:=Z) example_kafka = (Ok tt, s') ∧
    KafkaSource.consumer s' = ([], [5]) ∧ KafkaSource.max_timestamp s' = 120 ∧ KafkaSource.epoch s' = 1.
Proof.
  eexists. split.
  - apply (kafka_batch_is_epoch (Tpl:=Z) example_kafka
      [MkKafkaMessage (Text [55]) (Some 100) 4; MkKafkaMessage NotUtf8 (Some 120) 5] 3 ([], [])); [done| |done|done].
    repeat constructor; by apply (bool_decide_unpack _).
  - done.
Defined.
