(* ===== verification/Pipeline.v ===== *)
(** [arcon/src/conf], [src/manager], [src/pipeline]: the configuration of a pipeline, the manager of its
    nodes, and their assembly, without the terminal interface. *)

From S2P Require Import Prelude Error Allocator EventBuffer Pool Serialization StateBackend Files BackendClient Data Channel Timer Metrics Operator Node.
From Stdlib Require Import Floats.SpecFloat.

(** ** The configuration ([conf/mod.rs]) *)

Record ArconConf : Type := MkArconConf {
  state_dir : path;
  checkpoint_dir : path;
  watermark_interval : Z;
  node_metrics_interval : Z;
  buffer_pool_size : Z;
  buffer_pool_limit : Z;
  channel_batch_size : Z;
  allocator_capacity : Z;
  network_buffer_size : Z;
  kompact_threads : Z;
  kompact_throughput : Z;
  kompact_msg_priority : spec_float;
  kompact_network_host : option string;
}.
(** The machine: its directory for temporary files and the number of its processors. *)
Class Host := { temp_dir : path; num_cpus : Z }.
(** The crate [hocon], whose errors are texts, as are those of [std::fs]. *)
Class Hocon := { Loader : Type; load_str : string → outcome string Loader; resolve : Loader → outcome string ArconConf; io_error : string }.
(** The configuration of kompact, and how a path is printed into it. *)
Class KompactConfig (Cfg Addr : Type) := {
  kompact_default : Cfg;
  load_config_str : string → Cfg → Cfg;
  threads : Z → Cfg → Cfg;
  throughput : Z → Cfg → Cfg;
  msg_priority : spec_float → Cfg → Cfg;
  network : Addr → Cfg → Cfg;
  parse_addr : string → option Addr;
  debug_path : path → string;
}.

Section conf.
Context `{Host}.
Definition state_dir_default : path := temp_dir ++ ["arcon"; "live_states"]%string.
Definition checkpoint_dir_default : path := temp_dir ++ ["arcon"; "checkpoints"]%string.
Definition watermark_interval_default : Z := 250.
Definition node_metrics_interval_default : Z := 250.
Definition buffer_pool_size_default : Z := 1024.
Definition buffer_pool_limit_default : Z := buffer_pool_size_default * 2.
Definition channel_batch_size_default : Z := 248.
Definition network_buffer_size_default : Z := 64000.
Definition allocator_capacity_default : Z := 524288000.
Definition kompact_threads_default : Z := Z.max 1 num_cpus.
Definition kompact_throughput_default : Z := 50.
Definition kompact_msg_priority_default : spec_float := binary_normalize 24 128 1 0 false.
Definition kompact_network_host_default : option string := None.
Definition ArconConf_default : ArconConf := {|
  state_dir := state_dir_default;
  checkpoint_dir := checkpoint_dir_default;
  watermark_interval := watermark_interval_default;
  node_metrics_interval := node_metrics_interval_default;
  buffer_pool_size := buffer_pool_size_default;
  buffer_pool_limit := buffer_pool_limit_default;
  channel_batch_size := channel_batch_size_default;
  allocator_capacity := allocator_capacity_default;
  network_buffer_size := network_buffer_size_default;
  kompact_threads := kompact_threads_default;
  kompact_throughput := kompact_throughput_default;
  kompact_msg_priority := kompact_msg_priority_default;
  kompact_network_host := kompact_network_host_default;
|}.
Definition from_file `{Hocon} (p : path) : M Fs Error ArconConf :=
  data ← on_outcome (map_err (λ _, new_arcon ("Failed to read config file with err " +:+ io_error))) (read_to_string p);
  loader ← lift (map_err (λ e, new_arcon ("Failed to load Hocon Loader with err " +:+ e)) (load_str data));
  lift (map_err (λ e, new_arcon ("Failed to resolve ArconConf with err " +:+ e)) (resolve loader)).
(** The configuration of the components says where to checkpoint and how often to report metrics. *)
Definition component_cfg `{KompactConfig Cfg Addr} (conf : ArconConf) : string :=
  "{ checkpoint_dir = " +:+ debug_path (checkpoint_dir conf) +:+ ", node_metrics_interval = " +:+
  display_unsigned (node_metrics_interval conf) +:+ " }".
Definition kompact_conf {Cfg Addr E} `{KompactConfig Cfg Addr} (conf : ArconConf) : outcome E Cfg :=
  let cfg := load_config_str (component_cfg conf) kompact_default in
  let cfg := msg_priority (kompact_msg_priority conf) (throughput (kompact_throughput conf) (threads (kompact_threads conf) cfg)) in
  match kompact_network_host conf with
  | Some host =>
      sock_addr ← expect "called `Result::unwrap()` on an `Err` value" (parse_addr host);
      Ok (network sock_addr cfg)
  | None => Ok cfg
  end.
End conf.

(** ** The manager of the nodes of a stage ([manager/node_manager.rs]) *)

(** [Comp] is a component, and [has_port] whether it has a port for its manager. *)
Class NodeComponent (Comp : Type) := has_port : Comp → bool.
Inductive NodeEvent : Type := Metrics (id : NodeID) (metrics : NodeMetrics).

Module NodeManager.
(** With the nodes whose ports are connected to the manager. *)
Record NodeManager (Comp : Type) : Type := MkNodeManager {
  node_description : string;
  node_parallelism : Z;
  max_node_parallelism : Z;
  in_channels : list NodeID;
  node_index : Z;
  nodes : gmap NodeID Comp;
  node_metrics : gmap NodeID NodeMetrics;
  prev_manager : option Comp;
  next_manager : option Comp;
  connected : list NodeID;
}.
Arguments MkNodeManager {Comp}.
Arguments node_description {Comp}.
Arguments node_parallelism {Comp}.
Arguments max_node_parallelism {Comp}.
Arguments in_channels {Comp}.
Arguments node_index {Comp}.
Arguments nodes {Comp}.
Arguments node_metrics {Comp}.
Arguments prev_manager {Comp}.
Arguments next_manager {Comp}.
Arguments connected {Comp}.

Section manager.
Context `{Host} {Comp : Type} `{NodeComponent Comp}.
Abbreviation ManagerM := (M (NodeManager Comp) Error).

(** The loop over [enumerate]; a [usize] is cut to a [u32]. *)
Fixpoint number_nodes (i : Z) (comps : list Comp) (m : gmap NodeID Comp) : gmap NodeID Comp :=
  match comps with
  | [] => m
  | c :: comps => number_nodes (i + 1) comps (<[MkNodeID (i mod 2 ^ 32) := c]> m)
  end.
Definition new (description : string) (in_channels : list NodeID) (node_comps : list Comp) (prev next : option Comp) : NodeManager Comp :=
  let total_nodes := len node_comps mod 2 ^ 32 in
  MkNodeManager description total_nodes (num_cpus * 2) in_channels total_nodes (number_nodes 0 node_comps ∅) ∅ prev next [].
Definition connect (n : NodeID * Comp) : ManagerM unit := λ m,
  if has_port n.2 then
    (Ok tt, MkNodeManager (node_description m) (node_parallelism m) (max_node_parallelism m) (in_channels m) (node_index m)
      (nodes m) (node_metrics m) (prev_manager m) (next_manager m) (connected m ++ [n.1]))
  else (Panic "Couldn't find a required NodeManagerPort", m).
Definition on_start : ManagerM unit :=
  l ← gets (λ m, map_to_list (nodes m));
  for_each connect l.
Definition handle (event : NodeEvent) : ManagerM unit := modify (λ m,
  match event with
  | Metrics id metrics =>
      MkNodeManager (node_description m) (node_parallelism m) (max_node_parallelism m) (in_channels m) (node_index m)
        (nodes m) (<[id := metrics]> (node_metrics m)) (prev_manager m) (next_manager m) (connected m)
  end).
End manager.
End NodeManager.

(** ** Pipelines ([pipeline/mod.rs]) *)

(** kompact: creating a component of a node or a manager, and whether it started within the timeout. *)
Class KompactSystem (Sys Node Comp : Type) := {
  create_erased : Node → Sys → Comp * Sys;
  create_manager : NodeManager.NodeManager Comp → Sys → Comp * Sys;
  start_notify : Comp → Sys → bool * Sys;
}.

Module ArconPipeline.
Record ArconPipeline (Sys Comp : Type) : Type := MkArconPipeline {
  system : Sys;
  conf : ArconConf;
  allocator : ArconAllocator;
  node_managers : gmap string Comp;
}.
Arguments MkArconPipeline {Sys Comp}.
Arguments system {Sys Comp}.
Arguments conf {Sys Comp}.
Arguments allocator {Sys Comp}.
Arguments node_managers {Sys Comp}.

Section pipeline.
Context `{Host} {Sys Node Comp Cfg Addr : Type} `{NodeComponent Comp, KompactSystem Sys Node Comp, KompactConfig Cfg Addr}.
Context (build : Cfg → option Sys).
Abbreviation Pipeline := (ArconPipeline Sys Comp).
Abbreviation PipelineM := (M Pipeline Error).

Definition setup (conf : ArconConf) : outcome Error Sys :=
  cfg ← kompact_conf conf;
  expect "KompactSystem" (build cfg).
Definition with_conf (conf : ArconConf) : outcome Error Pipeline :=
  s ← setup conf;
  Ok (MkArconPipeline s conf (ArconAllocator_new (allocator_capacity conf)) ∅).
Definition new : outcome Error Pipeline := with_conf ArconConf_default.
(** The buffer size and the capacity; nothing reads the limit. *)
Definition get_pool_info (p : Pipeline) : PoolInfo := (channel_batch_size (conf p), buffer_pool_size (conf p)).

Definition on_system {A} (f : Sys → A * Sys) : PipelineM A := λ p,
  (Ok (f (system p)).1, MkArconPipeline (f (system p)).2 (conf p) (allocator p) (node_managers p)).
(** [start_notify(..).wait_timeout(..).expect(..)] *)
Definition start (msg : string) (c : Comp) : PipelineM unit :=
  started ← on_system (start_notify c);
  if started : bool then mret tt else panic msg.
Fixpoint create_nodes (nodes : list Node) : PipelineM (list Comp) :=
  match nodes with
  | [] => mret []
  | node :: nodes =>
      node_comp ← on_system (create_erased node);
      start "node never started!" node_comp ;;
      comps ← create_nodes nodes;
      mret (node_comp :: comps)
  end.
Definition create_node_manager (description : string) (in_channels : list NodeID) (nodes : list Node) : PipelineM (list Comp) :=
  node_comps ← create_nodes nodes;
  manager ← on_system (create_manager (NodeManager.new description in_channels node_comps None None));
  modify (λ p, MkArconPipeline (system p) (conf p) (allocator p) (<[description := manager]> (node_managers p))) ;;
  start "node_manager never started!" manager ;;
  mret node_comps.
End pipeline.
End ArconPipeline.

(** ** What a manager knows *)

Section manager.
Context `{Host} {Comp : Type} `{NodeComponent Comp}.

Lemma number_nodes_spec i (comps : list Comp) m k :
  0 ≤ i → i + len comps ≤ 2 ^ 32 →
  NodeManager.number_nodes i comps m !! MkNodeID k =
    if decide (i ≤ k < i + len comps) then comps !! Z.to_nat (k - i) else m !! MkNodeID k.
Proof.
  revert i m. induction comps as [|c comps IH]; intros i m Hi Hl; cbn [NodeManager.number_nodes length] in *.
  { by rewrite decide_False by lia. }
  rewrite IH by lia. destruct (decide (k = i)) as [->|Hne].
  - rewrite decide_False, decide_True by lia. rewrite Z.sub_diag. by rewrite Z.mod_small, lookup_insert_eq by lia.
  - case_decide; [rewrite decide_True by lia; by replace (Z.to_nat (k - i)) with (S (Z.to_nat (k - (i + 1)))) by lia|].
    rewrite decide_False by lia. rewrite lookup_insert_ne; [done|]. rewrite Z.mod_small by lia. intros [=]. lia.
Qed.

(** A manager numbers its nodes from zero in the order of their creation, and of the metrics that nodes
    report it keeps the last for every id. *)
Theorem manager_knows description in_channels (comps : list Comp) prev next (reports : list (NodeID * NodeMetrics)) :
  len comps ≤ 2 ^ 32 →
  let m := NodeManager.new description in_channels comps prev next in
  (∀ i, NodeManager.nodes m !! MkNodeID (Z.of_nat i) = comps !! i) ∧
  ∃ m', for_each (λ r, NodeManager.handle (Metrics r.1 r.2)) reports m = (Ok tt, m') ∧
    NodeManager.nodes m' = NodeManager.nodes m ∧
    ∀ id, NodeManager.node_metrics m' !! id = last (omap (λ r, if decide (r.1 = id) then Some r.2 else None) reports).
Proof.
  intros Hl m. split.
  - intros i. unfold m, NodeManager.new. cbn [NodeManager.nodes]. rewrite number_nodes_spec by lia. case_decide.
    + by rewrite Z.sub_0_r, Nat2Z.id.
    + rewrite lookup_empty. symmetry. apply lookup_ge_None_2. lia.
  - assert (∀ id, NodeManager.node_metrics m !! id = None) as Hm by (intros; apply lookup_empty).
    enough (∀ m : NodeManager.NodeManager Comp, ∃ m', for_each (λ r, NodeManager.handle (Metrics r.1 r.2)) reports m = (Ok tt, m') ∧
      NodeManager.nodes m' = NodeManager.nodes m ∧
      ∀ id, NodeManager.node_metrics m' !! id = match last (omap (λ r, if decide (r.1 = id) then Some r.2 else None) reports) with
        | Some x => Some x | None => NodeManager.node_metrics m !! id end) as Hr.
    { destruct (Hr m) as (m' & E & Hn & Hq). exists m'. split; [exact E|]. split; [exact Hn|]. intros id. rewrite Hq, Hm. by case_match. }
    clear. induction reports as [|[i x] reports IH]; intros m; [by exists m|]. cbn [for_each].
    erewrite bind_ok by done. cbv beta. match goal with |- context [for_each _ _ ?m1] => destruct (IH m1) as (m' & E & Hn & Hq) end.
    exists m'. split; [exact E|]. split; [exact Hn|]. intros id. rewrite Hq. cbn. case_decide as Hi.
    + rewrite last_cons, Hi. destruct (last _); [done|]. by rewrite lookup_insert_eq.
    + by rewrite lookup_insert_ne.
Qed.
End manager.
