(* ===== verification/NexmarkSource.v ===== *)
(** [arcon/experiments/src/nexmark/source/mod.rs]: the source that generates the events of the benchmark. *)

From S2P Require Import Prelude Error Allocator EventBuffer Pool Serialization StateBackend BackendClient Data Channel Timer Metrics Operator Node Source Nexmark.

(** [SmallRng::from_entropy]: the generator that its [n]-th call gives. *)
Class Entropy (R : Type) := from_entropy : nat → R.

Module NEXMarkSource.
Definition RESCHEDULE_EVERY : nat := Z.to_nat 500000.

(** With the number of [ContinueSending]s that the loopback port has yet to deliver, and of the random
    number generators so far.  The timer is read when the source is made, and its duration by nobody. *)
Record NEXMarkSource (OP OUT T B : Type) : Type := MkNEXMarkSource {
  source : SourceEnv OP NEXMarkEvent OUT T B;
  config : NEXMarkConfig;
  events_so_far : Z;
  watermark_counter : Z;
  triggered : nat;
  seeds : nat;
}.
Arguments MkNEXMarkSource {OP OUT T B}.
Arguments source {OP OUT T B}.
Arguments config {OP OUT T B}.
Arguments events_so_far {OP OUT T B}.
Arguments watermark_counter {OP OUT T B}.
Arguments triggered {OP OUT T B}.
Arguments seeds {OP OUT T B}.

Section source.
Context `{BuildProfile, Receivers, Fuel, SystemTime, Libm} {R OP OUT TS T B : Type} `{Transport OUT, ArconType OUT, Rng R, Entropy R}.
Context `{Backend B, TimerBackend T TS B, !Operator OP NEXMarkEvent OUT TS T B}.
Abbreviation Src := (NEXMarkSource OP OUT T B).
Abbreviation SrcM := (M Src Error).

(** [elapsed_ns] is what the timer says right after it was started. *)
Definition new (conf : NEXMarkConfig) (elapsed_ns : Z) (s : SourceEnv OP NEXMarkEvent OUT T B) : outcome Error Src :=
  _ ← u_mul 64 (stream_timeout conf) 1000000000;
  Ok (MkNEXMarkSource s (set_base_time (elapsed_ns mod 2 ^ 32) conf) 0 0 0 0).

Definition on_source {A} (m : M (SourceEnv OP NEXMarkEvent OUT T B) Error A) : SrcM A :=
  zoom source (λ x s, MkNEXMarkSource x (config s) (events_so_far s) (watermark_counter s) (triggered s) (seeds s)) m.
Definition set_events_so_far (n : Z) : SrcM unit :=
  modify (λ s, MkNEXMarkSource (source s) (config s) n (watermark_counter s) (triggered s) (seeds s)).
Definition set_watermark_counter (n : Z) : SrcM unit :=
  modify (λ s, MkNEXMarkSource (source s) (config s) (events_so_far s) n (triggered s) (seeds s)).
Definition trigger : SrcM unit :=
  modify (λ s, MkNEXMarkSource (source s) (config s) (events_so_far s) (watermark_counter s) (S (triggered s)) (seeds s)).
Definition fresh_rng : SrcM R := λ s,
  (Ok (from_entropy (seeds s)), MkNEXMarkSource (source s) (config s) (events_so_far s) (watermark_counter s) (triggered s) (S (seeds s))).

(** One event: it is processed and counted. *)
Definition send_event (event : NEXMarkEvent) : SrcM unit :=
  on_source (process_datum event) ;;
  n ← gets events_so_far;
  n ← lift (u_add 32 n 1);
  set_events_so_far n ;;
  n ← gets watermark_counter;
  n ← lift (u_add 64 n 1);
  set_watermark_counter n ;;
  s ← gets source;
  if n =? watermark_interval (source_ctx s) then on_source generate_watermark ;; set_watermark_counter 0 else mret tt.
(** The loop of [process], for at most [n] more iterations: whether it made all of them. *)
Fixpoint send_events (n : nat) (r : R) : SrcM bool :=
  match n with
  | O => mret true
  | S n =>
      s ← get_st;
      if events_so_far s <? num_events (config s) then
        let '(o, r) := NEXMarkEvent_create (events_so_far s) (config s) r in
        next_event ← lift o;
        send_event next_event ;;
        send_events n r
      else mret false
  end.
Definition finish_sending : SrcM unit :=
  on_source (watermark_update u64_max) ;;
  on_source generate_watermark ;;
  on_source (generate_death "nexmark_finished").
Definition process : SrcM unit :=
  rng ← fresh_rng;
  again ← send_events RESCHEDULE_EVERY rng;
  if again : bool then trigger else finish_sending.

Definition on_start : SrcM unit := trigger.
(** The loopback port delivers what was triggered. *)
Definition continue_sending : SrcM unit :=
  modify (λ s, MkNEXMarkSource (source s) (config s) (events_so_far s) (watermark_counter s) (pred (triggered s)) (seeds s)) ;;
  process.
Fixpoint run (fuel : nat) : SrcM unit :=
  match fuel with
  | O => lift Diverge
  | S fuel =>
      n ← gets triggered;
      match n with
      | O => mret tt
      | S _ => continue_sending ;; run fuel
      end
  end.
End source.
End NEXMarkSource.
