(* ===== verification/NexmarkSourceSpec.v ===== *)
(** The source of the NEXMark benchmark: whatever the pieces it sends them in, the events go through the
    operator in the order of their numbers, with the watermarks between them, and then the stream ends. *)

From S2P Require Import Prelude Error Files Allocator EventBuffer Pool Serialization StateBackend InMemory BackendClient Data Channel Timer Metrics Operator Node NodeExample Source SourceSpec Nexmark NexmarkSpec NexmarkSource.
#[local] Open Scope Z_scope.

Section source.
#[local] Set Default Proof Using "Type".
Context `{BuildProfile, Receivers, Fuel, SystemTime, Libm} {R OP OUT TS T B : Type} `{Transport OUT, ArconType OUT, RngLaws R, Entropy R}.
Context `{Backend B, TimerBackend T TS B, !Operator OP NEXMarkEvent OUT TS T B}.
Context (Hrel : overflow_checks = false) (nex : NEXMarkConfig) (Hok : nex_ok nex) (Hnum : 0 ≤ num_events nex < 2 ^ 31).
Abbreviation Env := (SourceEnv OP NEXMarkEvent OUT T B).
Abbreviation Src := (NEXMarkSource.NEXMarkSource OP OUT T B).
Abbreviation follows := (follows_by (S:=Env) (X:=Src) (E:=Error) NEXMarkSource.source).
Abbreviation on_source := (NEXMarkSource.on_source (OP:=OP) (OUT:=OUT) (T:=T) (B:=B)).
Abbreviation generated := (generated (E:=Error) nex).
Implicit Types (c : Src) (evs : list NEXMarkEvent).
Let N : Z := num_events nex.

(** The state of the source when it has sent [k] events, [n] of them since the last watermark. *)
Record between_events (i n k : Z) (t d : nat) c : Prop := {
  be_interval : watermark_interval (source_ctx (NEXMarkSource.source c)) = i;
  be_config : NEXMarkSource.config c = nex;
  be_events : NEXMarkSource.events_so_far c = k;
  be_counter : NEXMarkSource.watermark_counter c = n;
  be_triggered : NEXMarkSource.triggered c = t;
  be_seeds : NEXMarkSource.seeds c = d;
}.
Lemma source_follows m i n k t d c :
  keeps m → between_events i n k t d c → follows (on_source m) m c (between_events i n k t d).
Proof.
  intros Hm [Hi Hc Hk Hn Ht Hd]. unfold follows_by, NEXMarkSource.on_source, zoom. specialize (Hm (NEXMarkSource.source c)).
  destruct (m (NEXMarkSource.source c)) as [o s']. cbn in *. destruct Hm as [Hm _]. split; [done|]. split; [done|]. intros _. split; cbn; congruence.
Qed.
Lemma send_event_follows i n k t d c x :
  between_events i n k t d c → 0 ≤ n < 2 ^ 64 - 1 → 0 ≤ k < 2 ^ 31 →
  follows (NEXMarkSource.send_event x) (for_each act (Datum x :: due_mark i n)) c (between_events i (next i n) (k + 1) t d).
Proof.
  intros Hc Hn Hk. cbn [for_each]. unfold NEXMarkSource.send_event.
  eapply follows_bind; [by apply source_follows; [apply (keeps_act (Datum x))|]|].
  clear c Hc. intros c1 Hc1. pose proof Hc1 as [Hi Hc Hk1 Hn1 Ht Hd].
  unfold follows_by. rewrite (bind_ok _ _ _ _ _ (eq_refl : gets NEXMarkSource.events_so_far c1 = _)), Hk1.
  rewrite u_add_ok by (unfold in_u; lia). rewrite (bind_ok _ _ _ _ _ (eq_refl : lift (Ok _) _ = _)).
  erewrite bind_ok by done. erewrite bind_ok by done. cbn [NEXMarkSource.watermark_counter]. rewrite Hn1.
  rewrite u_add_ok by (unfold in_u; lia). rewrite (bind_ok _ _ _ _ _ (eq_refl : lift (Ok _) _ = _)).
  erewrite bind_ok by done. erewrite bind_ok by done. cbn [NEXMarkSource.source NEXMarkSource.config NEXMarkSource.triggered NEXMarkSource.seeds NEXMarkSource.events_so_far].
  rewrite Hi. unfold due_mark, next. destruct (n + 1 =? i); [|by split; [|split]].
  set (c2 := NEXMarkSource.MkNEXMarkSource _ _ _ _ _ _).
  change (follows (on_source generate_watermark ;; NEXMarkSource.set_watermark_counter 0) (act Mark ;; mret tt) c2 (between_events i 0 (k + 1) t d)).
  eapply follows_bind; [by apply (source_follows _ i (n + 1) (k + 1) t d); [apply (keeps_act Mark)|]|].
  intros c3 []. split; [done|]. split; [done|]. intros _. by split.
Qed.

(** The events that are sent for the numbers from [k] on. *)
Definition generated_from (k : Z) evs : Prop := ∀ j o, evs !! j = Some o → generated (k + Z.of_nat j) o.
Lemma generated_cons k o evs : generated k o → generated_from (k + 1) evs → generated_from k (o :: evs).
Proof.
  intros Ho Hevs [|j] o' Hj; cbn in Hj; [injection Hj as <-; by rewrite Z.add_0_r|].
  replace (k + Z.of_nat (S j)) with (k + 1 + Z.of_nat j) by lia. by apply Hevs.
Qed.
Lemma generated_app k l1 l2 : generated_from k l1 → generated_from (k + len l1) l2 → generated_from k (l1 ++ l2).
Proof.
  intros Hl1 Hl2 j o Hj. apply lookup_app_Some in Hj as [Hj|[Hle Hj]]; [by apply Hl1|].
  replace (k + Z.of_nat j) with (k + len l1 + Z.of_nat (j - length l1)) by lia. by apply Hl2.
Qed.

Lemma send_events_follows m r i n k t d :
  0 ≤ n → 0 ≤ k ≤ N → n + Z.of_nat m < 2 ^ 64 →
  ∃ evs, len evs = Z.min (Z.of_nat m) (N - k) ∧ generated_from k evs ∧
    ∀ c (kont : bool → M Src Error unit) (kont' : M Env Error unit) Q, between_events i n k t d c →
    (∀ c', between_events i (after i n evs) (k + len evs) t d c' → follows (kont (bool_decide (Z.of_nat m ≤ N - k))) kont' c' Q) →
    follows (NEXMarkSource.send_events m r ≫= kont) (for_each act (records i n evs) ;; kont') c Q.
Proof using All.
  revert r n k. induction m as [|m IH]; intros r n k Hn Hk Hb.
  { exists []. split; [cbn; lia|]. split; [done|]. intros c kont kont' Q Hc Hkont. cbn [length] in Hkont. rewrite Z.add_0_r in Hkont.
    specialize (Hkont c Hc). rewrite bool_decide_eq_true_2 in Hkont by lia. exact Hkont. }
  destruct (decide (k = N)) as [->|Hne].
  { exists []. split; [cbn; lia|]. split; [done|]. intros c kont kont' Q Hc Hkont. cbn [length] in Hkont. rewrite Z.add_0_r in Hkont.
    apply (follows_eq _ (kont false)).
    - cbn [NEXMarkSource.send_events]. rewrite bind_assoc. erewrite bind_ok by done. destruct Hc as [_ -> -> _ _ _]. fold N. by rewrite Z.ltb_irrefl.
    - specialize (Hkont c Hc). rewrite bool_decide_eq_false_2 in Hkont by lia. exact Hkont. }
  destruct (event_create_ok (E:=Error) Hrel nex Hok k r ltac:(lia)) as (o & r' & Ec & Hgen).
  destruct (IH r' (next i n) (k + 1)) as (evs & Hlen & Hevs & Hfol); [unfold next; destruct (n + 1 =? i); lia|lia|unfold next; destruct (n + 1 =? i); lia|].
  exists (o :: evs). split; [cbn [length]; lia|]. split; [by apply generated_cons|]. intros c kont kont' Q Hc Hkont.
  apply (follows_eq _ (NEXMarkSource.send_event o ;; (NEXMarkSource.send_events m r' ≫= kont))).
  { cbn [NEXMarkSource.send_events]. rewrite bind_assoc. erewrite bind_ok by done. destruct Hc as [_ -> -> _ _ _]. fold N.
    rewrite (proj2 (Z.ltb_lt k N)) by lia. rewrite Ec, bind_assoc. erewrite bind_ok by done. by rewrite bind_assoc. }
  cbn [records]. apply (follows_into _ _ (for_each act (Datum o :: due_mark i n) ;; (for_each act (records i (next i n) evs) ;; kont'))).
  { rewrite app_comm_cons. unfold mbind at 1, M_bind at 1. rewrite for_each_app. apply (bind_assoc (for_each act (Datum o :: due_mark i n))). }
  eapply follows_bind; [apply (send_event_follows i n k t d); [done|lia|lia]|].
  intros c' Hc'. apply Hfol; [done|]. intros c2 Hc2. cbn [length after] in Hkont.
  replace (bool_decide (Z.of_nat m ≤ N - (k + 1))) with (bool_decide (Z.of_nat (S m) ≤ N - k)) by (apply bool_decide_ext; lia).
  apply Hkont. by replace (k + Z.of_nat (S (length evs))) with (k + 1 + len evs) by lia.
Qed.

(** What the source does with its context when there are no more events. *)
Definition final : M Env Error unit :=
  watermark_update u64_max ;; generate_watermark ;; generate_death "nexmark_finished".
(** The source when it is done. *)
Definition finished c : Prop := NEXMarkSource.triggered c = 0%nat ∧ NEXMarkSource.events_so_far c = N.
Lemma finish_follows i n k d c : between_events i n k 0 d c → follows NEXMarkSource.finish_sending final c (between_events i n k 0 d).
Proof using All.
  intros Hc. unfold NEXMarkSource.finish_sending, final.
  eapply follows_bind; [by apply source_follows; [apply keeps_update|]|]. intros c1 Hc1.
  eapply follows_bind; [by apply source_follows; [apply (keeps_act Mark)|]|]. intros c2 Hc2.
  apply source_follows; [apply keeps_on_env|done].
Qed.

(** One delivery of the loopback port. *)
Lemma delivery fuel i n k d c :
  between_events i n k 1 d c → ∃ c2, between_events i n k 0 (S d) c2 ∧ NEXMarkSource.source c2 = NEXMarkSource.source c ∧
    NEXMarkSource.run (S fuel) c = (NEXMarkSource.send_events NEXMarkSource.RESCHEDULE_EVERY (from_entropy d) ≫=
      (λ again, (if again : bool then NEXMarkSource.trigger else NEXMarkSource.finish_sending) ;; NEXMarkSource.run fuel)) c2.
Proof.
  intros [Hi Hc Hkc Hnc Ht Hd]. exists (NEXMarkSource.MkNEXMarkSource (NEXMarkSource.source c) nex k n 0 (S d)).
  split; [by split|]. split; [done|]. cbn [NEXMarkSource.run]. erewrite bind_ok by done. rewrite Ht.
  unfold NEXMarkSource.continue_sending, NEXMarkSource.process. rewrite (bind_assoc (modify _)). erewrite bind_ok by done.
  rewrite (bind_assoc NEXMarkSource.fresh_rng). erewrite bind_ok by done. cbn [NEXMarkSource.source NEXMarkSource.config NEXMarkSource.triggered NEXMarkSource.seeds NEXMarkSource.events_so_far NEXMarkSource.watermark_counter].
  by rewrite bind_assoc, Ht, Hd, Hc, Hkc, Hnc.
Qed.

(** The deliveries that it takes to send what remains, of which the last may send nothing. *)
Lemma benchmark_follows fuel i n k d :
  0 ≤ n → 0 ≤ k ≤ N → n + N < 2 ^ 63 + k → (2 ≤ fuel)%nat → N - k < Z.of_nat NEXMarkSource.RESCHEDULE_EVERY * (Z.of_nat fuel - 1) →
  ∃ evs, len evs = N - k ∧ generated_from k evs ∧ ∀ c, between_events i n k 1 d c →
    follows (NEXMarkSource.run fuel) (for_each act (records i n evs) ;; final) c finished.
Proof using All.
  assert (Z.of_nat NEXMarkSource.RESCHEDULE_EVERY = 500000) as HR by (apply Z2Nat.id; lia).
  revert n k d. induction fuel as [|fuel IH]; intros n k d Hn Hk Hb Hf Hle; [lia|].
  destruct (send_events_follows NEXMarkSource.RESCHEDULE_EVERY (from_entropy d) i n k 0 (S d) Hn Hk) as (evs & Hlen & Hevs & Hfol); [lia|].
  destruct (decide (N - k < Z.of_nat NEXMarkSource.RESCHEDULE_EVERY)) as [Hlast|Hmore].
  - exists evs. split; [lia|]. split; [done|]. intros c Hc. destruct (delivery fuel i n k d c Hc) as (c2 & Hc2 & Hs & Hrun).
    eapply follows_from; [exact Hrun|exact Hs|]. apply Hfol; [done|]. intros c3 Hc3. rewrite bool_decide_eq_false_2 by lia.
    apply follows_ret. eapply follows_bind; [by apply finish_follows|]. intros c4 [Hi Hcc Hkc Hnc Ht Hd].
    apply (follows_eq _ (mret tt)); [|split; [done|split; [done|]]; intros _; split; [done|]; change (NEXMarkSource.events_so_far c4 = N); lia].
    destruct fuel; [lia|]. cbn [NEXMarkSource.run]. erewrite bind_ok by done. by rewrite Ht.
  - pose proof (after_bound i n evs Hn) as Ha.
    destruct (IH (after i n evs) (k + len evs) (S d)) as (evs2 & Hlen2 & Hevs2 & Hfol2); [lia|lia|lia|nia|nia|].
    exists (evs ++ evs2). split; [rewrite length_app; lia|]. split; [by apply generated_app|].
    intros c Hc. destruct (delivery fuel i n k d c Hc) as (c2 & Hc2 & Hs & Hrun). eapply follows_from; [exact Hrun|exact Hs|].
    apply (follows_into _ _ (for_each act (records i n evs) ;; (for_each act (records i (after i n evs) evs2) ;; final))).
    { rewrite records_app. unfold mbind at 1, M_bind at 1. rewrite for_each_app. apply (bind_assoc (for_each act (records i n evs))). }
    apply Hfol; [done|]. intros c3 [Hi Hcc Hkc Hnc Ht Hd]. rewrite bool_decide_eq_true_2 by lia.
    set (c4 := NEXMarkSource.MkNEXMarkSource (NEXMarkSource.source c3) (NEXMarkSource.config c3) (NEXMarkSource.events_so_far c3)
      (NEXMarkSource.watermark_counter c3) (S (NEXMarkSource.triggered c3)) (NEXMarkSource.seeds c3)).
    apply (follows_from _ (NEXMarkSource.run fuel) _ _ c4); [by erewrite bind_ok by done|done|]. apply Hfol2. split; cbn; congruence.
Qed.

Lemma final_emits f s :
  ts_extractor (source_ctx s) = Some f → in_u 64 (src_watermark (source_ctx s)) →
  let r := (on_parts (output (EvWatermark (MkWatermark u64_max))) ;; on_parts (output (Death "nexmark_finished"))) (src_env s) in
  (final s).1 = r.1 ∧ src_env (final s).2 = r.2.
Proof.
  clear N Hok Hnum nex. destruct s as [[f' w i op] e]. cbn. intros -> Hw.
  assert ((if w <? u64_max then u64_max else w) = u64_max) as Hmax by (unfold in_u, u64_max in *; destruct (Z.ltb_spec w (2 ^ 64 - 1)); lia).
  unfold final. erewrite bind_ok by done. cbn [source_ctx ts_extractor src_watermark watermark_interval src_operator src_env]. rewrite Hmax.
  unfold generate_watermark. rewrite bind_assoc. erewrite bind_ok by done. rewrite bind_assoc. erewrite bind_ok by done. rewrite bind_assoc. erewrite bind_ok by done.
  unfold add_event, generate_death, on_env, zoom, mbind, M_bind. cbn [src_env source_ctx src_watermark].
  destruct (on_parts _ e) as [[[]| | |] e2]; [|done..]. cbn [src_env]. unfold add_event, on_env, zoom. cbn [src_env]. by destruct (on_parts _ e2).
Qed.
Lemma script_emits f t s :
  ts_extractor (source_ctx s) = Some f → in_u 64 (src_watermark (source_ctx s)) →
  let w := src_watermark (source_ctx s) in let op := src_operator (source_ctx s) in in_u 64 (highest w (effects f w t)) →
  let r := (for_each (perform op) (effects f w t) ;; perform op (Emit u64_max) ;; on_parts (output (Death "nexmark_finished"))) (src_env s) in
  ((for_each act t ;; final) s).1 = r.1 ∧ src_env ((for_each act t ;; final) s).2 = r.2.
Proof.
  clear N Hok Hnum nex. intros Hf Hw w op Hhigh r. destruct (perform_acts f t s Hf) as (P1 & P2 & P3). fold op w in P1, P2.
  unfold r, mbind, M_bind. destruct (for_each act t s) as [o s1], (for_each (perform op) (effects f w t) (src_env s)) as [o' e1].
  cbn in P1, P2. subst o' e1. destruct o as [[]| | |]; [|done..]. specialize (P3 eq_refl). cbn in P3. apply (final_emits f); by rewrite P3.
Qed.
Lemma highest_bound f w i n evs : (∀ x, in_u 64 (f x)) → in_u 64 w → in_u 64 (highest w (effects f w (records i n evs))).
Proof.
  clear N Hok Hnum nex. intros Hf Hw. unfold highest. rewrite <- (app_nil_r (records i n evs)), handled_effects, app_nil_r.
  revert w Hw. induction evs as [|x evs IH]; intros w Hw; cbn; [done|]. apply IH. specialize (Hf x). unfold in_u in *. lia.
Qed.

End source.

Lemma set_base_ok t nex : nex_ok nex → nex_ok (set_base_time t nex).
Proof. intros []. by split. Qed.

Section emits.
Context `{BuildProfile, Receivers, Fuel, SystemTime, Libm} {R OP OUT TS T B : Type} `{Transport OUT, ArconType OUT, RngLaws R, Entropy R}.
Context `{Backend B, TimerBackend T TS B, !Operator OP NEXMarkEvent OUT TS T B}.
Implicit Types (s : SourceEnv OP NEXMarkEvent OUT T B).

Lemma benchmark_new conf elapsed s c :
  NEXMarkSource.new conf elapsed s = Ok c → c = NEXMarkSource.MkNEXMarkSource s (set_base_time (elapsed mod 2 ^ 32) conf) 0 0 0 0.
Proof.
  unfold NEXMarkSource.new, mbind, outcome_bind. generalize (u_mul (E:=Error) 64 (stream_timeout conf) 1000000000).
  intros [z| | |]; [|discriminate..]. intros Hnew. injection Hnew. congruence.
Qed.

(** C33: In a release build and with any random numbers, the source sends the configured number of events, each
    well formed and of the next number: it does what a script of data in that order does, with a watermark
    after every interval, then the highest watermark there is and the end of the stream; and it stops.  It
    takes one delivery of the loopback port for every 500000 events, and one more.  If the events have
    timestamps then they are what the operator handles, and the last watermark sent is the highest. *)
Theorem nexmark_source_emits conf elapsed s c fuel :
  overflow_checks = false → nex_ok conf → 0 ≤ num_events conf < 2 ^ 31 → NEXMarkSource.new conf elapsed s = Ok c →
  (2 ≤ fuel)%nat → num_events conf < 500000 * (Z.of_nat fuel - 1) →
  ∃ evs, len evs = num_events conf ∧ (∀ k o, evs !! k = Some o → generated (E:=Error) conf (Z.of_nat k) o) ∧
    let script := records (watermark_interval (source_ctx s)) 0 evs in
    let r := (for_each act script ;; final) s in
    let r' := (NEXMarkSource.on_start ;; NEXMarkSource.run fuel) c in
    r'.1 = r.1 ∧ NEXMarkSource.source r'.2 = r.2 ∧ (r.1 = Ok tt → finished conf r'.2) ∧
    ∀ f, ts_extractor (source_ctx s) = Some f → (∀ x, in_u 64 (f x)) → in_u 64 (src_watermark (source_ctx s)) →
      let op := src_operator (source_ctx s) in let es := effects f (src_watermark (source_ctx s)) script in
      let q := (for_each (perform op) es ;; perform op (Emit u64_max) ;; on_parts (output (Death "nexmark_finished"))) (src_env s) in
      handled es = timed f <$> evs ∧ r.1 = q.1 ∧ src_env r.2 = q.2.
Proof using All.
  intros Hrel Hok Hnum Hnew Hfuel Hle. assert (Z.of_nat NEXMarkSource.RESCHEDULE_EVERY = 500000) as HR by (apply Z2Nat.id; lia).
  set (nex := set_base_time (elapsed mod 2 ^ 32) conf). set (i := watermark_interval (source_ctx s)).
  destruct (benchmark_follows Hrel nex (set_base_ok _ _ Hok) Hnum fuel i 0 0 0) as (evs & Hlen & Hevs & Hrun); [lia|cbn; lia|cbn; lia|done|cbn; lia|].
  exists evs. change (num_events nex) with (num_events conf) in Hlen. split; [lia|]. split; [exact Hevs|]. intros script r.
  assert (c = NEXMarkSource.MkNEXMarkSource s nex 0 0 0 0) as ->.
  { apply benchmark_new in Hnew. exact Hnew. }
  destruct (Hrun (NEXMarkSource.MkNEXMarkSource s nex 0 0 1 0)) as (F1 & F2 & F3); [by split|]. clear Hrun. cbn [NEXMarkSource.source] in F1, F2.
  change (NEXMarkSource.run fuel (NEXMarkSource.MkNEXMarkSource s nex 0 0 1 0))
    with ((NEXMarkSource.on_start ;; NEXMarkSource.run fuel) (NEXMarkSource.MkNEXMarkSource s nex 0 0 0 0)) in F1, F2, F3.
  split; [exact F1|]. split; [exact F2|]. split; [intros Hr; apply F3; by rewrite F1|].
  intros f Hf Hfu Hw op es. split; [|apply (script_emits f); [done|done|by apply highest_bound]].
  unfold es, script. rewrite <- (app_nil_r (records _ _ _)), handled_effects. apply app_nil_r.
Qed.
End emits.

(** ** A concrete source: the default configuration, with an operator that maps every event to its kind *)

Import NodeExample.
#[local] Instance no_seed : Entropy unit := λ _, tt.
#[local] Instance no_libm : Libm := {| powf x _ := x; cos x := x |}.
Definition kind_of (o : NEXMarkEvent) : Z :=
  match o with Some (EvPerson _) => 0 | Some (EvAuction _) => 1 | Some (EvBid _) => 2 | None => 3 end.
Definition example_source : SourceEnv (Map NEXMarkEvent Z unit InMemory) NEXMarkEvent Z unit InMemory :=
  MkSourceEnv (MkSourceContext (Some (λ _ : NEXMarkEvent, 7)) 0 1000 (Map_new kind_of)) (start_env (MkInMemory ∅)).
Example nexmark_source_emits_witness :
  ∃ evs c, len evs = 100000000 ∧ NEXMarkSource.new default_finished 5 example_source = Ok c ∧
    handled (effects (λ _, 7) 0 (records 1000 0 evs)) = timed (λ _, 7) <$> evs ∧
    ((NEXMarkSource.on_start ;; NEXMarkSource.run 202) c).1 =
      ((for_each (perform (src_operator (source_ctx example_source))) (effects (λ _, 7) 0 (records 1000 0 evs)) ;;
        perform (src_operator (source_ctx example_source)) (Emit u64_max) ;;
        on_parts (output (Death "nexmark_finished"))) (src_env example_source)).1.
Proof.
  set (c := NEXMarkSource.MkNEXMarkSource example_source (set_base_time 5 default_finished) 0 0 0 0).
  destruct (nexmark_source_emits default_finished 5 example_source c 202) as (evs & Hlen & _ & Hr & _ & _ & Hq);
    [done|exact default_nex_ok|done|reflexivity|lia|done|].
  exists evs, c. split; [exact Hlen|]. split; [reflexivity|].
  destruct (Hq (λ _, 7) eq_refl) as (Hh & Hq1 & _); [intros; unfold in_u; lia|change (in_u 64 0); unfold in_u; lia|].
  split; [exact Hh|]. etransitivity; [exact Hr|exact Hq1].
Defined.
