(* ===== verification/ThroughputSinks.v ===== *)
(** [arcon/experiments/src]: the sinks that measure the throughput of an experiment, [nexmark/sink/mod.rs]
    and [throughput_sink.rs]. *)

From S2P Require Import Prelude Error Allocator EventBuffer Serialization StateBackend Data Channel Metrics.
From Stdlib Require Import Floats.SpecFloat.

(** What becomes of the promise that has a number: whether whoever asked for it has dropped its future. *)
Class Futures := future_dropped : nat → bool.

(** The clock, as the number of its readings so far, and the promises that were fulfilled with their values. *)
Record World (A : Type) : Type := MkWorld { readings : nat; fulfilled : list (nat * A) }.
Arguments MkWorld {A}.
Arguments readings {A}.
Arguments fulfilled {A}.

Section world.
Context `{SystemTime, Futures} {A : Type}.

(** Milliseconds since the epoch of the system. *)
Definition get_current_time : M (World A) Error Z := λ w,
  (match system_time (readings w) with
   | Some t => Ok ((t / 10 ^ 6) mod 2 ^ 64)
   | None => Panic "Time went backwards"
   end, MkWorld (S (readings w)) (fulfilled w)).

(** [promise.fulfil(x).expect("Promise was dropped")] *)
Definition fulfil (promise : nat) (x : A) : M (World A) Error unit :=
  if future_dropped promise then panic "Promise was dropped"
  else modify (λ w, MkWorld (readings w) (fulfilled w ++ [(promise, x)])).
End world.

Module NEXMarkSink.
(** The promise is fulfilled with a [QueryResult], of which this is the throughput: the duration is read from
    a monotonic clock that decides nothing. *)
Record NEXMarkSink : Type := MkNEXMarkSink {
  done : option nat;
  last_total_recv : Z;
  last_time : Z;
  total_recv : Z;
  world : World f64;
}.

Section sink.
Context `{BuildProfile, SystemTime, Futures}.
Abbreviation Sink := (M NEXMarkSink Error).

Definition new (w : World f64) : NEXMarkSink := MkNEXMarkSink None 0 0 0 w.
Definition on_world {A} (m : M (World f64) Error A) : Sink A :=
  zoom world (λ w s, MkNEXMarkSink (done s) (last_total_recv s) (last_time s) (total_recv s) w) m.
Definition set_done (d : option nat) : Sink unit :=
  modify (λ s, MkNEXMarkSink d (last_total_recv s) (last_time s) (total_recv s) (world s)).
Definition set_last_time (t : Z) : Sink unit :=
  modify (λ s, MkNEXMarkSink (done s) (last_total_recv s) t (total_recv s) (world s)).
Definition set_total_recv (n : Z) : Sink unit :=
  modify (λ s, MkNEXMarkSink (done s) (last_total_recv s) (last_time s) n (world s)).

(** The handler of [Run]. *)
Definition handle (promise : nat) : Sink unit :=
  set_done (Some promise) ;;
  t ← on_world get_current_time;
  set_last_time t.

Definition handle_death : Sink unit :=
  current_time ← on_world get_current_time;
  s ← get_st;
  delta_t ← lift (u_sub 64 current_time (last_time s));
  let delta_t := if delta_t =? 0 then 1 else delta_t in
  n ← lift (u_sub 64 (total_recv s) (last_total_recv s));
  q ← lift (u_div n delta_t);
  throughput ← lift (u_mul 64 q 1000);
  set_done None ;;
  promise ← lift (expect "No promise to reply to?" (done s));
  on_world (fulfil promise (f64_of_int throughput)).

Definition receive_local {IN} (m : RawArconMessage IN) : Sink unit :=
  n ← gets total_recv;
  n ← lift (u_add 64 n (len (raw_events m)));
  set_total_recv n ;;
  for_each (λ w,
    e ← lift (unwrap w);
    match e with
    | Death _ => handle_death
    | _ => mret tt
    end) (raw_events m).
End sink.
End NEXMarkSink.

Module ThroughputSink.
Definition f32 : Type := spec_float.
Definition f32_of_int (x : Z) : f32 := binary_normalize 24 128 x 0 false.

(** The promise is fulfilled with the time since the [Run], from a monotonic clock that decides nothing. *)
Record ThroughputSink : Type := MkThroughputSink {
  done : option nat;
  log_on : bool;
  expected_msgs : Z;
  log_freq : Z;
  last_total_recv : Z;
  last_time : Z;
  total_recv : Z;
  avg_throughput : f32;
  throughput_counter : Z;
  throughput_sum : f32;
  world : World unit;
}.

Section sink.
Context `{BuildProfile, SystemTime, Futures}.
Abbreviation Sink := (M ThroughputSink Error).

Definition new (log_freq : Z) (log_on : bool) (expected_msgs : Z) (w : World unit) : ThroughputSink :=
  MkThroughputSink None log_on expected_msgs log_freq 0 0 0 (f32_of_int 0) 0 (f32_of_int 0) w.
Definition on_world {A} (m : M (World unit) Error A) : Sink A :=
  zoom world (λ w s, MkThroughputSink (done s) (log_on s) (expected_msgs s) (log_freq s) (last_total_recv s)
    (last_time s) (total_recv s) (avg_throughput s) (throughput_counter s) (throughput_sum s) w) m.
Definition set_done (d : option nat) : Sink unit :=
  modify (λ s, MkThroughputSink d (log_on s) (expected_msgs s) (log_freq s) (last_total_recv s)
    (last_time s) (total_recv s) (avg_throughput s) (throughput_counter s) (throughput_sum s) (world s)).
Definition set_total_recv (n : Z) : Sink unit :=
  modify (λ s, MkThroughputSink (done s) (log_on s) (expected_msgs s) (log_freq s) (last_total_recv s)
    (last_time s) n (avg_throughput s) (throughput_counter s) (throughput_sum s) (world s)).
Definition set_last (n t : Z) : Sink unit :=
  modify (λ s, MkThroughputSink (done s) (log_on s) (expected_msgs s) (log_freq s) n
    t (total_recv s) (avg_throughput s) (throughput_counter s) (throughput_sum s) (world s)).
Definition set_throughput (avg : f32) (counter : Z) (sum : f32) : Sink unit :=
  modify (λ s, MkThroughputSink (done s) (log_on s) (expected_msgs s) (log_freq s) (last_total_recv s)
    (last_time s) (total_recv s) avg counter sum (world s)).

(** The time of a log line. *)
Definition log_time : Sink unit :=
  s ← get_st;
  if log_on s then _ ← on_world get_current_time; mret tt else mret tt.

(** Every [log_freq] events: the throughput since the last time. *)
Definition measure : Sink unit :=
  current_time ← on_world get_current_time;
  s ← get_st;
  n ← lift (u_sub 64 (total_recv s) (last_total_recv s));
  dt ← lift (u_sub 64 current_time (last_time s));
  q ← lift (u_div n dt);
  throughput ← lift (u_mul 64 q 1000);
  (if throughput =? 0 then mret tt
   else
     c ← lift (u_add 64 (throughput_counter s) 1);
     let sum := SFadd 24 128 (throughput_sum s) (f32_of_int throughput) in
     set_throughput (SFdiv 24 128 sum (f32_of_int c)) c sum) ;;
  log_time ;;
  set_last (total_recv s) current_time.

Definition handle_event : Sink unit :=
  n ← gets total_recv;
  n ← lift (u_add 64 n 1);
  set_total_recv n ;;
  s ← get_st;
  r ← lift (u_rem n (log_freq s));
  (if r =? 0 then measure else mret tt) ;;
  s ← get_st;
  if n =? expected_msgs s then
    set_done None ;;
    promise ← lift (expect "No promise to reply to?" (done s));
    on_world (fulfil promise tt)
  else mret tt.

Definition handle_msg {IN} (m : RawArconMessage IN) : Sink unit :=
  s ← get_st;
  (if total_recv s =? 0 then log_time else mret tt) ;;
  for_each (λ _, handle_event) (raw_events m).
Definition receive_local {IN} (m : RawArconMessage IN) : Sink unit := handle_msg m.

(** The handler of [Run]. *)
Definition handle (promise : nat) : Sink unit := set_done (Some promise).
End sink.
End ThroughputSink.
